(* ===== verification/_CoqProject ===== *)
-Q . S2P
Prelude.v
Utf8.v
Frames.v
Json.v
Metadata.v
Tunnel.v
TunnelProps.v
Accounts.v
AccountsProps.v
Registry.v
RegistryProps.v
Session.v
Access.v
Identity.v
IdentityProps.v
Proxy.v
ProxyProps.v
AgentWs.v
AgentWsProps.v
Files.v
FilesProps.v
StateStore.v
FilesApi.v
FilesApiProps.v
Sharing.v
SharingProps.v
RelayAuth.v
RelayAuthProps.v
Async.v
Hub.v
HubProps.v
CollabProps.v
ServerAuth.v
Storage.v
StorageProps.v
Agent.v
AgentProps.v
Html.v
Response.v
ResponseProps.v
Spa.v
Bridge.v
BridgeProps.v
Config.v
ConfigProps.v
Edge.v
Start.v
StartProps.v
Boot.v
Search.v
Info.v
Oidc.v
Errors.v
Cli.v
CliProps.v
Uploads.v
UploadsProps.v
Schema.v
SchemaProps.v
Logging.v
App.v
Handshake.v
EndToEnd.v
Sizes.v
Sweep.v
