(* ===== verification/Prelude.v ===== *)
(** A verification library for the network file server.

    * The program

    A file server shares a folder in a browser ([src/server/]).  To be reachable
    from outside, an agent ([src/agent/]) runs the server in its own process and
    keeps one WebSocket, the tunnel, to a relay ([src/relay/]).  The relay gives
    the agent's mount a code and forwards the browser requests for [/m/<code>/]
    as frames over the tunnel ([src/tunnel/]), many streams on one socket.
    Accounts and groups ([src/accounts/]) decide who may reach a mount and with
    which role; the relay vouches for the user towards the server with signed
    headers ([src/shared/identity_sig.py]).

    * The files of this library, in dependency order

    - [Prelude]: exceptions as values ([E + A]), state passing ([M S E A], where a
      raise keeps the state reached so far), loops, [preserves] with the hint
      database [preserve], bytes, Python strings as lists of code points
      ([str.lower] outside of Latin-1 is a parameter, [StrLower]), time as microseconds.
    - [Utf8], [Frames], [Json], [Metadata]: the wire formats: strict UTF-8,
      [tunnel/frames.py], [tunnel/ws_payload.py], the JSON reader and writer that
      [tunnel/metadata.py] uses, and its request metadata.
    - [Tunnel], [TunnelProps]: [tunnel/connection.py].  The connection object with
      its registry of streams, whose queues live in a heap because tasks share
      them; the receive loop, the readers, the heartbeat and teardown are a
      transition system ([step], [run], [reach]) whose steps are the runs of a
      task between two suspension points.
    - [Accounts], [AccountsProps]: [accounts/]: users, nested groups, quotas and
      external identities on the tables of [SqliteAccountStore], the two graph
      walks, password hashing with bcrypt as a parameter, which may refuse a password.
    - [Registry], [RegistryProps]: [relay/app/services/sqlite_registry.py], the
      in-memory registry of [mount_registry.py] it replaced, and the TTL sweep.
    - [Session]: [relay/app/services/session.py], with itsdangerous as a class
      with laws.
    - [Access]: [relay/app/services/access_policy.py] against an interface of the
      account store ([AccountStore], [AccountStoreSpec]), which the SQLite store
      implements.
    - [Identity], [IdentityProps]: the signed identity from the relay's proxy to
      the guards and the password gate of the server.
    - [Proxy], [ProxyProps]: [proxy_request] of [relay/app/routers/mount_proxy.py]
      up to the sent request, and the body reading of [agent/proxy.py].
    - [AgentWs], [AgentWsProps]: [relay/app/routers/agent_ws.py]: admission,
      handshake, reclaim or registration, end of session.
    - [Files], [FilesProps]: [server/app/services/file_service.py] on a file system
      with symbolic links: user paths, listing, uploads with their conflict modes,
      deletion, renaming, new folders.
    - [StateStore]: the tables of [server/app/services/sqlite_store.py].
    - [FilesApi], [FilesApiProps]: [server/app/routers/files.py] with the upload index,
      the owners of uploads and the roles of [mode_guard.py].
    - [Sharing], [SharingProps]: share links, [share_service.py] and its routers.
    - [RelayAuth], [RelayAuthProps]: the account endpoints of the relay, signing up,
      logging in, single sign-on with its groups, and the administrator's calls.
    - [Async]: coroutines ([co]), whose steps between two awaits are atomic, and the
      schedules of a pool of them.
    - [Hub], [HubProps], [CollabProps]: the realtime hub of the server
      ([connection_manager.py], [routers/websocket.py]) with clipboard and file
      requests: every handler is a coroutine over one shared state.
    - [ServerAuth]: the password of a server, its cookies and gate, and the share
      target.
    - [Storage], [StorageProps]: the per-user storage of the relay with its quota, the
      table of file TTLs, and the sweep of the drop box.
    - [Agent], [AgentProps]: [agent/connection.py], [agent/auth.py], [agent/cli.py] and
      [shared/backoff.py]: the handshake, one connection, the reconnect loop, the
      handlers of OPEN frames, the prompt about expired files.
    - [Html]: [relay/app/services/html_rewriter.py].
    - [Response], [ResponseProps]: the answer to a proxied request, from the agent's
      application to the browser.
    - [Spa]: the pages of the web client, [shared/spa.py] and the catch-all route of
      [server/app/main.py].
    - [Bridge], [BridgeProps]: WebSockets: [proxy_websocket], [handle_ws_open_frame] and
      the bridge of [local_mount.py].  The two sides of a bridge with their four tasks,
      the frames between them, sends that fail, a tunnel that is cut and connections that
      are torn down are a transition system ([bridge_step], [bridged]).
    - [Config], [ConfigProps]: [relay/app/config.py], from the YAML value and the
      environment.
    - [Edge]: [relay/app/rate_limit.py], [middleware/secure_cookies.py], CORS.
    - [Start], [StartProps]: [server/app/bootstrap.py], [server/app/config.py],
      [agent/cli.py], [dropbox.py]: from parsed arguments to a running configuration;
      durations.
    - [Boot]: [lifespan] of [relay/app/main.py] and [relay/app/state.py].
    - [Search]: [search_files] and its endpoint.
    - [Info]: [server_info.py], [agent/display.py], [shared/network.py].
    - [Oidc]: [relay/app/services/oidc.py], with the provider's answers as arguments.
    - [Errors]: the status codes of exceptions, [error_handlers.py] of both programs.
    - [Cli], [CliProps]: [server/app/cli.py] and [relay/cli.py] on the algorithm of argparse
      (Python 3.11), composed with [Start] to the whole program; every spelling and order of
      the options is read as it is meant ([command_line_roundtrip]).
    - [Uploads], [UploadsProps]: [upload_file] again, cut at its awaits, on a disk whose files
      are inodes and whose open files have a buffer and an offset; any number of uploads run
      at once ([upload_step], [run_uploads]).  Alone, an upload refines the one of [Files].
    - [Schema], [SchemaProps]: the tables of the four databases, [shared/sqlite_kernel.py], and
      the opening of the registry (migration and cleanup), as statements on tables of rows and columns.
    - [Logging]: [relay/app/logging.py].
    - [App]: [create_app] with [dependencies.py], and [create_relay_app]: the services, the layers of
      middleware and the routers.
    - [Handshake]: the [mount_registered] message, and access requests as the relay answers them.
    - [EndToEnd]: [Agent], [AgentWs], [Access], [Proxy], [Start] and [Identity] put together.
    - [Sizes]: [format_file_size] on the floats of the machine.
    - [Sweep]: [file_ttl_sweep_once] as a coroutine among the requests of the drop box, with a rely
      condition for what the requests do ([ends], [lets_go]).

    Definitions keep the names of the source; a leading capital constructor set
    stands for the exception classes of a module.  A table is a finite map from
    its primary key, a method one transaction on the tables.  Handlers interleave
    where it matters: at every await in [Hub], at the await of the handshake in
    [AgentWsProps], between the suspension points of the tasks in [Tunnel], between
    the chunks of uploads in [Uploads], and between the files of a sweep in [Sweep].

    * What is proved

    - The whole way ([mount_end_to_end]): the allowlist an owner declares on the agent's side is
      what the server behind the tunnel enforces for the visitors of the relay.
    - Access: [authorize] is equivalent to the access rules; the identity a server
      believes is the relay's decision whatever the client sends, its guards
      enforce it, and a replayed signature for another identity is an HMAC
      collision; exactly which handshakes of an agent are accepted, and with which owner,
      allowlist and secret; the proxy forwards nothing for a visitor who is not let in; the
      endpoints of the server keep each role to what it may do; a password logs in
      exactly its active user, and single sign-on never takes over an account.
    - Transport: frames, metadata, request bodies, responses and the handshake of the
      agent survive their round trips; payloads of a stream are delivered in order and
      completely before its reader ends, queues and stream tables stay within their
      bounds, readers of closed streams terminate under every schedule, teardown and
      heartbeat behave as documented; rewritten pages name no path outside of [/m/]; a bridged WebSocket
      delivers in order under every schedule, completely when a peer leaves and its
      WS_CLOSE arrives, and a side that is told of the end ends.
    - State: the invariants of the account tables (acyclic groups, unique names)
      and of the registry (connections only for ONLINE mounts) hold after every
      sequence of calls; group resolution equals reachability; the mount life
      cycle, sweep, restart and reclaim are specified row by row; the SQLite
      registry refines the in-memory one, up to the connections of OFFLINE mounts; tokens are accepted exactly for their
      purpose and life time; handshakes and registrations store what they say; an old
      database is migrated with every value but the statuses that the start changes and the
      rows past their retention, and every schema can be opened again.
    - Files: user paths lead nowhere but into the shared folder and to every node
      of it; no sequence of requests that spares the folder itself changes anything
      outside of a folder without links; uploads, renamings and listings are
      specified for every name, conflict mode and failure; a share link serves its
      file until it expires or is revoked; the storage of a user is confined to the
      user's directory and, after an accepted upload, within the quota; the sweep
      deletes exactly the expired files; the search finds exactly the names that match,
      and nothing outside of the folder.
    - Start: whatever server starts serves a real directory, which is what the theorems
      on files ask for, and trusts identity headers only as a mount; a configuration
      that loads is one the relay can run with; a start of the relay wires everything,
      leaves only the drop box ONLINE and removes exactly what is due.
    - Concurrency: under every schedule the tables of the hub agree, a socket is
      registered only while its endpoint runs, and a broadcast reaches each open
      socket once; uploads to different files leave exactly their bytes, and a file that is
      overwritten shows the old bytes or all the new ones; a sweep touches no path that was not
      due when it began.
    - The agent asks for its last code, sleeps within the bounds of the back-off, and
      stops exactly on expiry, refusal, interrupt, and the overflow below.
    - Flaws, as theorems.  Tunnel and agent: a receive loop that blocks for good on an
      abandoned queue; streams leaked by aborted uploads; an agent that never returns
      from a connection lost during an upload ([drain_hangs]); a back-off that
      overflows at the 1025th failure; an application error that never closes its
      stream.  Relay: OFFLINE mounts that never expire and lock their address out; a
      mount cap that overlapping handshakes evade; reclaim of somebody else's
      mount by address; a lost agent whose mount stays ONLINE; TTL records that any
      agent clears; a prompt whose answer does not matter; a quota that an error in
      the middle of a batch evades, and a roll-back that deletes older files.  Server:
      the renaming of the shared folder itself, uploads that follow a dangling link
      out of it, the [.tmp] file that an overwriting upload destroys; a permanent
      file that expires; WebSocket updates that ignore the role; limits and states
      that concurrent requests pass by; a catch-all route that serves any file of the
      machine ([spa_reads_any_file]); 500 for the listing of a file.  Configuration and
      edge: a published session secret that production accepts, rate limits keyed by a
      header of the client, cookies that miss the Secure flag, a start that fails on a
      directory among the expired files, a discovery document that sticks.  WebSockets
      that the application refuses leak streams until the tunnel ends, and so do WS_OPEN frames
      that fail with an error nobody catches; a WS_CLOSE that is lost leaves the other side
      waiting; a long password tells whether a user exists.  Command lines: a folder
      called mount, a PORT that is no number.  Uploads of one name at the same time that mix their
      bytes; a sweep that removes a file replaced in the meantime; mounts that a migrated database takes for old ones; log records forged by line
      breaks; a password gate in front of CORS, which refuses every preflight.

    * Bounds and fuel

    JSON scanning takes the length of the text plus one as fuel, and running out
    is excluded ([loads_fuel]); the two walks of the group graph take the number
    of memberships plus one, and are proved to finish on acyclic tables; a command line
    takes the number of its arguments ([consume_fuel]); the slicing of a body takes the
    length of the chunk; the search for a free upload
    name takes the number of nodes plus one ([free_name_ends]); 40 links are
    followed, the limit of the kernel; a run of the agent's loop is as long as the list
    of what happens to it.  Machine widths: payload
    lengths are 32-bit, stream ids 128-bit, quotas 64-bit, checked where the
    code depends on them.

    * What is not modelled

    The interpreter's recursion limit and memory, HTTP and ASGI framing (httpx and
    Starlette are hypotheses or arguments where a theorem needs them), the messages that are
    logged, printed or shown as toasts, pages and the web client.  Interleavings inside one
    database method are left out, and so is the rounding of floats other than sizes.  Not
    modelled either: QR codes, the schemas of request bodies and the adapter of the
    websockets library, which are calls of libraries and carry no decision of the program;
    [persistence.py], which nothing uses; the bytes of ZIP archives; and the scheduling
    of the sweep of mounts against requests. *)

From Stdlib Require Export ZArith Lia.
From Stdlib Require Import Ascii String.
From Stdlib Require Import Strings.Byte.
From stdpp Require Export base tactics option list fin_maps gmap.
From stdpp Require Import strings.

Open Scope Z_scope.

(** ** Tactics *)

(** Linear arithmetic with division and remainder by constants. *)
Ltac divlia := Z.to_euclidean_division_equations; lia.

(** Boolean comparisons in the hypotheses, as propositions. *)
Ltac bool_prop :=
  repeat match goal with
  | H : (_ && _) = true |- _ => apply andb_true_iff in H as [? ?]
  | H : negb _ = true |- _ => apply negb_true_iff in H
  | H : (_ <=? _) = true |- _ => apply Z.leb_le in H
  | H : (_ <? _) = true |- _ => apply Z.ltb_lt in H
  | H : (_ <=? _) = false |- _ => apply Z.leb_gt in H
  | H : (_ <? _) = false |- _ => apply Z.ltb_ge in H
  | H : (_ =? _) = true |- _ => apply Z.eqb_eq in H
  | H : (_ =? _) = false |- _ => apply Z.eqb_neq in H
  end.

(** Case analysis on every [match] of the hypotheses and the goal. *)
Ltac case_all := repeat case_match; simplify_eq/=.

(** ** Results, exceptions and state

    A Python call that may raise is a value of [E + A]: [inl e] is the raised
    exception, [inr a] the returned value.  A call that also changes state is
    [M S E A]; a raise keeps the state reached so far, as Python does. *)

Definition M (S E A : Type) : Type := S → S * (E + A).

Global Instance M_ret S E : MRet (M S E) := λ A a s, (s, inr a).

Global Instance M_bind S E : MBind (M S E) := λ A B k m s,
  match m s with
  | (s', inl e) => (s', inl e)
  | (s', inr a) => k a s'
  end.

Definition raise {S E A} (e : E) : M S E A := λ s, (s, inl e).

Definition get {S E} : M S E S := λ s, (s, inr s).

Definition gets {S E A} (f : S → A) : M S E A := λ s, (s, inr (f s)).

Definition put {S E} (s' : S) : M S E unit := λ _, (s', inr tt).

Definition modify {S E} (f : S → S) : M S E unit := λ s, (f s, inr tt).

(** Lift a pure computation that may raise. *)
Definition lift_res {S E A} (r : E + A) : M S E A := λ s, (s, r).

(** [try: m except e: h e] *)
Definition try_except {S E A} (m : M S E A) (h : E → M S E A) : M S E A := λ s,
  match m s with
  | (s', inl e) => h e s'
  | (s', inr a) => (s', inr a)
  end.

(** The error of a pure result, and binding of pure results. *)
Global Instance sum_ret E : MRet (sum E) := λ A a, inr a.
Global Instance sum_bind E : MBind (sum E) := λ A B k r,
  match r with inl e => inl e | inr a => k a end.

(** [for x in xs: f x], stopping at the first raise. *)
Fixpoint for_each {S E A} (f : A → M S E unit) (xs : list A) : M S E unit :=
  match xs with
  | [] => mret tt
  | x :: xs => f x ≫= λ _, for_each f xs
  end.

(** *** Loops *)

Lemma for_each_app {S E A} (f : A → M S E unit) xs ys s :
  for_each f (xs ++ ys) s = (for_each f xs ≫= λ _, for_each f ys) s.
Proof.
  revert s. induction xs as [|x xs IH]; intros s; [done|]. cbn [app for_each].
  unfold mbind, M_bind in *. destruct (f x s) as [s' [e|[]]]; [done|]. apply IH.
Qed.

Lemma for_each_bind {S E A B} (f : B → M S E unit) (g : A → list B) xs s :
  for_each (λ x, for_each f (g x)) xs s = for_each f (mbind g xs) s.
Proof.
  revert s. induction xs as [|x xs IH]; intros s; [done|].
  rewrite bind_cons, for_each_app. cbn [for_each].
  unfold mbind, M_bind in *. destruct (for_each f (g x) s) as [s' [e|[]]]; [done|]. apply IH.
Qed.

Lemma for_each_error {S E A} (P : E → Prop) (f : A → M S E unit) xs s e :
  (∀ x s e, (f x s).2 = inl e → P e) → (for_each f xs s).2 = inl e → P e.
Proof.
  intros Hf. revert s. induction xs as [|x xs IH]; intros s; [done|].
  cbn [for_each]. unfold mbind, M_bind. specialize (Hf x s). destruct (f x s) as [s' [e'|[]]].
  - intros [= <-]. by apply Hf.
  - apply IH.
Qed.

(** *** Stateful calls and a relation on states

    [preserves R m]: the state after [m] is related to the state before, whether
    [m] returns or raises.  For a preorder the combinators preserve it, and the
    database [preserve] composes the facts. *)

Create HintDb preserve.

Definition preserves {S E A} (R : relation S) (m : M S E A) : Prop := ∀ s, R s (m s).1.

Section preserves.
Context {S : Type} (R : relation S) `{!PreOrder R} {E : Type}.

Lemma preserves_ret {A} (a : A) : preserves R (mret a : M S E A).
Proof. by intros s. Qed.

Lemma preserves_raise {A} (e : E) : preserves R (raise e : M S E A).
Proof. by intros s. Qed.

Lemma preserves_gets {A} (f : S → A) : preserves R (gets f : M S E A).
Proof. by intros s. Qed.

Lemma preserves_bind {A B} (m : M S E A) (k : A → M S E B) :
  preserves R m → (∀ a, preserves R (k a)) → preserves R (m ≫= k).
Proof.
  intros Hm Hk s. unfold mbind, M_bind. specialize (Hm s).
  destruct (m s) as [s' [e|a]]; [done|]. etrans; [exact Hm|apply Hk].
Qed.

Lemma preserves_try {A} (m : M S E A) (h : E → M S E A) :
  preserves R m → (∀ e, preserves R (h e)) → preserves R (try_except m h).
Proof.
  intros Hm Hh s. unfold try_except. specialize (Hm s).
  destruct (m s) as [s' [e|a]]; [|done]. etrans; [exact Hm|apply Hh].
Qed.

Lemma preserves_for_each {A} (f : A → M S E unit) (xs : list A) :
  (∀ x, preserves R (f x)) → preserves R (for_each f xs).
Proof.
  intros Hf. induction xs as [|x xs IH]; [apply preserves_ret|].
  apply preserves_bind; [apply Hf|]. by intros _.
Qed.

End preserves.

#[export] Hint Resolve preserves_ret preserves_raise preserves_gets preserves_bind preserves_try
  preserves_for_each : preserve.

(** ** Bytes *)

Abbreviation byte := Init.Byte.byte (only parsing).
Abbreviation bytes := (list Init.Byte.byte) (only parsing).

Definition byte_Z (b : byte) : Z := Z.of_N (Byte.to_N b).

Definition Z_byte (z : Z) : byte :=
  match Byte.of_N (Z.to_N (z mod 256)) with
  | Some b => b
  | None => x00
  end.

Lemma byte_Z_range b : 0 ≤ byte_Z b < 256.
Proof. unfold byte_Z. pose proof (Byte.to_N_bounded b). lia. Qed.

Lemma Z_byte_Z b : Z_byte (byte_Z b) = b.
Proof.
  unfold Z_byte. rewrite Z.mod_small by apply byte_Z_range.
  unfold byte_Z. by rewrite N2Z.id, Byte.of_to_N.
Qed.

Lemma byte_Z_byte z : byte_Z (Z_byte z) = z mod 256.
Proof.
  unfold Z_byte. pose proof (Z.mod_pos_bound z 256 ltac:(lia)).
  destruct (Byte.of_N (Z.to_N (z mod 256))) as [b|] eqn:E.
  - apply Byte.to_of_N in E. unfold byte_Z. rewrite E. lia.
  - apply Byte.of_N_None_iff in E. lia.
Qed.

Lemma byte_Z_inj b1 b2 : byte_Z b1 = byte_Z b2 → b1 = b2.
Proof. intros H. by rewrite <-(Z_byte_Z b1), H, Z_byte_Z. Qed.

Global Instance byte_eq_dec : EqDecision byte.
Proof.
  intros x y. destruct (Byte.eqb x y) eqn:E.
  - left. by apply Byte.byte_dec_bl.
  - right. intros ->. rewrite Byte.byte_dec_lb in E; done.
Defined.

Global Instance byte_countable : Countable byte :=
  inj_countable Byte.to_N Byte.of_N Byte.of_to_N.

(** ** Python strings

    A [str] is the list of its Unicode code points. *)

Abbreviation pystr := (list Z) (only parsing).

Definition chr (c : ascii) : Z := Z.of_N (N_of_ascii c).

(** A literal of the source. *)
Definition py (s : string) : pystr := chr <$> list_ascii_of_string s.

Definition newline : Z := 10.
Definition slash : Z := 47.
Definition backslash : Z := 92.
Definition dot : Z := 46.
Definition colon : Z := 58.

(** White space in the sense of [str.isspace], which [str.strip] removes. *)
Definition is_space (c : Z) : bool :=
  (9 <=? c) && (c <=? 13) || (28 <=? c) && (c <=? 32) || (c =? 133) || (c =? 160)
  || (c =? 5760) || (8192 <=? c) && (c <=? 8202) || (c =? 8232) || (c =? 8233)
  || (c =? 8239) || (c =? 8287) || (c =? 12288).

Fixpoint lstrip_if (f : Z → bool) (s : pystr) : pystr :=
  match s with
  | [] => []
  | c :: s' => if f c then lstrip_if f s' else s
  end.

Definition rstrip_if (f : Z → bool) (s : pystr) : pystr :=
  reverse (lstrip_if f (reverse s)).

Definition strip_if (f : Z → bool) (s : pystr) : pystr := rstrip_if f (lstrip_if f s).

(** [s.strip()] and [s.lstrip("/")] *)
Definition strip (s : pystr) : pystr := strip_if is_space s.
Definition lstrip_slash (s : pystr) : pystr := lstrip_if (λ c, c =? slash) s.

(** [s.startswith(p)] *)
Fixpoint startswith (s p : pystr) {struct p} : bool :=
  match p, s with
  | [], _ => true
  | c :: p', d :: s' => (c =? d) && startswith s' p'
  | _ :: _, [] => false
  end.

(** [sub in s] *)
Fixpoint contains (sub s : pystr) : bool :=
  startswith s sub || match s with [] => false | _ :: s' => contains sub s' end.

(** [s.lower()] of a Latin-1 text, such as the names of HTTP headers. *)
Definition lower_char (c : Z) : Z :=
  if (65 <=? c) && (c <=? 90) || (192 <=? c) && (c <=? 222) && negb (c =? 215)
  then c + 32 else c.
Definition lower (s : pystr) : pystr := lower_char <$> s.

(** [s.lower()] of any text goes by the tables of Unicode, which are a parameter; on Latin-1
    texts it is [lower], and it does not make a text empty. *)
Class StrLower := {
  str_lower : pystr → pystr;
  str_lower_latin1 : ∀ s, Forall (λ c, 0 ≤ c < 256) s → str_lower s = lower s;
  str_lower_nonempty : ∀ s, s ≠ [] → str_lower s ≠ []
}.

Lemma lower_nonempty s : s ≠ [] → lower s ≠ [].
Proof. by destruct s. Qed.

(** One such function: Latin-1 and the Cyrillic capitals. *)
Definition cyrillic_lower_char (c : Z) : Z :=
  if (1040 <=? c) && (c <=? 1071) then c + 32 else lower_char c.

Lemma cyrillic_lower_latin1 s : Forall (λ c, 0 ≤ c < 256) s → cyrillic_lower_char <$> s = lower s.
Proof.
  induction 1 as [|c s Hc _ IH]; [done|]. rewrite fmap_cons, IH. unfold lower. rewrite fmap_cons. f_equal.
  unfold cyrillic_lower_char. destruct (Z.leb_spec 1040 c); [lia|done].
Qed.

Definition cyrillic_lower : StrLower :=
  {| str_lower s := cyrillic_lower_char <$> s; str_lower_latin1 := cyrillic_lower_latin1;
     str_lower_nonempty := ltac:(by intros []) |}.

(** [s.split(c)] for a one-character separator. *)
Fixpoint split_on (c : Z) (s : pystr) : list pystr :=
  match s with
  | [] => [[]]
  | d :: s' =>
      if d =? c then [] :: split_on c s'
      else match split_on c s' with
           | [] => [[d]]
           | w :: ws => (d :: w) :: ws
           end
  end.

(** ** Time

    [time.time()] and the REAL time stamps of the databases are whole numbers
    of microseconds; [int(t)] of a difference truncates towards zero. *)

Abbreviation time := Z (only parsing).
Definition seconds (n : Z) : time := n * 1000000.
Definition int_seconds (t : time) : Z := Z.quot t 1000000.

(** ** Lemmas on strings *)

Lemma startswith_spec s p : startswith s p = true ↔ p `prefix_of` s.
Proof.
  revert s. induction p as [|c p IH]; intros s; simpl.
  - split; [intros _; apply prefix_nil | done].
  - destruct s as [|d s].
    + split; [done|]. intros H. by apply prefix_nil_not in H.
    + rewrite andb_true_iff, Z.eqb_eq, IH. split.
      * intros [-> H]. by apply prefix_cons.
      * intros H. split; [by apply prefix_cons_inv_1 in H|by apply prefix_cons_inv_2 in H].
Qed.

Lemma startswith_app p s : startswith (p ++ s) p = true.
Proof. apply startswith_spec. by apply prefix_app_r. Qed.

Lemma lstrip_if_suffix f s : ∃ pre, s = pre ++ lstrip_if f s ∧ forallb f pre = true.
Proof.
  induction s as [|c s [pre [E F]]]; simpl; [by exists []|].
  destruct (f c) eqn:Hc; [|by exists []].
  exists (c :: pre). simpl. by rewrite Hc, F, <-E.
Qed.

Lemma lstrip_if_head f s c t : lstrip_if f s = c :: t → f c = false.
Proof.
  induction s as [|d s IH]; simpl; [done|].
  destruct (f d) eqn:Hd; [done|]. by intros [= -> ->].
Qed.

Lemma lstrip_if_nop f s : (∀ c t, s = c :: t → f c = false) → lstrip_if f s = s.
Proof. destruct s as [|c s]; simpl; [done|]. intros H. by rewrite (H c s). Qed.

Lemma lstrip_if_idemp f s : lstrip_if f (lstrip_if f s) = lstrip_if f s.
Proof. apply lstrip_if_nop. intros c t. apply lstrip_if_head. Qed.

Lemma rstrip_if_prefix f s : ∃ suf, s = rstrip_if f s ++ suf.
Proof.
  destruct (lstrip_if_suffix f (reverse s)) as (pre & E & _). exists (reverse pre).
  unfold rstrip_if. rewrite <-reverse_app, <-E. by rewrite reverse_involutive.
Qed.

Lemma strip_if_idemp f s : strip_if f (strip_if f s) = strip_if f s.
Proof.
  unfold strip_if. rewrite (lstrip_if_nop f (rstrip_if f (lstrip_if f s))).
  - unfold rstrip_if. by rewrite reverse_involutive, lstrip_if_idemp.
  - intros c t E. destruct (rstrip_if_prefix f (lstrip_if f s)) as [suf Hs].
    rewrite E in Hs. by apply lstrip_if_head in Hs.
Qed.

Lemma strip_idemp s : strip (strip s) = strip s.
Proof. apply strip_if_idemp. Qed.

(** ** Lists *)

Lemma NoDup_fmap_filter {A B} (f : A → B) (Q : A → Prop) `{∀ x, Decision (Q x)} (l : list A) :
  NoDup (f <$> l) → NoDup (f <$> filter Q l).
Proof.
  induction l as [|x l IH]; [done|]. rewrite fmap_cons. intros [Hx Hl]%NoDup_cons. rewrite filter_cons.
  destruct (decide (Q x)); [|by apply IH]. rewrite fmap_cons. constructor; [|by apply IH].
  intros (y & Heq & [_ Hy]%list_elem_of_filter)%list_elem_of_fmap. apply Hx, list_elem_of_fmap. eauto.
Qed.
