(* ===== verification/Utf8.v ===== *)
(** UTF-8, as Python's strict [str.encode("utf-8")] and [bytes.decode("utf-8")]
    compute it.  The tunnel payload codec and the metadata codec both go through
    it.  [utf8_encode] is [None] where Python raises [UnicodeEncodeError] (a lone
    surrogate), [utf8_decode] is [None] where it raises [UnicodeDecodeError]
    (a truncated or overlong sequence, a surrogate, a value above U+10FFFF). *)

From S2P Require Import Prelude.

Definition is_surrogate (c : Z) : bool := (55296 <=? c) && (c <=? 57343).

Definition utf8_char (c : Z) : option bytes :=
  if (0 <=? c) && (c <? 128) then Some [Z_byte c]
  else if (128 <=? c) && (c <? 2048) then
    Some [Z_byte (192 + c / 64); Z_byte (128 + c mod 64)]
  else if (2048 <=? c) && (c <? 65536) && negb (is_surrogate c) then
    Some [Z_byte (224 + c / 4096); Z_byte (128 + c / 64 mod 64); Z_byte (128 + c mod 64)]
  else if (65536 <=? c) && (c <? 1114112) then
    Some [Z_byte (240 + c / 262144); Z_byte (128 + c / 4096 mod 64);
          Z_byte (128 + c / 64 mod 64); Z_byte (128 + c mod 64)]
  else None.

Fixpoint utf8_encode (s : pystr) : option bytes :=
  match s with
  | [] => Some []
  | c :: s' => b ← utf8_char c; bs ← utf8_encode s'; Some (b ++ bs)
  end.

Definition is_cont (b : byte) : bool := (128 <=? byte_Z b) && (byte_Z b <? 192).

Fixpoint utf8_decode (bs : bytes) : option pystr :=
  match bs with
  | [] => Some []
  | b0 :: r0 =>
      let z0 := byte_Z b0 in
      if z0 <? 128 then cons z0 <$> utf8_decode r0
      else if (194 <=? z0) && (z0 <? 224) then
        match r0 with
        | b1 :: r1 =>
            if is_cont b1 then
              cons ((z0 - 192) * 64 + (byte_Z b1 - 128)) <$> utf8_decode r1
            else None
        | [] => None
        end
      else if (224 <=? z0) && (z0 <? 240) then
        match r0 with
        | b1 :: b2 :: r2 =>
            let v := (z0 - 224) * 4096 + (byte_Z b1 - 128) * 64 + (byte_Z b2 - 128) in
            if is_cont b1 && is_cont b2 && (2048 <=? v) && negb (is_surrogate v)
            then cons v <$> utf8_decode r2 else None
        | _ => None
        end
      else if (240 <=? z0) && (z0 <? 245) then
        match r0 with
        | b1 :: b2 :: b3 :: r3 =>
            let v := (z0 - 240) * 262144 + (byte_Z b1 - 128) * 4096
                     + (byte_Z b2 - 128) * 64 + (byte_Z b3 - 128) in
            if is_cont b1 && is_cont b2 && is_cont b3 && (65536 <=? v) && (v <? 1114112)
            then cons v <$> utf8_decode r3 else None
        | _ => None
        end
      else None
  end.

(** A boolean condition of the goal is decided by [lia]. *)
Ltac decide_if :=
  match goal with
  | |- (if ?b then _ else _) = _ =>
      first [ replace b with true by (symmetry; unfold is_cont, is_surrogate in *; divlia)
            | replace b with false by (symmetry; unfold is_cont, is_surrogate in *; divlia) ];
      cbv iota
  end.

Lemma utf8_char_decode c bs r :
  utf8_char c = Some bs → utf8_decode (bs ++ r) = cons c <$> utf8_decode r.
Proof.
  unfold utf8_char, is_surrogate. intros H.
  repeat case_match; simplify_eq; simpl; unfold is_cont; rewrite ?byte_Z_byte;
    repeat decide_if; do 2 f_equal; divlia.
Qed.

Lemma utf8_decode_encode s bs : utf8_encode s = Some bs → utf8_decode bs = Some s.
Proof.
  revert bs. induction s as [|c s IH]; intros bs; simpl; [by intros [= <-]|].
  destruct (utf8_char c) as [b|] eqn:Hc; [simpl|done].
  destruct (utf8_encode s) as [bs'|]; [simpl|done].
  intros [= <-]. by rewrite (utf8_char_decode _ _ _ Hc), (IH _ eq_refl).
Qed.

(** Decoding accepts only the canonical encoding of what it returns. *)
Lemma utf8_encode_decode bs s : utf8_decode bs = Some s → utf8_encode s = Some bs.
Proof.
  remember (length bs) as n eqn:Hn. revert bs s Hn.
  induction (lt_wf n) as [n _ IH]. intros bs s -> H.
  assert (Hstep : ∀ pre r v s', bs = pre ++ r → pre ≠ [] → utf8_decode r = Some s' →
    utf8_char v = Some pre → s = v :: s' → utf8_encode s = Some bs).
  { intros pre r v s' -> Hpre Hr Hv ->. simpl. rewrite Hv. simpl.
    rewrite (IH (length r)) with (bs := r); [done| |done|done].
    rewrite length_app. destruct pre; [done|simpl; lia]. }
  destruct bs as [|b0 r0]; simpl in H; [by simplify_eq|].
  pose proof (byte_Z_range b0).
  repeat (case_match; try discriminate); apply fmap_Some in H as (s' & Hs & ->);
    [ eapply (Hstep [b0] _) | eapply (Hstep [b0; _] _)
    | eapply (Hstep [b0; _; _] _) | eapply (Hstep [b0; _; _; _] _) ];
    try reflexivity; try discriminate; try exact Hs;
    unfold utf8_char, is_cont, is_surrogate in *; bool_prop;
    repeat decide_if; repeat (f_equal; try apply byte_Z_inj);
    rewrite byte_Z_byte; divlia.
Qed.

(** Text of ASCII characters only is its own encoding. *)
Definition is_ascii (c : Z) : bool := (0 <=? c) && (c <? 128).

Lemma utf8_encode_ascii s :
  forallb is_ascii s = true → utf8_encode s = Some (Z_byte <$> s).
Proof.
  induction s as [|c s IH]; simpl; [done|].
  intros [Hc Hs]%andb_true_iff. unfold utf8_char, is_ascii in *.
  rewrite Hc. simpl. by rewrite (IH Hs).
Qed.

Lemma utf8_encode_app s1 s2 b1 b2 :
  utf8_encode s1 = Some b1 → utf8_encode s2 = Some b2 →
  utf8_encode (s1 ++ s2) = Some (b1 ++ b2).
Proof.
  revert b1. induction s1 as [|c s1 IH]; intros b1; simpl; [by intros [= <-]|].
  destruct (utf8_char c) as [b|]; [simpl|done].
  destruct (utf8_encode s1) as [b1'|]; [simpl|done].
  intros [= <-] H2. rewrite (IH _ eq_refl H2). simpl. by rewrite (assoc_L (++)).
Qed.
