(* ===== verification/Frames.v ===== *)
(** The tunnel's wire formats: the binary frame header of
    [src/tunnel/frames.py] with the constants, frame types and exceptions it
    uses, and the WS_DATA payload codec of [src/tunnel/ws_payload.py]. *)

From Stdlib Require Import Strings.Byte.
From S2P Require Import Prelude Utf8.

(** ** Exceptions of the tunnel package *)

Inductive TunnelExn :=
| TunnelError
| FrameTooLargeError
| StreamLimitError
| FirstByteTimeoutError
| StreamNotFoundError
| MetadataError
| MetadataTooLargeError
| TunnelSendError
| ValueError
| UnicodeDecodeError.

Global Instance TunnelExn_eq_dec : EqDecision TunnelExn.
Proof. solve_decision. Defined.

(** Subclass tests, as [except] clauses make them. *)
Definition is_TunnelError (e : TunnelExn) : bool :=
  match e with ValueError | UnicodeDecodeError => false | _ => true end.

Definition is_MetadataError (e : TunnelExn) : bool :=
  match e with MetadataError | MetadataTooLargeError => true | _ => false end.

(** ** Constants *)

Definition HEADER_SIZE : nat := 21.
Definition MAX_PAYLOAD_BYTES : Z := 65536.
Definition MAX_STREAMS : nat := 100.
Definition QUEUE_DEPTH : nat := 64.
Definition HEARTBEAT_INTERVAL_S : Z := 15.
Definition HEARTBEAT_MISSED_LIMIT : Z := 3.
Definition FIRST_BYTE_TIMEOUT_S : Z := 30.
Definition PROTOCOL_VERSION : Z := 1.
Definition AGENT_HEARTBEAT_INTERVAL_S : Z := 30.

(** ** Frame types *)

Inductive FrameType :=
| OPEN | DATA | CLOSE | CANCEL | ERROR | PING | PONG | WS_OPEN | WS_DATA | WS_CLOSE.

Global Instance FrameType_eq_dec : EqDecision FrameType.
Proof. solve_decision. Defined.

(** [int(frame_type)] *)
Definition frame_type_value (t : FrameType) : Z :=
  match t with
  | OPEN => 1 | DATA => 2 | CLOSE => 3 | CANCEL => 4 | ERROR => 5
  | PING => 6 | PONG => 7 | WS_OPEN => 8 | WS_DATA => 9 | WS_CLOSE => 10
  end.

(** [FrameType(type_byte)], which raises [ValueError] for an unknown value. *)
Definition frame_type_of (z : Z) : TunnelExn + FrameType :=
  if z =? 1 then inr OPEN else if z =? 2 then inr DATA else if z =? 3 then inr CLOSE
  else if z =? 4 then inr CANCEL else if z =? 5 then inr ERROR else if z =? 6 then inr PING
  else if z =? 7 then inr PONG else if z =? 8 then inr WS_OPEN
  else if z =? 9 then inr WS_DATA else if z =? 10 then inr WS_CLOSE else inl ValueError.

(** ** [struct] packing: big-endian integers of a fixed number of bytes *)

Fixpoint be_bytes (n : nat) (z : Z) : bytes :=
  match n with
  | O => []
  | S n' => Z_byte (z / 256 ^ Z.of_nat n') :: be_bytes n' z
  end.

Definition be_value (bs : bytes) : Z :=
  fold_left (λ acc b, acc * 256 + byte_Z b) bs 0.

(** A [uuid.UUID] is its 128-bit integer; [.bytes] and [UUID(bytes=...)]. *)
Abbreviation UUID := Z (only parsing).
Definition uuid_ok (u : UUID) : Prop := 0 ≤ u < 2 ^ 128.
Definition uuid_bytes (u : UUID) : bytes := be_bytes 16 u.
Definition uuid_of_bytes (bs : bytes) : UUID := be_value bs.

(** [struct.pack(">B16sI", t, u, n)] *)
Definition pack_header (t : Z) (u : bytes) (n : Z) : bytes :=
  [Z_byte t] ++ u ++ be_bytes 4 n.

(** [struct.unpack(">B16sI", h)] of a 21-byte header. *)
Definition unpack_header (h : bytes) : Z * bytes * Z :=
  (be_value (take 1 h), take 16 (drop 1 h), be_value (drop 17 h)).

(** ** Frames *)

Definition serialize_frame (frame_type : FrameType) (request_id : UUID) (payload : bytes)
    : TunnelExn + bytes :=
  if MAX_PAYLOAD_BYTES <? Z.of_nat (length payload) then inl FrameTooLargeError
  else inr (pack_header (frame_type_value frame_type) (uuid_bytes request_id)
              (Z.of_nat (length payload)) ++ payload).

Definition deserialize_frame (data : bytes) : TunnelExn + (FrameType * UUID * bytes) :=
  if (length data <? HEADER_SIZE)%nat then inl TunnelError
  else
    let '(type_byte, uuid_bytes, payload_length) := unpack_header (take HEADER_SIZE data) in
    frame_type ← frame_type_of type_byte;
    let actual_payload := drop HEADER_SIZE data in
    if negb (Z.of_nat (length actual_payload) =? payload_length) then inl TunnelError
    else inr (frame_type, uuid_of_bytes uuid_bytes, actual_payload).

(** ** WS_DATA payloads *)

Inductive WsMessageKind := TEXT | BINARY.

Global Instance WsMessageKind_eq_dec : EqDecision WsMessageKind.
Proof. solve_decision. Defined.

Definition ws_kind_value (k : WsMessageKind) : Z :=
  match k with TEXT => 0 | BINARY => 1 end.

(** [text.encode("utf-8")] raises [UnicodeEncodeError], a [ValueError], for a
    lone surrogate. *)
Definition encode_text_message (text : pystr) : TunnelExn + bytes :=
  match utf8_encode text with
  | Some bs => inr (Z_byte (ws_kind_value TEXT) :: bs)
  | None => inl ValueError
  end.

Definition encode_binary_message (data : bytes) : bytes :=
  Z_byte (ws_kind_value BINARY) :: data.

Definition decode_ws_message (payload : bytes) : TunnelExn + (WsMessageKind * bytes) :=
  match payload with
  | [] => inl TunnelError
  | marker :: rest =>
      if byte_Z marker =? ws_kind_value TEXT then inr (TEXT, rest)
      else if byte_Z marker =? ws_kind_value BINARY then inr (BINARY, rest)
      else inl TunnelError
  end.

(** ** Lemmas on big-endian integers *)

Lemma length_be_bytes n z : length (be_bytes n z) = n.
Proof. induction n; simpl; congruence. Qed.

Lemma pow256_pos (n : nat) : 0 < 256 ^ Z.of_nat n.
Proof. apply Z.pow_pos_nonneg; lia. Qed.

Lemma pow256_S (n : nat) : 256 ^ Z.of_nat (S n) = 256 * 256 ^ Z.of_nat n.
Proof. rewrite Nat2Z.inj_succ, Z.pow_succ_r; lia. Qed.

Lemma be_fold_bytes n z acc :
  fold_left (λ acc b, acc * 256 + byte_Z b) (be_bytes n z) acc
  = acc * 256 ^ Z.of_nat n + z mod 256 ^ Z.of_nat n.
Proof.
  revert acc. induction n as [|n IH]; intros acc; cbn [be_bytes fold_left].
  - rewrite Z.mod_1_r. simpl. lia.
  - rewrite IH, byte_Z_byte, pow256_S. pose proof (pow256_pos n).
    rewrite (Z.mul_comm 256), Z.rem_mul_r by lia. ring.
Qed.

Lemma be_value_bytes n z : 0 ≤ z < 256 ^ Z.of_nat n → be_value (be_bytes n z) = z.
Proof. intros H. unfold be_value. rewrite be_fold_bytes, Z.mod_small; lia. Qed.

Lemma be_fold_acc bs acc :
  fold_left (λ acc b, acc * 256 + byte_Z b) bs acc
  = acc * 256 ^ Z.of_nat (length bs) + be_value bs.
Proof.
  unfold be_value. revert acc. induction bs as [|b bs IH]; intros acc; cbn [fold_left length].
  - simpl. lia.
  - rewrite IH, (IH (0 * 256 + byte_Z b)), pow256_S. ring.
Qed.

Lemma be_value_cons b bs :
  be_value (b :: bs) = byte_Z b * 256 ^ Z.of_nat (length bs) + be_value bs.
Proof. unfold be_value at 1. cbn [fold_left]. rewrite be_fold_acc. ring. Qed.

Lemma be_value_range bs : 0 ≤ be_value bs < 256 ^ Z.of_nat (length bs).
Proof.
  induction bs as [|b bs IH]; [unfold be_value; simpl; lia|].
  rewrite be_value_cons. cbn [length]. rewrite pow256_S.
  pose proof (byte_Z_range b). nia.
Qed.

Lemma be_bytes_mod n z k : be_bytes n (z + k * 256 ^ Z.of_nat n) = be_bytes n z.
Proof.
  revert k. induction n as [|n IH]; intros k; cbn [be_bytes]; [done|].
  rewrite pow256_S. pose proof (pow256_pos n).
  replace (z + k * (256 * 256 ^ Z.of_nat n)) with (z + (k * 256) * 256 ^ Z.of_nat n) by ring.
  f_equal; [|apply IH].
  apply byte_Z_inj. rewrite !byte_Z_byte, Z.div_add by lia.
  by rewrite Z.mod_add.
Qed.

Lemma be_bytes_value bs : be_bytes (length bs) (be_value bs) = bs.
Proof.
  induction bs as [|b bs IH]; [done|]. cbn [length be_bytes]. rewrite be_value_cons.
  pose proof (be_value_range bs). pose proof (byte_Z_range b). pose proof (pow256_pos (length bs)).
  f_equal.
  - rewrite Z.div_add_l, Z.div_small, Z.add_0_r by lia. apply Z_byte_Z.
  - rewrite Z.add_comm, be_bytes_mod. done.
Qed.

Lemma be_bytes_value' n bs : length bs = n → be_bytes n (be_value bs) = bs.
Proof. intros <-. apply be_bytes_value. Qed.

(** ** Lemmas on frames *)

Arguments be_bytes : simpl never.
Arguments be_value : simpl never.

Lemma frame_type_of_value t : frame_type_of (frame_type_value t) = inr t.
Proof. by destruct t. Qed.

Lemma frame_type_value_of z t : frame_type_of z = inr t → frame_type_value t = z.
Proof.
  unfold frame_type_of. intros H.
  repeat (case_match; bool_prop; [simplify_eq; done|]). done.
Qed.

Lemma frame_type_of_error z e :
  frame_type_of z = inl e → e = ValueError ∧ ¬ (1 ≤ z ≤ 10).
Proof.
  unfold frame_type_of. intros H.
  repeat (case_match; [done|]). simplify_eq. bool_prop. split; [done|lia].
Qed.

Lemma length_pack_header t u n : length u = 16%nat → length (pack_header t u n) = HEADER_SIZE.
Proof. intros H. unfold pack_header. rewrite !length_app, length_be_bytes, H. done. Qed.

Lemma unpack_pack t u n :
  length u = 16%nat → 0 ≤ t < 256 → 0 ≤ n < 2 ^ 32 →
  unpack_header (pack_header t u n) = (t, u, n).
Proof.
  intros Hu Ht Hn. unfold unpack_header, pack_header.
  cbn [app take drop]. fold (be_bytes 4 n).
  rewrite take_0, drop_0, take_app_length', drop_app_length' by done.
  rewrite be_value_bytes by (change (256 ^ Z.of_nat 4) with (2 ^ 32); lia).
  rewrite be_value_cons, byte_Z_byte, Z.mod_small by lia.
  change (be_value []) with 0. simpl length. do 2 f_equal. lia.
Qed.

Lemma pack_unpack h :
  length h = HEADER_SIZE →
  let '(t, u, n) := unpack_header h in
  h = pack_header t u n ∧ length u = 16%nat ∧ 0 ≤ t < 256 ∧ 0 ≤ n < 2 ^ 32.
Proof.
  unfold HEADER_SIZE. intros H. unfold unpack_header, pack_header.
  destruct h as [|b h]; [done|]. simpl in H. injection H as H. simpl take. simpl drop.
  pose proof (byte_Z_range b).
  assert (length (drop 16 h) = 4%nat) as H4 by (rewrite length_drop; lia).
  rewrite be_value_cons. change (be_value []) with 0. simpl length.
  rewrite Z.mul_1_r, Z.add_0_r, Z_byte_Z, (be_bytes_value' 4 _ H4).
  pose proof (be_value_range (drop 16 h)) as Hr. rewrite H4 in Hr.
  simpl app. rewrite take_drop. split; [done|]. rewrite length_take.
  change (256 ^ Z.of_nat 4) with (2 ^ 32) in Hr. rewrite drop_0. repeat split; lia.
Qed.

(** A frame that fits is read back. *)
Lemma frame_fits (t : FrameType) (u : UUID) (payload : bytes) :
  uuid_ok u → Z.of_nat (length payload) ≤ MAX_PAYLOAD_BYTES →
  ∃ wire, serialize_frame t u payload = inr wire
          ∧ deserialize_frame wire = inr (t, u, payload)
          ∧ length wire = (HEADER_SIZE + length payload)%nat.
Proof.
  unfold uuid_ok, MAX_PAYLOAD_BYTES. intros Hu Hp. eexists.
  unfold serialize_frame, MAX_PAYLOAD_BYTES.
  destruct (Z.ltb_spec 65536 (Z.of_nat (length payload))) as [Hgt|_]; [lia|].
  assert (Hlen : length (uuid_bytes u) = 16%nat) by apply length_be_bytes.
  pose proof (length_pack_header (frame_type_value t) _ (Z.of_nat (length payload)) Hlen) as Hh.
  split; [done|]. rewrite length_app, Hh. split; [|done].
  unfold deserialize_frame. rewrite length_app, Hh.
  destruct (Nat.ltb_spec (HEADER_SIZE + length payload) HEADER_SIZE) as [?|_]; [lia|].
  rewrite take_app_length', drop_app_length' by done.
  rewrite unpack_pack by (done || (destruct t; simpl; lia) || lia).
  rewrite frame_type_of_value. simpl. rewrite Z.eqb_refl. simpl.
  unfold uuid_of_bytes, uuid_bytes. by rewrite be_value_bytes.
Qed.

(** ** Properties *)

(** C33: a frame that [serialize_frame] accepts is read back by
    [deserialize_frame] with the same type, stream id and payload, and every
    payload of at most MAX_PAYLOAD_BYTES bytes is accepted. *)
Theorem frame_roundtrip (t : FrameType) (u : UUID) (payload : bytes) :
  uuid_ok u → Z.of_nat (length payload) ≤ MAX_PAYLOAD_BYTES →
  ∃ wire, serialize_frame t u payload = inr wire
          ∧ deserialize_frame wire = inr (t, u, payload)
          ∧ length wire = (HEADER_SIZE + length payload)%nat.
Proof. apply frame_fits. Qed.

Lemma frame_roundtrip_witness :
  ∃ wire, serialize_frame WS_DATA 7 (replicate 3 (Z_byte 65)) = inr wire
          ∧ deserialize_frame wire = inr (WS_DATA, 7, replicate 3 (Z_byte 65))
          ∧ length wire = (HEADER_SIZE + length (replicate 3 (Z_byte 65)))%nat.
Proof.
  apply (frame_roundtrip WS_DATA 7 (replicate 3 (Z_byte 65))).
  - unfold uuid_ok. lia.
  - vm_compute. discriminate.
Defined.

(** C34: [deserialize_frame] decides every input: fewer than 21 bytes is a
    [TunnelError]; otherwise an unknown type byte is a [ValueError], whatever the declared
    length; otherwise a declared length different from the actual one is a [TunnelError];
    and anything it accepts is
    byte for byte the frame [serialize_frame] writes for what it returns (up to
    the sender's payload limit, which the receiver does not check). *)
Theorem deserialize_frame_spec (data : bytes) :
  match deserialize_frame data with
  | inl e =>
      e = TunnelError ∧ (length data < HEADER_SIZE)%nat
      ∨ (∃ b, data !! 0%nat = Some b ∧ e = ValueError ∧ ¬ (1 ≤ byte_Z b ≤ 10)
              ∧ (HEADER_SIZE ≤ length data)%nat)
      ∨ (∃ b, data !! 0%nat = Some b ∧ e = TunnelError ∧ 1 ≤ byte_Z b ≤ 10
              ∧ (HEADER_SIZE ≤ length data)%nat
              ∧ be_value (take 4 (drop 17 data)) ≠ Z.of_nat (length data) - 21)
  | inr (t, u, p) =>
      uuid_ok u ∧ data = pack_header (frame_type_value t) (uuid_bytes u)
                           (Z.of_nat (length p)) ++ p
      ∧ (Z.of_nat (length p) ≤ MAX_PAYLOAD_BYTES → serialize_frame t u p = inr data)
  end.
Proof.
  unfold deserialize_frame.
  destruct (Nat.ltb_spec (length data) HEADER_SIZE) as [Hlt|Hge]; [by left|].
  assert (Hh : length (take HEADER_SIZE data) = HEADER_SIZE) by (rewrite length_take; lia).
  pose proof (pack_unpack _ Hh) as Hpu.
  destruct (unpack_header (take HEADER_SIZE data)) as [[t u] n] eqn:Hun.
  destruct Hpu as (Hpack & Hu & Ht & Hn).
  destruct (frame_type_of t) as [e|ft] eqn:Hft; cbn [mbind sum_bind].
  - right; left. apply frame_type_of_error in Hft as [-> Hr].
    destruct data as [|b data]; [unfold HEADER_SIZE in Hge; simpl in Hge; lia|].
    exists b. repeat split; try done.
    unfold unpack_header in Hun. simpl in Hun. injection Hun as <- _ _.
    by rewrite be_value_cons, Z.mul_1_r, Z.add_0_r in Hr.
  - destruct (Z.eqb_spec (Z.of_nat (length (drop HEADER_SIZE data))) n) as [He|He]; cbn [negb].
    + apply frame_type_value_of in Hft as <-.
      unfold uuid_of_bytes, uuid_bytes, uuid_ok. rewrite (be_bytes_value' 16 u Hu).
      pose proof (be_value_range u) as Hur. rewrite Hu in Hur.
      split; [exact Hur|].
      assert (Hdata : data = pack_header (frame_type_value ft) u
        (Z.of_nat (length (drop HEADER_SIZE data))) ++ drop HEADER_SIZE data).
      { rewrite He, <-Hpack. by rewrite take_drop. }
      split; [exact Hdata|]. intros Hmax. unfold serialize_frame, uuid_bytes.
      rewrite (be_bytes_value' 16 u Hu). case_match; bool_prop; [lia|]. by rewrite <-Hdata.
    + right; right. unfold unpack_header in Hun. injection Hun as Ht' _ <-.
      assert (∃ b, data !! 0%nat = Some b ∧ t = byte_Z b) as (b & Hb & Htb).
      { destruct data as [|b data]; [unfold HEADER_SIZE in Hge; simpl in Hge; lia|]. exists b. split; [done|].
        simpl in Ht'. by rewrite be_value_cons, Z.mul_1_r, Z.add_0_r in Ht'. }
      exists b. split; [done|]. split; [done|]. split.
      { rewrite <-Htb. apply frame_type_value_of in Hft as <-. destruct ft; simpl; lia. }
      split; [done|]. rewrite length_drop in He. intros Heq. apply He.
      unfold HEADER_SIZE in *. rewrite skipn_firstn_comm. simpl Nat.sub. lia.
Qed.

(** a WebSocket message keeps its kind and its content through the WS_DATA
    payload codec: text comes back as the UTF-8 bytes that decode to the same
    text, binary comes back verbatim. *)
Theorem ws_message_roundtrip :
  (∀ text payload, encode_text_message text = inr payload →
     ∃ raw, decode_ws_message payload = inr (TEXT, raw) ∧ utf8_decode raw = Some text)
  ∧ (∀ data, decode_ws_message (encode_binary_message data) = inr (BINARY, data))
  ∧ (∀ payload k raw, decode_ws_message payload = inr (k, raw) →
       payload = Z_byte (ws_kind_value k) :: raw).
Proof.
  split_and!.
  - intros text payload. unfold encode_text_message.
    destruct (utf8_encode text) as [bs|] eqn:E; [|done]. intros [= <-].
    exists bs. split; [done|]. by apply utf8_decode_encode.
  - done.
  - intros [|b r] k raw; [done|]. simpl. intros H.
    repeat case_match; bool_prop; simplify_eq; f_equal; apply byte_Z_inj;
      rewrite byte_Z_byte; unfold ws_kind_value in *; divlia.
Qed.
