(* ===== verification/Json.v ===== *)
(** JSON as Python's [json] module writes and reads it, on code points: the
    tunnel's control messages and OPEN/WS_OPEN metadata go through it.

    [dumps] is [json.dumps] with its defaults ([ensure_ascii], separators
    [", "] and [": "]); [loads] is [json.loads] of a [str], with the JSON
    grammar of the module (duplicate keys keep the last value, [NaN] and
    [Infinity] are accepted, an integer of more than 4300 digits raises
    [ValueError] instead of [JSONDecodeError]).  A float is kept as its text.
    The recursion limit of the interpreter is not modelled. *)

From Stdlib Require Import Ascii String.
From S2P Require Import Prelude Utf8.

Inductive json :=
| JNull
| JBool (b : bool)
| JInt (z : Z)
| JFloat (raw : pystr)
| JStr (s : pystr)
| JArr (l : list json)
| JObj (l : list (pystr * json)).

Inductive jexn :=
| JSONDecodeError
| IntDigitsError
| OutOfFuel.

Global Instance jexn_eq_dec : EqDecision jexn.
Proof. solve_decision. Defined.

(** ** Objects as ordered dictionaries *)

Fixpoint dict_get {A} (k : pystr) (l : list (pystr * A)) : option A :=
  match l with
  | [] => None
  | (k', v) :: l' => if decide (k = k') then Some v else dict_get k l'
  end.

(** [d[k] = v]: the key keeps its position if it is already there. *)
Fixpoint dict_set {A} (k : pystr) (v : A) (l : list (pystr * A)) : list (pystr * A) :=
  match l with
  | [] => [(k, v)]
  | (k', v') :: l' => if decide (k = k') then (k, v) :: l' else (k', v') :: dict_set k v l'
  end.

(** ** Writing *)

Definition hex_digit (n : Z) : Z := if n <? 10 then 48 + n else 87 + n.

Definition hex4 (c : Z) : pystr :=
  [hex_digit (c / 4096 mod 16); hex_digit (c / 256 mod 16);
   hex_digit (c / 16 mod 16); hex_digit (c mod 16)].

Definition u_escape (c : Z) : pystr := 92 :: 117 :: hex4 c.

Definition dump_char (c : Z) : pystr :=
  if c =? 34 then [92; 34]
  else if c =? 92 then [92; 92]
  else if c =? 10 then [92; 110]
  else if c =? 13 then [92; 114]
  else if c =? 9 then [92; 116]
  else if c =? 12 then [92; 102]
  else if c =? 8 then [92; 98]
  else if (32 <=? c) && (c <=? 126) then [c]
  else if c <? 65536 then u_escape c
  else u_escape (55296 + (c - 65536) / 1024) ++ u_escape (56320 + (c - 65536) mod 1024).

Definition dump_str (s : pystr) : pystr := 34 :: mbind dump_char s ++ [34].

(** [str(n)] for an integer: its decimal digits. *)
Fixpoint dump_digits (fuel : nat) (n : Z) (acc : pystr) : pystr :=
  match fuel with
  | O => acc
  | S fuel' =>
      if n <? 10 then (48 + n) :: acc
      else dump_digits fuel' (n / 10) ((48 + n mod 10) :: acc)
  end.

(** [S (Z.log2 n)] steps are enough: each one divides by ten. *)
Definition dump_nat (n : Z) : pystr := dump_digits (S (S (Z.to_nat (Z.log2 n)))) n [].

Definition dump_int (z : Z) : pystr :=
  if z <? 0 then 45 :: dump_nat (- z) else dump_nat z.

(** Items with [", "] between them. *)
Fixpoint join_items (l : list pystr) : pystr :=
  match l with
  | [] => []
  | [x] => x
  | x :: l' => x ++ 44 :: 32 :: join_items l'
  end.

Fixpoint dumps (j : json) : pystr :=
  match j with
  | JNull => py "null"
  | JBool true => py "true"
  | JBool false => py "false"
  | JInt z => dump_int z
  | JFloat raw => raw
  | JStr s => dump_str s
  | JArr l => 91 :: join_items (dumps <$> l) ++ [93]
  | JObj l => 123 :: join_items ((λ '(k, v), dump_str k ++ 58 :: 32 :: dumps v) <$> l) ++ [125]
  end.

(** ** Reading *)

Definition is_ws (c : Z) : bool := (c =? 32) || (c =? 9) || (c =? 10) || (c =? 13).

Fixpoint skip_ws (s : pystr) : pystr :=
  match s with
  | c :: s' => if is_ws c then skip_ws s' else s
  | [] => []
  end.

(** What follows the character [c], if the text starts with it. *)
Definition eat (c : Z) (s : pystr) : option pystr :=
  match s with
  | d :: s' => if d =? c then Some s' else None
  | [] => None
  end.

Definition unhex (c : Z) : option Z :=
  if (48 <=? c) && (c <=? 57) then Some (c - 48)
  else if (97 <=? c) && (c <=? 102) then Some (c - 87)
  else if (65 <=? c) && (c <=? 70) then Some (c - 55)
  else None.

Definition unhex4 (a b c d : Z) : option Z :=
  a ← unhex a; b ← unhex b; c ← unhex c; d ← unhex d;
  Some (a * 4096 + b * 256 + c * 16 + d).

Definition is_high (u : Z) : bool := (55296 <=? u) && (u <=? 56319).
Definition is_low (u : Z) : bool := (56320 <=? u) && (u <=? 57343).

Definition simple_escape (c : Z) : option Z :=
  if c =? 34 then Some 34 else if c =? 92 then Some 92 else if c =? 47 then Some 47
  else if c =? 98 then Some 8 else if c =? 102 then Some 12 else if c =? 110 then Some 10
  else if c =? 114 then Some 13 else if c =? 116 then Some 9 else None.

Definition push (c : Z) (r : option (pystr * pystr)) : option (pystr * pystr) :=
  match r with Some (s, rest) => Some (c :: s, rest) | None => None end.

(** The text starts with the escape of a code unit. *)
Definition starts_u (s : pystr) : bool :=
  match s with
  | a :: b :: _ :: _ :: _ :: _ :: _ => (a =? 92) && (b =? 117)
  | _ => false
  end.

(** The characters up to the closing quote, and what follows it. *)
Fixpoint scan_str (s : pystr) : option (pystr * pystr) :=
  match s with
  | [] => None
  | c :: r =>
      if c =? 34 then Some ([], r)
      else if c =? 92 then
        match r with
        | [] => None
        | e :: r1 =>
            if e =? 117 then
              match r1 with
              | h1 :: h2 :: h3 :: h4 :: r2 =>
                  match unhex4 h1 h2 h3 h4 with
                  | None => None
                  | Some u =>
                      match r2 with
                      | _ :: _ :: g1 :: g2 :: g3 :: g4 :: r3 =>
                          if is_high u && starts_u r2 then
                            match unhex4 g1 g2 g3 g4 with
                            | None => None
                            | Some u2 =>
                                if is_low u2
                                then push (65536 + (u - 55296) * 1024 + (u2 - 56320)) (scan_str r3)
                                else push u (scan_str r2)
                            end
                          else push u (scan_str r2)
                      | _ => push u (scan_str r2)
                      end
                  end
              | _ => None
              end
            else match simple_escape e with
                 | Some x => push x (scan_str r1)
                 | None => None
                 end
        end
      else if c <? 32 then None
      else push c (scan_str r)
  end.

Definition is_digit (c : Z) : bool := (48 <=? c) && (c <=? 57).

Fixpoint span (f : Z → bool) (s : pystr) : pystr * pystr :=
  match s with
  | c :: s' => if f c then let '(a, b) := span f s' in (c :: a, b) else ([], s)
  | [] => ([], [])
  end.

Definition digits_value (ds : pystr) : Z := fold_left (λ acc d, acc * 10 + (d - 48)) ds 0.

Definition MAX_STR_DIGITS : nat := 4300.

(** The integer part of a number: [0] or [[1-9][0-9]*]. *)
Definition scan_int (s : pystr) : option (pystr * pystr) :=
  match s with
  | c :: s' =>
      if c =? 48 then Some ([48], s')
      else if is_digit c then Some (span is_digit s) else None
  | [] => None
  end.

Definition scan_frac (s : pystr) : pystr * pystr :=
  match eat 46 s with
  | Some s' =>
      match span is_digit s' with ([], _) => ([], s) | (ds, r) => (46 :: ds, r) end
  | None => ([], s)
  end.

Definition scan_exp (s : pystr) : pystr * pystr :=
  match s with
  | c :: s' =>
      if (c =? 101) || (c =? 69) then
        let '(sign, s2) := match s' with
                           | d :: s2 => if (d =? 43) || (d =? 45) then ([d], s2) else ([], s')
                           | [] => ([], [])
                           end in
        match span is_digit s2 with ([], _) => ([], s) | (ds, r) => (c :: sign ++ ds, r) end
      else ([], s)
  | [] => ([], s)
  end.

Definition scan_unsigned (neg : bool) (s : pystr) : jexn + (json * pystr) :=
  match scan_int s with
  | None => inl JSONDecodeError
  | Some (ds, r) =>
      let '(fr, r1) := scan_frac r in
      let '(ex, r2) := scan_exp r1 in
      match fr ++ ex with
      | [] =>
          if (MAX_STR_DIGITS <? length ds)%nat then inl IntDigitsError
          else inr (JInt (if neg then - digits_value ds else digits_value ds), r2)
      | _ => inr (JFloat ((if neg then [45] else []) ++ ds ++ fr ++ ex), r2)
      end
  end.

Definition scan_number (s : pystr) : jexn + (json * pystr) :=
  match eat 45 s with
  | Some s' => scan_unsigned true s'
  | None => scan_unsigned false s
  end.

(** A fixed word such as [null]. *)
Definition scan_word (w : pystr) (j : json) (s : pystr) : option (json * pystr) :=
  if startswith s w then Some (j, drop (length w) s) else None.

(** A word, or a number. *)
Definition scan_atom (s : pystr) : jexn + (json * pystr) :=
  match scan_word (py "null") JNull s with
  | Some r => inr r
  | None =>
  match scan_word (py "true") (JBool true) s with
  | Some r => inr r
  | None =>
  match scan_word (py "false") (JBool false) s with
  | Some r => inr r
  | None =>
  match scan_word (py "NaN") (JFloat (py "NaN")) s with
  | Some r => inr r
  | None =>
  match scan_word (py "Infinity") (JFloat (py "Infinity")) s with
  | Some r => inr r
  | None =>
  match scan_word (py "-Infinity") (JFloat (py "-Infinity")) s with
  | Some r => inr r
  | None => scan_number s
  end end end end end end.

(** The key of a member, its colon and the white space after it. *)
Definition scan_key (s : pystr) : option (pystr * pystr) :=
  r ← eat 34 s; '(k, r1) ← scan_str r; r2 ← eat 58 (skip_ws r1); Some (k, skip_ws r2).

(** One value; the items of an array; the members of an object.  [fuel] above
    the length of the text is enough, see [loads_fuel]. *)
Fixpoint scan_value (fuel : nat) (s : pystr) : jexn + (json * pystr) :=
  match fuel with
  | O => inl OutOfFuel
  | S fuel' =>
      match s with
      | [] => inl JSONDecodeError
      | c :: r =>
          if c =? 34 then
            match scan_str r with
            | Some (str, r') => inr (JStr str, r')
            | None => inl JSONDecodeError
            end
          else if c =? 91 then
            match eat 93 (skip_ws r) with
            | Some r' => inr (JArr [], r')
            | None => '(l, r') ← scan_items fuel' (skip_ws r); inr (JArr l, r')
            end
          else if c =? 123 then
            match eat 125 (skip_ws r) with
            | Some r' => inr (JObj [], r')
            | None => '(l, r') ← scan_members fuel' (skip_ws r) []; inr (JObj l, r')
            end
          else scan_atom s
      end
  end
with scan_items (fuel : nat) (s : pystr) : jexn + (list json * pystr) :=
  match fuel with
  | O => inl OutOfFuel
  | S fuel' =>
      '(v, r) ← scan_value fuel' s;
      match eat 93 (skip_ws r) with
      | Some r' => inr ([v], r')
      | None =>
      match eat 44 (skip_ws r) with
      | Some r' => '(l, r'') ← scan_items fuel' (skip_ws r'); inr (v :: l, r'')
      | None => inl JSONDecodeError
      end end
  end
with scan_members (fuel : nat) (s : pystr) (acc : list (pystr * json))
    : jexn + (list (pystr * json) * pystr) :=
  match fuel with
  | O => inl OutOfFuel
  | S fuel' =>
      match scan_key s with
      | None => inl JSONDecodeError
      | Some (k, r) =>
          '(v, r1) ← scan_value fuel' r;
          match eat 125 (skip_ws r1) with
          | Some r2 => inr (dict_set k v acc, r2)
          | None =>
          match eat 44 (skip_ws r1) with
          | Some r2 => scan_members fuel' (skip_ws r2) (dict_set k v acc)
          | None => inl JSONDecodeError
          end end
      end
  end.

Definition loads (s : pystr) : jexn + json :=
  match eat 65279 s with
  | Some _ => inl JSONDecodeError
  | None =>
      let s := skip_ws s in
      '(v, r) ← scan_value (2 + 2 * length s) s;
      match skip_ws r with
      | [] => inr v
      | _ => inl JSONDecodeError
      end
  end.

(** ** Well-formed values

    No floats, every string made of scalar values, every integer short enough
    for [int(str)], the keys of an object distinct: what the tunnel writes. *)

Definition scalar (c : Z) : bool :=
  (0 <=? c) && (c <=? 1114111) && negb (is_surrogate c).

Definition scalars (s : pystr) : bool := forallb scalar s.

Fixpoint wf_json (j : json) : bool :=
  match j with
  | JNull | JBool _ => true
  | JInt z => Z.abs z <? 10 ^ Z.of_nat MAX_STR_DIGITS
  | JFloat _ => false
  | JStr s => scalars s
  | JArr l => forallb wf_json l
  | JObj l => forallb (λ '(k, v), scalars k && wf_json v) l && bool_decide (NoDup l.*1)
  end.

(** What may follow a value in a text that [dumps] writes. *)
Definition follows (rest : pystr) : Prop :=
  match rest with
  | [] => True
  | c :: _ => c = 44 ∨ c = 93 ∨ c = 125
  end.

(** ** Induction on values *)

Section json_induction.
  Variable P : json → Prop.
  Hypothesis Hnull : P JNull.
  Hypothesis Hbool : ∀ b, P (JBool b).
  Hypothesis Hint : ∀ z, P (JInt z).
  Hypothesis Hfloat : ∀ r, P (JFloat r).
  Hypothesis Hstr : ∀ s, P (JStr s).
  Hypothesis Harr : ∀ l, Forall P l → P (JArr l).
  Hypothesis Hobj : ∀ l, Forall (λ kv, P kv.2) l → P (JObj l).

Fixpoint json_nested_ind (j : json) : P j :=
  match j with
  | JNull => Hnull
  | JBool b => Hbool b
  | JInt z => Hint z
  | JFloat r => Hfloat r
  | JStr s => Hstr s
  | JArr l => Harr l
      ((fix go l : Forall P l :=
          match l with
          | [] => Forall_nil_2 _
          | x :: l' => Forall_cons_2 _ _ _ (json_nested_ind x) (go l')
          end) l)
  | JObj l => Hobj l
      ((fix go l : Forall (λ kv, P kv.2) l :=
          match l with
          | [] => Forall_nil_2 _
          | x :: l' => Forall_cons_2 _ _ _ (json_nested_ind x.2) (go l')
          end) l)
  end.
End json_induction.

(** ** Strings *)

Lemma unhex_hex_digit n : 0 ≤ n < 16 → unhex (hex_digit n) = Some n.
Proof.
  intros H. unfold unhex, hex_digit.
  destruct (n <? 10) eqn:?; bool_prop; repeat decide_if; f_equal; lia.
Qed.

Lemma unhex4_hex4 c :
  0 ≤ c < 65536 →
  unhex4 (hex_digit (c / 4096 mod 16)) (hex_digit (c / 256 mod 16))
    (hex_digit (c / 16 mod 16)) (hex_digit (c mod 16)) = Some c.
Proof.
  intros H. unfold unhex4.
  rewrite !unhex_hex_digit by (apply Z.mod_pos_bound; lia). simpl. f_equal. divlia.
Qed.

Lemma scan_str_u c s :
  0 ≤ c < 65536 → is_high c = false → scan_str (u_escape c ++ s) = push c (scan_str s).
Proof.
  intros H Hh. unfold u_escape, hex4. cbn [app scan_str].
  change (92 =? 34) with false. change (92 =? 92) with true. change (117 =? 117) with true.
  cbn match. rewrite unhex4_hex4 by done. rewrite Hh. cbn [andb].
  do 6 (destruct s as [|? s]; [done|]). done.
Qed.

Lemma scan_str_pair h l s :
  is_high h = true → is_low l = true →
  scan_str (u_escape h ++ u_escape l ++ s)
  = push (65536 + (h - 55296) * 1024 + (l - 56320)) (scan_str s).
Proof.
  intros Hh Hl. unfold u_escape, hex4. cbn [app scan_str].
  change (92 =? 34) with false. change (92 =? 92) with true. change (117 =? 117) with true.
  cbn match. rewrite !unhex4_hex4 by (unfold is_high, is_low in *; bool_prop; lia).
  by rewrite Hh, Hl.
Qed.

Lemma scan_str_char c s :
  scalar c = true → scan_str (dump_char c ++ s) = push c (scan_str s).
Proof.
  unfold scalar, is_surrogate. intros H. bool_prop. unfold dump_char.
  destruct (c =? 34) eqn:?; [bool_prop; by subst|].
  destruct (c =? 92) eqn:?; [bool_prop; by subst|].
  destruct (c =? 10) eqn:?; [bool_prop; by subst|].
  destruct (c =? 13) eqn:?; [bool_prop; by subst|].
  destruct (c =? 9) eqn:?; [bool_prop; by subst|].
  destruct (c =? 12) eqn:?; [bool_prop; by subst|].
  destruct (c =? 8) eqn:?; [bool_prop; by subst|].
  destruct ((32 <=? c) && (c <=? 126)) eqn:?.
  - bool_prop. simpl. by repeat decide_if.
  - destruct (c <? 65536) eqn:?; bool_prop.
    + apply scan_str_u; [lia|]. unfold is_high.
      apply andb_false_iff. rewrite Z.leb_gt, Z.leb_gt.
      apply andb_false_iff in H0 as [?|?]; bool_prop; lia.
    + rewrite <-app_assoc, scan_str_pair.
      * f_equal. divlia.
      * unfold is_high. apply andb_true_iff. rewrite !Z.leb_le. divlia.
      * unfold is_low. apply andb_true_iff. rewrite !Z.leb_le. divlia.
Qed.

Lemma scan_dump_str s rest :
  scalars s = true → scan_str (mbind dump_char s ++ 34 :: rest) = Some (s, rest).
Proof.
  induction s as [|c s IH]; cbn [scalars forallb]; [done|].
  intros [Hc Hs]%andb_true_iff. cbn [mbind list_bind]. rewrite <-app_assoc.
  rewrite scan_str_char by done. by rewrite IH.
Qed.

(** ** Numbers *)

Lemma digits_value_app ds d : digits_value (ds ++ [d]) = digits_value ds * 10 + (d - 48).
Proof. unfold digits_value. by rewrite fold_left_app. Qed.

(** The digits of a number: enough fuel gives its decimal notation, without a
    leading zero. *)
Lemma dump_digits_spec fuel n acc :
  0 ≤ n < 10 ^ Z.of_nat fuel → (0 < fuel)%nat →
  ∃ ds, dump_digits fuel n acc = ds ++ acc ∧ forallb is_digit ds = true ∧
        digits_value ds = n ∧
        (∀ k : nat, (0 < k)%nat → n < 10 ^ Z.of_nat k → (length ds ≤ k)%nat) ∧
        (∃ c r, ds = c :: r ∧ (c = 48 → r = [])).
Proof.
  revert n acc. induction fuel as [|fuel IH]; intros n acc Hn Hf; [lia|].
  simpl. destruct (n <? 10) eqn:E; bool_prop.
  - exists [48 + n]. split_and!; try done.
    + unfold is_digit. simpl. rewrite andb_true_r. apply andb_true_iff.
      rewrite !Z.leb_le. lia.
    + unfold digits_value. simpl. lia.
    + eauto.
  - rewrite Nat2Z.inj_succ, Z.pow_succ_r in Hn by lia.
    assert (0 < fuel)%nat by (destruct fuel; [simpl in Hn|]; lia).
    destruct (IH (n / 10) ((48 + n mod 10) :: acc)) as (ds & -> & Hd & Hv & Hl & c & r & -> & Hc);
      [divlia|done|].
    exists ((c :: r) ++ [48 + n mod 10]). split_and!.
    + by rewrite <-app_assoc.
    + rewrite forallb_app, Hd. simpl. rewrite andb_true_r.
      unfold is_digit. apply andb_true_iff. rewrite !Z.leb_le. divlia.
    + rewrite digits_value_app, Hv. divlia.
    + intros k Hk Hnk. destruct k as [|k]; [lia|]. rewrite length_app. simpl.
      rewrite Nat2Z.inj_succ, Z.pow_succ_r in Hnk by lia.
      assert (0 < k)%nat by (destruct k; [simpl in Hnk|]; lia).
      specialize (Hl k ltac:(done) ltac:(divlia)). simpl in Hl. lia.
    + exists c, (r ++ [48 + n mod 10]). split; [done|]. intros ->.
      rewrite (Hc eq_refl) in Hv. unfold digits_value in Hv. simpl in Hv. divlia.
Qed.

Lemma dump_nat_spec n :
  0 ≤ n →
  ∃ c r, dump_nat n = c :: r ∧ forallb is_digit (c :: r) = true ∧
         digits_value (c :: r) = n ∧ (c = 48 → r = []) ∧
         (n < 10 ^ Z.of_nat MAX_STR_DIGITS → (length (c :: r) ≤ MAX_STR_DIGITS)%nat).
Proof.
  intros Hn. unfold dump_nat.
  destruct (dump_digits_spec (S (S (Z.to_nat (Z.log2 n)))) n [])
    as (ds & -> & Hd & Hv & Hl & c & r & -> & Hc); [|lia|].
  - split; [done|].
    destruct (decide (n = 0)) as [->|]; [done|].
    apply Z.lt_le_trans with (2 ^ Z.succ (Z.log2 n)); [apply Z.log2_spec; lia|].
    pose proof (Z.log2_nonneg n).
    apply Z.le_trans with (10 ^ Z.succ (Z.log2 n)); [apply Z.pow_le_mono_l; lia|].
    apply Z.pow_le_mono_r; lia.
  - exists c, r. rewrite app_nil_r. split_and!; try done.
    apply Hl. unfold MAX_STR_DIGITS. lia.
Qed.

Lemma span_app f ds rest :
  forallb f ds = true → match rest with c :: _ => f c = false | [] => True end →
  span f (ds ++ rest) = (ds, rest).
Proof.
  induction ds as [|d ds IH]; simpl.
  - intros _ Hr. destruct rest as [|c rest]; simpl; [done|by rewrite Hr].
  - intros [-> H]%andb_true_iff Hr. by rewrite IH.
Qed.

Lemma scan_int_digits c r rest :
  forallb is_digit (c :: r) = true → (c = 48 → r = []) → follows rest →
  scan_int ((c :: r) ++ rest) = Some (c :: r, rest).
Proof.
  intros Hd Hc Hf. unfold scan_int. simpl app. cbv iota.
  destruct (c =? 48) eqn:E; bool_prop.
  - subst. by rewrite Hc.
  - pose proof Hd as [-> _]%andb_true_iff. f_equal.
    apply (span_app is_digit (c :: r)); [done|].
    destruct rest as [|d rest]; [done|]. by destruct Hf as [->|[->| ->]].
Qed.

Lemma scan_tail rest :
  follows rest → scan_frac rest = ([], rest) ∧ scan_exp rest = ([], rest).
Proof. destruct rest as [|c rest]; [done|]. by intros [->|[->| ->]]. Qed.

(** An integer is not one of the words, and is read back. *)
Lemma scan_atom_int z rest :
  Z.abs z < 10 ^ Z.of_nat MAX_STR_DIGITS → follows rest →
  scan_atom (dump_int z ++ rest) = inr (JInt z, rest).
Proof.
  intros Hz Hf. destruct (scan_tail rest Hf) as [Hfr Hex]. unfold dump_int.
  destruct (dump_nat_spec (Z.abs z)) as (c & r & E & Hd & Hv & Hc & Hl); [lia|].
  specialize (Hl Hz). apply Nat.ltb_ge in Hl.
  pose proof (scan_int_digits c r rest Hd Hc Hf) as Hs.
  assert (48 ≤ c ≤ 57).
  { simpl in Hd. apply andb_true_iff in Hd as [Hd _]. unfold is_digit in Hd. bool_prop. lia. }
  assert (Hw : ∀ c d w j s, d ≠ c → scan_word (d :: w) j (c :: s) = None).
  { intros ? d w j s Hne. unfold scan_word. cbn [startswith].
    by rewrite (proj2 (Z.eqb_neq _ _)). }
  assert (Hm : ∀ d w j s, d ≠ c → scan_word (45 :: d :: w) j (45 :: c :: s) = None).
  { intros d w j s Hne. unfold scan_word. cbn [startswith].
    by rewrite Z.eqb_refl, (proj2 (Z.eqb_neq _ _)). }
  unfold scan_atom, py, chr.
  destruct (z <? 0) eqn:Hneg; bool_prop.
  - replace (- z) with (Z.abs z) by lia. rewrite E. cbn [app list_ascii_of_string fmap list_fmap].
    rewrite !(Hw 45) by done.
    change (Z.of_N (N_of_ascii "-"%char)) with 45. rewrite Hm by (cbn; lia).
    unfold scan_number, scan_unsigned. cbn [eat]. rewrite Z.eqb_refl.
    change (c :: r ++ rest) with ((c :: r) ++ rest). rewrite Hs, Hfr, Hex. cbn [app].
    rewrite Hl, Hv. do 3 f_equal. lia.
  - rewrite (Z.abs_eq z) in E, Hv by done. rewrite E. cbn [app list_ascii_of_string fmap list_fmap].
    rewrite !(Hw c) by (cbn; lia).
    unfold scan_number, scan_unsigned. cbn [eat]. rewrite (proj2 (Z.eqb_neq c 45)) by lia.
    change (c :: r ++ rest) with ((c :: r) ++ rest). rewrite Hs, Hfr, Hex. cbn [app].
    by rewrite Hl, Hv.
Qed.

(** ** Values *)

Lemma dump_int_head z : ∃ c r, dump_int z = c :: r ∧ (c = 45 ∨ 48 ≤ c ≤ 57).
Proof.
  unfold dump_int. destruct (z <? 0) eqn:E; bool_prop; [repeat eexists; by left|].
  destruct (dump_nat_spec z E) as (c & r & -> & Hd & _). exists c, r. split; [done|right].
  simpl in Hd. apply andb_true_iff in Hd as [Hd _]. unfold is_digit in Hd. bool_prop. lia.
Qed.

(** The first character of a written value: not white space, not a bracket
    that closes an empty array or object. *)
Lemma dumps_head j :
  wf_json j = true →
  ∃ c r, dumps j = c :: r ∧ is_ws c = false ∧ c ≠ 93 ∧ c ≠ 125 ∧ c ≠ 65279.
Proof.
  destruct j as [|[]|z|raw|s|l|l]; simpl; intros Hwf; try done; try by repeat eexists.
  destruct (dump_int_head z) as (c & r & -> & Hc).
  exists c, r. unfold is_ws. split_and!; try done; lia.
Qed.

Lemma skip_ws_head c r : is_ws c = false → skip_ws (c :: r) = c :: r.
Proof. simpl. by intros ->. Qed.

Lemma eat_ne c d r : d ≠ c → eat c (d :: r) = None.
Proof. intros H. simpl. by rewrite (proj2 (Z.eqb_neq _ _)). Qed.

(** The separator [", "] between two items. *)
Lemma sep_items s :
  eat 93 (skip_ws (44 :: 32 :: s)) = None ∧ eat 125 (skip_ws (44 :: 32 :: s)) = None ∧
  eat 44 (skip_ws (44 :: 32 :: s)) = Some (32 :: s).
Proof. done. Qed.

Lemma skip_sep c r : is_ws c = false → skip_ws (32 :: c :: r) = c :: r.
Proof. intros H. by rewrite <-(skip_ws_head c r H) at 2. Qed.

(** A value is read back from a text that it starts, with fuel in proportion
    to its length. *)
Definition reads_back (j : json) : Prop :=
  wf_json j = true → ∀ fuel rest, follows rest →
  (2 * length (dumps j) + 1 ≤ fuel)%nat →
  scan_value fuel (dumps j ++ rest) = inr (j, rest).

Lemma scan_items_back l rest fuel :
  l ≠ [] → Forall reads_back l → forallb wf_json l = true →
  (2 * length (join_items (dumps <$> l)) + 2 ≤ fuel)%nat →
  scan_items fuel (join_items (dumps <$> l) ++ 93 :: rest) = inr (l, rest).
Proof.
  intros Hne Hl. revert fuel. induction Hl as [|j l Hj Hl IH]; [done|].
  intros fuel Hwf Hfuel. simpl in Hwf. apply andb_true_iff in Hwf as [Hwf Hwfl].
  destruct fuel as [|fuel]; [lia|]. destruct l as [|j' l].
  - simpl in Hfuel |- *. rewrite Hj; [|done|by right; left|lia]. done.
  - change (join_items (dumps <$> j :: j' :: l))
      with (dumps j ++ 44 :: 32 :: join_items (dumps <$> j' :: l)) in *.
    rewrite length_app in Hfuel. rewrite ?length_cons in Hfuel.
    rewrite <-app_assoc. cbn [scan_items app].
    rewrite Hj; [|done|by left|lia]. cbn [mbind sum_bind].
    assert (∃ c r, join_items (dumps <$> j' :: l) ++ 93 :: rest = c :: r ∧ is_ws c = false)
      as (c & r & E & Hc).
    { apply andb_true_iff in Hwfl as [Hwf' _].
      destruct (dumps_head j' Hwf') as (c & r & E & Hc & _). exists c.
      destruct l; simpl; rewrite E; eexists; by split. }
    destruct (sep_items (join_items (dumps <$> j' :: l) ++ 93 :: rest)) as (-> & _ & ->).
    rewrite E, skip_sep, <-E by done. rewrite IH; [done|done|done|lia].
Qed.

Abbreviation dump_member := (λ '(k, v), dump_str k ++ 58 :: 32 :: dumps v) (only parsing).

Lemma scan_key_dump k v rest :
  scalars k = true → wf_json v = true →
  scan_key ((dump_str k ++ 58 :: 32 :: dumps v) ++ rest) = Some (k, dumps v ++ rest).
Proof.
  intros Hk Hv. unfold scan_key, dump_str. cbn [app eat]. rewrite Z.eqb_refl.
  cbn [mbind option_bind]. rewrite <-!app_assoc. cbn [app]. rewrite scan_dump_str by done.
  cbn [mbind option_bind]. rewrite skip_ws_head by done. cbn [eat]. rewrite Z.eqb_refl.
  cbn [mbind option_bind].
  destruct (dumps_head v Hv) as (c & r & -> & Hc & _). cbn [app]. by rewrite skip_sep.
Qed.

Lemma dict_set_fresh {A} k (v : A) l : k ∉ l.*1 → dict_set k v l = l ++ [(k, v)].
Proof.
  induction l as [|[k' v'] l IH]; simpl; [done|].
  rewrite not_elem_of_cons. intros [Hk Hl]. rewrite decide_False by done. by rewrite IH.
Qed.

Lemma scan_members_back l rest fuel acc :
  l ≠ [] → Forall (λ kv, reads_back kv.2) l →
  forallb (λ '(k, v), scalars k && wf_json v) l = true → NoDup (acc ++ l).*1 →
  (2 * length (join_items (dump_member <$> l)) + 2 ≤ fuel)%nat →
  scan_members fuel (join_items (dump_member <$> l) ++ 125 :: rest) acc
  = inr (acc ++ l, rest).
Proof.
  intros Hne Hl. revert fuel acc. induction Hl as [|[k v] l Hj Hl IH]; [done|].
  intros fuel acc Hwf Hnd Hfuel. cbn [forallb] in Hwf. simpl in Hj.
  apply andb_true_iff in Hwf as [[Hk Hv]%andb_true_iff Hwfl].
  assert (k ∉ acc.*1).
  { rewrite fmap_app, NoDup_app in Hnd. intros Hin.
    destruct Hnd as (_ & Hd & _). apply (Hd k Hin). simpl. by left. }
  destruct fuel as [|fuel]; [lia|]. destruct l as [|kv' l].
  - cbn [fmap list_fmap join_items] in Hfuel |- *. cbn [scan_members].
    rewrite scan_key_dump by done. rewrite length_app in Hfuel. rewrite ?length_cons in Hfuel.
    rewrite Hj; [|done|by right; right|lia]. cbn [mbind sum_bind].
    by rewrite <-dict_set_fresh.
  - change (join_items (dump_member <$> (k, v) :: kv' :: l))
      with ((dump_str k ++ 58 :: 32 :: dumps v) ++ 44 :: 32 :: join_items (dump_member <$> kv' :: l)) in *.
    rewrite !length_app in Hfuel. rewrite ?length_cons in Hfuel.
    rewrite <-app_assoc. cbn [scan_members app].
    rewrite scan_key_dump by done. rewrite Hj; [|done|by left|lia]. cbn [mbind sum_bind].
    assert (∃ r, join_items (dump_member <$> kv' :: l) ++ 125 :: rest = 34 :: r) as (r & E).
    { destruct kv' as [k' v']. destruct l; simpl; eexists; done. }
    destruct (sep_items (join_items (dump_member <$> kv' :: l) ++ 125 :: rest)) as (_ & -> & ->).
    rewrite E, skip_sep, <-E, dict_set_fresh, IH; try done.
    + by rewrite <-app_assoc.
    + by rewrite <-app_assoc.
    + lia.
Qed.

Lemma scan_value_back j : reads_back j.
Proof.
  induction j as [|b|z|raw|s|l IH|l IH] using json_nested_ind; intros Hwf fuel rest Hf Hfuel;
    (destruct fuel as [|fuel]; [lia|]); try done.
  - by destruct b.
  - destruct (dump_int_head z) as (c & r & E & Hc). cbn [wf_json] in Hwf. bool_prop.
    rewrite <-(scan_atom_int z rest) by done. cbn [dumps]. rewrite E. cbn [app scan_value].
    repeat decide_if. done.
  - cbn [wf_json dumps] in *. unfold dump_str. cbn [app scan_value].
    rewrite <-app_assoc. cbn [app]. by rewrite scan_dump_str.
  - cbn [wf_json dumps] in *. cbn [app scan_value]. rewrite <-app_assoc. cbn [app].
    change (91 =? 34) with false. change (91 =? 91) with true. cbv iota.
    destruct l as [|j l]; [done|].
    destruct (dumps_head j) as (c & r & E & Hc & Hc1 & _);
      [by apply andb_true_iff in Hwf as [? _]|].
    assert (∃ r', join_items (dumps <$> j :: l) ++ 93 :: rest = c :: r') as [r' E'].
    { destruct l; simpl; rewrite E; by eexists. }
    rewrite E', skip_ws_head, eat_ne, <-E' by done.
    rewrite scan_items_back; try done. rewrite length_cons, length_app in Hfuel. lia.
  - cbn [wf_json dumps] in *. cbn [app scan_value]. rewrite <-app_assoc. cbn [app].
    change (123 =? 34) with false. change (123 =? 91) with false. change (123 =? 123) with true.
    cbv iota. destruct l as [|[k v] l]; [done|].
    apply andb_true_iff in Hwf as [Hwf Hnd]. apply bool_decide_eq_true in Hnd.
    assert (∃ r', join_items (dump_member <$> (k, v) :: l) ++ 125 :: rest = 34 :: r') as [r' E'].
    { destruct l; simpl; by eexists. }
    rewrite E', skip_ws_head, eat_ne, <-E' by done.
    rewrite scan_members_back; try done. rewrite length_cons, length_app in Hfuel. lia.
Qed.

(** Reading what was written gives the value back. *)
Lemma loads_dumps j : wf_json j = true → loads (dumps j) = inr j.
Proof.
  intros Hwf. destruct (dumps_head j Hwf) as (c & r & E & Hc & _ & _ & Hb). unfold loads.
  rewrite E, eat_ne, skip_ws_head, <-E by done. cbv zeta.
  rewrite <-(app_nil_r (dumps j)) at 2.
  by rewrite scan_value_back by (done || lia).
Qed.

(** ** The fuel of [loads] is enough *)

Lemma skip_ws_length s : (length (skip_ws s) ≤ length s)%nat.
Proof. induction s as [|c s IH]; simpl; [lia|]. destruct (is_ws c); simpl; lia. Qed.

Lemma eat_length c s r : eat c s = Some r → length s = S (length r).
Proof. destruct s as [|d s]; simpl; [done|]. intros. by case_all. Qed.

Lemma push_Some c r s rest : push c r = Some (s, rest) → ∃ s', r = Some (s', rest).
Proof. destruct r as [[s' rest']|]; simpl; [|done]. intros [= _ <-]. eauto. Qed.

Lemma scan_str_length s str r : scan_str s = Some (str, r) → (length r < length s)%nat.
Proof.
  remember (length s) as n eqn:Hn. revert s Hn str.
  induction n as [n IH] using lt_wf_ind. intros s -> str.
  assert (IHc : ∀ c s' str', (length s' < length s)%nat →
            push c (scan_str s') = Some (str', r) → (length r < length s)%nat).
  { intros c s' str' Hlt [str'' Hs]%push_Some. specialize (IH _ Hlt s' eq_refl str'' Hs). lia. }
  intros H. destruct s as [|c s]; [done|]. cbn [scan_str] in H.
  destruct (c =? 34); [simplify_eq/=; lia|]. destruct (c =? 92).
  - destruct s as [|e s]; [done|]. destruct (e =? 117).
    + do 4 (destruct s as [|? s]; [done|]).
      destruct (unhex4 _ _ _ _) as [u|]; [|done].
      do 6 (destruct s as [|? s]; [eapply IHc; [|exact H]; simpl; lia|]).
      destruct (_ && _); [|eapply IHc; [|exact H]; simpl; lia].
      destruct (unhex4 _ _ _ _) as [u2|]; [|done].
      destruct (is_low u2); (eapply IHc; [|exact H]; simpl; lia).
    + destruct (simple_escape e); [|done]. eapply IHc; [|exact H]; simpl; lia.
  - destruct (c <? 32); [done|]. eapply IHc; [|exact H]; simpl; lia.
Qed.

Lemma span_length f s a b : span f s = (a, b) → length s = (length a + length b)%nat.
Proof.
  revert a b. induction s as [|c s IH]; simpl; intros a b; [by intros [= <- <-]|].
  destruct (f c); [|by intros [= <- <-]].
  destruct (span f s) as [a' b'] eqn:E. intros [= <- <-]. simpl. by rewrite (IH a' b').
Qed.

(** A scanner that never runs out of fuel and consumes some of its input. *)
Definition consumes {A} (s : pystr) (r : jexn + (A * pystr)) : Prop :=
  match r with
  | inl e => e ≠ OutOfFuel
  | inr (_, rest) => (length rest < length s)%nat
  end.

Lemma scan_int_length s ds r : scan_int s = Some (ds, r) → (length r < length s)%nat.
Proof.
  unfold scan_int. destruct s as [|c s]; [done|].
  destruct (c =? 48); [intros; simplify_eq/=; lia|].
  destruct (is_digit c) eqn:Hd; [|done]. simpl. rewrite Hd.
  destruct (span is_digit s) as [a b] eqn:E. apply span_length in E. intros. simplify_eq/=. lia.
Qed.

Lemma scan_frac_length s ds r : scan_frac s = (ds, r) → (length r ≤ length s)%nat.
Proof.
  unfold scan_frac. destruct (eat 46 s) as [s'|] eqn:He; [|intros; by simplify_eq/=].
  apply eat_length in He. destruct (span is_digit s') as [[|] b] eqn:E;
    apply span_length in E; intros; simplify_eq/=; lia.
Qed.

Lemma scan_exp_length s ds r : scan_exp s = (ds, r) → (length r ≤ length s)%nat.
Proof.
  unfold scan_exp. destruct s as [|c s]; [intros; by simplify_eq/=|].
  destruct ((c =? 101) || (c =? 69)); [|intros; by simplify_eq/=].
  destruct s as [|d s]; [intros; by simplify_eq/=|].
  destruct ((d =? 43) || (d =? 45));
    destruct (span is_digit _) as [[|] b] eqn:E; apply span_length in E;
    intros; simplify_eq/=; lia.
Qed.

Lemma scan_unsigned_consumes neg s : consumes s (scan_unsigned neg s).
Proof.
  unfold scan_unsigned. destruct (scan_int s) as [[ds r]|] eqn:Hi; [|done].
  destruct (scan_frac r) as [fr r1] eqn:Hfr. destruct (scan_exp r1) as [ex r2] eqn:Hex.
  apply scan_int_length in Hi. apply scan_frac_length in Hfr. apply scan_exp_length in Hex.
  destruct (fr ++ ex); [destruct (_ <? _)%nat; [done|]|]; simpl; lia.
Qed.

Lemma scan_atom_consumes s : consumes s (scan_atom s).
Proof.
  assert (Hw : ∀ c w j x, scan_word (c :: w) j s = Some x → consumes s (inr x)).
  { unfold scan_word. intros c w j x H. destruct (startswith s (c :: w)) eqn:E; [|done].
    destruct s as [|d s']; [done|]. simplify_eq/=. rewrite length_drop. lia. }
  unfold scan_atom.
  repeat match goal with
  | |- consumes _ (match scan_word ?w ?j s with _ => _ end) =>
      let E := fresh in destruct (scan_word w j s) eqn:E; [exact (Hw _ _ _ _ E)|clear E]
  end.
  unfold scan_number. destruct (eat 45 s) as [s'|] eqn:He; [|apply scan_unsigned_consumes].
  apply eat_length in He. pose proof (scan_unsigned_consumes true s') as Hc. unfold consumes in *.
  case_all; [done|lia].
Qed.

Lemma scan_key_length s k r : scan_key s = Some (k, r) → (length r + 2 ≤ length s)%nat.
Proof.
  unfold scan_key. intros H. destruct (eat 34 s) as [r0|] eqn:E0; [simpl in H|done].
  destruct (scan_str r0) as [[k' r1]|] eqn:E1; [simpl in H|done].
  destruct (eat 58 (skip_ws r1)) as [r2|] eqn:E2; simplify_eq/=.
  apply eat_length in E0, E2. apply scan_str_length in E1.
  pose proof (skip_ws_length r1). pose proof (skip_ws_length r2). lia.
Qed.

Lemma scan_consumes fuel :
  (∀ s, (2 * length s + 1 ≤ fuel)%nat → consumes s (scan_value fuel s)) ∧
  (∀ s, (2 * length s + 2 ≤ fuel)%nat → consumes s (scan_items fuel s)) ∧
  (∀ s acc, (2 * length s + 2 ≤ fuel)%nat → consumes s (scan_members fuel s acc)).
Proof.
  induction fuel as [|fuel (IHv & IHi & IHm)]; [split_and!; intros; lia|].
  split_and!.
  - intros s Hs. cbn [scan_value]. destruct s as [|c r]; [done|]. simpl in Hs.
    pose proof (skip_ws_length r).
    destruct (c =? 34); [destruct (scan_str r) as [[]|] eqn:E; [apply scan_str_length in E; simpl; lia|done]|].
    destruct (c =? 91).
    { destruct (eat 93 _) eqn:E; [apply eat_length in E; simpl; lia|].
      specialize (IHi (skip_ws r) ltac:(lia)).
      destruct (scan_items fuel (skip_ws r)) as [|[]]; simpl in *; [done|lia]. }
    destruct (c =? 123); [|apply scan_atom_consumes].
    destruct (eat 125 _) eqn:E; [apply eat_length in E; simpl; lia|].
    specialize (IHm (skip_ws r) [] ltac:(lia)).
    destruct (scan_members fuel (skip_ws r) []) as [|[]]; simpl in *; [done|lia].
  - intros s Hs. cbn [scan_items]. specialize (IHv s ltac:(lia)).
    destruct (scan_value fuel s) as [|[v r]]; simpl in IHv |- *; [done|].
    pose proof (skip_ws_length r).
    destruct (eat 93 _) eqn:E; [apply eat_length in E; simpl; lia|].
    destruct (eat 44 _) as [r'|] eqn:E'; [apply eat_length in E'|done].
    pose proof (skip_ws_length r'). specialize (IHi (skip_ws r') ltac:(lia)).
    destruct (scan_items fuel (skip_ws r')) as [|[]]; simpl in *; [done|lia].
  - intros s acc Hs. cbn [scan_members].
    destruct (scan_key s) as [[k r]|] eqn:Hk; [apply scan_key_length in Hk|done].
    specialize (IHv r ltac:(lia)).
    destruct (scan_value fuel r) as [|[v r1]]; simpl in IHv |- *; [done|].
    pose proof (skip_ws_length r1).
    destruct (eat 125 _) eqn:E; [apply eat_length in E; simpl; lia|].
    destruct (eat 44 _) as [r'|] eqn:E'; [apply eat_length in E'|done].
    pose proof (skip_ws_length r'). specialize (IHm (skip_ws r') (dict_set k v acc) ltac:(lia)).
    destruct (scan_members fuel (skip_ws r') _) as [|[]]; simpl in *; [done|lia].
Qed.

(** [loads] never stops for lack of fuel: its failures are those of Python. *)
Lemma loads_fuel s : loads s ≠ inl OutOfFuel.
Proof.
  unfold loads. destruct (eat 65279 s); [done|]. cbv zeta.
  destruct (scan_consumes (2 + 2 * length (skip_ws s))) as (Hv & _).
  specialize (Hv (skip_ws s) ltac:(lia)).
  destruct (scan_value _ _) as [e|[v r]]; simpl in *; [congruence|]. by destruct (skip_ws r).
Qed.
