(* ===== verification/Metadata.v ===== *)
(** The OPEN and WS_OPEN metadata of [src/tunnel/metadata.py]: the JSON
    payloads with their size cap and the validation of what is received. *)

From Stdlib Require Import String.
From S2P Require Import Prelude Utf8 Frames Json.

Definition METADATA_MAX_BYTES : Z := 16384.

Definition too_large (raw : bytes) : bool := METADATA_MAX_BYTES <? Z.of_nat (length raw).

(** A [dict[str, str]], in insertion order. *)
Abbreviation headers_dict := (list (pystr * pystr)) (only parsing).

Record RequestMetadata := {
  rm_method : pystr;
  rm_path : pystr;
  rm_query : pystr;
  rm_headers : headers_dict;
  rm_content_length : Z
}.

Record WsOpenMetadata := {
  wm_path : pystr;
  wm_query : pystr;
  wm_headers : headers_dict
}.

(** ** Validation *)

Definition _require_str (obj : list (pystr * json)) (key : pystr) : TunnelExn + pystr :=
  match dict_get key obj with
  | Some (JStr s) => inr s
  | _ => inl MetadataError
  end.

(** The values of a dictionary, if all of them are strings. *)
Fixpoint str_values (l : list (pystr * json)) : option headers_dict :=
  match l with
  | [] => Some []
  | (k, JStr v) :: l' => cons (k, v) <$> str_values l'
  | _ => None
  end.

Definition _require_headers (obj : list (pystr * json)) : TunnelExn + headers_dict :=
  match dict_get (py "headers") obj with
  | Some (JObj l) => match str_values l with Some h => inr h | None => inl MetadataError end
  | _ => inl MetadataError
  end.

(** [except (UnicodeDecodeError, JSONDecodeError)]: the plain [ValueError] of an
    integer with too many digits is neither. *)
Definition _parse_json (raw : bytes) : TunnelExn + list (pystr * json) :=
  match utf8_decode raw with
  | None => inl MetadataError
  | Some text =>
      match loads text with
      | inl IntDigitsError => inl ValueError
      | inl _ => inl MetadataError
      | inr (JObj obj) => inr obj
      | inr _ => inl MetadataError
      end
  end.

(** ** Payloads *)

(** [json.dumps(...).encode("utf-8")] and the size cap. *)
Definition encode_capped (j : json) : TunnelExn + bytes :=
  match utf8_encode (dumps j) with
  | None => inl ValueError
  | Some payload => if too_large payload then inl MetadataTooLargeError else inr payload
  end.

Definition header_item (kv : pystr * pystr) : pystr * json := (kv.1, JStr kv.2).

Definition json_headers (h : headers_dict) : json := JObj (header_item <$> h).

Definition request_json (m : RequestMetadata) : json :=
  JObj [(py "method", JStr (rm_method m));
        (py "path", JStr (rm_path m));
        (py "query", JStr (rm_query m));
        (py "headers", json_headers (rm_headers m));
        (py "content_length", JInt (rm_content_length m))].

Definition request_to_payload (m : RequestMetadata) : TunnelExn + bytes :=
  encode_capped (request_json m).

(** [obj.get("content_length", 0)] and its check, which refuses a [bool]. *)
Definition get_content_length (obj : list (pystr * json)) : TunnelExn + Z :=
  match dict_get (py "content_length") obj with
  | None => inr 0
  | Some (JInt z) => inr z
  | Some _ => inl MetadataError
  end.

Definition request_from_payload (raw : bytes) : TunnelExn + RequestMetadata :=
  if too_large raw then inl MetadataTooLargeError
  else
    obj ← _parse_json raw;
    content_length ← get_content_length obj;
    method ← _require_str obj (py "method");
    path ← _require_str obj (py "path");
    query ← _require_str obj (py "query");
    headers ← _require_headers obj;
    inr {| rm_method := method; rm_path := path; rm_query := query;
           rm_headers := headers; rm_content_length := content_length |}.

Definition ws_open_json (m : WsOpenMetadata) : json :=
  JObj [(py "path", JStr (wm_path m));
        (py "query", JStr (wm_query m));
        (py "headers", json_headers (wm_headers m))].

Definition ws_open_to_payload (m : WsOpenMetadata) : TunnelExn + bytes :=
  encode_capped (ws_open_json m).

Definition ws_open_from_payload (raw : bytes) : TunnelExn + WsOpenMetadata :=
  if too_large raw then inl MetadataTooLargeError
  else
    obj ← _parse_json raw;
    path ← _require_str obj (py "path");
    query ← _require_str obj (py "query");
    headers ← _require_headers obj;
    inr {| wm_path := path; wm_query := query; wm_headers := headers |}.

(** ** Well-formed metadata: text without lone surrogates, header names
    distinct as the keys of a dictionary are *)

Definition wf_headers (h : headers_dict) : bool :=
  forallb (λ '(k, v), scalars k && scalars v) h && bool_decide (NoDup h.*1).

Definition wf_request (m : RequestMetadata) : bool :=
  scalars (rm_method m) && scalars (rm_path m) && scalars (rm_query m)
  && wf_headers (rm_headers m)
  && (Z.abs (rm_content_length m) <? 10 ^ Z.of_nat MAX_STR_DIGITS).

Definition wf_ws_open (m : WsOpenMetadata) : bool :=
  scalars (wm_path m) && scalars (wm_query m) && wf_headers (wm_headers m).

(** ** What [dumps] writes is ASCII, one byte per character *)

Lemma hex_digit_ascii n : 0 ≤ n < 16 → is_ascii (hex_digit n) = true.
Proof.
  intros H. unfold is_ascii, hex_digit. case_match; bool_prop; apply andb_true_iff;
    rewrite Z.leb_le, Z.ltb_lt; lia.
Qed.

Lemma dump_char_ascii c : forallb is_ascii (dump_char c) = true.
Proof.
  assert (Hu : ∀ u, forallb is_ascii (u_escape u) = true).
  { intros u. simpl. rewrite !hex_digit_ascii by (apply Z.mod_pos_bound; lia). done. }
  unfold dump_char.
  do 7 (match goal with |- context [if ?b then _ else _] => destruct b; [done|] end).
  destruct ((32 <=? c) && (c <=? 126)) eqn:E.
  - bool_prop. cbn [forallb]. unfold is_ascii. rewrite andb_true_r. apply andb_true_iff.
    rewrite Z.leb_le, Z.ltb_lt. lia.
  - destruct (c <? 65536); [apply Hu|]. by rewrite forallb_app, !Hu.
Qed.

Lemma dump_str_ascii s : forallb is_ascii (dump_str s) = true.
Proof.
  unfold dump_str. cbn [forallb]. rewrite forallb_app. simpl. rewrite andb_true_r.
  induction s as [|c s IH]; simpl; [done|]. by rewrite forallb_app, dump_char_ascii.
Qed.

Lemma join_items_ascii l :
  Forall (λ s, forallb is_ascii s = true) l → forallb is_ascii (join_items l) = true.
Proof.
  induction 1 as [|x l Hx Hl IH]; [done|]. destruct l as [|y l]; [done|].
  change (join_items (x :: y :: l)) with (x ++ 44 :: 32 :: join_items (y :: l)).
  rewrite forallb_app, Hx. simpl forallb at 1. exact IH.
Qed.

Lemma dump_int_ascii z : forallb is_ascii (dump_int z) = true.
Proof.
  assert (H : ∀ n, 0 ≤ n → forallb is_ascii (dump_nat n) = true).
  { intros n Hn. destruct (dump_nat_spec n Hn) as (c & r & -> & Hd & _).
    rewrite forallb_forall in Hd |- *. intros x Hx%Hd. unfold is_digit, is_ascii in *.
    bool_prop. apply andb_true_iff. rewrite Z.leb_le, Z.ltb_lt. lia. }
  unfold dump_int. case_match; bool_prop; [|by apply H].
  cbn [forallb]. by rewrite H by lia.
Qed.

Lemma dumps_ascii j : wf_json j = true → forallb is_ascii (dumps j) = true.
Proof.
  induction j as [|[]|z|raw|s|l IH|l IH] using json_nested_ind; intros Hwf; try done.
  - apply dump_int_ascii.
  - apply dump_str_ascii.
  - cbn [wf_json dumps forallb] in *. rewrite forallb_app. rewrite join_items_ascii; [done|].
    rewrite forallb_forall in Hwf. rewrite Forall_fmap, Forall_forall in *.
    intros x Hx. apply IH; [done|]. apply Hwf. by apply list_elem_of_In.
  - cbn [wf_json dumps forallb] in *. rewrite forallb_app. rewrite join_items_ascii; [done|].
    apply andb_true_iff in Hwf as [Hwf _].
    rewrite forallb_forall in Hwf. rewrite Forall_fmap, Forall_forall in *.
    intros [k v] Hx. cbn [compose]. rewrite forallb_app, dump_str_ascii. cbn [forallb].
    apply (IH _ Hx). apply list_elem_of_In, Hwf in Hx. by apply andb_true_iff in Hx as [_ ?].
Qed.

(** ** Helper lemmas *)

Lemma encode_capped_spec j :
  wf_json j = true →
  encode_capped j = if METADATA_MAX_BYTES <? Z.of_nat (length (dumps j))
                    then inl MetadataTooLargeError else inr (Z_byte <$> dumps j).
Proof.
  intros Hwf. unfold encode_capped, too_large.
  by rewrite utf8_encode_ascii, length_fmap by by apply dumps_ascii.
Qed.

(** A written object is parsed back, and passes the size cap. *)
Lemma parse_capped obj payload :
  wf_json (JObj obj) = true → encode_capped (JObj obj) = inr payload →
  too_large payload = false ∧ _parse_json payload = inr obj.
Proof.
  intros Hwf. unfold encode_capped, _parse_json.
  destruct (utf8_encode _) as [bs|] eqn:E; [|done].
  destruct (too_large bs) eqn:T; [done|]. intros [= <-].
  by rewrite (utf8_decode_encode _ _ E), (loads_dumps _ Hwf).
Qed.

Lemma wf_json_headers h : wf_headers h = true → wf_json (json_headers h) = true.
Proof.
  unfold wf_headers, json_headers. cbn [wf_json]. intros [H1 H2]%andb_true_iff.
  apply andb_true_iff. split.
  - rewrite forallb_forall in *. intros [k v] Hx.
    apply list_elem_of_In, list_elem_of_fmap in Hx as ([k' v'] & [= -> ->] & Hx).
    apply list_elem_of_In, H1 in Hx. exact Hx.
  - rewrite <-list_fmap_compose.
    rewrite (list_fmap_ext _ fst); [done|]. by intros ? [].
Qed.

Lemma str_values_headers h :
  str_values (header_item <$> h) = Some h.
Proof. induction h as [|[k v] h IH]; [done|]. cbn. by rewrite IH. Qed.

Lemma require_headers_json obj h :
  dict_get (py "headers") obj = Some (json_headers h) → _require_headers obj = inr h.
Proof. unfold _require_headers. intros ->. cbn. by rewrite str_values_headers. Qed.

Lemma capped_fits ft u payload :
  too_large payload = false →
  Z.of_nat (length payload) ≤ METADATA_MAX_BYTES ∧
  ∃ wire, serialize_frame ft u payload = inr wire.
Proof.
  unfold too_large, METADATA_MAX_BYTES, serialize_frame, MAX_PAYLOAD_BYTES. intros H.
  bool_prop. split; [done|]. case_match; bool_prop; [lia|eauto].
Qed.

Lemma encode_capped_error j e :
  wf_json j = true → encode_capped j = inl e →
  e = MetadataTooLargeError ∧ METADATA_MAX_BYTES < Z.of_nat (length (dumps j)).
Proof. intros Hwf. rewrite encode_capped_spec by done. case_match; bool_prop; by intros [= <-]. Qed.

Lemma wf_request_json m : wf_request m = true → wf_json (request_json m) = true.
Proof.
  unfold wf_request. intros Hwf. bool_prop.
  cbn -[scalars MAX_STR_DIGITS Z.pow json_headers bool_decide py].
  rewrite wf_json_headers by done. repeat (apply andb_true_iff; split); try done.
  by apply Z.ltb_lt.
Qed.

Lemma wf_ws_open_json m : wf_ws_open m = true → wf_json (ws_open_json m) = true.
Proof.
  unfold wf_ws_open. intros Hwf. bool_prop.
  cbn -[scalars json_headers bool_decide py].
  rewrite wf_json_headers by done. by repeat (apply andb_true_iff; split).
Qed.

Lemma parse_json_error raw e :
  _parse_json raw = inl e →
  e = MetadataError
  ∨ e = ValueError ∧ ∃ text, utf8_decode raw = Some text ∧ loads text = inl IntDigitsError.
Proof.
  unfold _parse_json. destruct (utf8_decode raw) as [text|] eqn:Hu; [|intros [= <-]; by left].
  destruct (loads text) as [[]|[]] eqn:Hl; intros; simplify_eq; eauto 6.
Qed.

Lemma require_str_spec obj k :
  match _require_str obj k with
  | inl e => e = MetadataError
  | inr s => dict_get k obj = Some (JStr s)
  end.
Proof. unfold _require_str. by case_all. Qed.

Lemma require_headers_spec obj :
  match _require_headers obj with
  | inl e => e = MetadataError
  | inr h => dict_get (py "headers") obj = Some (json_headers h)
  end.
Proof.
  unfold _require_headers. destruct (dict_get _ _) as [[| | | | | |l]|]; try done.
  destruct (str_values l) as [h|] eqn:E; [|done]. unfold json_headers. do 2 f_equal.
  revert h E. induction l as [|[k []] l IH]; intros h; simpl; try done; [by intros [= <-]|].
  destruct (str_values l) as [h'|]; simpl; [|done]. intros [= <-]. by rewrite (IH h').
Qed.

(** ** Properties *)

(** the metadata of a request survives the tunnel: what [to_payload]
    accepts, [from_payload] reads back field by field, and it fits in one
    frame; [to_payload] refuses only metadata whose JSON text exceeds
    METADATA_MAX_BYTES, and with [MetadataTooLargeError].  The same holds for
    the metadata of a WebSocket. *)
Theorem metadata_roundtrip (m : RequestMetadata) (w : WsOpenMetadata) (u : UUID) :
  wf_request m = true → wf_ws_open w = true →
  match request_to_payload m with
  | inr payload =>
      request_from_payload payload = inr m
      ∧ Z.of_nat (length payload) ≤ METADATA_MAX_BYTES
      ∧ ∃ wire, serialize_frame OPEN u payload = inr wire
  | inl e => e = MetadataTooLargeError
             ∧ METADATA_MAX_BYTES < Z.of_nat (length (dumps (request_json m)))
  end ∧
  match ws_open_to_payload w with
  | inr payload =>
      ws_open_from_payload payload = inr w
      ∧ Z.of_nat (length payload) ≤ METADATA_MAX_BYTES
      ∧ ∃ wire, serialize_frame WS_OPEN u payload = inr wire
  | inl e => e = MetadataTooLargeError
             ∧ METADATA_MAX_BYTES < Z.of_nat (length (dumps (ws_open_json w)))
  end.
Proof.
  intros Hm%wf_request_json Hw%wf_ws_open_json. split.
  - unfold request_to_payload. destruct (encode_capped _) as [e|payload] eqn:E;
      [by apply encode_capped_error|].
    destruct (parse_capped _ _ Hm E) as [Ht Hp].
    unfold request_from_payload. rewrite Ht, Hp. split; [|by apply capped_fits].
    cbn -[json_headers _require_headers].
    rewrite (require_headers_json _ (rm_headers m)) by done. by destruct m.
  - unfold ws_open_to_payload. destruct (encode_capped _) as [e|payload] eqn:E;
      [by apply encode_capped_error|].
    destruct (parse_capped _ _ Hw E) as [Ht Hp].
    unfold ws_open_from_payload. rewrite Ht, Hp. split; [|by apply capped_fits].
    cbn -[json_headers _require_headers].
    rewrite (require_headers_json _ (wm_headers w)) by done. by destruct w.
Qed.

Definition example_request : RequestMetadata :=
  {| rm_method := py "PUT"; rm_path := py "/api/upload"; rm_query := py "path=a%20b";
     rm_headers := [(py "x-name", [233; 34; 128512]); (py "host", py "files.local")];
     rm_content_length := 5242880 |}.

Definition example_ws_open : WsOpenMetadata :=
  {| wm_path := py "/ws"; wm_query := []; wm_headers := [(py "cookie", py "a=b")] |}.

Lemma metadata_roundtrip_witness :
  ∃ p q, request_to_payload example_request = inr p
         ∧ request_from_payload p = inr example_request
         ∧ ws_open_to_payload example_ws_open = inr q
         ∧ ws_open_from_payload q = inr example_ws_open.
Proof.
  destruct (metadata_roundtrip example_request example_ws_open 3) as [H1 H2];
    [vm_compute; reflexivity|vm_compute; reflexivity|].
  destruct (request_to_payload example_request) as [?|p] eqn:E1;
    [vm_compute in E1; discriminate|].
  destruct (ws_open_to_payload example_ws_open) as [?|q] eqn:E2;
    [vm_compute in E2; discriminate|].
  exists p, q. destruct H1 as [H1 _], H2 as [H2 _]. auto.
Defined.

(** [RequestMetadata.from_payload] decides every payload: above the cap it
    raises [MetadataTooLargeError]; what it accepts has exactly the fields of
    the JSON object that was sent (an absent content length is 0); every other
    refusal is a [MetadataError], except for an integer of more than 4300
    digits, where the [ValueError] of [int] escapes the documented contract. *)
Theorem request_from_payload_spec (raw : bytes) :
  match request_from_payload raw with
  | inr m =>
      too_large raw = false ∧ ∃ obj, _parse_json raw = inr obj
      ∧ dict_get (py "method") obj = Some (JStr (rm_method m))
      ∧ dict_get (py "path") obj = Some (JStr (rm_path m))
      ∧ dict_get (py "query") obj = Some (JStr (rm_query m))
      ∧ dict_get (py "headers") obj = Some (json_headers (rm_headers m))
      ∧ default (JInt 0) (dict_get (py "content_length") obj) = JInt (rm_content_length m)
  | inl e =>
      if too_large raw then e = MetadataTooLargeError
      else e = MetadataError
           ∨ e = ValueError ∧ ∃ text, utf8_decode raw = Some text
                                      ∧ loads text = inl IntDigitsError
  end.
Proof.
  unfold request_from_payload. destruct (too_large raw); [done|].
  destruct (_parse_json raw) as [e|obj] eqn:Hp; [by apply parse_json_error|].
  cbn [mbind sum_bind]. unfold get_content_length.
  pose proof (require_str_spec obj (py "method")).
  pose proof (require_str_spec obj (py "path")).
  pose proof (require_str_spec obj (py "query")).
  pose proof (require_headers_spec obj).
  destruct (dict_get (py "content_length") obj) as [[]|] eqn:Hc; cbn [mbind sum_bind]; auto;
    do 3 (destruct (_require_str obj _); cbn [mbind sum_bind]; [by left|]);
    (destruct (_require_headers obj); cbn [mbind sum_bind]; [by left|]);
    (split; [done|]); exists obj; cbn [rm_method rm_path rm_query rm_headers rm_content_length]; rewrite ?Hc; auto 10.
Qed.

(** The payload of the [ValueError] case of the theorem above. *)
Definition huge_length_payload : bytes :=
  Z_byte <$> (py "{" ++ 34 :: py "content_length" ++ 34 :: py ":" ++ replicate 4301 57 ++ py "}").

Lemma from_payload_value_error :
  too_large huge_length_payload = false ∧
  request_from_payload huge_length_payload = inl ValueError.
Proof. by vm_compute. Qed.
