(* ===== verification/Tunnel.v ===== *)
(** One end of the tunnel, [src/tunnel/connection.py]: the connection object
    with its stream registry, queues and heartbeat, and the asyncio tasks that
    work on it (the receive loop, the readers of [read_stream_iter], the
    heartbeat) as a transition system whose steps are the runs of a task from
    one suspension point to the next.

    [StreamState] objects live in a heap, because a reader, the registry and a
    receive loop blocked in [queue.put] share one object, and the object
    outlives its registration. *)

From Stdlib Require Import String.
From S2P Require Import Prelude Utf8 Frames Json Metadata.

(** ** Exceptions that reach the tasks *)

Inductive ConnExn :=
| Tun (e : TunnelExn)
| ConnectionError
| OSError
| RuntimeError
| OtherTransport
| JsonError (e : jexn)
| AttributeError
| TypeError.

Global Instance ConnExn_eq_dec : EqDecision ConnExn.
Proof. solve_decision. Defined.

(** The transport errors that [_guarded_send] wraps. *)
Definition is_transport (e : ConnExn) : bool :=
  match e with ConnectionError | OSError | RuntimeError => true | _ => false end.

(** ** The WebSocket an end is given, [WebSocketProtocol]

    What is received is input of the transition system below. *)

Class WebSocketProtocol (W : Type) := {
  ws_send_bytes : bytes → M W ConnExn unit;
  ws_send_text : pystr → M W ConnExn unit;
  ws_close : M W ConnExn unit
}.

(** ** State *)

Record StreamState := { st_queue : list bytes; st_closed : bool }.

Definition new_StreamState : StreamState := {| st_queue := []; st_closed := false |}.

Definition set_closed (s : StreamState) : StreamState :=
  {| st_queue := st_queue s; st_closed := true |}.

Definition set_queue (q : list bytes) (s : StreamState) : StreamState :=
  {| st_queue := q; st_closed := st_closed s |}.

Record TunnelConnection (W : Type) := {
  _ws : W;
  heap : gmap nat StreamState;
  next_ref : nat;
  _streams : gmap UUID nat;
  _pong_event : bool;
  _closed : bool
}.
Arguments _ws {W}.
Arguments heap {W}.
Arguments next_ref {W}.
Arguments _streams {W}.
Arguments _pong_event {W}.
Arguments _closed {W}.

Section connection.
Context {W : Type} `{!WebSocketProtocol W}.

Abbreviation conn := (TunnelConnection W).
Abbreviation C A := (M conn ConnExn A).

Definition init_connection (ws : W) : conn :=
  {| _ws := ws; heap := ∅; next_ref := 0; _streams := ∅;
     _pong_event := false; _closed := false |}.

Definition set_ws (w : W) (c : conn) : conn :=
  {| _ws := w; heap := heap c; next_ref := next_ref c; _streams := _streams c;
     _pong_event := _pong_event c; _closed := _closed c |}.

Definition set_heap (h : gmap nat StreamState) (c : conn) : conn :=
  {| _ws := _ws c; heap := h; next_ref := next_ref c; _streams := _streams c;
     _pong_event := _pong_event c; _closed := _closed c |}.

Definition set_streams (m : gmap UUID nat) (c : conn) : conn :=
  {| _ws := _ws c; heap := heap c; next_ref := next_ref c; _streams := m;
     _pong_event := _pong_event c; _closed := _closed c |}.

Definition set_pong (b : bool) (c : conn) : conn :=
  {| _ws := _ws c; heap := heap c; next_ref := next_ref c; _streams := _streams c;
     _pong_event := b; _closed := _closed c |}.

(** [state.closed.set()] and the changes of [state.queue], on the object. *)
Definition update_stream (r : nat) (f : StreamState → StreamState) (c : conn) : conn :=
  set_heap (alter f r (heap c)) c.

(** A call on the WebSocket. *)
Definition on_ws (m : M W ConnExn unit) : C unit := λ c,
  let '(w, res) := m (_ws c) in (set_ws w c, res).

(** ** Stream lifecycle *)

Definition is_closed (c : conn) : bool := _closed c.

Definition open_stream (request_id : UUID) : C nat := λ c,
  if (MAX_STREAMS <=? size (_streams c))%nat then (c, inl (Tun StreamLimitError))
  else match _streams c !! request_id with
  | Some _ => (c, inl (Tun TunnelError))
  | None =>
      let r := next_ref c in
      ({| _ws := _ws c; heap := <[r := new_StreamState]> (heap c); next_ref := S r;
          _streams := <[request_id := r]> (_streams c);
          _pong_event := _pong_event c; _closed := _closed c |}, inr r)
  end.

Definition get_stream (request_id : UUID) : C nat := λ c,
  match _streams c !! request_id with
  | None => (c, inl (Tun StreamNotFoundError))
  | Some r => (c, inr r)
  end.

Definition close_stream (request_id : UUID) : C nat :=
  r ← get_stream request_id;
  modify (update_stream r set_closed) ≫= λ _, mret r.

Definition remove_stream (request_id : UUID) (c : conn) : conn :=
  set_streams (delete request_id (_streams c)) c.

(** [state.queue.put_nowait] and [get_nowait] on the object [r]. *)
Definition enqueue (r : nat) (payload : bytes) : conn → conn :=
  update_stream r (λ s, set_queue (st_queue s ++ [payload]) s).

Definition dequeue (r : nat) : conn → conn :=
  update_stream r (λ s, set_queue (tail (st_queue s)) s).

Definition queue_of (r : nat) (c : conn) : list bytes :=
  match heap c !! r with Some s => st_queue s | None => [] end.

Definition closed_of (r : nat) (c : conn) : bool :=
  match heap c !! r with Some s => st_closed s | None => false end.

Definition queue_full (r : nat) (c : conn) : bool :=
  (QUEUE_DEPTH <=? length (queue_of r c))%nat.

(** What one frame did: nothing left to do, a payload put in a queue, a put
    that waits for room, a stream signalled as closed. *)
Inductive Dispatch :=
| Ignored
| Enqueued (r : nat) (payload : bytes)
| AwaitPut (r : nat) (payload : bytes)
| Signalled (r : nat).

Definition _dispatch_frame (frame_type : FrameType) (request_id : UUID) (payload : bytes)
    : C Dispatch :=
  try_except
    match frame_type with
    | DATA | WS_DATA =>
        r ← get_stream request_id;
        full ← gets (queue_full r);
        if full : bool then mret (AwaitPut r payload)
        else modify (enqueue r payload) ≫= λ _, mret (Enqueued r payload)
    | CLOSE | CANCEL | ERROR | WS_CLOSE =>
        r ← close_stream request_id; mret (Signalled r)
    | OPEN | PING | PONG | WS_OPEN => mret Ignored
    end
    (λ e, if decide (e = Tun StreamNotFoundError) then mret Ignored else raise e).

(** ** Sending *)

Definition _guarded_send (frame : bytes) : C unit :=
  try_except (on_ws (ws_send_bytes frame))
    (λ e, if is_transport e then raise (Tun TunnelSendError) else raise e).

(** A tunnel function that may raise, inside a task. *)
Definition tun {A} (r : TunnelExn + A) : C A :=
  match r with inl e => raise (Tun e) | inr a => mret a end.

Definition send_data (request_id : UUID) (payload : bytes) : C unit :=
  frame ← tun (serialize_frame DATA request_id payload); _guarded_send frame.

Definition send_open (request_id : UUID) (metadata : RequestMetadata) : C unit :=
  payload ← tun (request_to_payload metadata);
  frame ← tun (serialize_frame OPEN request_id payload); _guarded_send frame.

Definition send_close (request_id : UUID) : C unit :=
  frame ← tun (serialize_frame CLOSE request_id []); on_ws (ws_send_bytes frame).

Definition send_cancel (request_id : UUID) : C unit :=
  frame ← tun (serialize_frame CANCEL request_id []); on_ws (ws_send_bytes frame).

Definition send_ws_open (ws_id : UUID) (metadata : WsOpenMetadata) : C unit :=
  payload ← tun (ws_open_to_payload metadata);
  frame ← tun (serialize_frame WS_OPEN ws_id payload); _guarded_send frame.

Definition send_ws_data (ws_id : UUID) (payload : bytes) : C unit :=
  frame ← tun (serialize_frame WS_DATA ws_id payload); on_ws (ws_send_bytes frame).

Definition send_ws_close (ws_id : UUID) : C unit :=
  frame ← tun (serialize_frame WS_CLOSE ws_id []); on_ws (ws_send_bytes frame).

(** ** Control messages *)

(** The argument is a dictionary, as the callers pass it. *)
Definition send_control (message : list (pystr * json)) : C unit :=
  match dict_get (py "type") message with
  | None => raise (Tun TunnelError)
  | Some _ => on_ws (ws_send_text (dumps (JObj message)))
  end.

(** [message.get("type") == t] *)
Definition type_is (t : pystr) (message : list (pystr * json)) : bool :=
  match dict_get (py "type") message with
  | Some (JStr s) => bool_decide (s = t)
  | _ => false
  end.

Definition is_type_str (j : json) : bool :=
  match j with JStr s => bool_decide (s = py "type") | _ => false end.

(** [receive_control] on a received text.  ["type" not in message] is a key
    test on an object, a substring test on a string, a membership test on an
    array and a [TypeError] on anything else; [message.keys()] in the error
    message exists only for an object. *)
Definition receive_control (text : pystr) : ConnExn + json :=
  match loads text with
  | inl e => inl (JsonError e)
  | inr (JObj l) =>
      match dict_get (py "type") l with
      | Some _ => inr (JObj l)
      | None => inl (Tun TunnelError)
      end
  | inr (JStr s) => if contains (py "type") s then inr (JStr s) else inl AttributeError
  | inr (JArr l) => if existsb is_type_str l then inr (JArr l) else inl AttributeError
  | inr _ => inl TypeError
  end.

Definition handle_pong (c : conn) : conn := set_pong true c.

(** ** Teardown *)

(** Every registered stream is signalled, then the registry is emptied. *)
Definition _tear_down (c : conn) : conn :=
  if _closed c then c
  else
    let h := fold_left (λ h (kv : UUID * nat), alter set_closed kv.2 h)
               (map_to_list (_streams c)) (heap c) in
    {| _ws := _ws c; heap := h; next_ref := next_ref c; _streams := ∅;
       _pong_event := _pong_event c; _closed := true |}.

(** [close] without the cancelling of the heartbeat task, which the transition
    system below does: teardown once, errors of [ws.close] swallowed. *)
Definition close (c : conn) : conn :=
  if _closed c then c
  else (on_ws ws_close (_tear_down c)).1.

(** ** The receive loop: one iteration *)

(** What [ws.receive()] returns.  The adapters return [bytes] under ["bytes"]
    and [str] under ["text"]; the two other constructors are the type errors
    the loop guards against. *)
Inductive WsIn :=
| InBytes (raw : bytes)
| InText (text : pystr)
| InNotBytes
| InNotText
| InDisconnect.

Inductive LoopNext :=
| Handled (d : Dispatch)
| Opened
| Control (message : json)
| Break.

Abbreviation open_handler := (option (UUID → bytes → C unit)) (only parsing).

Definition call_handler (h : UUID → bytes → C unit) (rid : UUID) (payload : bytes) : C LoopNext :=
  h rid payload ≫= λ _, mret Opened.

Definition receive_step (on_open on_ws_open : open_handler) (control_handler : bool)
    (frame : WsIn) : C LoopNext :=
  match frame with
  | InBytes raw =>
      '(frame_type, request_id, payload) ← tun (deserialize_frame raw);
      match frame_type, on_open, on_ws_open with
      | OPEN, Some h, _ => call_handler h request_id payload
      | WS_OPEN, _, Some h => call_handler h request_id payload
      | _, _, _ => d ← _dispatch_frame frame_type request_id payload; mret (Handled d)
      end
  | InNotBytes | InNotText => raise (Tun TunnelError)
  | InText text =>
      match loads text with
      | inl e => raise (JsonError e)
      | inr (JObj message) =>
          if type_is (py "pong") message then
            modify handle_pong ≫= λ _, mret (Handled Ignored)
          else if type_is (py "ping") message then
            send_control [(py "type", JStr (py "pong"))] ≫= λ _, mret (Handled Ignored)
          else if control_handler then mret (Control (JObj message))
          else mret (Handled Ignored)
      | inr _ => raise AttributeError
      end
  | InDisconnect => mret Break
  end.

(** ** The tasks around a connection *)

(** The receive loop: waiting in [ws.receive()], waiting in [queue.put] of a
    full queue, or ended (by a disconnect, or by an exception). *)
Inductive LoopState :=
| Receiving
| BlockedPut (r : nat) (payload : bytes)
| LoopEnded (e : option ConnExn).

(** A reader.  [Waiting]: in [asyncio.wait]; [Yielded]: suspended at the
    [yield] of a received item; [Draining]: in the loop that empties the queue
    of a closed stream; [Body]: the agent's request handler, which reads the
    queue itself up to the empty chunk; [Finished]: returned.  A reader that
    is cancelled in [asyncio.wait] leaves its [queue.get()] task behind
    ([Orphaned]), which may still take one item; otherwise it is [Gone]. *)
Inductive Phase := Waiting | Yielded | Draining | Body | Finished | Orphaned | Gone.

Inductive Heartbeat :=
| HbOff
| HbSleep (missed : nat)
| HbWait (missed : nat).

Record World := {
  w_conn : conn;
  w_loop : LoopState;
  w_readers : gmap nat (UUID * Phase);
  w_hb : Heartbeat;
  w_limit : nat
}.

Definition init_world (ws : W) : World :=
  {| w_conn := init_connection ws; w_loop := Receiving; w_readers := ∅; w_hb := HbOff;
     w_limit := 0 |}.

Definition with_conn (c : conn) (w : World) : World :=
  {| w_conn := c; w_loop := w_loop w; w_readers := w_readers w; w_hb := w_hb w;
     w_limit := w_limit w |}.

Definition with_loop (l : LoopState) (w : World) : World :=
  {| w_conn := w_conn w; w_loop := l; w_readers := w_readers w; w_hb := w_hb w;
     w_limit := w_limit w |}.

Definition with_reader (r : nat) (rid : UUID) (p : Phase) (w : World) : World :=
  {| w_conn := w_conn w; w_loop := w_loop w; w_readers := <[r := (rid, p)]> (w_readers w);
     w_hb := w_hb w; w_limit := w_limit w |}.

Definition with_hb (h : Heartbeat) (w : World) : World :=
  {| w_conn := w_conn w; w_loop := w_loop w; w_readers := w_readers w; w_hb := h;
     w_limit := w_limit w |}.

(** What can happen next: a call of one of the connection's methods, or one
    task running to its next suspension point. *)
Inductive event :=
| EOpen (rid : UUID)
| ERemove (rid : UUID)
| ERecv (m : WsIn)
| EUnblock
| EFirst (rid : UUID)
| EStart (rid : UUID)
| EGet (r : nat)
| EWake (r : nat)
| EResume (r : nat)
| EDrain (r : nat)
| EStartBody (rid : UUID)
| EBody (r : nat)
| EAbandon (r : nat)
| EOrphan (r : nat)
| EClose
| EHbStart (limit : nat)
| EHbPing
| EHbPong
| EHbTimeout.

(** What an observer sees. *)
Inductive obs :=
| OOpen (rid : UUID) (r : nat)
| ODispatch (r : nat) (payload : bytes)
| OEnqueue (r : nat) (payload : bytes)
| ODeliver (r : nat) (payload : bytes)
| ODrop (r : nat) (payload : bytes)
| OClosed (r : nat)
| OTearDown
| OEnd (r : nat)
| OControl (message : json)
| ORaise (e : ConnExn)
| OHbStart
| OHbPong
| OHbTimeout.

Section tasks.
Variable on_open : open_handler.
Variable on_ws_open : open_handler.
Variable control_handler : bool.

Definition step_recv (m : WsIn) (w : World) : World * list obs :=
  let '(c, res) := receive_step on_open on_ws_open control_handler m (w_conn w) in
  let w := with_conn c w in
  match res with
  | inl e => (with_loop (LoopEnded (Some e)) w, [ORaise e])
  | inr Break => (with_loop (LoopEnded None) w, [])
  | inr Opened => (w, [])
  | inr (Control j) => (w, [OControl j])
  | inr (Handled Ignored) => (w, [])
  | inr (Handled (Enqueued r p)) => (w, [ODispatch r p; OEnqueue r p])
  | inr (Handled (AwaitPut r p)) => (with_loop (BlockedPut r p) w, [ODispatch r p])
  | inr (Handled (Signalled r)) => (w, [OClosed r])
  end.

(** A reader takes the first item of its queue. *)
Definition take_item (r : nat) (rid : UUID) (next : bytes → Phase) (o : nat → bytes → obs)
    (w : World) : option (World * list obs) :=
  match queue_of r (w_conn w) with
  | [] => None
  | p :: _ => Some (with_reader r rid (next p) (with_conn (dequeue r (w_conn w)) w), [o r p])
  end.

(** The end of [read_stream_iter]. *)
Definition end_reader (r : nat) (rid : UUID) (w : World) : World * list obs :=
  (with_reader r rid Finished (with_conn (remove_stream rid (w_conn w)) w), [OEnd r]).

Definition tear_down_obs (c : conn) : list obs := if _closed c then [] else [OTearDown].

(** The step of an event, [None] when the event cannot happen. *)
Definition step (e : event) (w : World) : option (World * list obs) :=
  let c := w_conn w in
  match e with
  | EOpen rid =>
      match open_stream rid c with
      | (c', inr r) => Some (with_conn c' w, [OOpen rid r])
      | (c', inl x) => Some (with_conn c' w, [ORaise x])
      end
  | ERemove rid => Some (with_conn (remove_stream rid c) w, [])
  | ERecv m =>
      match w_loop w with Receiving => Some (step_recv m w) | _ => None end
  | EUnblock =>
      match w_loop w with
      | BlockedPut r p =>
          if queue_full r c then None
          else Some (with_loop Receiving (with_conn (enqueue r p c) w), [OEnqueue r p])
      | _ => None
      end
  | EFirst rid =>
      match _streams c !! rid with
      | None => Some (w, [ORaise (Tun StreamNotFoundError)])
      | Some r =>
          match w_readers w !! r, queue_of r c with
          | Some _, _ => None
          | None, [] => Some (w, [ORaise (Tun FirstByteTimeoutError)])
          | None, p :: _ => Some (with_conn (dequeue r c) w, [ODeliver r p])
          end
      end
  | EStart rid | EStartBody rid =>
      match _streams c !! rid with
      | None => Some (w, [ORaise (Tun StreamNotFoundError)])
      | Some r =>
          match w_readers w !! r with
          | Some _ => None
          | None =>
              Some (with_reader r rid (match e with EStart _ => Waiting | _ => Body end) w, [])
          end
      end
  | EGet r =>
      match w_readers w !! r with
      | Some (rid, Waiting) => take_item r rid (λ _, Yielded) ODeliver w
      | _ => None
      end
  | EWake r =>
      match w_readers w !! r with
      | Some (rid, Waiting) =>
          if closed_of r c then Some (with_reader r rid Draining w, []) else None
      | _ => None
      end
  | EResume r =>
      match w_readers w !! r with
      | Some (rid, Yielded) =>
          if closed_of r c && bool_decide (queue_of r c = []) then Some (end_reader r rid w)
          else Some (with_reader r rid Waiting w, [])
      | _ => None
      end
  | EDrain r =>
      match w_readers w !! r with
      | Some (rid, Draining) =>
          match queue_of r c with
          | [] => Some (end_reader r rid w)
          | _ => take_item r rid (λ _, Draining) ODeliver w
          end
      | _ => None
      end
  | EBody r =>
      match w_readers w !! r with
      | Some (rid, Body) =>
          match queue_of r c with
          | [] => None
          | [] :: _ =>
              Some (with_reader r rid Finished (with_conn (remove_stream rid (dequeue r c)) w),
                    [ODeliver r []])
          | _ => take_item r rid (λ _, Body) ODeliver w
          end
      | _ => None
      end
  | EAbandon r =>
      match w_readers w !! r with
      | Some (rid, Waiting) => Some (with_reader r rid Orphaned w, [])
      | Some (rid, (Yielded | Draining | Body)) => Some (with_reader r rid Gone w, [])
      | _ => None
      end
  | EOrphan r =>
      match w_readers w !! r with
      | Some (rid, Orphaned) => take_item r rid (λ _, Gone) ODrop w
      | _ => None
      end
  | EClose => Some (with_hb (if _closed c then w_hb w else HbOff) (with_conn (close c) w), tear_down_obs c)
  | EHbStart limit =>
      match w_hb w with
      | HbOff =>
          Some ({| w_conn := c; w_loop := w_loop w; w_readers := w_readers w;
                   w_hb := if _closed c then HbOff else HbSleep 0; w_limit := limit |}, [OHbStart])
      | _ => None
      end
  | EHbPing =>
      match w_hb w with
      | HbSleep missed =>
          match send_control [(py "type", JStr (py "ping"))] (set_pong false c) with
          | (c', inr _) => Some (with_hb (HbWait missed) (with_conn c' w), [])
          | (c', inl x) => Some (with_hb HbOff (with_conn c' w), [ORaise x])
          end
      | _ => None
      end
  | EHbPong =>
      match w_hb w with
      | HbWait _ =>
          if _pong_event c
          then Some (with_hb (if _closed c then HbOff else HbSleep 0) w, [OHbPong])
          else None
      | _ => None
      end
  | EHbTimeout =>
      match w_hb w with
      | HbWait missed =>
          if _pong_event c then None
          else if (w_limit w <=? S missed)%nat
          then Some (with_hb HbOff (with_conn (_tear_down c) w), OHbTimeout :: tear_down_obs c)
          else Some (with_hb (if _closed c then HbOff else HbSleep (S missed)) w, [OHbTimeout])
      | _ => None
      end
  end.

(** A schedule, and its observations. *)
Fixpoint run (es : list event) (w : World) : option (World * list obs) :=
  match es with
  | [] => Some (w, [])
  | e :: es' =>
      '(w1, o1) ← step e w; '(w2, o2) ← run es' w1; Some (w2, o1 ++ o2)
  end.

(** The worlds reached from a fresh connection, with what was observed. *)
Inductive reach (ws : W) : World → list obs → Prop :=
| reach_init : reach ws (init_world ws) []
| reach_step e w w' tr o :
    reach ws w tr → step e w = Some (w', o) → reach ws w' (tr ++ o).

End tasks.
End connection.

(** ** A WebSocket that records what is sent, and fails when told to *)

Record LogWs := { lw_sent : list (bytes + pystr); lw_error : option ConnExn; lw_open : bool }.

Definition lw_send (x : bytes + pystr) : M LogWs ConnExn unit := λ w,
  match lw_error w with
  | Some e => (w, inl e)
  | None => ({| lw_sent := lw_sent w ++ [x]; lw_error := None; lw_open := lw_open w |}, inr tt)
  end.

Global Instance LogWs_protocol : WebSocketProtocol LogWs := {|
  ws_send_bytes data := lw_send (inl data);
  ws_send_text text := lw_send (inr text);
  ws_close := modify (λ w, {| lw_sent := lw_sent w; lw_error := lw_error w; lw_open := false |})
|}.

Definition fresh_ws : LogWs := {| lw_sent := []; lw_error := None; lw_open := true |}.
