(* ===== verification/TunnelProps.v ===== *)
(** Correctness of the tunnel end of [Tunnel]: queue and registry bounds, FIFO
    delivery without loss up to the CLOSE frame, the end of readers, teardown
    and heartbeat, and the receive loop that a lost reader blocks for good. *)

From Stdlib Require Import String.
From S2P Require Import Prelude Utf8 Frames Json Metadata Tunnel.

Section tunnel_props.
Context {W : Type} `{!WebSocketProtocol W}.

Abbreviation conn := (TunnelConnection W).
Abbreviation C A := (M conn ConnExn A).
Abbreviation world := (World (W:=W)).
Abbreviation open_handler := (option (UUID → bytes → C unit)).

Implicit Types c : conn.
Implicit Types w : world.

(** ** Reading a trace *)

Definition enqueued (r : nat) (tr : list obs) : list bytes :=
  omap (λ o, match o with OEnqueue r' p => if decide (r' = r) then Some p else None | _ => None end) tr.

Definition dispatched (r : nat) (tr : list obs) : list bytes :=
  omap (λ o, match o with ODispatch r' p => if decide (r' = r) then Some p else None | _ => None end) tr.

Definition delivered (r : nat) (tr : list obs) : list bytes :=
  omap (λ o, match o with ODeliver r' p => if decide (r' = r) then Some p else None | _ => None end) tr.

Definition taken (r : nat) (tr : list obs) : list bytes :=
  omap (λ o, match o with
             | ODeliver r' p | ODrop r' p => if decide (r' = r) then Some p else None
             | _ => None end) tr.

Definition blocked (r : nat) (l : LoopState) : list bytes :=
  match l with BlockedPut r' p => if decide (r' = r) then [p] else [] | _ => [] end.

(** ** Invariants *)

(** Nothing but the WebSocket and the pong event differ. *)
Definition same_streams (c c' : conn) : Prop :=
  heap c' = heap c ∧ next_ref c' = next_ref c ∧ _streams c' = _streams c ∧ _closed c' = _closed c.

(** What a handler of OPEN frames may do: send, and open the stream. *)
Definition handler_ok (h : open_handler) : Prop :=
  ∀ f, h = Some f → ∀ rid p c,
  same_streams c (f rid p c).1 ∨ same_streams (open_stream rid c).1 (f rid p c).1.

Record conn_ok (c : conn) : Prop := {
  ok_queue : ∀ r, (length (queue_of r c) ≤ QUEUE_DEPTH)%nat;
  ok_size : (size (_streams c) ≤ MAX_STREAMS)%nat;
  ok_reg : ∀ rid r, _streams c !! rid = Some r → is_Some (heap c !! r);
  ok_fresh : ∀ r, is_Some (heap c !! r) → (r < next_ref c)%nat;
  ok_inj : ∀ rid1 rid2 r, _streams c !! rid1 = Some r → _streams c !! rid2 = Some r → rid1 = rid2
}.

Record world_ok (w : world) : Prop := {
  wok_conn : conn_ok (w_conn w);
  wok_blocked : ∀ r p, w_loop w = BlockedPut r p → is_Some (heap (w_conn w) !! r);
  wok_reader : ∀ r rid ph, w_readers w !! r = Some (rid, ph) →
    is_Some (heap (w_conn w) !! r) ∧
    (∀ rid', _streams (w_conn w) !! rid' = Some r → rid' = rid) ∧
    (ph = Draining → closed_of r (w_conn w) = true)
}.

(** *** How the operations change queues, flags and registry *)

Lemma same_streams_refl c : same_streams c c.
Proof. done. Qed.

Lemma same_queue c c' r : same_streams c c' → queue_of r c' = queue_of r c.
Proof. intros (H & _). unfold queue_of. by rewrite H. Qed.

Lemma same_closed c c' r : same_streams c c' → closed_of r c' = closed_of r c.
Proof. intros (H & _). unfold closed_of. by rewrite H. Qed.

Lemma queue_of_update r r' f c :
  queue_of r (update_stream r' f c)
  = if decide (r' = r) then from_option (λ s, st_queue (f s)) [] (heap c !! r) else queue_of r c.
Proof.
  unfold queue_of, update_stream, set_heap. simpl. case_decide; subst.
  - rewrite lookup_alter_eq. by destruct (heap c !! r).
  - by rewrite lookup_alter_ne.
Qed.

Lemma queue_of_enqueue r r' p c :
  is_Some (heap c !! r') →
  queue_of r (enqueue r' p c) = queue_of r c ++ (if decide (r' = r) then [p] else []).
Proof.
  intros [s Hs]. unfold enqueue. rewrite queue_of_update. case_decide; subst.
  - unfold queue_of. by rewrite Hs.
  - by rewrite app_nil_r.
Qed.

Lemma queue_of_dequeue r r' c :
  queue_of r (dequeue r' c) = if decide (r' = r) then tail (queue_of r c) else queue_of r c.
Proof.
  unfold dequeue. rewrite queue_of_update. case_decide; [|done].
  unfold queue_of. by destruct (heap c !! r).
Qed.

Lemma queue_of_signal r r' c : queue_of r (update_stream r' set_closed c) = queue_of r c.
Proof.
  rewrite queue_of_update. case_decide; [|done]. unfold queue_of. by destruct (heap c !! r).
Qed.

Lemma closed_of_update r r' f c :
  closed_of r (update_stream r' f c)
  = if decide (r' = r) then from_option (λ s, st_closed (f s)) false (heap c !! r) else closed_of r c.
Proof.
  unfold closed_of, update_stream, set_heap. simpl. case_decide; subst.
  - rewrite lookup_alter_eq. by destruct (heap c !! r).
  - by rewrite lookup_alter_ne.
Qed.

Lemma closed_of_set_queue r r' f c :
  (∀ s, st_closed (f s) = st_closed s) → closed_of r (update_stream r' f c) = closed_of r c.
Proof.
  intros Hf. rewrite closed_of_update. case_decide; [|done]. unfold closed_of.
  destruct (heap c !! r); simpl; [by rewrite Hf|done].
Qed.

Lemma heap_update r r' f c :
  is_Some (heap (update_stream r' f c) !! r) ↔ is_Some (heap c !! r).
Proof.
  unfold update_stream, set_heap. simpl. destruct (decide (r' = r)) as [->|].
  - rewrite lookup_alter_eq, fmap_is_Some. done.
  - by rewrite lookup_alter_ne.
Qed.

(** The heap after [_tear_down]: the registered streams are closed. *)
Lemma tear_heap_lookup (l : list (UUID * nat)) (h : gmap nat StreamState) r :
  fold_left (λ h (kv : UUID * nat), alter set_closed kv.2 h) l h !! r
  = (λ s, {| st_queue := st_queue s; st_closed := st_closed s || bool_decide (r ∈ l.*2) |}) <$> h !! r.
Proof.
  revert h. induction l as [|[rid r'] l IH]; intros h; simpl.
  - destruct (h !! r) as [[q b]|]; simpl; [|done]. by rewrite orb_false_r.
  - rewrite IH. destruct (decide (r' = r)) as [->|Hne].
    + rewrite lookup_alter_eq. destruct (h !! r) as [[q b]|]; simpl; [|done].
      rewrite (bool_decide_eq_true_2 (r ∈ r :: _)) by left. by rewrite orb_true_r.
    + rewrite lookup_alter_ne by done. destruct (h !! r) as [[q b]|]; simpl; [|done].
      do 4 f_equal. apply bool_decide_ext. rewrite elem_of_cons. naive_solver.
Qed.

Lemma queue_of_tear_down r c : queue_of r (_tear_down c) = queue_of r c.
Proof.
  unfold _tear_down. destruct (_closed c); [done|]. unfold queue_of. simpl.
  rewrite tear_heap_lookup. by destruct (heap c !! r).
Qed.

Lemma heap_tear_down r c : is_Some (heap (_tear_down c) !! r) ↔ is_Some (heap c !! r).
Proof.
  unfold _tear_down. destruct (_closed c); [done|]. simpl.
  by rewrite tear_heap_lookup, fmap_is_Some.
Qed.

Lemma on_ws_same m c : same_streams c (on_ws m c).1.
Proof. unfold on_ws. by destruct (m (_ws c)). Qed.

Lemma same_trans c1 c2 c3 : same_streams c1 c2 → same_streams c2 c3 → same_streams c1 c3.
Proof. unfold same_streams. intros (->&->&->&->) (->&->&->&->). done. Qed.

Lemma close_same c : same_streams (_tear_down c) (close c).
Proof.
  unfold close. destruct (_closed c) eqn:E; [unfold _tear_down; by rewrite E|].
  apply on_ws_same.
Qed.

Lemma send_control_same m c : same_streams c (send_control m c).1.
Proof. unfold send_control. case_match; [apply on_ws_same|done]. Qed.

(** *** The connection stays well formed *)

Lemma ok_same c c' : same_streams c c' → conn_ok c → conn_ok c'.
Proof.
  intros Hs [Hq Hz Hr Hf Hi]. pose proof Hs as (Hh & Hn & Hst & _).
  split; rewrite ?Hh, ?Hn, ?Hst; auto. intros r. by rewrite (same_queue _ _ _ Hs).
Qed.

(** Changing a queue or a flag in place. *)
Lemma ok_update c r f :
  conn_ok c → (length (queue_of r (update_stream r f c)) ≤ QUEUE_DEPTH)%nat →
  conn_ok (update_stream r f c).
Proof.
  intros [Hq Hz Hr Hf Hi] Hlen. split; try done.
  - intros r'. destruct (decide (r = r')) as [->|]; [done|].
    rewrite queue_of_update, decide_False by done. auto.
  - intros rid r' H. apply heap_update. eauto.
  - intros r' H%heap_update. apply Hf, H.
Qed.

Lemma ok_enqueue c r p :
  conn_ok c → is_Some (heap c !! r) → queue_full r c = false → conn_ok (enqueue r p c).
Proof.
  intros Hok Hr Hf. apply ok_update; [done|]. fold (enqueue r p c).
  rewrite queue_of_enqueue, decide_True, length_app by done.
  unfold queue_full in Hf. apply Nat.leb_gt in Hf. simpl. lia.
Qed.

Lemma ok_dequeue c r : conn_ok c → conn_ok (dequeue r c).
Proof.
  intros Hok. apply ok_update; [done|]. fold (dequeue r c).
  rewrite queue_of_dequeue, decide_True by done. pose proof (ok_queue c Hok r).
  destruct (queue_of r c); simpl in *; lia.
Qed.

Lemma ok_signal c r : conn_ok c → conn_ok (update_stream r set_closed c).
Proof. intros Hok. apply ok_update; [done|]. rewrite queue_of_signal. apply Hok. Qed.

Lemma ok_remove c rid : conn_ok c → conn_ok (remove_stream rid c).
Proof.
  intros [Hq Hz Hr Hf Hi]. split; simpl; try done.
  - etrans; [|exact Hz]. apply map_size_delete_le || apply map_subseteq_size, delete_subseteq.
  - intros rid' r [_ H]%lookup_delete_Some. eauto.
  - intros rid1 rid2 r [_ H1]%lookup_delete_Some [_ H2]%lookup_delete_Some. eauto.
Qed.

Lemma open_stream_cases rid c :
  (∃ e, open_stream rid c = (c, inl e)) ∨
  ∃ c', open_stream rid c = (c', inr (next_ref c)) ∧
        (size (_streams c) < MAX_STREAMS)%nat ∧ _streams c !! rid = None ∧
        heap c' = <[next_ref c := new_StreamState]> (heap c) ∧ next_ref c' = S (next_ref c) ∧
        _streams c' = <[rid := next_ref c]> (_streams c) ∧ _closed c' = _closed c.
Proof.
  unfold open_stream. destruct (Nat.leb_spec MAX_STREAMS (size (_streams c))); [eauto|].
  destruct (_streams c !! rid) eqn:E; [eauto|]. right. eexists. split; [done|]. by split_and!.
Qed.

(** A fresh stream changes nothing that was there. *)
Lemma heap_fresh c : conn_ok c → heap c !! next_ref c = None.
Proof.
  intros Hok. destruct (heap c !! next_ref c) eqn:E; [|done].
  pose proof (ok_fresh c Hok (next_ref c) (mk_is_Some _ _ E)). lia.
Qed.

Lemma open_old rid c r :
  conn_ok c → r ≠ next_ref c → heap (open_stream rid c).1 !! r = heap c !! r.
Proof.
  intros Hok Hne. destruct (open_stream_cases rid c) as [[e ->]|(c' & -> & _ & _ & Hh & _)]; [done|].
  simpl. rewrite Hh. by rewrite lookup_insert_ne.
Qed.

Lemma open_queue rid c r :
  conn_ok c → queue_of r (open_stream rid c).1 = queue_of r c.
Proof.
  intros Hok. unfold queue_of. destruct (decide (r = next_ref c)) as [->|].
  - rewrite heap_fresh by done.
    destruct (open_stream_cases rid c) as [[e ->]|(c' & -> & _ & _ & Hh & _)]; simpl.
    + by rewrite heap_fresh.
    + by rewrite Hh, lookup_insert_eq.
  - by rewrite open_old.
Qed.

Lemma open_closed rid c r :
  conn_ok c → closed_of r (open_stream rid c).1 = closed_of r c.
Proof.
  intros Hok. unfold closed_of. destruct (decide (r = next_ref c)) as [->|].
  - rewrite heap_fresh by done.
    destruct (open_stream_cases rid c) as [[e ->]|(c' & -> & _ & _ & Hh & _)]; simpl.
    + by rewrite heap_fresh.
    + by rewrite Hh, lookup_insert_eq.
  - by rewrite open_old.
Qed.

Lemma ok_open c rid : conn_ok c → conn_ok (open_stream rid c).1.
Proof.
  intros Hok. pose proof (λ r, open_queue rid c r Hok) as Hqueue.
  pose proof (heap_fresh c Hok) as Hfresh.
  destruct (open_stream_cases rid c) as [[e Ho]|(c' & Ho & Hsz & Hno & Hh & Hn & Hst & _)];
    rewrite Ho in *; [done|].
  simpl in *. destruct Hok as [Hq Hz Hr Hf Hi]. split; rewrite ?Hh, ?Hn, ?Hst.
  - intros r. by rewrite Hqueue.
  - rewrite map_size_insert_None by done. lia.
  - intros rid' r [[_ <-]|[_ H]]%lookup_insert_Some; [by rewrite lookup_insert_eq|].
    apply lookup_insert_is_Some'. right. eauto.
  - intros r [<-|H]%lookup_insert_is_Some'; [lia|]. specialize (Hf r H). lia.
  - assert (∀ rid', _streams c !! rid' = Some (next_ref c) → False) as Hnew.
    { intros rid' H. apply Hr in H. rewrite Hfresh in H. by destruct H. }
    intros rid1 rid2 r [[-> <-]|[? H1]]%lookup_insert_Some [[-> H2]|[? H2]]%lookup_insert_Some;
      naive_solver.
Qed.

Lemma ok_tear_down c : conn_ok c → conn_ok (_tear_down c).
Proof.
  intros Hok. pose proof Hok as [Hq Hz Hr Hf Hi]. split.
  - intros r. rewrite queue_of_tear_down. auto.
  - unfold _tear_down. destruct (_closed c); [done|]. simpl. rewrite map_size_empty. lia.
  - intros rid r. rewrite heap_tear_down. unfold _tear_down.
    destruct (_closed c); [by apply Hr|]. simpl. by rewrite lookup_empty.
  - intros r. rewrite heap_tear_down. unfold _tear_down. intros H%Hf. by destruct (_closed c).
  - intros rid1 rid2 r. unfold _tear_down. destruct (_closed c); [by apply Hi|].
    simpl. by rewrite lookup_empty.
Qed.

(** *** The kinds of steps

    The nineteen events change the streams in a dozen ways only; the
    invariants are proved for these. *)

Definition quiet (o : obs) : bool :=
  match o with
  | OOpen _ _ | OControl _ | ORaise _ | OHbStart | OHbPong | OHbTimeout => true
  | _ => false
  end.

(** The receive loop did not move, or ended. *)
Definition loop_quiet (l l' : LoopState) : Prop :=
  l' = l ∨ l = Receiving ∧ ∃ e, l' = LoopEnded e.

Inductive trans (w w' : world) : list obs → Prop :=
| t_quiet o :
    same_streams (w_conn w) (w_conn w') → w_readers w' = w_readers w →
    loop_quiet (w_loop w) (w_loop w') → forallb quiet o = true → trans w w' o
| t_open rid o :
    same_streams (open_stream rid (w_conn w)).1 (w_conn w') → w_readers w' = w_readers w →
    loop_quiet (w_loop w) (w_loop w') → forallb quiet o = true → trans w w' o
| t_remove rid :
    w_conn w' = remove_stream rid (w_conn w) → w_readers w' = w_readers w →
    w_loop w' = w_loop w → trans w w' []
| t_put rid r p :
    _streams (w_conn w) !! rid = Some r → queue_full r (w_conn w) = false →
    w_conn w' = enqueue r p (w_conn w) → w_readers w' = w_readers w →
    w_loop w = Receiving → w_loop w' = Receiving → trans w w' [ODispatch r p; OEnqueue r p]
| t_block rid r p :
    _streams (w_conn w) !! rid = Some r → w_conn w' = w_conn w → w_readers w' = w_readers w →
    queue_full r (w_conn w) = true →
    w_loop w = Receiving → w_loop w' = BlockedPut r p → trans w w' [ODispatch r p]
| t_unblock r p :
    queue_full r (w_conn w) = false →
    w_conn w' = enqueue r p (w_conn w) → w_readers w' = w_readers w →
    w_loop w = BlockedPut r p → w_loop w' = Receiving → trans w w' [OEnqueue r p]
| t_signal rid r :
    _streams (w_conn w) !! rid = Some r →
    w_conn w' = update_stream r set_closed (w_conn w) → w_readers w' = w_readers w →
    w_loop w' = w_loop w → w_loop w = Receiving → trans w w' [OClosed r]
| t_first rid r p q :
    _streams (w_conn w) !! rid = Some r → w_readers w !! r = None →
    queue_of r (w_conn w) = p :: q → w_conn w' = dequeue r (w_conn w) →
    w_readers w' = w_readers w → w_loop w' = w_loop w → trans w w' [ODeliver r p]
| t_take r rid ph ph' p q :
    w_readers w !! r = Some (rid, ph) → ph ∈ [Waiting; Draining; Body] →
    (ph' = Draining → ph = Draining) → ph' ∈ [Yielded; Draining; Body; Finished] →
    queue_of r (w_conn w) = p :: q →
    w_conn w' = dequeue r (w_conn w) ∨ w_conn w' = remove_stream rid (dequeue r (w_conn w)) →
    w_readers w' = <[r := (rid, ph')]> (w_readers w) → w_loop w' = w_loop w →
    trans w w' [ODeliver r p]
| t_drop r rid p q :
    w_readers w !! r = Some (rid, Orphaned) → queue_of r (w_conn w) = p :: q →
    w_conn w' = dequeue r (w_conn w) → w_readers w' = <[r := (rid, Gone)]> (w_readers w) →
    w_loop w' = w_loop w → trans w w' [ODrop r p]
| t_start r rid ph :
    _streams (w_conn w) !! rid = Some r → w_readers w !! r = None →
    w_conn w' = w_conn w → w_readers w' = <[r := (rid, ph)]> (w_readers w) →
    ph ∈ [Waiting; Body] → w_loop w' = w_loop w → trans w w' []
| t_phase r rid ph ph' :
    w_readers w !! r = Some (rid, ph) → ph ∈ [Waiting; Yielded; Draining; Body] →
    (ph' = Draining → closed_of r (w_conn w) = true) → ph' ≠ Finished →
    w_conn w' = w_conn w → w_readers w' = <[r := (rid, ph')]> (w_readers w) →
    w_loop w' = w_loop w → trans w w' []
| t_end r rid ph :
    w_readers w !! r = Some (rid, ph) → ph ∈ [Yielded; Draining] →
    ph = Draining ∨ closed_of r (w_conn w) = true → queue_of r (w_conn w) = [] →
    w_conn w' = remove_stream rid (w_conn w) →
    w_readers w' = <[r := (rid, Finished)]> (w_readers w) →
    w_loop w' = w_loop w → trans w w' [OEnd r]
| t_tear o :
    same_streams (_tear_down (w_conn w)) (w_conn w') → w_readers w' = w_readers w →
    w_loop w' = w_loop w → forallb quiet o = true →
    trans w w' (o ++ tear_down_obs (w_conn w)).

(** What one iteration of the receive loop does to the connection. *)
Definition recv_effect (c c' : conn) (res : ConnExn + LoopNext) : Prop :=
  match res with
  | inr (Handled (Enqueued r p)) =>
      ∃ rid, _streams c !! rid = Some r ∧ queue_full r c = false ∧ c' = enqueue r p c
  | inr (Handled (AwaitPut r p)) =>
      ∃ rid, _streams c !! rid = Some r ∧ queue_full r c = true ∧ c' = c
  | inr (Handled (Signalled r)) =>
      ∃ rid, _streams c !! rid = Some r ∧ c' = update_stream r set_closed c
  | inr Opened | inl _ => same_streams c c' ∨ ∃ rid, same_streams (open_stream rid c).1 c'
  | _ => same_streams c c'
  end.

Lemma dispatch_effect ft rid p c :
  let '(c', res) := _dispatch_frame ft rid p c in
  ∃ d, res = inr d ∧ recv_effect c c' (inr (Handled d)).
Proof.
  unfold _dispatch_frame, try_except, close_stream, get_stream, mbind, M_bind, gets, modify,
    mret, M_ret.
  destruct ft; simpl;
    try (destruct (_streams c !! rid) as [r|] eqn:E; simpl; [|by exists Ignored]);
    try (destruct (queue_full r c) eqn:F; simpl); eexists; (split; [reflexivity|]);
    simpl; try done; eauto.
Qed.

Lemma receive_effect on_open on_ws_open ch m c :
  handler_ok on_open → handler_ok on_ws_open →
  let '(c', res) := receive_step on_open on_ws_open ch m c in recv_effect c c' res.
Proof.
  intros H1 H2.
  assert (Hh : ∀ h rid p, (h = on_open ∨ h = on_ws_open) → ∀ f, h = Some f →
    let '(c', res) := call_handler f rid p c in recv_effect c c' res).
  { intros h rid p Hor f ->. unfold call_handler, mbind, M_bind, mret, M_ret.
    assert (Hf : same_streams c (f rid p c).1 ∨ same_streams (open_stream rid c).1 (f rid p c).1)
      by (destruct Hor as [E|E]; [by apply (H1 f)|by apply (H2 f)]).
    destruct (f rid p c) as [c' [e|[]]]; simpl in *; destruct Hf; eauto. }
  assert (Hd : ∀ ft rid p, let '(c', res) := (d ← _dispatch_frame ft rid p; mret (Handled d)) c in
    recv_effect c c' res).
  { intros ft rid p. unfold mbind, M_bind. pose proof (dispatch_effect ft rid p c) as Hde.
    destruct (_dispatch_frame ft rid p c) as [c' res]. by destruct Hde as (d & -> & ?). }
  destruct m as [raw|text| | |]; simpl; try by left.
  - unfold mbind at 1, M_bind at 1, tun. destruct (deserialize_frame raw) as [e|[[ft rid] p]].
    { by left. }
    unfold mret at 1, M_ret at 1.
    destruct ft; try apply Hd.
    + destruct on_open as [f|]; [by apply (Hh (Some f)); auto|apply Hd].
    + destruct on_open, on_ws_open as [f|]; try apply Hd; by apply (Hh (Some f)); auto.
  - destruct (loads text) as [e|[]]; try by left.
    destruct (type_is _ _); [by simpl|].
    destruct (type_is _ _).
    + unfold mbind, M_bind. pose proof (send_control_same [(py "type", JStr (py "pong"))] c) as Hs.
      destruct (send_control _ c) as [c' [e|[]]]; simpl in *; [by left|done].
    + by destruct ch.
  - done.
Qed.

(** *** Preservation *)

(** Signals are never taken back, objects never disappear, and the registry
    gains only fresh objects. *)
Definition grows (c c' : conn) : Prop :=
  (∀ r, is_Some (heap c !! r) → is_Some (heap c' !! r)) ∧
  (∀ r, closed_of r c = true → closed_of r c' = true) ∧
  (∀ rid r, _streams c' !! rid = Some r → _streams c !! rid = Some r ∨ heap c !! r = None).

Lemma grows_same c c' : same_streams c c' → grows c c'.
Proof.
  intros Hs. pose proof Hs as (Hh & _ & Hst & _). split_and!.
  - intros r. by rewrite Hh.
  - intros r. by rewrite (same_closed _ _ _ Hs).
  - intros rid r. rewrite Hst. auto.
Qed.

Lemma grows_trans c1 c2 c3 : grows c1 c2 → grows c2 c3 → grows c1 c3.
Proof.
  intros (A1 & A2 & A3) (B1 & B2 & B3). split_and!; auto.
  intros rid r [H|H]%B3; [by apply A3|]. right.
  destruct (heap c1 !! r) eqn:E; [|done]. destruct (A1 r) as [? H']; [done|congruence].
Qed.

Lemma grows_update c r f :
  (∀ s, st_closed s = true → st_closed (f s) = true) → grows c (update_stream r f c).
Proof.
  intros Hf. split_and!; [|intros r'|auto].
  - intros r'. by rewrite heap_update.
  - rewrite closed_of_update. case_decide; subst; [|done]. unfold closed_of.
    destruct (heap c !! r'); simpl; auto.
Qed.

Lemma grows_remove c rid : grows c (remove_stream rid c).
Proof. split_and!; auto. simpl. intros rid' r [_ ?]%lookup_delete_Some. auto. Qed.

Lemma grows_open c rid : conn_ok c → grows c (open_stream rid c).1.
Proof.
  intros Hok. split_and!.
  - intros r H. rewrite open_old; [done..|]. intros ->. rewrite heap_fresh in H by done. by destruct H.
  - intros r. by rewrite open_closed.
  - destruct (open_stream_cases rid c) as [[e ->]|(c' & -> & _ & _ & _ & _ & Hst & _)]; [by auto|].
    simpl. rewrite Hst. intros rid' r [[_ <-]|[_ H]]%lookup_insert_Some; [|auto].
    right. by apply heap_fresh.
Qed.

Lemma grows_tear_down c : grows c (_tear_down c).
Proof.
  split_and!.
  - intros r. by rewrite heap_tear_down.
  - intros r. unfold _tear_down. destruct (_closed c); [done|]. unfold closed_of. simpl.
    rewrite tear_heap_lookup. destruct (heap c !! r); simpl; [|done]. by intros ->.
  - intros rid r. unfold _tear_down. destruct (_closed c); [by auto|]. simpl. by rewrite lookup_empty.
Qed.

Lemma grows_dequeue c r : grows c (dequeue r c).
Proof. by apply grows_update. Qed.

(** The connection part of every kind of step. *)
Lemma trans_conn w w' o :
  trans w w' o → world_ok w → conn_ok (w_conn w') ∧ grows (w_conn w) (w_conn w').
Proof.
  intros Ht [Hc Hb Hr].
  assert (Hdeq : ∀ r, conn_ok (dequeue r (w_conn w)) ∧ grows (w_conn w) (dequeue r (w_conn w)))
    by (intros; split; [by apply ok_dequeue|by apply grows_dequeue]).
  assert (Hrem : ∀ rid, conn_ok (remove_stream rid (w_conn w)) ∧
                        grows (w_conn w) (remove_stream rid (w_conn w)))
    by (intros; split; [by apply ok_remove|by apply grows_remove]).
  assert (Henq : ∀ r p, is_Some (heap (w_conn w) !! r) → queue_full r (w_conn w) = false →
            conn_ok (enqueue r p (w_conn w)) ∧ grows (w_conn w) (enqueue r p (w_conn w)))
    by (intros; split; [by apply ok_enqueue|by apply grows_update]).
  pose proof (grows_same _ _ (same_streams_refl (w_conn w))) as Hid.
  destruct Ht as [o Hs|rid o Hs|rid ->|rid r p Hst Hf ->|rid r p Hst ->|r p Hf -> _ Hl
    |rid r Hst ->|rid r p q Hst _ _ ->|r rid ph ph' p q _ _ _ _ _ Hcc|r rid p q _ _ ->
    |r rid ph Hst _ ->|r rid ph ph' _ _ _ _ ->|r rid ph _ _ _ _ ->|o Hs]; eauto.
  - split; [by eapply ok_same|by apply grows_same].
  - split; [eapply ok_same, ok_open; done|].
    eapply grows_trans; [by apply grows_open|by apply grows_same].
  - apply Henq; [by eapply ok_reg|done].
  - split; [by apply ok_signal|]. by apply grows_update.
  - destruct Hcc as [->| ->]; [done|]. split; [by apply ok_remove, ok_dequeue|].
    eapply grows_trans; [by apply grows_dequeue|by apply grows_remove].
  - split; [eapply ok_same, ok_tear_down; done|].
    eapply grows_trans; [by apply grows_tear_down|by apply grows_same].
Qed.

Lemma trans_loop w w' o r p :
  trans w w' o → w_loop w' = BlockedPut r p →
  w_loop w = BlockedPut r p ∨ ∃ rid, _streams (w_conn w) !! rid = Some r.
Proof.
  destruct 1; intros Hl;
    try match goal with H : loop_quiet _ _ |- _ => destruct H as [H|(_ & ? & H)] end;
    try (left; congruence). right. exists rid. congruence.
Qed.

Lemma trans_reader w w' o r rid ph :
  trans w w' o → w_readers w' !! r = Some (rid, ph) →
  (∃ ph0, w_readers w !! r = Some (rid, ph0) ∧
          (ph = Draining → ph0 = Draining ∨ closed_of r (w_conn w) = true)) ∨
  _streams (w_conn w) !! rid = Some r ∧ ph ≠ Draining.
Proof.
  intros Ht H.
  assert (Hins : ∀ r0 rid0 ph0 ph', w_readers w' = <[r0 := (rid0, ph')]> (w_readers w) →
    (r0 = r → rid0 = rid → ph' = ph → w_readers w !! r0 = Some (rid0, ph0) ∧
       (ph' = Draining → ph0 = Draining ∨ closed_of r0 (w_conn w) = true)) →
    ∃ ph0, w_readers w !! r = Some (rid, ph0) ∧
          (ph = Draining → ph0 = Draining ∨ closed_of r (w_conn w) = true)).
  { intros r0 rid0 ph0 ph' E Hp. rewrite E in H.
    apply lookup_insert_Some in H as [[-> [= -> ->]]|[_ H]]; [|eauto].
    destruct Hp as [Hp1 Hp2]; eauto. }
  destruct Ht as [ | | | | | | | |r0 rid0 ph0 ph' p q Hr0 _ Hd _ _ _ E|r0 rid0 p q Hr0 _ _ E
    |r0 rid0 ph0 Hst _ _ E Hin|r0 rid0 ph0 ph' Hr0 _ Hd _ _ E|r0 rid0 ph0 Hr0 _ _ _ _ E| ];
    try (left; exists ph; replace (w_readers w) with (w_readers w'); auto; done).
  - left. eapply (Hins _ _ ph0 _ E). eauto.
  - left. eapply (Hins _ _ Orphaned _ E). naive_solver.
  - rewrite E in H. apply lookup_insert_Some in H as [[-> [= -> ->]]|[_ H]].
    + right. split; [done|]. intros ->. repeat (apply elem_of_cons in Hin as [Hin|Hin]; [done|]).
      by apply elem_of_nil in Hin.
    + left. eauto.
  - left. eapply (Hins _ _ ph0 _ E). eauto.
  - left. eapply (Hins _ _ ph0 _ E). naive_solver.
Qed.

Lemma trans_ok w w' o : trans w w' o → world_ok w → world_ok w'.
Proof.
  intros Ht Hw. destruct (trans_conn _ _ _ Ht Hw) as [Hc (Hg1 & Hg2 & Hg3)].
  destruct Hw as [Hc0 Hb Hr]. split; [done| |].
  - intros r p Hl. apply Hg1.
    destruct (trans_loop _ _ _ _ _ Ht Hl) as [H|[rid H]]; [by eapply Hb|by eapply ok_reg].
  - intros r rid ph H.
    assert (is_Some (heap (w_conn w) !! r) ∧
            (∀ rid', _streams (w_conn w) !! rid' = Some r → rid' = rid) ∧
            (ph = Draining → closed_of r (w_conn w) = true)) as (H1 & H2 & H3).
    { destruct (trans_reader _ _ _ _ _ _ Ht H) as [(ph0 & H0 & Hd)|[H0 Hd]].
      - apply Hr in H0 as (? & ? & ?). naive_solver.
      - split_and!; [by eapply ok_reg|intros rid' ?; by eapply (ok_inj _ Hc0)|done]. }
    split_and!; auto. intros rid' [H'|H']%Hg3; [by apply H2|].
    rewrite H' in H1. by destruct H1.
Qed.

(** *** The trace invariant *)

Record trace_ok (w : world) (tr : list obs) : Prop := {
  tr_fifo : ∀ r, enqueued r tr = taken r tr ++ queue_of r (w_conn w);
  tr_dispatch : ∀ r, dispatched r tr = enqueued r tr ++ blocked r (w_loop w);
  tr_live : ∀ r, (∀ rid, w_readers w !! r ≠ Some (rid, Gone)) → taken r tr = delivered r tr;
  tr_closed : ∀ r, closed_of r (w_conn w) = true → OClosed r ∈ tr ∨ OTearDown ∈ tr;
  tr_end : ∀ tr1 tr2 r, tr = tr1 ++ OEnd r :: tr2 →
    delivered r tr1 = enqueued r tr1 ∧ (OClosed r ∈ tr1 ∨ OTearDown ∈ tr1);
  tr_signal : ∀ tr1 tr2 r, tr = tr1 ++ OClosed r :: tr2 → dispatched r tr1 = enqueued r tr1
}.

Lemma enqueued_app r t1 t2 : enqueued r (t1 ++ t2) = enqueued r t1 ++ enqueued r t2.
Proof. apply omap_app. Qed.
Lemma dispatched_app r t1 t2 : dispatched r (t1 ++ t2) = dispatched r t1 ++ dispatched r t2.
Proof. apply omap_app. Qed.
Lemma delivered_app r t1 t2 : delivered r (t1 ++ t2) = delivered r t1 ++ delivered r t2.
Proof. apply omap_app. Qed.
Lemma taken_app r t1 t2 : taken r (t1 ++ t2) = taken r t1 ++ taken r t2.
Proof. apply omap_app. Qed.

(** Observations that say nothing about queues and streams. *)
Lemma quiet_nil r o :
  forallb quiet o = true →
  enqueued r o = [] ∧ dispatched r o = [] ∧ delivered r o = [] ∧ taken r o = [] ∧
  (∀ r', OEnd r' ∉ o) ∧ (∀ r', OClosed r' ∉ o).
Proof.
  induction o as [|x o IH]; simpl; [intros _; split_and!; try done; intros; apply not_elem_of_nil|].
  intros [Hx (?&?&?&?&?&?)%IH]%andb_true_iff.
  split_and!; try (destruct x; done); intros; apply not_elem_of_cons; split; auto; by intros <-.
Qed.

Lemma tear_down_obs_nil r c :
  enqueued r (tear_down_obs c) = [] ∧ dispatched r (tear_down_obs c) = [] ∧
  delivered r (tear_down_obs c) = [] ∧ taken r (tear_down_obs c) = [] ∧
  (∀ r', OEnd r' ∉ tear_down_obs c) ∧ (∀ r', OClosed r' ∉ tear_down_obs c).
Proof.
  unfold tear_down_obs. destruct (_closed c); split_and!; try done; intros r';
    rewrite ?elem_of_cons, elem_of_nil; naive_solver.
Qed.

(** Items enter a queue at its end and leave it at its head, one step at a
    time. *)
Lemma trans_fifo w w' o r :
  trans w w' o → world_ok w →
  queue_of r (w_conn w) ++ enqueued r o = taken r o ++ queue_of r (w_conn w').
Proof.
  intros Ht [Hc Hb _].
  assert (Hdeq : ∀ r0 p q, queue_of r0 (w_conn w) = p :: q →
    queue_of r (w_conn w) = (if decide (r0 = r) then [p] else []) ++ queue_of r (dequeue r0 (w_conn w))).
  { intros r0 p q Hq. rewrite queue_of_dequeue. case_decide; subst; [by rewrite Hq|done]. }
  destruct Ht as [o Hs _ _ Hq|rid o Hs _ _ Hq|rid ->|rid r0 p Hst Hf ->|rid r0 p Hst ->|r0 p Hf -> _ Hl
    |rid r0 Hst ->|rid r0 p q Hst _ Hq ->|r0 rid ph ph' p q _ _ _ _ Hq Hcc|r0 rid p q _ Hq ->
    |r0 rid ph Hst _ ->|r0 rid ph ph' _ _ _ _ ->|r0 rid ph _ _ _ _ ->|o Hs _ _ Hq];
    rewrite ?app_nil_r; try done.
  - destruct (quiet_nil r o Hq) as (-> & _ & _ & -> & _).
    by rewrite app_nil_r, (same_queue _ _ _ Hs).
  - destruct (quiet_nil r o Hq) as (-> & _ & _ & -> & _).
    by rewrite app_nil_r, (same_queue _ _ _ Hs), open_queue.
  - rewrite queue_of_enqueue by (by eapply ok_reg). simpl. by case_decide.
  - rewrite queue_of_enqueue by eauto. simpl. by case_decide.
  - by rewrite queue_of_signal.
  - rewrite (Hdeq r0 p q) by done. simpl. by case_decide.
  - assert (queue_of r (w_conn w') = queue_of r (dequeue r0 (w_conn w))) as ->
      by (by destruct Hcc as [->| ->]).
    rewrite (Hdeq r0 p q) by done. simpl. by case_decide.
  - rewrite (Hdeq r0 p q) by done. simpl. by case_decide.
  - rewrite enqueued_app, taken_app. destruct (quiet_nil r o Hq) as (-> & _ & _ & -> & _).
    destruct (tear_down_obs_nil r (w_conn w)) as (-> & _ & _ & -> & _).
    by rewrite app_nil_r, (same_queue _ _ _ Hs), queue_of_tear_down.
Qed.

(** A dispatched payload is enqueued at once, or by the blocked put. *)
Lemma trans_dispatch w w' o r :
  trans w w' o →
  blocked r (w_loop w) ++ dispatched r o = enqueued r o ++ blocked r (w_loop w').
Proof.
  assert (Hlq : loop_quiet (w_loop w) (w_loop w') → blocked r (w_loop w') = blocked r (w_loop w)).
  { intros [->|[-> [e ->]]]; done. }
  destruct 1 as [o Hs _ Hl Hq|rid o Hs _ Hl Hq|rid _ _ Hl|rid r0 p _ _ _ _ Hl Hl'|rid r0 p _ _ _ _ Hl Hl'
    |r0 p _ _ _ Hl Hl'|rid r0 _ _ _ Hl|rid r0 p q _ _ _ _ _ Hl|r0 rid ph ph' p q _ _ _ _ _ _ _ Hl
    |r0 rid p q _ _ _ _ Hl|r0 rid ph _ _ _ _ _ Hl|r0 rid ph ph' _ _ _ _ _ _ Hl
    |r0 rid ph _ _ _ _ _ _ Hl|o _ _ Hl Hq];
    try (rewrite Hl; simpl; by rewrite ?app_nil_r).
  - destruct (quiet_nil r o Hq) as (-> & -> & _). by rewrite app_nil_r, Hlq.
  - destruct (quiet_nil r o Hq) as (-> & -> & _). by rewrite app_nil_r, Hlq.
  - rewrite Hl, Hl'. simpl. by case_decide.
  - rewrite Hl, Hl'. simpl. by case_decide.
  - rewrite Hl, Hl'. simpl. by case_decide.
  - rewrite enqueued_app, dispatched_app, Hl. destruct (quiet_nil r o Hq) as (-> & -> & _).
    destruct (tear_down_obs_nil r (w_conn w)) as (-> & -> & _). by rewrite app_nil_r.
Qed.

Ltac phase_notin :=
  rewrite ?not_elem_of_cons; split_and?; (done || apply not_elem_of_nil).

(** Only an orphaned [get] loses an item, and its reader is gone for good. *)
Lemma trans_live w w' o r :
  trans w w' o → (∀ rid, w_readers w' !! r ≠ Some (rid, Gone)) →
  (∀ rid, w_readers w !! r ≠ Some (rid, Gone)) ∧ taken r o = delivered r o.
Proof.
  intros Ht Hn.
  assert (Hsame : w_readers w' = w_readers w → ∀ rid, w_readers w !! r ≠ Some (rid, Gone))
    by (by intros <-).
  assert (Hins : ∀ r0 rid0 ph0 ph', w_readers w' = <[r0 := (rid0, ph')]> (w_readers w) →
    (w_readers w !! r0 = Some (rid0, ph0) ∧ ph0 ≠ Gone ∨ w_readers w !! r0 = None) →
    ∀ rid, w_readers w !! r ≠ Some (rid, Gone)).
  { intros r0 rid0 ph0 ph' E Hr0 rid Hg. destruct (decide (r0 = r)) as [->|].
    - destruct Hr0 as [[Hr0 Hne]|Hr0]; congruence.
    - apply (Hn rid). by rewrite E, lookup_insert_ne. }
  assert (Hin : ∀ ph (l : list Phase), ph ∈ l → Gone ∉ l → ph ≠ Gone) by (by intros ? ? ? ? ->).
  assert (Gone ∉ [Waiting; Yielded; Draining; Body]) as Hall by phase_notin.
  destruct Ht as [o _ E _ Hq|rid o _ E _ Hq|rid _ E|rid r0 p _ _ _ E|rid r0 p _ _ E|r0 p _ _ E
    |rid r0 _ _ E|rid r0 p q _ _ _ _ E|r0 rid ph ph' p q Hr0 Hph _ _ _ _ E|r0 rid p q Hr0 _ _ E
    |r0 rid ph _ Hr0 _ E|r0 rid ph ph' Hr0 Hph _ _ _ E|r0 rid ph Hr0 Hph _ _ _ E|o _ E _ Hq];
    try (split; [by apply Hsame|done]).
  - split; [by apply Hsame|]. by destruct (quiet_nil r o Hq) as (_ & _ & -> & -> & _).
  - split; [by apply Hsame|]. by destruct (quiet_nil r o Hq) as (_ & _ & -> & -> & _).
  - split; [|done]. apply (Hins _ _ ph _ E). left. split; [done|].
    apply (Hin _ _ Hph). phase_notin.
  - split.
    + apply (Hins _ _ Orphaned _ E). by left.
    + simpl. case_decide; [subst|done]. destruct (Hn rid). by rewrite E, lookup_insert_eq.
  - split; [|done]. apply (Hins _ _ ph _ E). by right.
  - split; [|done]. apply (Hins _ _ ph _ E). left. split; [done|]. by apply (Hin _ _ Hph).
  - split; [|done]. apply (Hins _ _ ph _ E). left. split; [done|].
    apply (Hin _ _ Hph). phase_notin.
  - split; [by apply Hsame|]. rewrite taken_app, delivered_app.
    destruct (quiet_nil r o Hq) as (_ & _ & -> & -> & _).
    by destruct (tear_down_obs_nil r (w_conn w)) as (_ & _ & -> & -> & _).
Qed.

(** A stream is closed by a frame for it, or by the teardown. *)
Lemma trans_closed w w' o r :
  trans w w' o → world_ok w → closed_of r (w_conn w') = true →
  closed_of r (w_conn w) = true ∨ OClosed r ∈ o ∨ OTearDown ∈ o.
Proof.
  intros Ht [Hc _ _] Hcl.
  destruct Ht as [o Hs|rid o Hs|rid E|rid r0 p Hst Hf E|rid r0 p Hst E|r0 p Hf E _ Hl
    |rid r0 Hst E|rid r0 p q Hst _ Hq E|r0 rid ph ph' p q _ _ _ _ Hq Hcc|r0 rid p q _ Hq E
    |r0 rid ph Hst _ E|r0 rid ph ph' _ _ _ _ E|r0 rid ph _ _ _ _ E|o Hs _ _ Hq];
    try (left; rewrite E in Hcl; unfold enqueue, dequeue in Hcl;
         rewrite ?closed_of_set_queue in Hcl by done; done).
  - left. by rewrite (same_closed _ _ _ Hs) in Hcl.
  - left. rewrite (same_closed _ _ _ Hs) in Hcl. by rewrite open_closed in Hcl.
  - rewrite E, closed_of_update in Hcl. case_decide; subst; [|by left]. right; left. by left.
  - left. destruct Hcc as [E|E]; rewrite E in Hcl;
      [|change (closed_of r (dequeue r0 (w_conn w)) = true) in Hcl]; unfold dequeue in Hcl;
      by rewrite closed_of_set_queue in Hcl.
  - unfold tear_down_obs. destruct (_closed (w_conn w)) eqn:E.
    + left. rewrite (same_closed _ _ _ Hs) in Hcl. unfold _tear_down in Hcl. by rewrite E in Hcl.
    + right; right. apply elem_of_app. right. by left.
Qed.

(** A reader ends only with its queue empty, after the stream was closed. *)
Lemma trans_end w w' o k r tr2 :
  trans w w' o → world_ok w → o = k ++ OEnd r :: tr2 →
  k = [] ∧ queue_of r (w_conn w) = [] ∧ closed_of r (w_conn w) = true ∧
  ∀ rid, w_readers w !! r ≠ Some (rid, Gone).
Proof.
  intros Ht Hw Ho. assert (OEnd r ∈ o) as Hin by (rewrite Ho; apply elem_of_app; right; by left).
  destruct Ht as [o _ _ _ Hq|rid o _ _ _ Hq| | | | | | | | | | |r0 rid ph Hr0 Hph Hcl Hq|o _ _ _ Hq];
    try (rewrite ?elem_of_cons, ?elem_of_nil in Hin; naive_solver).
  - by destruct (quiet_nil r o Hq) as (_ & _ & _ & _ & Hn & _), (Hn r).
  - by destruct (quiet_nil r o Hq) as (_ & _ & _ & _ & Hn & _), (Hn r).
  - destruct k as [|? [|? k]]; simplify_eq/=. split_and!; [done|done| |].
    + destruct Hcl as [->|Hcl]; [|done]. by apply (wok_reader w Hw r rid Draining).
    + intros rid' Hg. rewrite Hr0 in Hg. simplify_eq.
      by assert (Gone ∉ [Yielded; Draining]) by phase_notin.
  - apply elem_of_app in Hin as [Hin|Hin].
    + by destruct (quiet_nil r o Hq) as (_ & _ & _ & _ & Hn & _), (Hn r).
    + by destruct (tear_down_obs_nil r (w_conn w)) as (_ & _ & _ & _ & Hn & _), (Hn r).
Qed.

(** A CLOSE frame is dispatched by a loop that is not blocked. *)
Lemma trans_signal w w' o k r tr2 :
  trans w w' o → o = k ++ OClosed r :: tr2 → k = [] ∧ w_loop w = Receiving.
Proof.
  intros Ht Ho. assert (OClosed r ∈ o) as Hin by (rewrite Ho; apply elem_of_app; right; by left).
  destruct Ht as [o _ _ _ Hq|rid o _ _ _ Hq| | | | |rid r0 _ _ _ _ Hl| | | | | | |o _ _ _ Hq];
    try (rewrite ?elem_of_cons, ?elem_of_nil in Hin; naive_solver).
  - by destruct (quiet_nil r o Hq) as (_ & _ & _ & _ & _ & Hn), (Hn r).
  - by destruct (quiet_nil r o Hq) as (_ & _ & _ & _ & _ & Hn), (Hn r).
  - destruct k as [|? [|? k]]; by simplify_eq/=.
  - apply elem_of_app in Hin as [Hin|Hin].
    + by destruct (quiet_nil r o Hq) as (_ & _ & _ & _ & _ & Hn), (Hn r).
    + by destruct (tear_down_obs_nil r (w_conn w)) as (_ & _ & _ & _ & _ & Hn), (Hn r).
Qed.

Lemma trace_ok_step w w' tr o :
  trans w w' o → world_ok w → trace_ok w tr → trace_ok w' (tr ++ o).
Proof.
  intros Ht Hw [Hf Hd Hl Hc He Hs]. split.
  - intros r. rewrite enqueued_app, taken_app, Hf, <-!app_assoc.
    by rewrite (trans_fifo _ _ _ r Ht Hw).
  - intros r. rewrite dispatched_app, enqueued_app, Hd, <-!app_assoc.
    by rewrite (trans_dispatch _ _ _ r Ht).
  - intros r Hn. destruct (trans_live _ _ _ r Ht Hn) as [Hn' Ho].
    by rewrite taken_app, delivered_app, Hl, Ho.
  - intros r Hcl. rewrite !elem_of_app.
    destruct (trans_closed _ _ _ r Ht Hw Hcl) as [H|[H|H]]; [|auto..].
    apply Hc in H as [H|H]; auto.
  - intros tr1 tr2 r Heq. apply app_eq_inv in Heq as [(k & -> & Hk)|(k & -> & Hk)].
    + destruct k as [|x k]; simplify_eq/=; [|by eapply He].
      destruct (trans_end _ _ _ [] r tr2 Ht Hw eq_refl) as (_ & Hq & Hcl & Hn).
      rewrite app_nil_r in *. split; [|by apply Hc].
      by rewrite <-Hl, Hf, Hq, app_nil_r.
    + destruct (trans_end _ _ _ k r tr2 Ht Hw Hk) as (-> & Hq & Hcl & Hn).
      rewrite app_nil_r. split; [|by apply Hc]. by rewrite <-Hl, Hf, Hq, app_nil_r.
  - intros tr1 tr2 r Heq. apply app_eq_inv in Heq as [(k & -> & Hk)|(k & -> & Hk)].
    + destruct k as [|x k]; simplify_eq/=; [|by eapply Hs].
      destruct (trans_signal _ _ _ [] r tr2 Ht eq_refl) as (_ & Hlr).
      rewrite app_nil_r in *. by rewrite Hd, Hlr, app_nil_r.
    + destruct (trans_signal _ _ _ k r tr2 Ht Hk) as (-> & Hlr).
      rewrite app_nil_r. by rewrite Hd, Hlr, app_nil_r.
Qed.

Section steps.
Variable on_open : open_handler.
Variable on_ws_open : open_handler.
Variable control_handler : bool.
Hypothesis on_open_ok : handler_ok on_open.
Hypothesis on_ws_open_ok : handler_ok on_ws_open.

Abbreviation step := (step on_open on_ws_open control_handler).
Abbreviation run := (run on_open on_ws_open control_handler).
Abbreviation reach := (reach on_open on_ws_open control_handler).

Lemma recv_trans m w :
  w_loop w = Receiving →
  trans w (step_recv on_open on_ws_open control_handler m w).1
    (step_recv on_open on_ws_open control_handler m w).2.
Proof.
  intros Hl. unfold step_recv.
  pose proof (receive_effect on_open on_ws_open control_handler m (w_conn w)
                on_open_ok on_ws_open_ok) as He.
  destruct (receive_step _ _ _ m (w_conn w)) as [c' res].
  destruct res as [e|[[| r p| r p| r]| |j|]]; simpl in *.
  - destruct He as [He|[rid He]]; [apply t_quiet|eapply t_open]; try done; right; eauto.
  - apply t_quiet; try done. by left.
  - destruct He as (rid & ? & ? & ->). by eapply t_put.
  - destruct He as (rid & ? & ? & ->). by eapply t_block.
  - destruct He as (rid & ? & ->). by eapply t_signal.
  - destruct He as [He|[rid He]]; [apply t_quiet|eapply t_open]; try done; by left.
  - apply t_quiet; try done. by left.
  - apply t_quiet; try done. right; eauto.
Qed.

Ltac phase_in := by (rewrite ?elem_of_cons; naive_solver).

Lemma quiet_trans w w' o :
  same_streams (w_conn w) (w_conn w') → w_readers w' = w_readers w → w_loop w' = w_loop w →
  forallb quiet o = true → trans w w' o.
Proof. intros. apply t_quiet; try done. by left. Qed.

(** The steps of the readers. *)
Definition reads (e : event) : bool :=
  match e with
  | EFirst _ | EStart _ | EGet _ | EWake _ | EResume _ | EDrain _ | EStartBody _ | EBody _ | EAbandon _ | EOrphan _ => true
  | _ => false
  end.

Lemma reader_trans e w w' o : reads e = true → step e w = Some (w', o) → trans w w' o.
Proof.
  intros He. destruct e; try discriminate He; clear He; simpl; unfold take_item, end_reader; intros H.
  - destruct (_streams _ !! rid) as [r|] eqn:E; [|simplify_eq; by apply quiet_trans].
    destruct (w_readers w !! r) as [|] eqn:F; [done|].
    destruct (queue_of r (w_conn w)) as [|p q] eqn:G; simplify_eq; [by apply quiet_trans|].
    by eapply t_first.
  - destruct (_streams _ !! rid) as [r|] eqn:E; [|simplify_eq; by apply quiet_trans].
    destruct (w_readers w !! r) as [|] eqn:F; simplify_eq.
    apply (t_start _ _ r rid Waiting); done || phase_in.
  - destruct (w_readers w !! r) as [[rid []]|] eqn:F; try done.
    destruct (queue_of r (w_conn w)) as [|p q] eqn:G; simplify_eq.
    apply (t_take _ _ r rid Waiting Yielded p q); done || phase_in || by left.
  - destruct (w_readers w !! r) as [[rid []]|] eqn:F; try done.
    destruct (closed_of r (w_conn w)) eqn:G; simplify_eq.
    apply (t_phase _ _ r rid Waiting Draining); done || phase_in.
  - destruct (w_readers w !! r) as [[rid []]|] eqn:F; try done.
    destruct (closed_of r (w_conn w)) eqn:G; simpl in H;
      [case_bool_decide|]; simplify_eq.
    + apply (t_end _ _ r rid Yielded); done || phase_in || by right.
    + apply (t_phase _ _ r rid Yielded Waiting); done || phase_in.
    + apply (t_phase _ _ r rid Yielded Waiting); done || phase_in.
  - destruct (w_readers w !! r) as [[rid []]|] eqn:F; try done.
    destruct (queue_of r (w_conn w)) as [|p q] eqn:G; simplify_eq.
    + apply (t_end _ _ r rid Draining); done || phase_in || by left.
    + apply (t_take _ _ r rid Draining Draining p q); done || phase_in || by left.
  - destruct (_streams _ !! rid) as [r|] eqn:E; [|simplify_eq; by apply quiet_trans].
    destruct (w_readers w !! r) as [|] eqn:F; simplify_eq.
    apply (t_start _ _ r rid Body); done || phase_in.
  - destruct (w_readers w !! r) as [[rid []]|] eqn:F; try done.
    destruct (queue_of r (w_conn w)) as [|[|b p] q] eqn:G; simplify_eq.
    + apply (t_take _ _ r rid Body Finished [] q); done || phase_in || by right.
    + apply (t_take _ _ r rid Body Body (b :: p) q); done || phase_in || by left.
  - destruct (w_readers w !! r) as [[rid ph]|] eqn:F; try done.
    destruct ph; simplify_eq;
      [ apply (t_phase _ _ r rid Waiting Orphaned) | apply (t_phase _ _ r rid Yielded Gone)
      | apply (t_phase _ _ r rid Draining Gone) | apply (t_phase _ _ r rid Body Gone) ];
      done || phase_in.
  - destruct (w_readers w !! r) as [[rid []]|] eqn:F; try done.
    destruct (queue_of r (w_conn w)) as [|p q] eqn:G; simplify_eq. by eapply t_drop.
Qed.

(** Every step is of one of the kinds. *)
Lemma step_trans e w w' o : step e w = Some (w', o) → trans w w' o.
Proof.
  destruct (reads e) eqn:He; [by apply reader_trans|].
  destruct e; try discriminate He; clear He; simpl; intros H.
  - destruct (open_stream rid (w_conn w)) as [c' [x|r]] eqn:E; simplify_eq;
      (eapply (t_open _ _ rid); simpl; [by rewrite E|done|by left|done]).
  - simplify_eq. by eapply t_remove.
  - destruct (w_loop w) eqn:E; simplify_eq. pose proof (recv_trans m w E) as Ht.
    destruct (step_recv _ _ _ m w). by simplify_eq.
  - destruct (w_loop w) eqn:E; simplify_eq. destruct (queue_full r (w_conn w)) eqn:F; simplify_eq.
    by eapply t_unblock.
  - simplify_eq. apply (t_tear _ _ []); try done. apply close_same.
  - destruct (w_hb w); simplify_eq. by apply quiet_trans.
  - destruct (w_hb w); simplify_eq.
    pose proof (send_control_same [(py "type", JStr (py "ping"))] (set_pong false (w_conn w))) as Hs.
    destruct (send_control _ _) as [c' [x|[]]]; simplify_eq; by apply quiet_trans.
  - destruct (w_hb w); simplify_eq. destruct (_pong_event _); simplify_eq. by apply quiet_trans.
  - destruct (w_hb w); simplify_eq. destruct (_pong_event _); simplify_eq.
    case_match; simplify_eq; [|by apply quiet_trans].
    by apply (t_tear _ _ [OHbTimeout]).
Qed.

Lemma init_ok (ws : W) : conn_ok (init_connection ws).
Proof.
  split; simpl.
  - intros r. unfold queue_of. simpl. rewrite lookup_empty. simpl. lia.
  - rewrite map_size_empty. lia.
  - intros rid r H. by rewrite lookup_empty in H.
  - intros r [? H]. by rewrite lookup_empty in H.
  - intros ??? H. by rewrite lookup_empty in H.
Qed.

(** Every reachable world satisfies the invariants. *)
Lemma reach_ok ws w tr : reach ws w tr → world_ok w ∧ trace_ok w tr.
Proof.
  induction 1 as [|e w w' tr o _ [Hw Ht] Hs].
  - split.
    + split; [apply init_ok|done|]. intros r rid ph H. simpl in H. by rewrite lookup_empty in H.
    + split; try done; try (by intros []).
  - apply step_trans in Hs. split; [by eapply trans_ok|by eapply trace_ok_step].
Qed.

(** Runs of schedules reach. *)
Lemma reach_run ws es w w' tr o :
  reach ws w tr → run es w = Some (w', o) → reach ws w' (tr ++ o).
Proof.
  revert w tr o. induction es as [|e es IH]; intros w tr o Hr; simpl.
  - intros [= <- <-]. by rewrite app_nil_r.
  - destruct (step e w) as [[w1 o1]|] eqn:E; [simpl|done].
    destruct (run es w1) as [[w2 o2]|] eqn:F; [simpl|done]. intros [= <- <-].
    rewrite app_assoc. eapply IH; [|done]. by eapply reach_step.
Qed.

(** *** Progress of a reader *)

(** The steps of the reader [r] of [read_stream_iter]. *)
Definition own (r : nat) (e : event) : bool :=
  match e with EGet r' | EWake r' | EResume r' | EDrain r' => bool_decide (r' = r) | _ => false end.

(** How many of them a schedule has. *)
Definition turns (r : nat) (es : list event) : nat := length (filter (λ e, own r e = true) es).

(** The steps a reader can still make with what is in its queue: up to two for an item,
    and those to leave. *)
Definition budget (r : nat) (w : world) : nat :=
  let q := length (queue_of r (w_conn w)) in
  match snd <$> w_readers w !! r with
  | Some Waiting => 2 * q + 2
  | Some Yielded => 2 * q + 3
  | Some Draining => q + 1
  | _ => 0
  end%nat.

(** The reader is at work on a closed stream. *)
Definition reading (r : nat) (rid : UUID) (w : world) : Prop :=
  closed_of r (w_conn w) = true ∧
  ∃ ph, w_readers w !! r = Some (rid, ph) ∧ (ph = Waiting ∨ ph = Yielded ∨ ph = Draining).

(** It has returned, and its stream is not registered any more. *)
Definition returned (r : nat) (rid : UUID) (w : world) : Prop :=
  w_readers w !! r = Some (rid, Finished) ∧ ∀ rid', _streams (w_conn w) !! rid' ≠ Some r.

Lemma other_readers e w w' o r x :
  step e w = Some (w', o) → own r e = false → e ≠ EAbandon r → w_readers w !! r = Some x →
  x.2 = Waiting ∨ x.2 = Yielded ∨ x.2 = Draining ∨ x.2 = Finished →
  w_readers w' !! r = Some x.
Proof.
  intros Hs Ho Ha Hr Hx.
  assert (Hins : ∀ r0 rid ph w0, r0 ≠ r → w_readers w0 = w_readers w →
    w_readers (with_reader (W:=W) r0 rid ph w0) !! r = Some x).
  { intros r0 rid ph w0 Hne E. simpl. by rewrite lookup_insert_ne, E. }
  destruct e; cbn [own] in Ho; simpl in Hs; unfold take_item, end_reader in Hs;
    try (apply bool_decide_eq_false in Ho);
    repeat match type of Hs with
      | context [match ?y with _ => _ end] => destruct y eqn:?; try done
      end; simplify_eq; try done; try (by apply Hins).
  all: try (apply Hins; [|done]; intros ->; simplify_eq/=; naive_solver).
  all: try (unfold step_recv in Hs; repeat case_match; simplify_eq; done).
Qed.

(** Each step of the reader uses up some of its budget. *)
Lemma own_step e w w' o r :
  step e w = Some (w', o) → own r e = true → (budget r w' + 1 ≤ budget r w)%nat ∧ enqueued r o = [].
Proof.
  intros Hs Ho. unfold budget.
  destruct e; cbn [own] in Ho; try done; apply bool_decide_eq_true in Ho; subst; simpl in Hs;
    unfold take_item, end_reader in Hs;
    (destruct (w_readers w !! r) as [[rid []]|] eqn:Er; try done).
  - destruct (queue_of r (w_conn w)) as [|p q] eqn:Eq; [done|]. simplify_eq. simpl.
    rewrite lookup_insert_eq, queue_of_dequeue, decide_True, Eq by done. simpl. split; [lia|done].
  - destruct (closed_of r (w_conn w)); [|done]. simplify_eq. simpl. rewrite lookup_insert_eq. simpl. split; [lia|done].
  - destruct (_ && _); simplify_eq; simpl; rewrite lookup_insert_eq; simpl; (split; [lia|done]).
  - destruct (queue_of r (w_conn w)) as [|p q] eqn:Eq; simplify_eq; simpl; rewrite lookup_insert_eq; simpl.
    + split; [lia|done].
    + rewrite queue_of_dequeue, decide_True, Eq by done. simpl. split; [lia|done].
Qed.

(** The others add to it only by what they put into the queue. *)
Lemma other_step e w w' o r rid :
  step e w = Some (w', o) → own r e = false → e ≠ EAbandon r → world_ok w →
  reading r rid w ∨ returned r rid w → (budget r w' ≤ budget r w + 2 * length (enqueued r o))%nat.
Proof.
  intros Hs Ho Ha Hw Hr. unfold budget.
  assert (∃ ph, w_readers w !! r = Some (rid, ph) ∧ (ph = Waiting ∨ ph = Yielded ∨ ph = Draining ∨ ph = Finished))
    as (ph & Hph & Hcases).
  { destruct Hr as [[_ (ph & ? & [?|[?|?]])]|[? _]]; [exists ph; auto 6..|exists Finished; auto 6]. }
  rewrite (other_readers _ _ _ _ _ _ Hs Ho Ha Hph Hcases), Hph.
  pose proof (f_equal length (trans_fifo _ _ _ r (step_trans _ _ _ _ Hs) Hw)) as Hq. rewrite !length_app in Hq.
  simpl. destruct ph; lia.
Qed.

Lemma returned_step e w w' o r rid :
  step e w = Some (w', o) → world_ok w → returned r rid w → e ≠ EAbandon r → returned r rid w' ∧ own r e = false.
Proof.
  intros Hs Hw [Hr Hst] Ha. destruct (trans_conn _ _ _ (step_trans _ _ _ _ Hs) Hw) as [_ (_ & _ & Hg)].
  assert (own r e = false) as Ho.
  { destruct e; cbn [own]; try done; apply bool_decide_eq_false; intros ->; simpl in Hs; by rewrite Hr in Hs. }
  split; [|done]. split; [by apply (other_readers _ _ _ _ _ _ Hs Ho Ha Hr); auto|].
  intros rid' H'. destruct (Hg _ _ H') as [H''|H'']; [by apply (Hst rid')|].
  destruct (wok_reader _ Hw _ _ _ Hr) as ([? He] & _). congruence.
Qed.

(** A reader at work goes on, or returns and says so. *)
Lemma reading_step e w w' o r rid :
  step e w = Some (w', o) → world_ok w → reading r rid w → e ≠ EAbandon r →
  reading r rid w' ∨ returned r rid w' ∧ OEnd r ∈ o.
Proof.
  intros Hs Hw [Hc (ph & Hr & Hph)] Ha.
  destruct (trans_conn _ _ _ (step_trans _ _ _ _ Hs) Hw) as [_ (_ & Hg & _)].
  destruct (own r e) eqn:Ho.
  2: { left. split; [by apply Hg|]. exists ph. split; [|done].
       apply (other_readers _ _ _ _ _ _ Hs Ho Ha Hr). naive_solver. }
  assert (Hend : ∀ ph, w_readers w !! r = Some (rid, ph) → returned r rid (end_reader r rid w).1).
  { intros ph' Hr'. split; [simpl; by rewrite lookup_insert_eq|]. simpl. intros rid' [Hne H']%lookup_delete_Some.
    destruct (wok_reader _ Hw _ _ _ Hr') as (_ & Hu & _). by apply Hne, eq_sym, Hu. }
  assert (Hgo : ∀ ph' c', closed_of r c' = true → ph' = Waiting ∨ ph' = Yielded ∨ ph' = Draining →
    reading r rid (with_reader r rid ph' (with_conn c' w))).
  { intros ph' c' Hcl Hp. split; [done|]. exists ph'. simpl. by rewrite lookup_insert_eq. }
  assert (closed_of r (dequeue r (w_conn w)) = true) as Hcd by (by apply grows_dequeue).
  destruct e; cbn [own] in Ho; try done; apply bool_decide_eq_true in Ho; subst; simpl in Hs;
    unfold take_item in Hs; rewrite Hr in Hs; destruct ph; try done.
  - destruct (queue_of r (w_conn w)); [done|]. simplify_eq. left. apply Hgo; auto.
  - rewrite Hc in Hs. simplify_eq. left. split; [done|]. exists Draining. simpl. rewrite lookup_insert_eq. auto.
  - destruct (_ && _); injection Hs as <- <-.
    + right. split; [by eapply Hend|by left].
    + left. split; [done|]. exists Waiting. simpl. rewrite lookup_insert_eq. auto.
  - destruct (queue_of r (w_conn w)); injection Hs as <- <-; [|left; apply Hgo; auto].
    right. split; [by eapply Hend|by left].
Qed.

(** While it is at work it can make a step. *)
Lemma reading_enabled r rid w : reading r rid w → ∃ e, own r e = true ∧ is_Some (step e w).
Proof.
  intros [Hc (ph & Hr & [->|[->| ->]])].
  - exists (EWake r). split; [by apply bool_decide_eq_true|]. simpl. rewrite Hr, Hc. by eexists.
  - exists (EResume r). split; [by apply bool_decide_eq_true|]. simpl. rewrite Hr. by destruct (_ && _); eexists.
  - exists (EDrain r). split; [by apply bool_decide_eq_true|]. simpl. rewrite Hr. unfold take_item.
    by destruct (queue_of r (w_conn w)); eexists.
Qed.

Lemma turns_cons r e es : turns r (e :: es) = ((if own r e then 1 else 0) + turns r es)%nat.
Proof. unfold turns. rewrite filter_cons. destruct (own r e); by case_decide. Qed.

(** Any schedule of all the tasks. *)
Lemma reader_run r rid es : ∀ w w' o,
  run es w = Some (w', o) → world_ok w → EAbandon r ∉ es → reading r rid w ∨ returned r rid w →
  (turns r es + budget r w' ≤ budget r w + 2 * length (enqueued r o))%nat ∧
  (reading r rid w → reading r rid w' ∨ returned r rid w' ∧ OEnd r ∈ o) ∧
  (returned r rid w → returned r rid w').
Proof.
  induction es as [|e es IH]; intros w w' o; cbn [Tunnel.run].
  { intros [= <- <-] _ _ _. split_and!; [unfold turns; simpl; lia|auto..]. }
  destruct (step e w) as [[w1 o1]|] eqn:Hs; [|done]. cbn [mbind option_bind].
  destruct (Tunnel.run on_open on_ws_open control_handler es w1) as [[w2 o2]|] eqn:Hrun; [|done]. cbn [mbind option_bind].
  intros [= <- <-] Hw [Ha Hn]%not_elem_of_cons Hcase. apply not_eq_sym in Ha.
  pose proof (trans_ok _ _ _ (step_trans _ _ _ _ Hs) Hw) as Hw1.
  assert ((reading r rid w → reading r rid w1 ∨ returned r rid w1 ∧ OEnd r ∈ o1) ∧
          (returned r rid w → returned r rid w1)) as [Hs1 Hs2].
  { split; [intros; by eapply reading_step|]. intros. by eapply returned_step. }
  assert (budget r w1 + (if own r e then 1 else 0) ≤ budget r w + 2 * length (enqueued r o1))%nat as Hb.
  { destruct (own r e) eqn:Ho; [destruct (own_step _ _ _ _ _ Hs Ho) as [? ->]; simpl; lia|].
    pose proof (other_step _ _ _ _ _ _ Hs Ho Ha Hw Hcase). lia. }
  destruct (IH w1 w2 o2 Hrun Hw1 Hn) as (H1 & H2 & H3); [naive_solver|].
  rewrite turns_cons, enqueued_app, length_app. split_and!; [lia| |auto].
  intros Hr. destruct (Hs1 Hr) as [Hr1|[Hr1 He]].
  - destruct (H2 Hr1) as [?|[? ?]]; [by left|]. right. split; [done|]. apply elem_of_app. by right.
  - right. split; [by apply H3|]. apply elem_of_app. by left.
Qed.

(** *** The heartbeat *)

(** The missed pongs since the last pong, or since the start. *)
Definition missed_run (tr : list obs) : nat :=
  fold_left (λ n o, match o with
                    | OHbTimeout => S n
                    | OHbPong | OHbStart => O
                    | _ => n
                    end) tr O.

Definition hb_ok (w : world) (tr : list obs) : Prop :=
  match w_hb w with
  | HbOff => True
  | HbSleep m | HbWait m => m = missed_run tr ∧ (m = 0 ∨ m < w_limit w)%nat
  end.

Lemma missed_run_other tr o :
  forallb (λ o, match o with OHbTimeout | OHbPong | OHbStart => false | _ => true end) o = true →
  missed_run (tr ++ o) = missed_run tr.
Proof.
  unfold missed_run. rewrite fold_left_app. generalize (fold_left
    (λ n o, match o with OHbTimeout => S n | OHbPong | OHbStart => O | _ => n end) tr O).
  induction o as [|x o IH]; intros n; simpl; [done|]. intros [Hx Ho]%andb_true_iff.
  destruct x; try done; by rewrite IH.
Qed.

(** The events of the other tasks leave the heartbeat alone, or stop it. *)
Lemma step_hb e w w' o :
  step e w = Some (w', o) →
  match e with EHbStart _ | EHbPing | EHbPong | EHbTimeout => True | _ =>
    (w_hb w' = w_hb w ∨ w_hb w' = HbOff) ∧ w_limit w' = w_limit w ∧
    forallb (λ o, match o with OHbTimeout | OHbPong | OHbStart => false | _ => true end) o = true
  end.
Proof.
  destruct e; try done; simpl; unfold step_recv, take_item, end_reader, tear_down_obs; intros H;
    repeat (case_match; simplify_eq/=); simplify_eq/=; auto.
Qed.

Lemma hb_ok_step e w w' tr o : step e w = Some (w', o) → hb_ok w tr → hb_ok w' (tr ++ o).
Proof.
  intros Hs Hok. pose proof (step_hb _ _ _ _ Hs) as Hh.
  assert (Hother : (w_hb w' = w_hb w ∨ w_hb w' = HbOff) ∧ w_limit w' = w_limit w ∧
    forallb (λ o, match o with OHbTimeout | OHbPong | OHbStart => false | _ => true end) o = true →
    hb_ok w' (tr ++ o)).
  { intros ([E|E] & El & Ho); unfold hb_ok in *; rewrite E; [|done].
    by rewrite El, missed_run_other. }
  destruct e; try (by apply Hother); unfold hb_ok in *; simpl in Hs;
    destruct (w_hb w) as [|m|m] eqn:Eh; simplify_eq/=.
  - destruct (_closed _); [done|]. split; [|by left]. unfold missed_run. by rewrite fold_left_app.
  - destruct (send_control _ _) as [c' [x|[]]]; simplify_eq/=; [done|]. by rewrite app_nil_r.
  - destruct (_pong_event _); simplify_eq/=. destruct (_closed _); [done|]. split; [|by left].
    unfold missed_run. by rewrite fold_left_app.
  - destruct (_pong_event _); simplify_eq/=.
    destruct (Nat.leb_spec (w_limit w) (S m)); simplify_eq/=; [done|].
    destruct (_closed _); [done|]. destruct Hok as [-> _]. split; [|right; lia].
    unfold missed_run. by rewrite fold_left_app.
Qed.

Lemma reach_hb ws w tr : reach ws w tr → hb_ok w tr.
Proof. induction 1 as [|e w w' tr o _ IH Hs]; [done|]. by eapply hb_ok_step. Qed.

(** *** A receive loop that can never move again *)

Definition stuck (r : nat) (p : bytes) (w : world) : Prop :=
  w_loop w = BlockedPut r p ∧ queue_full r (w_conn w) = true ∧
  is_Some (heap (w_conn w) !! r) ∧ (∀ rid, _streams (w_conn w) !! rid ≠ Some r) ∧
  ∃ rid, w_readers w !! r = Some (rid, Gone).

Lemma stuck_trans r p w w' o :
  stuck r p w → world_ok w → trans w w' o → stuck r p w' ∧ ∀ r', dispatched r' o = [].
Proof.
  intros (Hl & Hf & Hh & Hst & rid & Hr) Hw Ht.
  destruct (trans_conn _ _ _ Ht Hw) as [_ (Hg1 & _ & Hg3)].
  assert (Gone ∉ [Waiting; Yielded; Draining; Body]) by phase_notin.
  assert (Gone ∉ [Yielded; Draining]) by phase_notin.
  assert (Gone ∉ [Waiting; Draining; Body]) by phase_notin.
  assert (Ho : w_loop w' = BlockedPut r p ∧ enqueued r o = [] ∧ taken r o = [] ∧
               (∀ r', dispatched r' o = []) ∧ w_readers w' !! r = w_readers w !! r).
  { destruct Ht; try congruence;
      try (match goal with H : w_readers _ = <[_ := _]> _ |- _ =>
             rewrite H, lookup_insert_ne by congruence end);
      try (match goal with H : loop_quiet _ _ |- _ => destruct H as [H|(? & _)]; [|congruence] end);
      try (match goal with H : forallb quiet _ = true |- _ =>
             destruct (quiet_nil r _ H) as (He & _ & _ & Hk & _);
             pose proof (λ r', proj1 (proj2 (quiet_nil r' _ H))) end);
      try (split_and!; try congruence; simpl; try case_decide; congruence).
    destruct (tear_down_obs_nil r (w_conn w)) as (E1 & _ & _ & E2 & _).
    rewrite enqueued_app, taken_app, He, Hk, E1, E2. split_and!; try (done || congruence).
    intros r'. rewrite dispatched_app. destruct (tear_down_obs_nil r' (w_conn w)) as (_ & -> & _).
    rewrite app_nil_r. auto. }
  destruct Ho as (Hl' & He & Hk & Hd & Hr'). split; [|done].
  pose proof (trans_fifo _ _ _ r Ht Hw) as Hq. rewrite He, Hk, app_nil_r in Hq. simpl in Hq.
  split_and!; [done|unfold queue_full; by rewrite <-Hq|auto| |exists rid; by rewrite Hr'].
  intros rid' [H'|H']%Hg3; [by apply (Hst rid')|]. rewrite H' in Hh. by destruct Hh.
Qed.

Lemma stuck_run r p es : ∀ w w' o,
  stuck r p w → world_ok w → run es w = Some (w', o) →
  stuck r p w' ∧ ∀ r', dispatched r' o = [].
Proof.
  induction es as [|e es IH]; intros w w' o Hs Hw; simpl; [by intros [= <- <-]|].
  destruct (step e w) as [[w1 o1]|] eqn:E; [simpl|done].
  destruct (run es w1) as [[w2 o2]|] eqn:F; [simpl|done]. intros [= <- <-].
  apply step_trans in E. destruct (stuck_trans _ _ _ _ _ Hs Hw E) as [Hs1 Hd1].
  destruct (IH w1 w2 o2) as [Hs2 Hd2]; [done|by eapply trans_ok|done|].
  split; [done|]. intros r'. by rewrite dispatched_app, Hd1, Hd2.
Qed.

(** ** Properties *)

(** C31: whatever frames arrive and however the tasks interleave, no stream
    queue ever holds more than QUEUE_DEPTH payloads, at most MAX_STREAMS streams
    are registered, every registered id names a live stream object, and no
    object is registered twice. *)
Theorem tunnel_bounds ws w tr :
  reach ws w tr →
  (∀ r, (length (queue_of r (w_conn w)) ≤ QUEUE_DEPTH)%nat) ∧
  (size (_streams (w_conn w)) ≤ MAX_STREAMS)%nat ∧
  (∀ rid r, _streams (w_conn w) !! rid = Some r → is_Some (heap (w_conn w) !! r)) ∧
  (∀ rid1 rid2 r, _streams (w_conn w) !! rid1 = Some r →
                  _streams (w_conn w) !! rid2 = Some r → rid1 = rid2).
Proof.
  intros Hr. destruct (reach_ok _ _ _ Hr) as [[Hc _ _] _].
  destruct Hc as [Hq Hz Hreg _ Hinj]. auto.
Qed.

(** C30: the payloads of a stream reach its reader in the order in which their
    DATA frames were dispatched, without loss, duplication or invention: what
    was dispatched is what was taken from the queue, then what is still queued,
    then the one payload a blocked receive loop holds; and a reader that was not
    cancelled was given everything taken. *)
Theorem tunnel_fifo ws w tr r :
  reach ws w tr →
  dispatched r tr = taken r tr ++ queue_of r (w_conn w) ++ blocked r (w_loop w) ∧
  ((∀ rid, w_readers w !! r ≠ Some (rid, Gone)) → taken r tr = delivered r tr).
Proof.
  intros Hr. destruct (reach_ok _ _ _ Hr) as [_ Ht]. split; [|by apply tr_live].
  by rewrite (tr_dispatch _ _ Ht), (tr_fifo _ _ Ht), <-app_assoc.
Qed.

(** C29: no data is lost at the end of a stream: when a reader of
    [read_stream_iter] returns after the stream's CLOSE, CANCEL, ERROR or
    WS_CLOSE frame was dispatched, it has yielded every payload dispatched for
    the stream before that frame. *)
Theorem close_delivers_all ws w tr tr1 tr2 tr3 r :
  reach ws w tr → tr = tr1 ++ OClosed r :: tr2 ++ OEnd r :: tr3 →
  dispatched r tr1 `prefix_of` delivered r (tr1 ++ OClosed r :: tr2).
Proof.
  intros Hr Heq. destruct (reach_ok _ _ _ Hr) as [_ Ht].
  rewrite (tr_signal _ _ Ht tr1 (tr2 ++ OEnd r :: tr3) r Heq).
  destruct (tr_end _ _ Ht (tr1 ++ OClosed r :: tr2) tr3 r) as [-> _].
  { by rewrite Heq, <-app_assoc. }
  rewrite enqueued_app. by apply prefix_app_r.
Qed.

(** a reader never returns early: it returns only after its stream was
    closed by a frame or by the teardown of the connection, with nothing left
    in the queue, having yielded everything that was ever enqueued. *)
Theorem reader_end_complete ws w tr tr1 tr2 r :
  reach ws w tr → tr = tr1 ++ OEnd r :: tr2 →
  delivered r tr1 = enqueued r tr1 ∧ (OClosed r ∈ tr1 ∨ OTearDown ∈ tr1).
Proof. intros Hr Heq. destruct (reach_ok _ _ _ Hr) as [_ Ht]. by eapply (tr_end _ _ Ht). Qed.

(** C32: a reader of a closed stream returns, under every schedule of the tasks, in
    whatever phase it is: unless it is cancelled, no schedule has more steps of it than
    two for each payload that is queued or arrives, and three; and after every schedule
    it has returned or has a next step to make.  When it has returned, it has yielded
    what was queued and what arrived before its end, in order, and has deregistered the
    stream. *)
Theorem reader_terminates ws w tr r rid es w' o :
  reach ws w tr → reading r rid w → run es w = Some (w', o) → EAbandon r ∉ es →
  (turns r es ≤ 2 * length (queue_of r (w_conn w) ++ enqueued r o) + 3)%nat ∧
  (returned r rid w' ∨ ∃ e, own r e = true ∧ is_Some (step e w')) ∧
  (returned r rid w' → ∃ o1 o2, o = o1 ++ OEnd r :: o2 ∧
     delivered r o1 = queue_of r (w_conn w) ++ enqueued r o1).
Proof.
  intros Hreach Hr Hrun Ha. destruct (reach_ok _ _ _ Hreach) as [Hw Ht].
  destruct (reader_run r rid es w w' o Hrun Hw Ha (or_introl Hr)) as (Hb & Hgo & _). specialize (Hgo Hr).
  assert (budget r w ≤ 2 * length (queue_of r (w_conn w)) + 3)%nat as Hmax
    by (unfold budget; destruct (_ <$> _) as [[]|]; lia).
  assert (reading r rid w' → ¬ returned r rid w') as Hlive.
  { intros [_ (ph & Hph & Hc)] [Hf _]. rewrite Hph in Hf. injection Hf as ->. naive_solver. }
  split_and!.
  - rewrite length_app. lia.
  - destruct Hgo as [Hr'|[Hr' _]]; [right; by eapply reading_enabled|by left].
  - intros Hret. destruct Hgo as [Hr'|[_ He]]; [by destruct (Hlive Hr' Hret)|].
    apply list_elem_of_split in He as (o1 & o2 & ->). exists o1, o2. split; [done|].
    destruct (reach_ok _ _ _ (reach_run _ _ _ _ _ _ Hreach Hrun)) as [_ Ht'].
    destruct (tr_end _ _ Ht' (tr ++ o1) o2 r) as [Hd _]; [by rewrite (assoc_L (++))|].
    rewrite delivered_app, enqueued_app, (tr_fifo _ _ Ht), (tr_live _ _ Ht r) in Hd.
    + rewrite <- (assoc_L (++)) in Hd. by apply app_inv_head in Hd.
    + intros rid' Hg. destruct Hr as [_ (ph & Hph & Hc)]. naive_solver.
Qed.

(** a reader that is lost while the receive loop waits for room in its full
    queue blocks the loop for good: when the stream has been deregistered, no
    schedule of the remaining tasks (not even closing the connection or the
    heartbeat's teardown) lets the loop receive another frame of any stream. *)
Theorem receive_loop_stuck ws w tr r p es w' o :
  reach ws w tr → stuck r p w → run es w = Some (w', o) →
  w_loop w' = BlockedPut r p ∧ ∀ r', dispatched r' o = [].
Proof.
  intros Hr Hs Hrun. destruct (reach_ok _ _ _ Hr) as [Hw _].
  by destruct (stuck_run _ _ _ _ _ _ Hs Hw Hrun) as [(? & _) ?].
Qed.

(** a missed pong tears the connection down exactly when it is the
    [missed_limit]-th in a row since the last pong (or since the start), and
    until then the loop's counter is the number of consecutive misses. *)
Theorem heartbeat_teardown ws w tr w' o :
  reach ws w tr → _closed (w_conn w) = false → step EHbTimeout w = Some (w', o) →
  (_closed (w_conn w') = true ↔ (w_limit w ≤ missed_run (tr ++ o))%nat) ∧
  (_closed (w_conn w') = false → w_hb w' = HbSleep (missed_run (tr ++ o))).
Proof.
  intros Hr Hc Hs. pose proof (reach_hb _ _ _ Hr) as Hok. unfold hb_ok in Hok.
  simpl in Hs. destruct (w_hb w) as [|m|m]; try done. destruct Hok as [-> _].
  destruct (_pong_event (w_conn w)); [done|].
  assert (missed_run (tr ++ [OHbTimeout]) = S (missed_run tr)) as Hm.
  { unfold missed_run. by rewrite fold_left_app. }
  assert (missed_run (tr ++ [OHbTimeout; OTearDown]) = S (missed_run tr)) as Hm'.
  { unfold missed_run. by rewrite fold_left_app. }
  destruct (Nat.leb_spec (w_limit w) (S (missed_run tr))); simplify_eq/=.
  - unfold tear_down_obs, _tear_down. rewrite Hc, Hm'. done.
  - rewrite Hc, Hm. split; [split; [done|lia]|done].
Qed.
End steps.

(** [close] marks the connection closed, signals every registered stream,
    leaves the other stream objects alone and empties the registry; calling it
    again changes nothing.  After the heartbeat has already torn the connection
    down, [close] changes nothing either: the WebSocket is then never closed. *)
Theorem close_spec c :
  let c' := close c in
  _closed c' = true ∧ close c' = c' ∧ close (_tear_down c) = _tear_down c ∧
  _ws (close (_tear_down c)) = _ws c ∧
  (_closed c = false →
     _streams c' = ∅ ∧ _ws c' = (ws_close (_ws c)).1 ∧
     (∀ rid r, _streams c !! rid = Some r → heap c' !! r = set_closed <$> heap c !! r) ∧
     (∀ r, (∀ rid, _streams c !! rid ≠ Some r) → heap c' !! r = heap c !! r)).
Proof.
  simpl. assert (Hcc : _closed (close c) = true).
  { destruct (close_same c) as (_ & _ & _ & ->). unfold _tear_down.
    by destruct (_closed c) eqn:E. }
  assert (Htt : _closed (_tear_down c) = true) by (unfold _tear_down; by destruct (_closed c) eqn:E).
  assert (Hws : _ws (_tear_down c) = _ws c) by (unfold _tear_down; by destruct (_closed c)).
  assert (Hno : ∀ c0, _closed c0 = true → close c0 = c0) by (intros c0 E; unfold close; by rewrite E).
  split_and!; [done|by apply Hno|by apply Hno|by rewrite Hno|].
  intros Hc. destruct (close_same c) as (Hh & _ & -> & _). split_and!.
  - unfold _tear_down. by rewrite Hc.
  - unfold close, on_ws. rewrite Hc, Hws. by destruct (ws_close (_ws c)).
  - intros rid r H. rewrite Hh. unfold _tear_down. rewrite Hc. simpl. rewrite tear_heap_lookup.
    rewrite bool_decide_eq_true_2.
    + destruct (heap c !! r); simpl; [|done]. by rewrite orb_true_r.
    + apply list_elem_of_fmap. exists (rid, r). by rewrite elem_of_map_to_list.
  - intros r H. rewrite Hh. unfold _tear_down. rewrite Hc. simpl. rewrite tear_heap_lookup.
    rewrite bool_decide_eq_false_2.
    + destruct (heap c !! r) as [[]|]; simpl; [|done]. by rewrite orb_false_r.
    + intros ([rid r'] & -> & H'%elem_of_map_to_list)%list_elem_of_fmap. by apply (H rid).
Qed.

(** [send_data] never consults the stream registry: it raises
    [FrameTooLargeError] above the payload limit, otherwise it hands the frame to
    the WebSocket and turns its transport errors into [TunnelSendError]; its
    outcome depends on the WebSocket alone, and so it never raises the
    [StreamNotFoundError] that its callers catch to notice a cancelled stream. *)
Theorem send_data_spec rid payload c :
  same_streams c (send_data rid payload c).1 ∧
  match serialize_frame DATA rid payload with
  | inl e => send_data rid payload c = (c, inl (Tun e)) ∧ e = FrameTooLargeError
             ∧ MAX_PAYLOAD_BYTES < Z.of_nat (length payload)
  | inr frame =>
      (send_data rid payload c).2 =
        match (ws_send_bytes frame (_ws c)).2 with
        | inr u => inr u
        | inl e => inl (if is_transport e then Tun TunnelSendError else e)
        end
  end ∧
  ∀ c2, _ws c2 = _ws c → (send_data rid payload c2).2 = (send_data rid payload c).2.
Proof.
  assert (Heq : ∀ c0, match serialize_frame DATA rid payload with
    | inl e => send_data rid payload c0 = (c0, inl (Tun e))
    | inr frame => send_data rid payload c0 =
        (set_ws (ws_send_bytes frame (_ws c0)).1 c0,
         match (ws_send_bytes frame (_ws c0)).2 with
         | inr u => inr u
         | inl e => inl (if is_transport e then Tun TunnelSendError else e)
         end)
    end).
  { intros c0. unfold send_data, tun. destruct (serialize_frame DATA rid payload) as [e|frame]; [done|].
    unfold mbind, M_bind, mret, M_ret, _guarded_send, try_except, on_ws, raise. cbv beta iota.
    destruct (ws_send_bytes frame (_ws c0)) as [w [e|[]]]; simpl; [by destruct (is_transport e)|done]. }
  pose proof (Heq c) as Hc.
  destruct (serialize_frame DATA rid payload) as [e|frame] eqn:E; rewrite Hc; simpl; split_and!; try done.
  - unfold serialize_frame in E. case_match; by simplify_eq.
  - unfold serialize_frame in E. case_match; [by bool_prop|done].
  - intros c2 _. by rewrite Heq.
  - intros c2 Hw. rewrite Heq, Hw. done.
Qed.
End tunnel_props.

(** ** Witnesses: schedules on the recording WebSocket *)

Lemma handler_none : handler_ok (W:=LogWs) None.
Proof. by intros f [=]. Qed.

Definition frame_in (t : FrameType) (rid : UUID) (p : bytes) : WsIn :=
  InBytes (match serialize_frame t rid p with inr w => w | inl _ => [] end).

(** A relay serving one response: two payloads, the CLOSE frame, a reader. *)
Definition demo_events : list event :=
  [EOpen 7; ERecv (frame_in DATA 7 [Z_byte 1]); EStart 7; EGet 0;
   ERecv (frame_in DATA 7 [Z_byte 2]); ERecv (frame_in CLOSE 7 []); EResume 0].

Definition demo_run (es : list event) : World * list obs :=
  default (init_world fresh_ws, []) (run None None false es (init_world fresh_ws)).

Lemma demo_reach es :
  is_Some (run None None false es (init_world fresh_ws)) →
  reach None None false fresh_ws (demo_run es).1 (demo_run es).2.
Proof.
  unfold demo_run. intros [[w o] E]. rewrite E. simpl.
  eapply (reach_run None None false fresh_ws es (init_world fresh_ws) w [] o); [apply reach_init|done].
Qed.

Definition demo_full : list event := demo_events ++ [EGet 0; EResume 0].

Lemma tunnel_bounds_witness :
  (length (queue_of 0 (w_conn (demo_run demo_events).1)) ≤ QUEUE_DEPTH)%nat
  ∧ queue_of 0 (w_conn (demo_run demo_events).1) = [[Z_byte 2]].
Proof.
  split; [|vm_compute; reflexivity].
  apply (tunnel_bounds None None false handler_none handler_none fresh_ws _
           (demo_run demo_events).2).
  apply demo_reach. vm_compute. eauto.
Defined.

Lemma tunnel_fifo_witness :
  dispatched 0 (demo_run demo_events).2 = [[Z_byte 1]] ++ [[Z_byte 2]] ++ [].
Proof.
  apply (tunnel_fifo None None false handler_none handler_none fresh_ws
           (demo_run demo_events).1 (demo_run demo_events).2 0).
  apply demo_reach. vm_compute. eauto.
Defined.

Lemma close_delivers_all_witness :
  [[Z_byte 1]; [Z_byte 2]] `prefix_of`
  delivered 0 (take 6 (demo_run demo_full).2 ++ OClosed 0 :: [ODeliver 0 [Z_byte 2]]).
Proof.
  apply (close_delivers_all None None false handler_none handler_none fresh_ws
           (demo_run demo_full).1 (demo_run demo_full).2
           (take 6 (demo_run demo_full).2) [ODeliver 0 [Z_byte 2]] []).
  - apply demo_reach. vm_compute. eauto.
  - vm_compute. reflexivity.
Defined.

Lemma reader_end_complete_witness :
  delivered 0 (take 8 (demo_run demo_full).2) = enqueued 0 (take 8 (demo_run demo_full).2)
  ∧ (OClosed 0 ∈ take 8 (demo_run demo_full).2 ∨ OTearDown ∈ take 8 (demo_run demo_full).2).
Proof.
  apply (reader_end_complete None None false handler_none handler_none fresh_ws
           (demo_run demo_full).1 (demo_run demo_full).2 _ [] 0).
  - apply demo_reach. vm_compute. eauto.
  - vm_compute. reflexivity.
Defined.

(** A reader waiting on a stream that was closed with two payloads queued. *)
Definition demo_waiting : list event :=
  [EOpen 7; EStart 7; ERecv (frame_in DATA 7 [Z_byte 1]); ERecv (frame_in DATA 7 [Z_byte 2]);
   ERecv (frame_in CLOSE 7 [])].

(** Its turns, among others: it takes an item, a late payload arrives, it goes on, is woken
    and drains. *)
Definition demo_turns : list event :=
  [EGet 0; ERecv (frame_in DATA 7 [Z_byte 3]); EResume 0; EOpen 8; EWake 0; EDrain 0; EDrain 0; EDrain 0].

Lemma reader_terminates_witness :
  let w := (demo_run demo_waiting).1 in
  ∃ w' o, run None None false demo_turns w = Some (w', o) ∧
    (turns 0 demo_turns ≤ 9)%nat ∧ returned 0 7 w' ∧
    ∃ o1 o2, o = o1 ++ OEnd 0 :: o2 ∧ delivered 0 o1 = queue_of 0 (w_conn w) ++ enqueued 0 o1.
Proof.
  cbv zeta. set (w := (demo_run demo_waiting).1).
  assert (reach None None false fresh_ws w (demo_run demo_waiting).2) as Hreach
    by (apply demo_reach; vm_compute; eauto).
  assert (reading 0 7 w) as Hr.
  { split; [vm_compute; reflexivity|]. exists Waiting. split; [vm_compute; reflexivity|by left]. }
  destruct (run None None false demo_turns w) as [[w' o]|] eqn:E; [|vm_compute in E; discriminate E].
  assert (EAbandon 0 ∉ demo_turns) as Ha by (repeat (apply not_elem_of_cons; split; [discriminate|]); apply not_elem_of_nil).
  destruct (reader_terminates None None false handler_none handler_none fresh_ws w _ 0 7 demo_turns w' o Hreach Hr E Ha)
    as (Hb & Hgo & Hd).
  assert (returned 0 7 w') as Hret.
  { destruct Hgo as [Hret|(e & Ho & [x Hx])]; [exact Hret|].
    assert (w_readers w' !! 0%nat = Some (7, Finished)) as Hf by (vm_compute in E; injection E as <- _; reflexivity).
    destruct e; cbn [own] in Ho; try discriminate Ho; apply bool_decide_eq_true in Ho; subst; simpl in Hx;
      rewrite Hf in Hx; discriminate Hx. }
  exists w', o. split; [reflexivity|]. split; [|by split; [|apply Hd]].
  vm_compute. lia.
Defined.

(** A download whose client goes away while the loop waits for room: the
    reader is suspended at a [yield] with 64 payloads queued and one blocked,
    its generator is closed and the stream removed. *)
Definition demo_lost : list event :=
  [EOpen 7; EStart 7; ERecv (frame_in DATA 7 [Z_byte 1]); EGet 0]
  ++ replicate 65 (ERecv (frame_in DATA 7 [Z_byte 2])) ++ [EAbandon 0; ERemove 7].

Lemma receive_loop_stuck_witness :
  stuck 0 [Z_byte 2] (demo_run demo_lost).1 ∧
  ∃ w' o, run None None false [EOpen 8; EClose; EHbStart 3] (demo_run demo_lost).1 = Some (w', o)
          ∧ w_loop w' = BlockedPut 0 [Z_byte 2].
Proof.
  assert (Hs : stuck 0 [Z_byte 2] (demo_run demo_lost).1).
  { split; [vm_compute; reflexivity|]. split; [vm_compute; reflexivity|].
    split; [vm_compute; eauto|]. split; [|exists 7; vm_compute; reflexivity].
    intros rid H. vm_compute in H. discriminate H. }
  split; [exact Hs|].
  destruct (run None None false [EOpen 8; EClose; EHbStart 3] (demo_run demo_lost).1)
    as [[w' o]|] eqn:E; [|vm_compute in E; discriminate E].
  exists w', o. split; [reflexivity|].
  apply (receive_loop_stuck None None false handler_none handler_none fresh_ws
           (demo_run demo_lost).1 (demo_run demo_lost).2 0 [Z_byte 2]
           [EOpen 8; EClose; EHbStart 3] w' o).
  - apply demo_reach. vm_compute. eauto.
  - exact Hs.
  - exact E.
Defined.

(** Two missed pongs with a limit of two. *)
Definition demo_missed : list event :=
  [EHbStart 2; EHbPing; EHbTimeout; EHbPing].

Lemma heartbeat_teardown_witness :
  ∃ w' o, step None None false EHbTimeout (demo_run demo_missed).1 = Some (w', o)
          ∧ _closed (w_conn w') = true.
Proof.
  destruct (step None None false EHbTimeout (demo_run demo_missed).1) as [[w' o]|] eqn:E;
    [|vm_compute in E; discriminate E].
  exists w', o. split; [reflexivity|].
  apply (heartbeat_teardown None None false fresh_ws (demo_run demo_missed).1
           (demo_run demo_missed).2 w' o).
  - apply demo_reach. vm_compute. eauto.
  - vm_compute. reflexivity.
  - exact E.
  - vm_compute in E. injection E as <- <-. vm_compute. lia.
Defined.
