(* ===== verification/Accounts.v ===== *)
(** The accounts library, [src/accounts/]: users, groups, nested memberships,
    quotas and external identities on the tables of [SqliteAccountStore], the
    group walks, and password hashing.

    A table is a finite map from its primary key to the row; AUTOINCREMENT
    keeps the largest key ever used.  Every method runs as one transaction:
    the interleaving of two calls between their awaits is not modelled, and so
    the [IntegrityError] clauses that exist for such races are not reachable,
    except the one for a linked external identity.  Ids are within SQLite's 64
    bits; a quota above them raises [OverflowError]. *)

From stdpp Require Import relations sorting.
From S2P Require Import Prelude Utf8.

Inductive SubjectType := USER | GROUP.

Global Instance SubjectType_eq_dec : EqDecision SubjectType.
Proof. solve_decision. Defined.

Global Instance SubjectType_countable : Countable SubjectType.
Proof.
  by refine (inj_countable' (λ t, match t with USER => true | GROUP => false end)
    (λ b, if b : bool then USER else GROUP) _); intros [].
Defined.

Inductive Role := READ | WRITE | RECEIVE.

Global Instance Role_eq_dec : EqDecision Role.
Proof. solve_decision. Defined.

Inductive AccessMode := OPEN_MODE | RESTRICTED | LEGACY.

Global Instance AccessMode_eq_dec : EqDecision AccessMode.
Proof. solve_decision. Defined.

Inductive AccountExn :=
| UsernameTakenError
| UserNotFoundError
| GroupNotFoundError
| GroupNameTakenError
| GroupCycleError
| DuplicateMembershipError
| MembershipNotFoundError
| InvalidCredentialsError
| WeakPasswordError
| QuotaNotSetError
| AccValueError
| AccOverflowError
| WalkOutOfFuel.

Global Instance AccountExn_eq_dec : EqDecision AccountExn.
Proof. solve_decision. Defined.

(** ** Models *)

Record User := {
  u_id : Z;
  u_username : pystr;
  u_email : option pystr;
  u_password_hash : bytes;
  u_created_at : time;
  u_is_active : bool
}.

Record Group := {
  g_id : Z;
  g_name : pystr;
  g_created_at : time
}.

(** [group_id] contains [(member_type, member_id)]. *)
Abbreviation Membership := (Z * SubjectType * Z)%type (only parsing).

(** ** Passwords; [bcrypt] is a parameter

    [checkpw] raises a [ValueError], here [None], for a password over 72 bytes (bcrypt 5.0) and
    for a hash it cannot read. *)

Definition _BCRYPT_MAX_BYTES : Z := 72.

Section passwords.
Variable hashpw : bytes → bytes → bytes.
Variable checkpw : bytes → bytes → option bool.

(** A lone surrogate makes [encode] raise [UnicodeEncodeError], a [ValueError]. *)
Definition hash_password (salt : bytes) (plain_password : pystr) : AccountExn + bytes :=
  if bool_decide (plain_password = []) then inl WeakPasswordError
  else match utf8_encode plain_password with
  | None => inl AccValueError
  | Some bs =>
      if _BCRYPT_MAX_BYTES <? Z.of_nat (length bs) then inl WeakPasswordError
      else inr (hashpw bs salt)
  end.

Definition verify_password (plain_password : pystr) (hashed_password : bytes)
    : AccountExn + bool :=
  if bool_decide (plain_password = []) then inl WeakPasswordError
  else if bool_decide (hashed_password = []) then inl AccValueError
  else match utf8_encode plain_password with
  | None => inl AccValueError
  | Some bs => match checkpw bs hashed_password with Some ok => inr ok | None => inl AccValueError end
  end.
End passwords.

(** ** The tables *)

Record AccountDb := {
  users : gmap Z User;
  users_seq : Z;
  groups : gmap Z Group;
  groups_seq : Z;
  memberships : gset Membership;
  user_quota : gmap Z Z;
  external_identities : gmap (pystr * pystr) (Z * time)
}.

Definition empty_db : AccountDb :=
  {| users := ∅; users_seq := 0; groups := ∅; groups_seq := 0; memberships := ∅;
     user_quota := ∅; external_identities := ∅ |}.

Definition set_users (m : gmap Z User) (seq : Z) (db : AccountDb) : AccountDb :=
  {| users := m; users_seq := seq; groups := groups db; groups_seq := groups_seq db;
     memberships := memberships db; user_quota := user_quota db;
     external_identities := external_identities db |}.

Definition set_groups (m : gmap Z Group) (seq : Z) (db : AccountDb) : AccountDb :=
  {| users := users db; users_seq := users_seq db; groups := m; groups_seq := seq;
     memberships := memberships db; user_quota := user_quota db;
     external_identities := external_identities db |}.

Definition set_memberships (m : gset Membership) (db : AccountDb) : AccountDb :=
  {| users := users db; users_seq := users_seq db; groups := groups db;
     groups_seq := groups_seq db; memberships := m; user_quota := user_quota db;
     external_identities := external_identities db |}.

Definition set_quotas (m : gmap Z Z) (db : AccountDb) : AccountDb :=
  {| users := users db; users_seq := users_seq db; groups := groups db;
     groups_seq := groups_seq db; memberships := memberships db; user_quota := m;
     external_identities := external_identities db |}.

Definition set_external (m : gmap (pystr * pystr) (Z * time)) (db : AccountDb) : AccountDb :=
  {| users := users db; users_seq := users_seq db; groups := groups db;
     groups_seq := groups_seq db; memberships := memberships db;
     user_quota := user_quota db; external_identities := m |}.

Abbreviation A T := (M AccountDb AccountExn T).

(** ** Users *)

Definition user_named (username : pystr) (db : AccountDb) : option User :=
  snd <$> head (filter (λ kv : Z * User, u_username kv.2 = username) (map_to_list (users db))).

Definition _username_exists (username : pystr) (db : AccountDb) : bool :=
  bool_decide (is_Some (user_named username db)).

(** [INSERT INTO users]: the row gets the next id. *)
Definition insert_user (username : pystr) (email : option pystr) (password_hash : bytes)
    (now : time) (db : AccountDb) : AccountDb * User :=
  let id := users_seq db + 1 in
  let u := {| u_id := id; u_username := username; u_email := email;
              u_password_hash := password_hash; u_created_at := now; u_is_active := true |} in
  (set_users (<[id := u]> (users db)) id db, u).

Definition create_user (now : time) (username : pystr) (password_hash : bytes)
    (email : option pystr) : A User := λ db,
  if bool_decide (strip username = []) then (db, inl AccValueError)
  else if bool_decide (password_hash = []) then (db, inl AccValueError)
  else
    let normalized := strip username in
    if _username_exists normalized db then (db, inl UsernameTakenError)
    else let '(db', u) := insert_user normalized email password_hash now db in (db', inr u).

Definition get_user_by_username (username : pystr) : A User := λ db,
  match user_named username db with
  | None => (db, inl UserNotFoundError)
  | Some u => (db, inr u)
  end.

Definition get_user_by_id (user_id : Z) : A User := λ db,
  match users db !! user_id with
  | None => (db, inl UserNotFoundError)
  | Some u => (db, inr u)
  end.

Definition get_users_by_ids (user_ids : list Z) : A (gmap Z User) := λ db,
  (db, inr (filter (λ kv : Z * User, kv.1 ∈ user_ids) (users db))).

Definition set_active (b : bool) (u : User) : User :=
  {| u_id := u_id u; u_username := u_username u; u_email := u_email u;
     u_password_hash := u_password_hash u; u_created_at := u_created_at u; u_is_active := b |}.

Definition set_user_active (user_id : Z) (is_active : bool) : A unit := λ db,
  match users db !! user_id with
  | None => (db, inl UserNotFoundError)
  | Some u => (set_users (<[user_id := set_active is_active u]> (users db)) (users_seq db) db, inr tt)
  end.

(** [ORDER BY id ASC] *)
Definition user_le (u v : User) : Prop := u_id u ≤ u_id v.

Global Instance user_le_dec : RelDecision user_le.
Proof. intros u v. unfold user_le. apply _. Defined.

Definition list_users : A (list User) := λ db,
  (db, inr (merge_sort user_le (map_to_list (users db)).*2)).

(** ** External identities *)

Definition get_user_by_external_id (provider subject : pystr) : A User := λ db,
  match external_identities db !! (provider, subject) ≫= λ e, users db !! e.1 with
  | None => (db, inl UserNotFoundError)
  | Some u => (db, inr u)
  end.

(** [secret] is the random text of [secrets.token_urlsafe(32)], [salt] the one
    of [bcrypt.gensalt()].  The row of [users] is rolled back when the identity
    is already linked. *)
Definition create_external_user (hashpw : bytes → bytes → bytes) (salt : bytes) (secret : pystr)
    (now : time) (provider subject username : pystr) (email : option pystr) : A User := λ db,
  if bool_decide (strip username = []) then (db, inl AccValueError)
  else if bool_decide (provider = []) || bool_decide (subject = []) then (db, inl AccValueError)
  else
    let normalized := strip username in
    if _username_exists normalized db then (db, inl UsernameTakenError)
    else match hash_password hashpw salt secret with
    | inl e => (db, inl e)
    | inr sentinel =>
        let '(db', u) := insert_user normalized email sentinel now db in
        match external_identities db !! (provider, subject) with
        | Some _ => (db, inl UsernameTakenError)
        | None =>
            (set_external (<[(provider, subject) := (u_id u, now)]> (external_identities db')) db',
             inr u)
        end
    end.

(** ** Groups *)

Definition group_named (name : pystr) (db : AccountDb) : option Group :=
  snd <$> head (filter (λ kv : Z * Group, g_name kv.2 = name) (map_to_list (groups db))).

Definition _group_name_exists (name : pystr) (db : AccountDb) : bool :=
  bool_decide (is_Some (group_named name db)).

Definition create_group (now : time) (name : pystr) : A Group := λ db,
  if bool_decide (strip name = []) then (db, inl AccValueError)
  else
    let normalized := strip name in
    if _group_name_exists normalized db then (db, inl GroupNameTakenError)
    else
      let id := groups_seq db + 1 in
      let g := {| g_id := id; g_name := normalized; g_created_at := now |} in
      (set_groups (<[id := g]> (groups db)) id db, inr g).

Definition get_group_by_id (group_id : Z) : A Group := λ db,
  match groups db !! group_id with
  | None => (db, inl GroupNotFoundError)
  | Some g => (db, inr g)
  end.

Definition get_group_by_name (name : pystr) : A Group := λ db,
  match group_named name db with
  | None => (db, inl GroupNotFoundError)
  | Some g => (db, inr g)
  end.

Definition group_le (g h : Group) : Prop := g_id g ≤ g_id h.

Global Instance group_le_dec : RelDecision group_le.
Proof. intros g h. unfold group_le. apply _. Defined.

Definition list_groups : A (list Group) := λ db,
  (db, inr (merge_sort group_le (map_to_list (groups db)).*2)).

Definition delete_group (group_id : Z) : A unit := λ db,
  match groups db !! group_id with
  | None => (db, inl GroupNotFoundError)
  | Some _ =>
      let m1 := filter (λ e : Membership, e.1.1 ≠ group_id) (memberships db) in
      let m2 := filter (λ e : Membership, ¬ (e.1.2 = GROUP ∧ e.2 = group_id)) m1 in
      (set_memberships m2 (set_groups (delete group_id (groups db)) (groups_seq db) db), inr tt)
  end.

(** ** Memberships *)

(** [SELECT member_id ... WHERE group_id = g AND member_type = 'group']; the
    order of the rows is not specified. *)
Definition child_groups (g : Z) (db : AccountDb) : list Z :=
  (λ e : Membership, e.2) <$>
    filter (λ e : Membership, e.1.1 = g ∧ e.1.2 = GROUP) (elements (memberships db)).

(** One round over the children of a popped group. *)
Fixpoint push_children (rows : list Z) (descendants : gset Z) (frontier : list Z)
    : gset Z * list Z :=
  match rows with
  | [] => (descendants, frontier)
  | child_id :: rows' =>
      if bool_decide (child_id ∈ descendants) then push_children rows' descendants frontier
      else push_children rows' ({[child_id]} ∪ descendants) (child_id :: frontier)
  end.

(** The [while frontier] loop; the end of the Python list is the head here. *)
Fixpoint descend (fuel : nat) (db : AccountDb) (descendants : gset Z) (frontier : list Z)
    : option (gset Z) :=
  match frontier with
  | [] => Some descendants
  | current :: frontier' =>
      match fuel with
      | O => None
      | S fuel' =>
          let '(d, f) := push_children (child_groups current db) descendants frontier' in
          descend fuel' db d f
      end
  end.

(** Every group is pushed at most once, so one round per membership and one
    for the root are enough, see [descend_total]. *)
Definition _group_descendants (group_id : Z) (db : AccountDb) : option (gset Z) :=
  descend (S (size (memberships db))) db ∅ [group_id].

Definition _membership_exists (group_id : Z) (member_type : SubjectType) (member_id : Z)
    (db : AccountDb) : bool :=
  bool_decide ((group_id, member_type, member_id) ∈ memberships db).

(** The check of a group member: it exists, and cannot reach the group. *)
Definition check_group_member (group_id member_id : Z) : A unit :=
  get_group_by_id member_id ≫= λ _,
  if bool_decide (member_id = group_id) then raise GroupCycleError
  else gets (_group_descendants member_id) ≫= λ d,
       match d with
       | None => raise WalkOutOfFuel
       | Some d => if bool_decide (group_id ∈ d) then raise GroupCycleError else mret tt
       end.

(** Both endpoints exist, and a group member makes no cycle. *)
Definition check_member (group_id : Z) (member_type : SubjectType) (member_id : Z) : A unit :=
  get_group_by_id group_id ≫= λ _,
  match member_type with
  | USER => get_user_by_id member_id ≫= λ _, mret tt
  | GROUP => check_group_member group_id member_id
  end.

Definition insert_member (group_id : Z) (member_type : SubjectType) (member_id : Z) : A unit := λ db,
  if _membership_exists group_id member_type member_id db then (db, inl DuplicateMembershipError)
  else (set_memberships ({[(group_id, member_type, member_id)]} ∪ memberships db) db, inr tt).

Definition add_member (group_id : Z) (member_type : SubjectType) (member_id : Z) : A unit :=
  check_member group_id member_type member_id ≫= λ _,
  insert_member group_id member_type member_id.

Definition remove_member (group_id : Z) (member_type : SubjectType) (member_id : Z) : A unit := λ db,
  if _membership_exists group_id member_type member_id db
  then (set_memberships (memberships db ∖ {[(group_id, member_type, member_id)]}) db, inr tt)
  else (db, inl MembershipNotFoundError).

(** [ORDER BY member_type, member_id]; ["group"] sorts before ["user"]. *)
Definition member_le (e f : Membership) : Prop :=
  match e.1.2, f.1.2 with
  | GROUP, USER => True
  | USER, GROUP => False
  | _, _ => e.2 ≤ f.2
  end.

Global Instance member_le_dec : RelDecision member_le.
Proof. intros [[? []] ?] [[? []] ?]; unfold member_le; simpl; apply _. Defined.

Definition list_group_members (group_id : Z) : A (list Membership) :=
  get_group_by_id group_id ≫= λ _,
  gets (λ db, merge_sort member_le
          (filter (λ e : Membership, e.1.1 = group_id) (elements (memberships db)))).

Definition parents (member_type : SubjectType) (member_id : Z) (db : AccountDb) : list Z :=
  (λ e : Membership, e.1.1) <$>
    filter (λ e : Membership, e.1.2 = member_type ∧ e.2 = member_id) (elements (memberships db)).

Definition list_parent_group_ids (member_type : SubjectType) (member_id : Z) : A (list Z) := λ db,
  (db, inr (parents member_type member_id db)).

(** ** Transitive resolution, [resolve.py] *)

(** [for parent_id in parent_ids], with the recursive call as [rec]. *)
Fixpoint visit_parents (rec : Z → gset Z → gset Z → AccountExn + gset Z)
    (parent_ids : list Z) (acc path : gset Z) : AccountExn + gset Z :=
  match parent_ids with
  | [] => inr acc
  | parent_id :: rest =>
      if bool_decide (parent_id ∈ path) then inl GroupCycleError
      else if bool_decide (parent_id ∈ acc) then visit_parents rec rest acc path
      else
        acc' ← rec parent_id ({[parent_id]} ∪ acc) ({[parent_id]} ∪ path);
        visit_parents rec rest acc' path
  end.

Fixpoint _collect_parents (fuel : nat) (db : AccountDb) (member_type : SubjectType)
    (member_id : Z) (acc path : gset Z) : AccountExn + gset Z :=
  match fuel with
  | O => inl WalkOutOfFuel
  | S fuel' =>
      visit_parents (λ p, _collect_parents fuel' db GROUP p)
        (parents member_type member_id db) acc path
  end.

(** Each level of the recursion adds a group that contains something, so one
    level more than there are memberships is enough. *)
Definition resolve_user_groups (user_id : Z) : A (gset Z) :=
  get_user_by_id user_id ≫= λ _,
  get ≫= λ db, lift_res (_collect_parents (S (size (memberships db))) db USER user_id ∅ ∅).

(** ** Quotas *)

Definition set_user_quota (user_id quota_bytes : Z) : A unit :=
  if quota_bytes <? 0 then raise AccValueError
  else get_user_by_id user_id ≫= λ _,
    if 2 ^ 63 <=? quota_bytes then raise AccOverflowError
    else modify (λ db, set_quotas (<[user_id := quota_bytes]> (user_quota db)) db).

Definition get_user_quota (user_id : Z) : A Z := λ db,
  match user_quota db !! user_id with
  | None => (db, inl QuotaNotSetError)
  | Some q => (db, inr q)
  end.
