(* ===== verification/AccountsProps.v ===== *)
(** Correctness of the accounts library of [Accounts]: the table invariant and
    its preservation by every method, the two group walks against the
    transitive closure of the membership edges, and what each method does. *)

From stdpp Require Import relations sorting.
From S2P Require Import Prelude Utf8 Accounts.

Implicit Types db : AccountDb.

(** ** The membership graph *)

(** The group [g] contains the group [m] directly. *)
Definition holds_group (db : AccountDb) (g m : Z) : Prop := (g, GROUP, m) ∈ memberships db.

(** The user [u] belongs to [g], directly or through nested groups. *)
Definition belongs (db : AccountDb) (u g : Z) : Prop :=
  ∃ p, (p, USER, u) ∈ memberships db ∧ rtc (holds_group db) g p.

Lemma elem_child_groups db g x : x ∈ child_groups g db ↔ holds_group db g x.
Proof.
  unfold child_groups, holds_group. rewrite list_elem_of_fmap. split.
  - intros ([[g' t] m] & -> & [[Hg Ht] H]%list_elem_of_filter). simpl in *. subst.
    by apply elem_of_elements.
  - intros H. exists (g, GROUP, x). split; [done|]. apply list_elem_of_filter.
    split; [done|]. by apply elem_of_elements.
Qed.

Lemma elem_parents db t x p : p ∈ parents t x db ↔ (p, t, x) ∈ memberships db.
Proof.
  unfold parents. rewrite list_elem_of_fmap. split.
  - intros ([[g' t'] m] & -> & [[Hg Ht] H]%list_elem_of_filter). simpl in *. subst.
    by apply elem_of_elements.
  - intros H. exists (p, t, x). split; [done|]. apply list_elem_of_filter.
    split; [done|]. by apply elem_of_elements.
Qed.

Lemma size_list_to_set_le (l : list Z) : (size (list_to_set l : gset Z) ≤ length l)%nat.
Proof.
  induction l as [|x l IH]; [done|]. cbn [list_to_set length].
  rewrite size_union_alt, size_singleton.
  assert (size ((list_to_set l : gset Z) ∖ {[x]}) ≤ size (list_to_set l : gset Z))%nat
    by (apply subseteq_size; set_solver). lia.
Qed.

(** Taking a member out of what is left. *)
Lemma size_shrink (U d : gset Z) x :
  x ∈ U → x ∉ d → size (U ∖ d) = S (size (U ∖ ({[x]} ∪ d))).
Proof.
  intros HU Hd. replace (U ∖ d) with ({[x]} ∪ (U ∖ ({[x]} ∪ d))).
  - rewrite size_union by set_solver. by rewrite size_singleton.
  - apply set_eq. intros y. destruct (decide (y = x)); set_solver.
Qed.

(** *** Walking down: [_group_descendants] *)

(** The groups that are members of some group. *)
Definition member_groups (db : AccountDb) : gset Z :=
  list_to_set ((λ e : Membership, e.2) <$> elements (memberships db)).

Lemma size_member_groups db : (size (member_groups db) ≤ size (memberships db))%nat.
Proof. unfold member_groups. etrans; [apply size_list_to_set_le|]. by rewrite length_fmap. Qed.

Lemma child_member_group db g x : holds_group db g x → x ∈ member_groups db.
Proof.
  intros H. apply elem_of_list_to_set, list_elem_of_fmap. exists (g, GROUP, x).
  split; [done|]. by apply elem_of_elements.
Qed.

Lemma push_children_spec (U : gset Z) rows d f d' f' :
  (∀ x, x ∈ rows → x ∈ U) → push_children rows d f = (d', f') →
  (∀ x, x ∈ d' ↔ x ∈ rows ∨ x ∈ d) ∧
  (∀ x, x ∈ f' → x ∈ f ∨ x ∈ rows) ∧
  (∀ x, x ∈ f → x ∈ f') ∧
  (∀ x, x ∈ d' → x ∈ d ∨ x ∈ f') ∧
  (length f' + size (U ∖ d') = length f + size (U ∖ d))%nat.
Proof.
  revert d f. induction rows as [|c rows IH]; intros d f HU; simpl.
  - intros [= <- <-]. split_and!; auto.
    intros x. split; [auto|]. by intros [?%elem_of_nil|].
  - assert (HU' : ∀ x, x ∈ rows → x ∈ U) by (intros; apply HU; by right).
    assert (Hc' : c ∈ c :: rows) by left.
    case_bool_decide as Hc; intros Hp; apply IH in Hp as (H1 & H2 & H3 & H4 & H5); try done.
    + split_and!; try done.
      * intros x. rewrite H1, elem_of_cons. naive_solver.
      * intros x [?|?]%H2; [auto|]. right. by right.
    + split_and!.
      * intros x. rewrite H1, elem_of_cons, elem_of_union, elem_of_singleton. naive_solver.
      * intros x [[->|?]%elem_of_cons|?]%H2; [auto|auto|]. right. by right.
      * intros x ?. apply H3. by right.
      * intros x [[->%elem_of_singleton|?]%elem_of_union|?]%H4; [|auto|auto].
        right. apply H3. by left.
      * rewrite H5, (size_shrink U d c) by auto. simpl. lia.
Qed.

(** What the walk knows: found groups are reachable, pending groups are found,
    and every found group is pending or has all its children found. *)
Record walk_ok (db : AccountDb) (root : Z) (d : gset Z) (f : list Z) : Prop := {
  walk_sound : ∀ x, x ∈ d → tc (holds_group db) root x;
  walk_pending : ∀ x, x ∈ f → x = root ∨ x ∈ d;
  walk_closed : ∀ x, x = root ∨ x ∈ d → x ∈ f ∨ ∀ y, holds_group db x y → y ∈ d
}.

Lemma walk_step db root d f c d' f' :
  walk_ok db root d (c :: f) → push_children (child_groups c db) d f = (d', f') →
  walk_ok db root d' f' ∧
  (length f' + size (member_groups db ∖ d') = length f + size (member_groups db ∖ d))%nat.
Proof.
  intros [Hs Hp Hc] Hpush.
  apply (push_children_spec (member_groups db)) in Hpush as (H1 & H2 & H3 & H4 & H5).
  2: { intros x Hx%elem_child_groups. by eapply child_member_group. }
  split; [|done].
  assert (Hreach : ∀ x, holds_group db c x → tc (holds_group db) root x).
  { intros x Hx. destruct (Hp c) as [->|Hcd]; [by left|by apply tc_once|].
    eapply tc_r; [by apply Hs|done]. }
  split.
  - intros x [Hx%elem_child_groups|Hx]%H1; auto.
  - intros x [Hx|Hx]%H2; [|right; apply H1; auto].
    destruct (Hp x) as [->|Hd]; [by right|auto|right; apply H1; auto].
  - intros x Hx. destruct (decide (x = c)) as [->|Hne].
    + right. intros y Hy%elem_child_groups. apply H1. auto.
    + assert (x = root ∨ x ∈ d ∨ x ∈ f') as Hx'.
      { destruct Hx as [->|Hx]; [auto|]. destruct (H4 x Hx); auto. }
      destruct Hx' as [Hx'|[Hx'|?]]; [| |by left].
      * destruct (Hc x (or_introl Hx')) as [[?|?]%elem_of_cons|Hcl]; [done|left; auto|].
        right. intros y Hy. apply H1. right. auto.
      * destruct (Hc x (or_intror Hx')) as [[?|?]%elem_of_cons|Hcl]; [done|left; auto|].
        right. intros y Hy. apply H1. right. auto.
Qed.

Lemma descend_total db root fuel : ∀ d f,
  walk_ok db root d f → (length f + size (member_groups db ∖ d) ≤ fuel)%nat →
  ∃ d', descend fuel db d f = Some d' ∧ walk_ok db root d' [].
Proof.
  induction fuel as [|fuel IH]; intros d f Hw Hf; destruct f as [|c f]; simpl in *; eauto; [lia|].
  destruct (push_children (child_groups c db) d f) as [d1 f1] eqn:E.
  destruct (walk_step _ _ _ _ _ _ _ Hw E) as [Hw1 Hlen]. apply IH; [done|lia].
Qed.

(** The walk returns exactly the transitive members. *)
Lemma group_descendants_spec db g :
  ∃ d, _group_descendants g db = Some d ∧ ∀ x, x ∈ d ↔ tc (holds_group db) g x.
Proof.
  destruct (descend_total db g (S (size (memberships db))) ∅ [g]) as (d & Hd & [Hs _ Hc]).
  - split; try set_solver.
  - simpl. replace (member_groups db ∖ ∅) with (member_groups db) by (apply set_eq; set_solver).
    pose proof (size_member_groups db). lia.
  - exists d. split; [done|]. intros x. split; [apply Hs|].
    revert x. apply (tc_ind_r (λ x, x ∈ d)).
    + intros y Hy. destruct (Hc g) as [[]%elem_of_nil|H]; auto.
    + intros y z _ Hy IH. destruct (Hc y) as [[]%elem_of_nil|H]; auto.
Qed.

(** *** Walking up: [_collect_parents] *)

Definition holder_groups (db : AccountDb) : gset Z :=
  list_to_set ((λ e : Membership, e.1.1) <$> elements (memberships db)).

Lemma size_holder_groups db : (size (holder_groups db) ≤ size (memberships db))%nat.
Proof. unfold holder_groups. etrans; [apply size_list_to_set_le|]. by rewrite length_fmap. Qed.

Lemma parent_holder db t x p : (p, t, x) ∈ memberships db → p ∈ holder_groups db.
Proof.
  intros H. apply elem_of_list_to_set, list_elem_of_fmap. exists (p, t, x).
  split; [done|]. by apply elem_of_elements.
Qed.

Definition acyclic (db : AccountDb) : Prop := ∀ g, ¬ tc (holds_group db) g g.

(** What the walk from a subject adds: groups above it, each with all of its
    own parents, and the parents of the subject. *)
Definition collected (db : AccountDb) (ps : list Z) (acc acc' : gset Z) : Prop :=
  (∀ x, x ∈ acc → x ∈ acc') ∧ (∀ p, p ∈ ps → p ∈ acc') ∧
  (∀ x, x ∈ acc' → x ∈ acc ∨
     (∃ p, p ∈ ps ∧ rtc (holds_group db) x p) ∧ ∀ q, holds_group db q x → q ∈ acc').

(** The subjects whose walk is in progress are below every group of [path]. *)
Definition on_path (db : AccountDb) (ps : list Z) (path : gset Z) : Prop :=
  ∀ p x, p ∈ ps → x ∈ path → tc (holds_group db) p x.

Lemma visit_parents_spec db fuel (rec : Z → gset Z → gset Z → AccountExn + gset Z) path ps :
  acyclic db → on_path db ps path →
  (∀ p, p ∈ ps → p ∈ holder_groups db) →
  (∀ p acc, p ∈ ps → (size (holder_groups db ∖ acc) < fuel)%nat →
     ∃ acc', rec p acc ({[p]} ∪ path) = inr acc' ∧ collected db (parents GROUP p db) acc acc') →
  ∀ acc, (size (holder_groups db ∖ acc) ≤ fuel)%nat →
  ∃ acc', visit_parents rec ps acc path = inr acc' ∧ collected db ps acc acc'.
Proof.
  intros Hac. induction ps as [|p ps IH]; intros Hpath Hh Hrec acc Hsz; simpl.
  - exists acc. split; [done|]. split_and!; auto. by intros q ?%elem_of_nil.
  - assert (Hp : p ∈ p :: ps) by left.
    rewrite bool_decide_eq_false_2 by (intros Hin; by apply (Hac p), Hpath).
    assert (IH' : ∀ acc, (size (holder_groups db ∖ acc) ≤ fuel)%nat →
      ∃ acc', visit_parents rec ps acc path = inr acc' ∧ collected db ps acc acc').
    { apply IH.
      - intros q x Hq Hx. apply Hpath; [by right|done].
      - intros q Hq. apply Hh. by right.
      - intros q acc0 Hq. apply Hrec. by right. }
    case_bool_decide as Ha.
    + destruct (IH' acc Hsz) as (acc' & -> & H1 & H2 & H3). exists acc'. split; [done|].
      split_and!; [done| |].
      * intros q [->|Hq]%elem_of_cons; auto.
      * intros x [Hx|[(q & Hq & Hr) Hcl]]%H3; [by left|right]. split; [|done].
        exists q. split; [by right|done].
    + pose proof (size_shrink (holder_groups db) acc p (Hh p Hp) Ha) as Hsh.
      destruct (Hrec p ({[p]} ∪ acc) Hp) as (acc1 & -> & A1 & A2 & A3); [lia|].
      cbn [mbind sum_bind].
      assert (Hsub : holder_groups db ∖ acc1 ⊆ holder_groups db ∖ ({[p]} ∪ acc)).
      { intros y Hy. apply elem_of_difference in Hy as [Hy1 Hy2]. apply elem_of_difference.
        split; [done|]. intros Hy. by apply Hy2, A1. }
      apply subseteq_size in Hsub.
      destruct (IH' acc1 ltac:(lia)) as (acc' & -> & B1 & B2 & B3). exists acc'. split; [done|].
      assert (p ∈ acc1) by (apply A1; set_solver).
      split_and!.
      * intros x Hx. apply B1, A1. set_solver.
      * intros q [->|Hq]%elem_of_cons; auto.
      * intros x [Hx|[(q & Hq & Hr) Hcl]]%B3.
        -- apply A3 in Hx as [[->%elem_of_singleton|Hx]%elem_of_union|[(q & Hq & Hr) Hcl]].
           ++ right. split; [exists p; split; [done|reflexivity]|].
              intros q Hq. apply B1, A2. by apply elem_parents.
           ++ by left.
           ++ right. split; [|auto]. exists p. split; [done|].
              eapply rtc_r; [exact Hr|]. by apply elem_parents in Hq.
        -- right. split; [|done]. exists q. split; [by right|done].
Qed.

Lemma collect_parents_spec db fuel : ∀ t x acc path,
  acyclic db → on_path db (parents t x db) path →
  (size (holder_groups db ∖ acc) < fuel)%nat →
  ∃ acc', _collect_parents fuel db t x acc path = inr acc'
          ∧ collected db (parents t x db) acc acc'.
Proof.
  induction fuel as [|fuel IH]; intros t x acc path Hac Hpath Hsz; [lia|]. simpl.
  apply (visit_parents_spec db fuel); [done|done| | |lia].
  - intros p Hp%elem_parents. by eapply parent_holder.
  - intros p acc0 Hp Hsz0. apply IH; [done| |done].
    intros q y Hq%elem_parents [->%elem_of_singleton|Hy]%elem_of_union; [by apply tc_once|].
    eapply tc_l; [exact Hq|]. by apply Hpath.
Qed.

Lemma resolve_walk_spec db u :
  acyclic db →
  ∃ acc, _collect_parents (S (size (memberships db))) db USER u ∅ ∅ = inr acc
         ∧ ∀ g, g ∈ acc ↔ belongs db u g.
Proof.
  intros Hac.
  destruct (collect_parents_spec db (S (size (memberships db))) USER u ∅ ∅) as (acc & Hc & _ & H2 & H3).
  - done.
  - intros p x _ Hx%elem_of_empty. done.
  - pose proof (size_holder_groups db).
    assert (size (holder_groups db ∖ ∅) ≤ size (holder_groups db))%nat
      by (apply subseteq_size; set_solver). lia.
  - exists acc. split; [done|]. intros g. split.
    + intros [[]%elem_of_empty|[(p & Hp%elem_parents & Hr) _]]%H3. by exists p.
    + intros (p & Hp%elem_parents & Hr). revert g Hr. apply (rtc_ind_l (λ g, g ∈ acc)); [auto|].
      intros x y Hxy _ Hy. apply H3 in Hy as [[]%elem_of_empty|[_ Hcl]]. auto.
Qed.

(** *** Adding an edge that closes no cycle *)

Lemma tc_add_edge {A} (R R' : relation A) g m :
  (∀ x y, R' x y → R x y ∨ x = g ∧ y = m) →
  ∀ x y, tc R' x y → tc R x y ∨ (rtc R x g ∧ rtc R m y).
Proof.
  intros HR x y Ht. induction Ht as [x y H|x z y H _ IH].
  - apply HR in H as [H|[-> ->]]; [left; by apply tc_once|right; split; reflexivity].
  - apply HR in H as [H|[-> ->]].
    + destruct IH as [IH|[H1 H2]]; [left; by eapply tc_l|right].
      split; [by eapply rtc_l|done].
    + right. split; [reflexivity|]. destruct IH as [IH|[_ IH]]; [by apply tc_rtc|done].
Qed.

Lemma acyclic_add_edge {A} (R R' : relation A) g m :
  (∀ x y, R' x y → R x y ∨ x = g ∧ y = m) → (∀ x, ¬ tc R x x) → ¬ rtc R m g →
  ∀ x, ¬ tc R' x x.
Proof.
  intros HR Hac Hmg x Ht. destruct (tc_add_edge R R' g m HR x x Ht) as [H|[H1 H2]].
  - by apply (Hac x).
  - apply Hmg. by transitivity x.
Qed.

(** ** The table invariant *)

Record db_ok (db : AccountDb) : Prop := {
  ok_user_key : ∀ i u, users db !! i = Some u →
    u_id u = i ∧ 0 < i ≤ users_seq db ∧ u_username u ≠ [] ∧ strip (u_username u) = u_username u;
  ok_user_name : ∀ i j u v, users db !! i = Some u → users db !! j = Some v →
    u_username u = u_username v → i = j;
  ok_group_key : ∀ i g, groups db !! i = Some g →
    g_id g = i ∧ 0 < i ≤ groups_seq db ∧ g_name g ≠ [] ∧ strip (g_name g) = g_name g;
  ok_group_name : ∀ i j g h, groups db !! i = Some g → groups db !! j = Some h →
    g_name g = g_name h → i = j;
  ok_member : ∀ g t m, (g, t, m) ∈ memberships db →
    is_Some (groups db !! g) ∧
    match t with USER => is_Some (users db !! m) | GROUP => is_Some (groups db !! m) end;
  ok_acyclic : acyclic db;
  ok_external : ∀ k i t, external_identities db !! k = Some (i, t) → is_Some (users db !! i);
  ok_quota : ∀ i q, user_quota db !! i = Some q → is_Some (users db !! i) ∧ 0 ≤ q < 2 ^ 63;
  ok_seq : 0 ≤ users_seq db ∧ 0 ≤ groups_seq db
}.

(** *** Lookup by a unique name *)

Lemma user_named_Some db n u :
  user_named n db = Some u → ∃ i, users db !! i = Some u ∧ u_username u = n.
Proof.
  unfold user_named. destruct (filter _ _) as [|[i v] l] eqn:E; [done|]. simpl. intros [= ->].
  assert ((i, u) ∈ (i, u) :: l) as Hin by left. rewrite <-E in Hin.
  apply list_elem_of_filter in Hin as [Hn Hin]. apply elem_of_map_to_list in Hin. eauto.
Qed.

Lemma user_named_None db n :
  user_named n db = None → ∀ i u, users db !! i = Some u → u_username u ≠ n.
Proof.
  unfold user_named. destruct (filter _ _) as [|[i v] l] eqn:E; [|done]. intros _ i u Hu Hn.
  assert ((i, u) ∈ filter (λ kv : Z * User, u_username kv.2 = n) (map_to_list (users db))) as Hin.
  { apply list_elem_of_filter. split; [done|]. by apply elem_of_map_to_list. }
  rewrite E in Hin. by apply elem_of_nil in Hin.
Qed.

Lemma user_named_unique db i u :
  db_ok db → users db !! i = Some u → user_named (u_username u) db = Some u.
Proof.
  intros Hok Hu. destruct (user_named (u_username u) db) as [v|] eqn:E.
  - apply user_named_Some in E as (j & Hv & Hn).
    pose proof (ok_user_name _ Hok _ _ _ _ Hu Hv (eq_sym Hn)) as ->. congruence.
  - by destruct (user_named_None _ _ E _ _ Hu).
Qed.

Lemma group_named_Some db n g :
  group_named n db = Some g → ∃ i, groups db !! i = Some g ∧ g_name g = n.
Proof.
  unfold group_named. destruct (filter _ _) as [|[i v] l] eqn:E; [done|]. simpl. intros [= ->].
  assert ((i, g) ∈ (i, g) :: l) as Hin by left. rewrite <-E in Hin.
  apply list_elem_of_filter in Hin as [Hn Hin]. apply elem_of_map_to_list in Hin. eauto.
Qed.

Lemma group_named_None db n :
  group_named n db = None → ∀ i g, groups db !! i = Some g → g_name g ≠ n.
Proof.
  unfold group_named. destruct (filter _ _) as [|[i v] l] eqn:E; [|done]. intros _ i g Hg Hn.
  assert ((i, g) ∈ filter (λ kv : Z * Group, g_name kv.2 = n) (map_to_list (groups db))) as Hin.
  { apply list_elem_of_filter. split; [done|]. by apply elem_of_map_to_list. }
  rewrite E in Hin. by apply elem_of_nil in Hin.
Qed.

Lemma username_exists_false db n :
  _username_exists n db = false → ∀ i u, users db !! i = Some u → u_username u ≠ n.
Proof.
  unfold _username_exists. intros H. apply bool_decide_eq_false in H.
  apply user_named_None. by apply eq_None_not_Some.
Qed.

Lemma group_name_exists_false db n :
  _group_name_exists n db = false → ∀ i g, groups db !! i = Some g → g_name g ≠ n.
Proof.
  unfold _group_name_exists. intros H. apply bool_decide_eq_false in H.
  apply group_named_None. by apply eq_None_not_Some.
Qed.

(** *** Preservation *)

Lemma insert_user_ok db n email h now :
  db_ok db → n ≠ [] → strip n = n → _username_exists n db = false →
  db_ok (insert_user n email h now db).1 ∧ users db !! (users_seq db + 1) = None.
Proof.
  intros Hok Hne Hst Hn. destruct Hok as [Huk Hun Hgk Hgn Hm Ha He Hq [Hs1 Hs2]].
  pose proof (username_exists_false db n Hn) as Hfresh.
  assert (Hnone : users db !! (users_seq db + 1) = None).
  { destruct (users db !! (users_seq db + 1)) eqn:E; [|done]. apply Huk in E. lia. }
  split; [|done].
  assert (Hgrow : ∀ i, is_Some (users db !! i) →
    is_Some (<[users_seq db + 1 := {| u_id := users_seq db + 1; u_username := n; u_email := email;
       u_password_hash := h; u_created_at := now; u_is_active := true |}]> (users db) !! i)).
  { intros i Hi. apply lookup_insert_is_Some'. by right. }
  split; simpl; try done.
  - intros i u [[<- <-]|[_ H]]%lookup_insert_Some; simpl; [split_and!; (done || lia)|].
    apply Huk in H as (? & ? & ? & ?). split_and!; (done || lia).
  - intros i j u v [[<- <-]|[Hi H1]]%lookup_insert_Some [[<- <-]|[Hj H2]]%lookup_insert_Some; simpl.
    + done.
    + intros E. symmetry in E. by apply (Hfresh _ _ H2) in E.
    + intros E. by apply (Hfresh _ _ H1) in E.
    + by apply Hun.
  - intros g [] m H; apply Hm in H as [? ?]; auto.
  - intros k i t H. apply Hgrow. by eapply He.
  - intros i q H. apply Hq in H as [? ?]. auto.
  - lia.
Qed.

Lemma create_user_ok now n h e db : db_ok db → db_ok (create_user now n h e db).1.
Proof.
  intros Hok. unfold create_user. repeat case_bool_decide; try done.
  destruct (_username_exists (strip n) db) eqn:E; [done|].
  destruct (insert_user_ok db (strip n) e h now) as [H' _]; try done. by apply strip_idemp.
Qed.

Lemma create_external_ok hp salt secret now p s n e db :
  db_ok db → db_ok (create_external_user hp salt secret now p s n e db).1.
Proof.
  intros Hok. unfold create_external_user. case_bool_decide; [done|].
  destruct (_ || _); [done|]. destruct (_username_exists (strip n) db) eqn:E; [done|].
  destruct (hash_password hp salt secret) as [|h]; [done|].
  destruct (insert_user_ok db (strip n) e h now) as [H' Hnone]; [done|done|by apply strip_idemp|done|].
  destruct (insert_user (strip n) e h now db) as [db' u] eqn:Ei. simpl in H'.
  destruct (external_identities db !! (p, s)); [done|].
  assert (users db' !! u_id u = Some u) as Hu.
  { unfold insert_user in Ei. injection Ei as <- <-. simpl. by rewrite lookup_insert_eq. }
  destruct H' as [Huk Hun Hgk Hgn Hm Ha He Hq Hs]. split; simpl; try done.
  intros k i t [[_ [= <- _]]|[_ H1]]%lookup_insert_Some; [by rewrite Hu|by eapply He].
Qed.

Lemma create_group_ok now n db : db_ok db → db_ok (create_group now n db).1.
Proof.
  intros Hok. unfold create_group. case_bool_decide; [done|].
  destruct (_group_name_exists (strip n) db) eqn:E; [done|].
  pose proof (group_name_exists_false db _ E) as Hfresh.
  destruct Hok as [Huk Hun Hgk Hgn Hm Ha He Hq [Hs1 Hs2]]. split; simpl; try done.
  - intros i g [[<- <-]|[_ H1]]%lookup_insert_Some; simpl.
    + split_and!; [done|lia|lia|done|apply strip_idemp].
    + apply Hgk in H1 as (? & ? & ? & ?). split_and!; (done || lia).
  - intros i j g h [[<- <-]|[Hi H1]]%lookup_insert_Some [[<- <-]|[Hj H2]]%lookup_insert_Some; simpl.
    + done.
    + intros Eq. symmetry in Eq. by apply (Hfresh _ _ H2) in Eq.
    + intros Eq. by apply (Hfresh _ _ H1) in Eq.
    + by apply Hgn.
  - intros g t m H1. apply Hm in H1 as [? H2]. split.
    + apply lookup_insert_is_Some'. by right.
    + destruct t; [done|]. apply lookup_insert_is_Some'. by right.
  - lia.
Qed.

Lemma set_user_active_ok i b db : db_ok db → db_ok (set_user_active i b db).1.
Proof.
  intros Hok. unfold set_user_active. destruct (users db !! i) as [u|] eqn:E; [|done].
  destruct Hok as [Huk Hun Hgk Hgn Hm Ha He Hq Hs].
  assert (Hgrow : ∀ j, is_Some (users db !! j) → is_Some (<[i := set_active b u]> (users db) !! j)).
  { intros j Hj. apply lookup_insert_is_Some'. by right. }
  split; simpl; try done.
  - intros j v [[<- <-]|[_ H1]]%lookup_insert_Some; [|by apply Huk]. simpl. by apply Huk in E.
  - intros j k v w [[<- <-]|[Hj H1]]%lookup_insert_Some [[<- <-]|[Hk H2]]%lookup_insert_Some; simpl.
    + done.
    + by apply Hun.
    + by apply Hun.
    + by apply Hun.
  - intros g [] m H1; apply Hm in H1 as [? ?]; auto.
  - intros k j t H1. apply Hgrow. by eapply He.
  - intros j q H1. apply Hq in H1 as [? ?]. auto.
Qed.

Lemma tc_mono {A} (R R' : relation A) x y :
  (∀ x y, R x y → R' x y) → tc R x y → tc R' x y.
Proof.
  intros HR Ht. induction Ht as [x y H|x z y H _ IH]; [by apply tc_once, HR|].
  eapply tc_l; [by apply HR|done].
Qed.

(** Memberships that are a part of well-formed ones. *)
Lemma members_subset_ok (db : AccountDb) (m' : gset Membership) :
  db_ok db → (∀ e, e ∈ m' → e ∈ memberships db) → db_ok (set_memberships m' db).
Proof.
  intros [Huk Hun Hgk Hgn Hm Ha He Hq Hs] Hsub. split; simpl; try done.
  - intros g t m H. by apply Hm, Hsub.
  - intros g Ht. apply (Ha g). revert Ht. apply tc_mono. intros x y. apply Hsub.
Qed.

Lemma delete_group_ok g db : db_ok db → db_ok (delete_group g db).1.
Proof.
  intros Hok. unfold delete_group. destruct (groups db !! g) as [r|] eqn:E; [|done].
  set (m2 := filter _ (filter _ (memberships db))).
  assert (Hm2 : ∀ e, e ∈ m2 → e ∈ memberships db ∧ e.1.1 ≠ g ∧ ¬ (e.1.2 = GROUP ∧ e.2 = g)).
  { intros e He. subst m2. apply elem_of_filter in He as [? He].
    apply elem_of_filter in He as [? He]. done. }
  assert (Hok2 : db_ok (set_memberships m2 db)).
  { apply members_subset_ok; [done|]. intros e He. by apply Hm2. }
  destruct Hok2 as [Huk Hun Hgk Hgn Hm Ha He Hq Hs]. simpl in *. split; simpl; try done.
  - intros i h [_ H]%lookup_delete_Some. by apply Hgk.
  - intros i j h k [_ H1]%lookup_delete_Some [_ H2]%lookup_delete_Some. by apply Hgn.
  - intros i t m H. pose proof (Hm2 _ H) as (_ & Hne & Hno). simpl in *.
    apply Hm in H as [H1 H2]. split; [by rewrite lookup_delete_ne|].
    destruct t; [done|]. rewrite lookup_delete_ne; [done|]. intros <-. by apply Hno.
Qed.

(** The guard of [add_member], on tables whose walks are exact. *)
Lemma check_member_spec g t m db :
  (check_member g t m db).1 = db ∧
  match (check_member g t m db).2 with
  | inr _ => is_Some (groups db !! g) ∧
             match t with
             | USER => is_Some (users db !! m)
             | GROUP => is_Some (groups db !! m) ∧ ¬ rtc (holds_group db) m g
             end
  | inl e => (e = GroupNotFoundError ∧
                (groups db !! g = None ∨ t = GROUP ∧ groups db !! m = None))
             ∨ (e = UserNotFoundError ∧ t = USER ∧ users db !! m = None)
             ∨ (e = GroupCycleError ∧ t = GROUP ∧ rtc (holds_group db) m g)
  end.
Proof.
  unfold check_member, check_group_member, get_group_by_id, get_user_by_id, gets, raise,
    mbind, M_bind, mret, M_ret.
  destruct (groups db !! g) as [G|] eqn:Eg; [|simpl; auto]. destruct t.
  - destruct (users db !! m) eqn:Em; simpl; [|naive_solver]. split; [done|]. eauto.
  - destruct (groups db !! m) eqn:Em; simpl; [|naive_solver].
    case_bool_decide as Hmg; simpl.
    { split; [done|]. right; right. subst. split_and!; [done|done|reflexivity]. }
    destruct (group_descendants_spec db m) as (d & -> & Hd).
    case_bool_decide as Hin; simpl; (split; [done|]).
    + right; right. split_and!; [done|done|]. by apply tc_rtc, Hd.
    + split_and!; [by eauto..|]. intros Hr. apply rtc_tc in Hr as [->|Hr]; [done|].
      by apply Hin, Hd.
Qed.

Lemma add_member_ok g t m db : db_ok db → db_ok (add_member g t m db).1.
Proof.
  intros Hok. unfold add_member, mbind, M_bind. pose proof (check_member_spec g t m db) as [H1 H2].
  destruct (check_member g t m db) as [db' [e|[]]]; simpl in *; subst; [done|].
  unfold insert_member. destruct (_membership_exists g t m db); [done|]. simpl.
  destruct H2 as [Hg Hm]. destruct Hok as [Huk Hun Hgk Hgn Hmm Ha He Hq Hs]. split; simpl; try done.
  - intros g' t' m' [[= -> -> ->]%elem_of_singleton|Hin]%elem_of_union; [|by apply Hmm].
    split; [done|]. destruct t; [done|]. by destruct Hm.
  - assert (Hedge : ∀ x y, holds_group (set_memberships ({[(g, t, m)]} ∪ memberships db) db) x y →
        holds_group db x y ∨ (t = GROUP ∧ x = g ∧ y = m)).
    { unfold holds_group. simpl. intros x y [[= -> -> ->]%elem_of_singleton|Hin]%elem_of_union; auto. }
    destruct t.
    + intros x Ht. apply (Ha x). revert Ht. apply tc_mono. intros a b [?|(? & _)]%Hedge; done.
    + destruct Hm as [_ Hm]. intros x. apply (acyclic_add_edge (holds_group db) _ g m); [|done|done].
      intros a b [?|(_ & ?)]%Hedge; auto.
Qed.

Lemma remove_member_ok g t m db : db_ok db → db_ok (remove_member g t m db).1.
Proof.
  intros Hok. unfold remove_member. destruct (_membership_exists g t m db); [|done].
  apply members_subset_ok; [done|]. intros e He. by apply elem_of_difference in He as [? _].
Qed.

Lemma set_user_quota_ok i q db : db_ok db → db_ok (set_user_quota i q db).1.
Proof.
  intros Hok. unfold set_user_quota. destruct (q <? 0) eqn:Eq; [done|].
  unfold mbind, M_bind, get_user_by_id. destruct (users db !! i) as [u|] eqn:E; [|done].
  destruct (2 ^ 63 <=? q) eqn:E2; [done|]. cbn [modify fst]. bool_prop.
  destruct Hok as [Huk Hun Hgk Hgn Hm Ha He Hq Hs]. split; simpl; try done.
  intros j q' [[<- <-]|[_ H1]]%lookup_insert_Some; [|by apply Hq]. split; [by rewrite E|lia].
Qed.

(** ** Any sequence of calls *)

Inductive account_op :=
| OpCreateUser (now : time) (username : pystr) (password_hash : bytes) (email : option pystr)
| OpCreateExternal (salt : bytes) (secret : pystr) (now : time)
    (provider subject username : pystr) (email : option pystr)
| OpSetActive (user_id : Z) (is_active : bool)
| OpCreateGroup (now : time) (name : pystr)
| OpDeleteGroup (group_id : Z)
| OpAddMember (group_id : Z) (t : SubjectType) (member_id : Z)
| OpRemoveMember (group_id : Z) (t : SubjectType) (member_id : Z)
| OpSetQuota (user_id quota_bytes : Z).

(** The tables after a call, whether it returned or raised. *)
Definition after_op (hashpw : bytes → bytes → bytes) (op : account_op) (db : AccountDb) : AccountDb :=
  match op with
  | OpCreateUser now n h e => (create_user now n h e db).1
  | OpCreateExternal salt secret now p s n e =>
      (create_external_user hashpw salt secret now p s n e db).1
  | OpSetActive i b => (set_user_active i b db).1
  | OpCreateGroup now n => (create_group now n db).1
  | OpDeleteGroup g => (delete_group g db).1
  | OpAddMember g t m => (add_member g t m db).1
  | OpRemoveMember g t m => (remove_member g t m db).1
  | OpSetQuota i q => (set_user_quota i q db).1
  end.

Definition after_ops (hashpw : bytes → bytes → bytes) (ops : list account_op) : AccountDb :=
  fold_left (λ db op, after_op hashpw op db) ops empty_db.

Create HintDb accounts.
#[export] Hint Resolve create_user_ok create_external_ok set_user_active_ok create_group_ok
  delete_group_ok add_member_ok remove_member_ok set_user_quota_ok : accounts.

Lemma after_op_ok hp op db : db_ok db → db_ok (after_op hp op db).
Proof. intros Hok. destruct op; simpl; eauto with accounts. Qed.

Lemma empty_db_ok : db_ok empty_db.
Proof.
  split; simpl; try (intros; by simplify_map_eq); try done.
  intros g Ht. assert (∀ x y, tc (holds_group empty_db) x y → False) as H; [|by eapply H].
  intros x y. induction 1 as [x y H|]; [|done]. unfold holds_group in H. simpl in H.
  by apply elem_of_empty in H.
Qed.

Lemma after_ops_from hp ops : ∀ db,
  db_ok db → db_ok (fold_left (λ db op, after_op hp op db) ops db).
Proof. induction ops as [|op ops IH]; intros db Hok; simpl; [done|]. by apply IH, after_op_ok. Qed.

(** *** Listing a table in the order of its keys *)

Lemma sorted_rows {X} (le : X → X → Prop) `{!RelDecision le} (key : X → Z) (m : gmap Z X) :
  (∀ x y, le x y ↔ key x ≤ key y) → (∀ i x, m !! i = Some x → key x = i) →
  StronglySorted Z.lt (key <$> merge_sort le (map_to_list m).*2) ∧
  ∀ x, x ∈ merge_sort le (map_to_list m).*2 ↔ m !! key x = Some x.
Proof.
  intros Hle Hkey.
  assert (Hin : ∀ x, x ∈ (map_to_list m).*2 ↔ m !! key x = Some x).
  { intros x. rewrite list_elem_of_fmap. split.
    - intros ([i y] & -> & H%elem_of_map_to_list). simpl. by rewrite (Hkey _ _ H).
    - intros H. exists (key x, x). by rewrite elem_of_map_to_list. }
  split; [|intros x; by rewrite merge_sort_Permutation].
  assert (NoDup (key <$> merge_sort le (map_to_list m).*2)) as Hnd.
  { rewrite merge_sort_Permutation, <-list_fmap_compose.
    replace ((key ∘ snd) <$> map_to_list m) with (map_to_list m).*1; [apply NoDup_fst_map_to_list|].
    apply list_fmap_ext. intros n [i x] H. simpl. symmetry. apply Hkey.
    apply elem_of_map_to_list. by eapply list_elem_of_lookup_2. }
  assert (Sorted le (merge_sort le (map_to_list m).*2)) as Hs.
  { apply Sorted_merge_sort. intros x y. rewrite !Hle. lia. }
  assert (Transitive le) by (intros x y z; rewrite !Hle; lia).
  apply Sorted_StronglySorted in Hs; [|done].
  induction Hs as [|x l Hl IH Hx]; [constructor|]. simpl in *. apply NoDup_cons in Hnd as [Hn Hnd].
  constructor; [by apply IH|]. rewrite Forall_fmap. rewrite Forall_forall in *.
  intros y Hy. simpl. specialize (Hx y Hy). apply Hle in Hx.
  assert (key x ≠ key y); [|lia]. intros E. apply Hn. rewrite E. by apply list_elem_of_fmap_2.
Qed.

(** ** Properties *)

(** C37: after any sequence of calls on a fresh store, whether they succeed or
    raise, the tables are well formed: every row carries its key, names are
    trimmed, not empty and unique, memberships connect existing rows, the group
    graph has no cycle, identities and quotas belong to existing users, and
    quotas fit in 64 bits. *)
Theorem account_invariant (hashpw : bytes → bytes → bytes) (ops : list account_op) :
  db_ok (after_ops hashpw ops).
Proof. apply after_ops_from, empty_db_ok. Qed.

(** [add_member] decides every call: it adds exactly the requested edge, or
    leaves the tables alone and raises the error of the contract; in particular
    a group member is refused with [GroupCycleError] exactly when the group
    could already be reached from it, and the walk always finishes. *)
Theorem add_member_spec (g : Z) (t : SubjectType) (m : Z) (db : AccountDb) :
  let '(db', r) := add_member g t m db in
  match r with
  | inr _ =>
      (g, t, m) ∉ memberships db ∧
      db' = set_memberships ({[(g, t, m)]} ∪ memberships db) db ∧
      is_Some (groups db !! g) ∧ (t = USER → is_Some (users db !! m)) ∧
      (t = GROUP → is_Some (groups db !! m) ∧ ¬ rtc (holds_group db) m g)
  | inl e =>
      db' = db ∧
      match e with
      | GroupNotFoundError => groups db !! g = None ∨ t = GROUP ∧ groups db !! m = None
      | UserNotFoundError => t = USER ∧ users db !! m = None
      | GroupCycleError => t = GROUP ∧ rtc (holds_group db) m g
      | DuplicateMembershipError => (g, t, m) ∈ memberships db
      | _ => False
      end
  end.
Proof.
  unfold add_member, mbind, M_bind. pose proof (check_member_spec g t m db) as [H1 H2].
  destruct (check_member g t m db) as [db' [e|[]]]; simpl in *; subst.
  - naive_solver.
  - unfold insert_member, _membership_exists. case_bool_decide as Hin; [done|].
    destruct H2 as [Hg Hm]. split_and!; try done; intros ->; done.
Qed.

(** C38: on well-formed tables [resolve_user_groups] always returns: the set of
    the groups the user belongs to, directly or through nested groups (or
    [UserNotFoundError] for an unknown user); it never reports a cycle. *)
Theorem resolve_user_groups_spec (user_id : Z) (db : AccountDb) :
  db_ok db →
  match users db !! user_id with
  | None => resolve_user_groups user_id db = (db, inl UserNotFoundError)
  | Some _ => ∃ s, resolve_user_groups user_id db = (db, inr s)
                   ∧ ∀ g, g ∈ s ↔ belongs db user_id g
  end.
Proof.
  intros Hok. unfold resolve_user_groups, mbind, M_bind, get_user_by_id, get, lift_res.
  destruct (users db !! user_id); [|done].
  destruct (resolve_walk_spec db user_id (ok_acyclic db Hok)) as (acc & -> & H). eauto.
Qed.

(** [delete_group] removes the group and every membership that mentions it,
    on either side, and nothing else, and its id is never given to a later
    group. *)
Theorem delete_group_spec (g now : Z) (name : pystr) (db : AccountDb) :
  db_ok db → is_Some (groups db !! g) →
  let db' := (delete_group g db).1 in
  (delete_group g db).2 = inr tt ∧ users db' = users db ∧
  groups db' = delete g (groups db) ∧
  (∀ h t m, (h, t, m) ∈ memberships db' ↔
            (h, t, m) ∈ memberships db ∧ h ≠ g ∧ ¬ (t = GROUP ∧ m = g)) ∧
  (∀ r, (create_group now name db').2 = inr r → g_id r ≠ g).
Proof.
  intros Hok [r Hg]. pose proof (ok_group_key _ Hok _ _ Hg) as (_ & Hseq & _).
  unfold delete_group. rewrite Hg. simpl. split_and!; try done.
  - intros h t m. rewrite !elem_of_filter. simpl. naive_solver.
  - intros r' Hr'. unfold create_group in Hr'. repeat case_match; simplify_eq/=. lia.
Qed.

(** [create_user] registers exactly one new active user under the trimmed
    name with a fresh id, found again by id and by name; it refuses a blank name
    or an empty hash, and a name already taken, without changing anything. *)
Theorem create_user_spec (now : time) (n : pystr) (h : bytes) (e : option pystr) (db : AccountDb) :
  db_ok db →
  match create_user now n h e db with
  | (db', inr u) =>
      u_username u = strip n ∧ u_email u = e ∧ u_password_hash u = h ∧ u_is_active u = true ∧
      users db !! u_id u = None ∧ users db' = <[u_id u := u]> (users db) ∧
      groups db' = groups db ∧ memberships db' = memberships db ∧
      get_user_by_id (u_id u) db' = (db', inr u) ∧
      get_user_by_username (strip n) db' = (db', inr u)
  | (db', inl x) =>
      db' = db ∧
      (x = AccValueError ∧ (strip n = [] ∨ h = []) ∨
       x = UsernameTakenError ∧ ∃ i u, users db !! i = Some u ∧ u_username u = strip n)
  end.
Proof.
  intros Hok. pose proof (create_user_ok now n h e db Hok) as Hok'. unfold create_user in *.
  case_bool_decide; [by auto|]. case_bool_decide; [by auto 6|].
  destruct (_username_exists (strip n) db) eqn:E; simpl.
  - split; [done|]. right. split; [done|]. unfold _username_exists in E.
    apply bool_decide_eq_true in E as [u Hu]. apply user_named_Some in Hu as (i & ? & ?). eauto.
  - destruct (insert_user_ok db (strip n) e h now) as [_ Hnone]; [done|done|by apply strip_idemp|done|].
    split_and!; try done.
    + unfold get_user_by_id. simpl. by rewrite lookup_insert_eq.
    + unfold get_user_by_username. simpl in Hok'.
      pose proof (user_named_unique _ (users_seq db + 1) _ Hok' (lookup_insert_eq _ _ _)) as Hu.
      simpl in Hu. by rewrite Hu.
Qed.

(** [list_users] and [list_groups] return every row once, in strictly
    ascending order of id, and [list_group_members] returns exactly the direct
    members of an existing group. *)
Theorem list_rows_spec (db : AccountDb) :
  db_ok db →
  (∃ us, list_users db = (db, inr us) ∧ StronglySorted Z.lt (u_id <$> us) ∧
         ∀ u, u ∈ us ↔ users db !! u_id u = Some u) ∧
  (∃ gs, list_groups db = (db, inr gs) ∧ StronglySorted Z.lt (g_id <$> gs) ∧
         ∀ g, g ∈ gs ↔ groups db !! g_id g = Some g) ∧
  ∀ g, is_Some (groups db !! g) →
    ∃ ms, list_group_members g db = (db, inr ms) ∧ NoDup ms ∧
          ∀ h t m, (h, t, m) ∈ ms ↔ h = g ∧ (h, t, m) ∈ memberships db.
Proof.
  intros Hok. split_and!.
  - eexists. split; [done|]. apply (sorted_rows user_le u_id (users db)); [done|].
    intros i u H. by destruct (ok_user_key _ Hok _ _ H).
  - eexists. split; [done|]. apply (sorted_rows group_le g_id (groups db)); [done|].
    intros i u H. by destruct (ok_group_key _ Hok _ _ H).
  - intros g [r Hg]. unfold list_group_members, mbind, M_bind, get_group_by_id, gets. rewrite Hg.
    eexists. split; [done|]. split.
    + rewrite merge_sort_Permutation. apply NoDup_filter, NoDup_elements.
    + intros h t m. rewrite merge_sort_Permutation, list_elem_of_filter, elem_of_elements. done.
Qed.

(** *** Witnesses *)

(** Two groups, one inside the other, and a user in the inner one. *)
Definition demo_db : AccountDb :=
  after_ops (λ pw _, pw)
    [OpCreateUser 5 [32; 97; 110; 110; 32] [Z_byte 1] None;
     OpCreateGroup 6 [103]; OpCreateGroup 7 [104];
     OpAddMember 1 GROUP 2; OpAddMember 2 USER 1; OpSetQuota 1 1000].

Lemma demo_db_ok : db_ok demo_db.
Proof. apply after_ops_from, empty_db_ok. Qed.

Lemma resolve_user_groups_spec_witness :
  ∃ s, resolve_user_groups 1 demo_db = (demo_db, inr s) ∧ (1 ∈ s ↔ belongs demo_db 1 1).
Proof.
  pose proof (resolve_user_groups_spec 1 demo_db demo_db_ok) as H.
  destruct (users demo_db !! 1) eqn:E; [|vm_compute in E; discriminate E].
  destruct H as (s & Hs & Hg). exists s. split; [exact Hs|apply Hg].
Defined.

Lemma delete_group_spec_witness :
  (delete_group 2 demo_db).2 = inr tt
  ∧ groups (delete_group 2 demo_db).1 = delete 2 (groups demo_db).
Proof.
  destruct (delete_group_spec 2 9 [103] demo_db demo_db_ok) as (H1 & _ & H2 & _);
    [vm_compute; eauto|]. split; [exact H1|exact H2].
Defined.

Lemma create_user_spec_witness :
  ∃ db' u, create_user 8 [98; 111; 98] [Z_byte 2] None demo_db = (db', inr u)
           ∧ get_user_by_username [98; 111; 98] db' = (db', inr u).
Proof.
  pose proof (create_user_spec 8 [98; 111; 98] [Z_byte 2] None demo_db demo_db_ok) as H.
  destruct (create_user 8 [98; 111; 98] [Z_byte 2] None demo_db) as [db' [x|u]] eqn:E;
    [vm_compute in E; discriminate E|].
  exists db', u. split; [reflexivity|]. apply H.
Defined.

Lemma list_rows_spec_witness :
  ∃ us, list_users demo_db = (demo_db, inr us) ∧ StronglySorted Z.lt (u_id <$> us).
Proof.
  destruct (list_rows_spec demo_db demo_db_ok) as ((us & H1 & H2 & _) & _).
  exists us. split; [exact H1|exact H2].
Defined.
