(* ===== verification/Registry.v ===== *)
(** The relay's mount registry: [SqliteMountRegistry] of
    [src/relay/app/services/sqlite_registry.py], the in-memory
    [MountRegistry] it replaced, and the TTL sweep of
    [src/relay/app/services/ttl_sweep.py].

    Live tunnel connections are references; whether one is closed is the state
    of that object, given to the calls that look at it.  Every method runs as
    one transaction.  [time.time()] is an argument. *)

From stdpp Require Import sorting.
From S2P Require Import Prelude Accounts.

Inductive MountStatus := ONLINE | OFFLINE | EXPIRED.

Global Instance MountStatus_eq_dec : EqDecision MountStatus.
Proof. solve_decision. Defined.

Inductive AccessRequestStatus := PENDING | APPROVED | DENIED.

Global Instance AccessRequestStatus_eq_dec : EqDecision AccessRequestStatus.
Proof. solve_decision. Defined.

Inductive RegistryExn :=
| MountNotFoundError
| MountOfflineError
| MountExpiredError
| AccessRequestNotFoundError
| RegValueError
| LocalMountRuntimeError.

Global Instance RegistryExn_eq_dec : EqDecision RegistryExn.
Proof. solve_decision. Defined.

(** A [TunnelConnection] object. *)
Abbreviation connection := nat (only parsing).

(** ** Records *)

Record PolicyEntry := {
  pe_subject_type : SubjectType;
  pe_subject_id : Z;
  pe_role : Role
}.

Record MountPolicy := {
  mp_code : pystr;
  mp_owner_user_id : option Z;
  mp_access_mode : AccessMode;
  mp_has_password : bool;
  mp_entries : list PolicyEntry
}.

Record AccessRequest := {
  ar_id : Z;
  ar_code : pystr;
  ar_user_id : Z;
  ar_status : AccessRequestStatus;
  ar_created_at : time
}.

(** A record of [active_mounts], and of the in-memory registry. *)
Record MountRecord := {
  mr_code : pystr;
  mr_connection : option connection;
  mr_status : MountStatus;
  mr_agent_ip : pystr;
  mr_created_at : time;
  mr_expires_at : option time;
  mr_ttl_warned : bool
}.

(** A row of the table [mounts], without its key. *)
Record mount_row := {
  m_status : MountStatus;
  m_agent_ip : pystr;
  m_created_at : time;
  m_expires_at : option time;
  m_ttl_warned : bool;
  m_owner_user_id : option Z;
  m_access_mode : AccessMode;
  m_has_password : bool
}.

Definition with_status (s : MountStatus) (m : mount_row) : mount_row :=
  {| m_status := s; m_agent_ip := m_agent_ip m; m_created_at := m_created_at m;
     m_expires_at := m_expires_at m; m_ttl_warned := m_ttl_warned m;
     m_owner_user_id := m_owner_user_id m; m_access_mode := m_access_mode m;
     m_has_password := m_has_password m |}.

Definition with_warned (m : mount_row) : mount_row :=
  {| m_status := m_status m; m_agent_ip := m_agent_ip m; m_created_at := m_created_at m;
     m_expires_at := m_expires_at m; m_ttl_warned := true;
     m_owner_user_id := m_owner_user_id m; m_access_mode := m_access_mode m;
     m_has_password := m_has_password m |}.

Definition with_policy (owner : option Z) (mode : AccessMode) (pw : bool) (m : mount_row) : mount_row :=
  {| m_status := m_status m; m_agent_ip := m_agent_ip m; m_created_at := m_created_at m;
     m_expires_at := m_expires_at m; m_ttl_warned := m_ttl_warned m;
     m_owner_user_id := owner; m_access_mode := mode; m_has_password := pw |}.

(** ** State: the tables and the two dictionaries *)

Record Registry := {
  mounts : gmap pystr mount_row;
  mount_policy : gmap (pystr * SubjectType * Z) Role;
  access_requests : gmap Z AccessRequest;
  requests_seq : Z;
  _connections : gmap pystr connection;
  _identity_secrets : gmap pystr pystr
}.

Definition empty_registry : Registry :=
  {| mounts := ∅; mount_policy := ∅; access_requests := ∅; requests_seq := 0;
     _connections := ∅; _identity_secrets := ∅ |}.

Definition set_mounts (m : gmap pystr mount_row) (r : Registry) : Registry :=
  {| mounts := m; mount_policy := mount_policy r; access_requests := access_requests r;
     requests_seq := requests_seq r; _connections := _connections r;
     _identity_secrets := _identity_secrets r |}.

Definition set_mount_policy (p : gmap (pystr * SubjectType * Z) Role) (r : Registry) : Registry :=
  {| mounts := mounts r; mount_policy := p; access_requests := access_requests r;
     requests_seq := requests_seq r; _connections := _connections r;
     _identity_secrets := _identity_secrets r |}.

Definition set_requests (q : gmap Z AccessRequest) (seq : Z) (r : Registry) : Registry :=
  {| mounts := mounts r; mount_policy := mount_policy r; access_requests := q;
     requests_seq := seq; _connections := _connections r;
     _identity_secrets := _identity_secrets r |}.

Definition set_connections (c : gmap pystr connection) (r : Registry) : Registry :=
  {| mounts := mounts r; mount_policy := mount_policy r; access_requests := access_requests r;
     requests_seq := requests_seq r; _connections := c;
     _identity_secrets := _identity_secrets r |}.

Definition set_secrets (s : gmap pystr pystr) (r : Registry) : Registry :=
  {| mounts := mounts r; mount_policy := mount_policy r; access_requests := access_requests r;
     requests_seq := requests_seq r; _connections := _connections r; _identity_secrets := s |}.

Abbreviation R A := (M Registry RegistryExn A).

Definition forget_connection (code : pystr) (r : Registry) : Registry :=
  set_connections (delete code (_connections r)) r.

Definition forget_secret (code : pystr) (r : Registry) : Registry :=
  set_secrets (delete code (_identity_secrets r)) r.

(** ** Identity secrets *)

Definition set_identity_secret (code secret : pystr) : R unit := λ r,
  if bool_decide (code = []) then (r, inl RegValueError)
  else if bool_decide (secret = []) then (r, inl RegValueError)
  else (set_secrets (<[code := secret]> (_identity_secrets r)) r, inr tt).

Definition get_identity_secret (code : pystr) (r : Registry) : option pystr :=
  _identity_secrets r !! code.

(** ** Mounts *)

(** [INSERT OR REPLACE] names six columns: the others take their defaults. *)
Definition register (code : pystr) (conn : option connection) (agent_ip : pystr)
    (created_at : time) (expires_at : option time) : R unit := λ r,
  if bool_decide (code = []) then (r, inl RegValueError)
  else
    let row := {| m_status := ONLINE; m_agent_ip := agent_ip; m_created_at := created_at;
                  m_expires_at := expires_at; m_ttl_warned := false;
                  m_owner_user_id := None; m_access_mode := OPEN_MODE;
                  m_has_password := false |} in
    let r := set_mounts (<[code := row]> (mounts r)) r in
    (match conn with
     | Some c => set_connections (<[code := c]> (_connections r)) r
     | None => r
     end, inr tt).

Definition deregister (code : pystr) : R unit := λ r,
  match mounts r !! code with
  | None => (r, inl MountNotFoundError)
  | Some _ =>
      (forget_secret code (forget_connection code (set_mounts (delete code (mounts r)) r)), inr tt)
  end.

Definition get_connection (is_closed : connection → bool) (code : pystr) : R connection := λ r,
  match mounts r !! code with
  | None => (r, inl MountNotFoundError)
  | Some row =>
      match m_status row with
      | OFFLINE => (r, inl MountOfflineError)
      | EXPIRED => (r, inl MountExpiredError)
      | ONLINE =>
          match _connections r !! code with
          | None => (r, inl LocalMountRuntimeError)
          | Some c => if is_closed c then (r, inl MountOfflineError) else (r, inr c)
          end
      end
  end.

Definition update_status (code : pystr) (s : MountStatus) (r : Registry) : Registry :=
  set_mounts (alter (with_status s) code (mounts r)) r.

Definition mark_offline (code : pystr) : R unit := λ r,
  match mounts r !! code with
  | None => (r, inl MountNotFoundError)
  | Some row =>
      let r := match m_status row with
               | ONLINE => forget_connection code (update_status code OFFLINE r)
               | _ => r
               end in
      (forget_secret code r, inr tt)
  end.

Definition expire (code : pystr) : R unit := λ r,
  match mounts r !! code with
  | None => (r, inl MountNotFoundError)
  | Some _ => (forget_secret code (forget_connection code (update_status code EXPIRED r)), inr tt)
  end.

Definition mark_ttl_warned (code : pystr) : R unit := λ r,
  match mounts r !! code with
  | None => (r, inl MountNotFoundError)
  | Some _ => (set_mounts (alter with_warned code (mounts r)) r, inr tt)
  end.

Definition has_mount (code : pystr) (r : Registry) : bool := bool_decide (is_Some (mounts r !! code)).

Definition count_mounts_by_ip (agent_ip : pystr) (r : Registry) : Z :=
  Z.of_nat (size (filter (λ kv : pystr * mount_row,
    m_agent_ip kv.2 = agent_ip ∧ m_status kv.2 ≠ EXPIRED) (mounts r))).

Definition mount_count (r : Registry) : Z := Z.of_nat (size (mounts r)).

Definition record_of (r : Registry) (kv : pystr * mount_row) : MountRecord :=
  {| mr_code := kv.1; mr_connection := _connections r !! kv.1; mr_status := m_status kv.2;
     mr_agent_ip := m_agent_ip kv.2; mr_created_at := m_created_at kv.2;
     mr_expires_at := m_expires_at kv.2; mr_ttl_warned := m_ttl_warned kv.2 |}.

(** The rows come in no specified order. *)
Definition active_mounts (r : Registry) : list MountRecord :=
  record_of r <$> filter (λ kv, m_status kv.2 ≠ EXPIRED) (map_to_list (mounts r)).

(** [expires_at is not None and expires_at <= now] *)
Definition has_expired (now : time) (expires_at : option time) : bool :=
  match expires_at with Some t => t <=? now | None => false end.

Definition remaining_ttl (now : time) (expires_at : option time) : Z :=
  match expires_at with Some t => int_seconds (t - now) | None => 0 end.

(** What both reclaims do once they accept. *)
Definition bring_online (code : pystr) (c : connection) (r : Registry) : Registry :=
  let r := update_status code ONLINE r in set_connections (<[code := c]> (_connections r)) r.

(** [None] is the refused reclaim, [Some n] the [ReclaimResult]. *)
Definition try_reclaim (now : time) (code : pystr) (c : connection) (agent_ip : pystr)
    (r : Registry) : Registry * option Z :=
  match mounts r !! code with
  | None => (r, None)
  | Some row =>
      if negb (bool_decide (m_status row = OFFLINE)) then (r, None)
      else if negb (bool_decide (m_agent_ip row = agent_ip)) then (r, None)
      else if has_expired now (m_expires_at row) then (r, None)
      else (bring_online code c r, Some (remaining_ttl now (m_expires_at row)))
  end.

Definition try_reclaim_as_owner (now : time) (code : pystr) (c : connection) (owner_user_id : Z)
    (r : Registry) : Registry * option Z :=
  match mounts r !! code with
  | None => (r, None)
  | Some row =>
      if negb (bool_decide (m_status row = OFFLINE)) then (r, None)
      else if negb (bool_decide (m_owner_user_id row = Some owner_user_id)) then (r, None)
      else if has_expired now (m_expires_at row) then (r, None)
      else (bring_online code c r, Some (remaining_ttl now (m_expires_at row)))
  end.

(** [expires_at IS NOT NULL AND expires_at < cutoff] *)
Definition expires_before (cutoff : time) (m : mount_row) : bool :=
  match m_expires_at m with Some t => t <? cutoff | None => false end.

Definition delete_expired_before (cutoff : time) (r : Registry) : Registry :=
  set_mounts (filter (λ kv : pystr * mount_row,
    ¬ (m_status kv.2 = EXPIRED ∧ expires_before cutoff kv.2 = true)) (mounts r)) r.

(** ** Policies *)

Definition insert_policy (code : pystr) (e : PolicyEntry) (p : gmap (pystr * SubjectType * Z) Role)
    : gmap (pystr * SubjectType * Z) Role :=
  <[(code, pe_subject_type e, pe_subject_id e) := pe_role e]> p.

Definition set_owner_policy (code : pystr) (owner_user_id : option Z) (access_mode : AccessMode)
    (has_password : bool) (entries : list PolicyEntry) : R unit := λ r,
  match mounts r !! code with
  | None => (r, inl MountNotFoundError)
  | Some _ =>
      let cleared := filter (λ kv : pystr * SubjectType * Z * Role, kv.1.1.1 ≠ code)
                       (mount_policy r) in
      let p := fold_left (λ p e, insert_policy code e p) entries cleared in
      (set_mount_policy p
         (set_mounts (alter (with_policy owner_user_id access_mode has_password) code (mounts r)) r),
       inr tt)
  end.

Definition policy_entries (code : pystr) (r : Registry) : list PolicyEntry :=
  (λ kv : pystr * SubjectType * Z * Role,
     {| pe_subject_type := kv.1.1.2; pe_subject_id := kv.1.2; pe_role := kv.2 |}) <$>
  filter (λ kv, kv.1.1.1 = code) (map_to_list (mount_policy r)).

Definition get_policy (code : pystr) : R MountPolicy := λ r,
  match mounts r !! code with
  | None => (r, inl MountNotFoundError)
  | Some row =>
      (r, inr {| mp_code := code; mp_owner_user_id := m_owner_user_id row;
                 mp_access_mode := m_access_mode row; mp_has_password := m_has_password row;
                 mp_entries := policy_entries code r |})
  end.

Definition add_policy_entry (code : pystr) (subject_type : SubjectType) (subject_id : Z)
    (role : Role) : R unit := λ r,
  match mounts r !! code with
  | None => (r, inl MountNotFoundError)
  | Some _ =>
      (set_mount_policy (<[(code, subject_type, subject_id) := role]> (mount_policy r)) r, inr tt)
  end.

(** ** Access requests *)

Definition request_for (code : pystr) (user_id : Z) (r : Registry) : option AccessRequest :=
  snd <$> head (filter (λ kv : Z * AccessRequest, ar_code kv.2 = code ∧ ar_user_id kv.2 = user_id)
                  (map_to_list (access_requests r))).

(** [INSERT OR IGNORE], then the [SELECT]. *)
Definition create_access_request (now : time) (code : pystr) (user_id : Z) (r : Registry)
    : Registry * option AccessRequest :=
  match request_for code user_id r with
  | Some q => (r, Some q)
  | None =>
      let id := requests_seq r + 1 in
      let q := {| ar_id := id; ar_code := code; ar_user_id := user_id; ar_status := PENDING;
                  ar_created_at := now |} in
      let r' := set_requests (<[id := q]> (access_requests r)) id r in
      (r', request_for code user_id r')
  end.

Definition get_access_request (request_id : Z) : R AccessRequest := λ r,
  match access_requests r !! request_id with
  | None => (r, inl AccessRequestNotFoundError)
  | Some q => (r, inr q)
  end.

(** [ORDER BY id DESC] *)
Definition request_ge (a b : AccessRequest) : Prop := ar_id b ≤ ar_id a.

Global Instance request_ge_dec : RelDecision request_ge.
Proof. intros a b. unfold request_ge. apply _. Defined.

Definition all_requests (r : Registry) : list AccessRequest :=
  merge_sort request_ge (map_to_list (access_requests r)).*2.

Definition list_all_access_requests (r : Registry) : list AccessRequest := all_requests r.

Definition list_access_requests_for_user (user_id : Z) (r : Registry) : list AccessRequest :=
  filter (λ q, ar_user_id q = user_id) (all_requests r).

(** The join keeps the requests whose mount exists and has this owner. *)
Definition list_access_requests_for_owner (owner_user_id : Z) (r : Registry) : list AccessRequest :=
  filter (λ q, (mounts r !! ar_code q) ≫= m_owner_user_id = Some owner_user_id) (all_requests r).

Definition with_request_status (s : AccessRequestStatus) (q : AccessRequest) : AccessRequest :=
  {| ar_id := ar_id q; ar_code := ar_code q; ar_user_id := ar_user_id q; ar_status := s;
     ar_created_at := ar_created_at q |}.

Definition resolve_access_request (request_id : Z) (status : AccessRequestStatus) : R unit := λ r,
  match access_requests r !! request_id with
  | None => (r, inl AccessRequestNotFoundError)
  | Some q =>
      (set_requests (<[request_id := with_request_status status q]> (access_requests r))
         (requests_seq r) r, inr tt)
  end.

(** ** Cold start *)

Definition _RETENTION_SECONDS : Z := 6 * 3600.

Definition _startup_cleanup (now : time) (r : Registry) : Registry :=
  let r := delete_expired_before (now - seconds _RETENTION_SECONDS) r in
  let r := set_mounts ((λ m, if expires_before now m then with_status EXPIRED m else m) <$> mounts r) r in
  set_mounts ((λ m, if bool_decide (m_status m = ONLINE) then with_status OFFLINE m else m) <$> mounts r) r.

(** The process starts again: the tables stay, the dictionaries are new. *)
Definition restart (now : time) (r : Registry) : Registry :=
  _startup_cleanup now (set_secrets ∅ (set_connections ∅ r)).

(** ** The TTL sweep *)

(** What the sweep does to a connection. *)
Inductive sweep_action :=
| CloseConn (code : pystr) (c : connection)
| WarnConn (code : pystr) (c : connection) (expires_in : Z).

(** One mount of the snapshot.  [send_ok] tells whether [send_control] on a
    connection succeeds; when it raises, the rest of the branch is skipped.
    [MountNotFoundError] of a row that vanished is swallowed in the same way. *)
Definition sweep_mount (now : time) (warning_before : time) (send_ok : connection → bool)
    (mount : MountRecord) (st : Registry * list sweep_action) : Registry * list sweep_action :=
  let '(r, acts) := st in
  match mr_expires_at mount with
  | None => st
  | Some expires_at =>
      if negb (bool_decide (mr_status mount = ONLINE)) then st
      else
        let remaining := expires_at - now in
        if remaining <=? 0 then
          match expire (mr_code mount) r with
          | (r', inl _) => (r', acts)
          | (r', inr _) =>
              (r', acts ++ match mr_connection mount with
                           | Some c => [CloseConn (mr_code mount) c]
                           | None => []
                           end)
          end
        else if (remaining <=? warning_before) && negb (mr_ttl_warned mount) then
          match mr_connection mount with
          | None => ((mark_ttl_warned (mr_code mount) r).1, acts)
          | Some c =>
              if send_ok c
              then ((mark_ttl_warned (mr_code mount) r).1,
                    acts ++ [WarnConn (mr_code mount) c (int_seconds remaining)])
              else st
          end
        else st
  end.

Definition sweep_once (now : time) (warning_before : time) (send_ok : connection → bool)
    (r : Registry) : Registry * list sweep_action :=
  let '(r', acts) := fold_left (λ st m, sweep_mount now warning_before send_ok m st)
                       (active_mounts r) (r, []) in
  (delete_expired_before (now - seconds _RETENTION_SECONDS) r', acts).

(** ** The in-memory registry *)

Record MemRegistry := { _mounts : gmap pystr MountRecord }.

Definition mem_register (code : pystr) (c : connection) (agent_ip : pystr) (created_at : time)
    (expires_at : option time) : M MemRegistry RegistryExn unit := λ s,
  if bool_decide (code = []) then (s, inl RegValueError)
  else ({| _mounts := <[code := {| mr_code := code; mr_connection := Some c; mr_status := ONLINE;
                                   mr_agent_ip := agent_ip; mr_created_at := created_at;
                                   mr_expires_at := expires_at; mr_ttl_warned := false |}]>
                        (_mounts s) |}, inr tt).

Definition mem_deregister (code : pystr) : M MemRegistry RegistryExn unit := λ s,
  match _mounts s !! code with
  | None => (s, inl MountNotFoundError)
  | Some _ => ({| _mounts := delete code (_mounts s) |}, inr tt)
  end.

(** The connection of an in-memory record is always there. *)
Definition mem_get_connection (is_closed : connection → bool) (code : pystr)
    : M MemRegistry RegistryExn connection := λ s,
  match _mounts s !! code with
  | None => (s, inl MountNotFoundError)
  | Some rec =>
      match mr_status rec with
      | OFFLINE => (s, inl MountOfflineError)
      | EXPIRED => (s, inl MountExpiredError)
      | ONLINE =>
          match mr_connection rec with
          | None => (s, inl LocalMountRuntimeError)
          | Some c => if is_closed c then (s, inl MountOfflineError) else (s, inr c)
          end
      end
  end.

Definition rec_offline (rec : MountRecord) : MountRecord :=
  {| mr_code := mr_code rec; mr_connection := mr_connection rec; mr_status := OFFLINE;
     mr_agent_ip := mr_agent_ip rec; mr_created_at := mr_created_at rec;
     mr_expires_at := mr_expires_at rec; mr_ttl_warned := mr_ttl_warned rec |}.

Definition mem_mark_offline (code : pystr) : M MemRegistry RegistryExn unit := λ s,
  match _mounts s !! code with
  | None => (s, inl MountNotFoundError)
  | Some rec => ({| _mounts := <[code := rec_offline rec]> (_mounts s) |}, inr tt)
  end.

Definition mem_has_mount (code : pystr) (s : MemRegistry) : bool :=
  bool_decide (is_Some (_mounts s !! code)).

Definition mem_count_mounts_by_ip (agent_ip : pystr) (s : MemRegistry) : Z :=
  Z.of_nat (size (filter (λ kv : pystr * MountRecord,
    mr_agent_ip kv.2 = agent_ip ∧ mr_status kv.2 ≠ EXPIRED) (_mounts s))).

Definition mem_active_mounts (s : MemRegistry) : list MountRecord :=
  filter (λ rec, mr_status rec ≠ EXPIRED) (map_to_list (_mounts s)).*2.
