(* ===== verification/RegistryProps.v ===== *)
(** Correctness of the mount registry of [Registry]: the lifecycle of a mount,
    the registry invariant, reclaims, policies, access requests, the TTL sweep
    row by row, and the refinement of the in-memory registry. *)

From stdpp Require Import sorting strings.
From S2P Require Import Prelude Accounts Registry.

Implicit Types r : Registry.

(** ** The calls that change the registry *)

Inductive registry_op :=
| OpRegister (code : pystr) (c : option connection) (ip : pystr) (created_at : time)
    (expires_at : option time)
| OpDeregister (code : pystr)
| OpMarkOffline (code : pystr)
| OpExpire (code : pystr)
| OpMarkWarned (code : pystr)
| OpReclaim (now : time) (code : pystr) (c : connection) (ip : pystr)
| OpReclaimOwner (now : time) (code : pystr) (c : connection) (owner : Z)
| OpDeleteExpired (cutoff : time)
| OpSetPolicy (code : pystr) (owner : option Z) (mode : AccessMode) (pw : bool)
    (entries : list PolicyEntry)
| OpAddPolicy (code : pystr) (t : SubjectType) (id : Z) (role : Role)
| OpSetSecret (code secret : pystr)
| OpRequest (now : time) (code : pystr) (user_id : Z)
| OpResolve (request_id : Z) (status : AccessRequestStatus)
| OpSweep (now warning_before : time) (send_ok : connection → bool)
| OpRestart (now : time).

Definition after_reg (op : registry_op) (r : Registry) : Registry :=
  match op with
  | OpRegister code c ip t e => (register code c ip t e r).1
  | OpDeregister code => (deregister code r).1
  | OpMarkOffline code => (mark_offline code r).1
  | OpExpire code => (expire code r).1
  | OpMarkWarned code => (mark_ttl_warned code r).1
  | OpReclaim now code c ip => (try_reclaim now code c ip r).1
  | OpReclaimOwner now code c owner => (try_reclaim_as_owner now code c owner r).1
  | OpDeleteExpired cutoff => delete_expired_before cutoff r
  | OpSetPolicy code owner mode pw es => (set_owner_policy code owner mode pw es r).1
  | OpAddPolicy code t id role => (add_policy_entry code t id role r).1
  | OpSetSecret code secret => (set_identity_secret code secret r).1
  | OpRequest now code user_id => (create_access_request now code user_id r).1
  | OpResolve id status => (resolve_access_request id status r).1
  | OpSweep now warn ok => (sweep_once now warn ok r).1
  | OpRestart now => restart now r
  end.

(** ** One mount during a sweep *)

(** What the sweep should do to a row, from the row alone: the reference the
    loop over the snapshot is compared with. *)
Definition swept_row (now warn : time) (send_ok : connection → bool) (c : option connection)
    (m : mount_row) : mount_row :=
  match m_status m, m_expires_at m with
  | ONLINE, Some t =>
      if t - now <=? 0 then with_status EXPIRED m
      else if (t - now <=? warn) && negb (m_ttl_warned m)
              && match c with Some c => send_ok c | None => true end
      then with_warned m else m
  | _, _ => m
  end.

(** Past retention: the row is deleted at the end of the sweep. *)
Definition past_retention (now : time) (m : mount_row) : bool :=
  bool_decide (m_status m = EXPIRED) && expires_before (now - seconds _RETENTION_SECONDS) m.

(** The actions on the connection of one mount. *)
Definition row_actions (now warn : time) (send_ok : connection → bool) (code : pystr)
    (c : option connection) (m : mount_row) : list sweep_action :=
  match m_status m, m_expires_at m, c with
  | ONLINE, Some t, Some c =>
      if t - now <=? 0 then [CloseConn code c]
      else if (t - now <=? warn) && negb (m_ttl_warned m) && send_ok c
      then [WarnConn code c (int_seconds (t - now))] else []
  | _, _, _ => []
  end.

(** Processing one record changes its own row only. *)
Lemma sweep_mount_row now warn ok code row r acts :
  mounts r !! code = Some row →
  let c := _connections r !! code in
  let '(r', acts') := sweep_mount now warn ok (record_of r (code, row)) (r, acts) in
  mounts r' !! code = Some (swept_row now warn ok c row) ∧
  acts' = acts ++ row_actions now warn ok code c row ∧
  (∀ k, k ≠ code → mounts r' !! k = mounts r !! k ∧ _connections r' !! k = _connections r !! k).
Proof.
  intros Hrow. simpl. unfold sweep_mount, swept_row, row_actions. simpl.
  destruct (m_expires_at row) as [t|] eqn:Et.
  2: { destruct (m_status row); rewrite app_nil_r; auto. }
  destruct (m_status row) eqn:Es; simpl.
  - destruct (t - now <=? 0).
    { unfold expire. rewrite Hrow. simpl.
      split_and!; [|by destruct (_connections r !! code); rewrite ?app_nil_r|].
      - rewrite lookup_alter_eq, Hrow. done.
      - intros k Hk. rewrite lookup_alter_ne, lookup_delete_ne by done. done. }
    destruct ((t - now <=? warn) && negb (m_ttl_warned row)); simpl.
    2: { destruct (_connections r !! code); rewrite app_nil_r; auto. }
    destruct (_connections r !! code) as [c|]; simpl; [destruct (ok c)|];
      unfold mark_ttl_warned; rewrite ?Hrow; simpl; rewrite ?app_nil_r;
      split_and!; try done; try (rewrite lookup_alter_eq, Hrow; done);
      intros k Hk; rewrite ?lookup_alter_ne by done; done.
  - rewrite app_nil_r. auto.
  - rewrite app_nil_r. auto.
Qed.

Lemma sweep_fold now warn ok r0 (l : list (pystr * mount_row)) : ∀ r acts,
  NoDup l.*1 →
  (∀ k row, (k, row) ∈ l → mounts r !! k = Some row ∧ _connections r !! k = _connections r0 !! k) →
  let '(r', acts') := fold_left (λ st m, sweep_mount now warn ok m st) (record_of r0 <$> l) (r, acts) in
  (∀ k row, (k, row) ∈ l →
     mounts r' !! k = Some (swept_row now warn ok (_connections r0 !! k) row)) ∧
  (∀ k, k ∉ l.*1 → mounts r' !! k = mounts r !! k) ∧
  (∀ x, x ∈ acts' ↔ x ∈ acts ∨ ∃ k row, (k, row) ∈ l ∧
     x ∈ row_actions now warn ok k (_connections r0 !! k) row).
Proof.
  induction l as [|[code row] l IH]; intros r acts Hnd Hl; cbn [fmap list_fmap fold_left].
  - split_and!; try done.
    + by intros k row ?%elem_of_nil.
    + intros x. split; [auto|]. intros [?|(k & row & ?%elem_of_nil & _)]; done.
  - simpl in Hnd. apply NoDup_cons in Hnd as [Hn Hnd].
    destruct (Hl code row) as [Hrow Hcon]; [by left|].
    pose proof (sweep_mount_row now warn ok code row r acts Hrow) as Hm. cbv zeta in Hm.
    replace (record_of r0 (code, row)) with (record_of r (code, row))
      by (unfold record_of; simpl; by rewrite Hcon).
    destruct (sweep_mount now warn ok (record_of r (code, row)) (r, acts)) as [r1 acts1].
    destruct Hm as (H1 & -> & H3). rewrite Hcon in *.
    assert (Hne : ∀ k row', (k, row') ∈ l → k ≠ code).
    { intros k row' Hin ->. apply Hn. apply list_elem_of_fmap. by exists (code, row'). }
    specialize (IH r1 (acts ++ row_actions now warn ok code (_connections r0 !! code) row) Hnd).
    destruct (fold_left _ (record_of r0 <$> l) _) as [r' acts'].
    destruct IH as (I1 & I2 & I3).
    { intros k row' Hin. destruct (H3 k (Hne _ _ Hin)) as [-> ->]. apply Hl. by right. }
    split_and!.
    + intros k row' [[= -> ->]|Hin]%elem_of_cons; [|by apply I1]. rewrite I2; [done|]. done.
    + intros k [Hk Hk']%not_elem_of_cons. rewrite I2 by done. by apply H3.
    + intros x. rewrite I3, elem_of_app. split.
      * intros [[?|?]|(k & row' & ? & ?)]; [by left| |].
        -- right. exists code, row. split; [by left|done].
        -- right. exists k, row'. split; [by right|done].
      * intros [?|(k & row' & [[= -> ->]|Hin]%elem_of_cons & Hx)]; [by auto|by auto|].
        right. eauto.
Qed.

(** The snapshot has one record per row that has not expired. *)
Lemma active_rows r :
  (∀ k row, (k, row) ∈ filter (λ kv : pystr * mount_row, m_status kv.2 ≠ EXPIRED)
                          (map_to_list (mounts r)) ↔
            mounts r !! k = Some row ∧ m_status row ≠ EXPIRED) ∧
  NoDup (filter (λ kv : pystr * mount_row, m_status kv.2 ≠ EXPIRED) (map_to_list (mounts r))).*1.
Proof.
  split.
  - intros k row. rewrite list_elem_of_filter, elem_of_map_to_list. simpl. tauto.
  - apply (sublist_NoDup _ (map_to_list (mounts r)).*1); [apply NoDup_fst_map_to_list|].
    apply fmap_sublist, sublist_filter.
Qed.

Lemma sweep_rows now warn ok r code :
  mounts (sweep_once now warn ok r).1 !! code =
    mounts r !! code ≫= λ m,
      let m' := swept_row now warn ok (_connections r !! code) m in
      if past_retention now m' then None else Some m'.
Proof.
  unfold sweep_once, active_mounts.
  set (l := filter _ (map_to_list (mounts r))).
  destruct (active_rows r) as [Hl Hnd]. fold l in Hl, Hnd.
  pose proof (sweep_fold now warn ok r l r [] Hnd) as Hf.
  destruct (fold_left _ (record_of r <$> l) _) as [r' acts'].
  destruct Hf as (F1 & F2 & _).
  { intros k row [Hk _]%Hl. done. }
  simpl. destruct (mounts r !! code) as [m|] eqn:Em; simpl.
  - assert (mounts r' !! code = Some (swept_row now warn ok (_connections r !! code) m)) as Hr'.
    { destruct (decide (m_status m = EXPIRED)) as [He|He].
      - rewrite F2; [unfold swept_row; by rewrite Em, He|].
        intros ([k row] & -> & [Hk Hne]%Hl)%list_elem_of_fmap. simpl in Em. congruence.
      - apply F1. by apply Hl. }
    set (m' := swept_row _ _ _ _ m) in *. unfold past_retention.
    destruct (bool_decide _ && _) eqn:Ep.
    + apply map_lookup_filter_None. right. intros x Hx Hno. rewrite Hr' in Hx. injection Hx as <-.
      apply andb_true_iff in Ep as [Ep1 Ep2]. apply bool_decide_eq_true in Ep1. by apply Hno.
    + apply map_lookup_filter_Some. split; [done|]. simpl. intros [E1 E2].
      by rewrite bool_decide_eq_true_2, E2 in Ep.
  - apply map_lookup_filter_None. left. rewrite F2; [done|].
    intros ([k row] & -> & [Hk _]%Hl)%list_elem_of_fmap. simpl in Em. congruence.
Qed.

Lemma sweep_actions now warn ok r x :
  x ∈ (sweep_once now warn ok r).2 ↔
  ∃ code m, mounts r !! code = Some m ∧ x ∈ row_actions now warn ok code (_connections r !! code) m.
Proof.
  unfold sweep_once, active_mounts.
  set (l := filter _ (map_to_list (mounts r))).
  destruct (active_rows r) as [Hl Hnd]. fold l in Hl, Hnd.
  pose proof (sweep_fold now warn ok r l r [] Hnd) as Hf.
  destruct (fold_left _ (record_of r <$> l) _) as [r' acts'].
  destruct Hf as (_ & _ & F3).
  { intros k row [Hk _]%Hl. done. }
  simpl. rewrite F3. split.
  - intros [?%elem_of_nil|(k & row & [Hk _]%Hl & Hx)]; [done|eauto].
  - intros (k & row & Hk & Hx). right. exists k, row. split; [|done]. apply Hl. split; [done|].
    intros He. unfold row_actions in Hx. rewrite He in Hx. by apply elem_of_nil in Hx.
Qed.

(** ** The lifecycle of a mount *)

(** The statuses a row may take when a call other than its registration runs. *)
Inductive lifecycle (op : registry_op) (code : pystr) (row : mount_row) : MountStatus → Prop :=
| lc_same : lifecycle op code row (m_status row)
| lc_offline : m_status row = ONLINE → lifecycle op code row OFFLINE
| lc_expired : lifecycle op code row EXPIRED
| lc_reclaim now c ip :
    op = OpReclaim now code c ip → m_status row = OFFLINE → m_agent_ip row = ip →
    has_expired now (m_expires_at row) = false → lifecycle op code row ONLINE
| lc_reclaim_owner now c owner :
    op = OpReclaimOwner now code c owner → m_status row = OFFLINE →
    m_owner_user_id row = Some owner → has_expired now (m_expires_at row) = false →
    lifecycle op code row ONLINE.

Lemma lookup_alter_inv {A} (f : A → A) (m : gmap pystr A) k j x y :
  m !! j = Some x → alter f k m !! j = Some y → (y = x ∨ k = j ∧ y = f x).
Proof.
  intros Hx. destruct (decide (k = j)) as [->|Hne].
  - rewrite lookup_alter_eq, Hx. intros [= <-]. auto.
  - rewrite lookup_alter_ne by done. rewrite Hx. intros [= <-]. auto.
Qed.

Lemma delete_expired_row cutoff r code row :
  mounts (delete_expired_before cutoff r) !! code = Some row → mounts r !! code = Some row.
Proof. intros H. apply map_lookup_filter_Some in H as [H _]. done. Qed.

Lemma swept_status now warn ok c m :
  m_status (swept_row now warn ok c m) = m_status m ∨ m_status (swept_row now warn ok c m) = EXPIRED.
Proof. unfold swept_row. repeat case_match; simpl; auto. Qed.

(** A row after a restart. *)
Definition restarted_row (now : time) (m : mount_row) : mount_row :=
  if expires_before now m then with_status EXPIRED m
  else if bool_decide (m_status m = ONLINE) then with_status OFFLINE m else m.

Lemma restart_rows now r code :
  mounts (restart now r) !! code =
    mounts r !! code ≫= λ m, if past_retention now m then None else Some (restarted_row now m).
Proof.
  unfold restart, _startup_cleanup. simpl. rewrite !lookup_fmap.
  destruct (mounts r !! code) as [m|] eqn:E; simpl.
  - unfold past_retention. destruct (bool_decide (m_status m = EXPIRED) && _) eqn:Ep.
    + rewrite (proj2 (map_lookup_filter_None _ _ _)); [done|]. right. intros x Hx Hno.
      simpl in Hx. rewrite E in Hx. injection Hx as <-.
      apply andb_true_iff in Ep as [Ep1 Ep2]. apply bool_decide_eq_true in Ep1. by apply Hno.
    + rewrite (proj2 (map_lookup_filter_Some _ _ code m)).
      * simpl. unfold restarted_row. by destruct (expires_before now m).
      * split; [done|]. simpl. intros [E1 E2]. by rewrite bool_decide_eq_true_2, E2 in Ep.
  - rewrite (proj2 (map_lookup_filter_None _ _ _)); [done|]. by left.
Qed.

Lemma reclaim_cases now code c ip r :
  try_reclaim now code c ip r = (r, None) ∨
  ∃ row, mounts r !! code = Some row ∧ m_status row = OFFLINE ∧ m_agent_ip row = ip ∧
         has_expired now (m_expires_at row) = false ∧
         try_reclaim now code c ip r
         = (bring_online code c r, Some (remaining_ttl now (m_expires_at row))).
Proof.
  unfold try_reclaim. destruct (mounts r !! code) as [row|]; [|by left].
  case_bool_decide; simpl; [|by left]. case_bool_decide; simpl; [|by left].
  destruct (has_expired now (m_expires_at row)) eqn:E; [by left|]. right. by exists row.
Qed.

Lemma reclaim_owner_cases now code c owner r :
  try_reclaim_as_owner now code c owner r = (r, None) ∨
  ∃ row, mounts r !! code = Some row ∧ m_status row = OFFLINE ∧ m_owner_user_id row = Some owner ∧
         has_expired now (m_expires_at row) = false ∧
         try_reclaim_as_owner now code c owner r
         = (bring_online code c r, Some (remaining_ttl now (m_expires_at row))).
Proof.
  unfold try_reclaim_as_owner. destruct (mounts r !! code) as [row|]; [|by left].
  case_bool_decide; simpl; [|by left]. case_bool_decide; simpl; [|by left].
  destruct (has_expired now (m_expires_at row)) eqn:E; [by left|]. right. by exists row.
Qed.

Lemma lifecycle_step op code r row row' :
  (∀ c ip t e, op ≠ OpRegister code c ip t e) →
  mounts r !! code = Some row → mounts (after_reg op r) !! code = Some row' →
  lifecycle op code row (m_status row').
Proof.
  intros Hop Hrow.
  assert (Hid : mounts r !! code = Some row' → lifecycle op code row (m_status row')).
  { rewrite Hrow. intros [= <-]. constructor. }
  assert (Halt : ∀ f k, (∀ m, m_status (f m) = m_status m ∨ m_status (f m) = EXPIRED) →
    alter f k (mounts r) !! code = Some row' → lifecycle op code row (m_status row')).
  { intros f k Hf H. destruct (lookup_alter_inv f _ _ _ _ _ Hrow H) as [->|[_ ->]]; [constructor|].
    destruct (Hf row) as [->| ->]; constructor. }
  destruct op; cbn [after_reg].
  - unfold register. case_bool_decide; [done|].
    assert (code0 ≠ code) by (intros ->; by eapply Hop).
    destruct c; simpl; by rewrite lookup_insert_ne.
  - unfold deregister. destruct (mounts r !! code0); [|done]. simpl.
    intros [_ H]%lookup_delete_Some. auto.
  - unfold mark_offline. destruct (mounts r !! code0) as [m|] eqn:Em; [|done]. simpl.
    destruct (m_status m) eqn:Es; simpl; auto.
    intros H. destruct (lookup_alter_inv _ _ _ _ _ _ Hrow H) as [->|[-> ->]]; [constructor|].
    apply lc_offline. congruence.
  - unfold expire. destruct (mounts r !! code0); [|done]. simpl. apply Halt. auto.
  - unfold mark_ttl_warned. destruct (mounts r !! code0); [|done]. simpl. apply Halt. auto.
  - destruct (reclaim_cases now code0 c ip r) as [->|(m & Hm & Hs & Hip & Hx & ->)]; [done|].
    simpl. intros H. destruct (lookup_alter_inv _ _ _ _ _ _ Hrow H) as [->|[-> ->]]; [constructor|].
    rewrite Hrow in Hm. injection Hm as ->. by eapply lc_reclaim.
  - destruct (reclaim_owner_cases now code0 c owner r) as [->|(m & Hm & Hs & Hip & Hx & ->)]; [done|].
    simpl. intros H. destruct (lookup_alter_inv _ _ _ _ _ _ Hrow H) as [->|[-> ->]]; [constructor|].
    rewrite Hrow in Hm. injection Hm as ->. by eapply lc_reclaim_owner.
  - intros H%delete_expired_row. auto.
  - unfold set_owner_policy. destruct (mounts r !! code0); [|done]. simpl. apply Halt. auto.
  - unfold add_policy_entry. by destruct (mounts r !! code0).
  - unfold set_identity_secret. by repeat case_bool_decide.
  - unfold create_access_request. by destruct (request_for code0 user_id r).
  - unfold resolve_access_request. by destruct (access_requests r !! request_id).
  - rewrite sweep_rows, Hrow. simpl. case_match; [done|]. intros [= <-].
    destruct (swept_status now warning_before send_ok (_connections r !! code) row) as [->| ->];
      constructor.
  - rewrite restart_rows, Hrow. simpl. case_match; [done|]. intros [= <-].
    unfold restarted_row. destruct (expires_before now row); [apply lc_expired|].
    case_bool_decide; [by apply lc_offline|constructor].
Qed.

(** ** The registry invariant *)

Record reg_ok (r : Registry) : Prop := {
  rok_conn : ∀ code c, _connections r !! code = Some c →
    ∃ row, mounts r !! code = Some row ∧ m_status row = ONLINE;
  rok_request : ∀ i q, access_requests r !! i = Some q → ar_id q = i ∧ 0 < i ≤ requests_seq r;
  rok_unique : ∀ i j q q', access_requests r !! i = Some q → access_requests r !! j = Some q' →
    ar_code q = ar_code q' → ar_user_id q = ar_user_id q' → i = j;
  rok_seq : 0 ≤ requests_seq r
}.

(** Changes that leave the requests alone. *)
Lemma reg_ok_mounts r r' :
  reg_ok r → access_requests r' = access_requests r → requests_seq r' = requests_seq r →
  (∀ code c, _connections r' !! code = Some c →
     ∃ row, mounts r' !! code = Some row ∧ m_status row = ONLINE) → reg_ok r'.
Proof. intros [Hc Hq Hu Hs] E1 E2 Hc'. split; rewrite ?E1, ?E2; auto. Qed.

(** Altering a row without taking a status away from a live connection. *)
Lemma reg_ok_alter r f code :
  reg_ok r → (∀ m, m_status (f m) = m_status m) → reg_ok (set_mounts (alter f code (mounts r)) r).
Proof.
  intros Hok Hf. apply (reg_ok_mounts r); [done..|]. simpl. intros k c H.
  destruct (rok_conn _ Hok _ _ H) as (row & Hrow & Hs). destruct (decide (code = k)) as [->|].
  - exists (f row). rewrite lookup_alter_eq, Hrow, Hf. done.
  - exists row. by rewrite lookup_alter_ne.
Qed.

Lemma reg_ok_leave r s code :
  reg_ok r → reg_ok (forget_secret code (forget_connection code (update_status code s r))).
Proof.
  intros Hok. apply (reg_ok_mounts r); [done..|]. simpl.
  intros k c [Hne H]%lookup_delete_Some. destruct (rok_conn _ Hok _ _ H) as (row & Hrow & Hs).
  exists row. by rewrite lookup_alter_ne.
Qed.

Lemma reg_ok_online r row code c :
  reg_ok r → mounts r !! code = Some row → reg_ok (bring_online code c r).
Proof.
  intros Hok Hrow. apply (reg_ok_mounts r); [done..|]. simpl.
  intros k c' H. destruct (decide (code = k)) as [->|Hne].
  - exists (with_status ONLINE row). by rewrite lookup_alter_eq, Hrow.
  - rewrite lookup_insert_ne in H by done. rewrite lookup_alter_ne by done. by eapply rok_conn.
Qed.

Lemma reg_ok_expire code r : reg_ok r → reg_ok (expire code r).1.
Proof. intros Hok. unfold expire. destruct (mounts r !! code); [|done]. by apply reg_ok_leave. Qed.

Lemma reg_ok_warned code r : reg_ok r → reg_ok (mark_ttl_warned code r).1.
Proof.
  intros Hok. unfold mark_ttl_warned. destruct (mounts r !! code); [|done]. by apply reg_ok_alter.
Qed.

Lemma reg_ok_delete_expired cutoff r : reg_ok r → reg_ok (delete_expired_before cutoff r).
Proof.
  intros Hok. apply (reg_ok_mounts r); [done..|]. simpl. intros k c H.
  destruct (rok_conn _ Hok _ _ H) as (row & Hrow & Hs). exists row. split; [|done].
  apply map_lookup_filter_Some. split; [done|]. simpl. intros [E _]. congruence.
Qed.

Lemma reg_ok_sweep_mount now warn ok m st :
  reg_ok st.1 → reg_ok (sweep_mount now warn ok m st).1.
Proof.
  destruct st as [r acts]. simpl. intros Hok. unfold sweep_mount.
  destruct (mr_expires_at m); [|done]. case_bool_decide; simpl; [|done].
  destruct (_ <=? 0).
  { pose proof (reg_ok_expire (mr_code m) r Hok) as H'. by destruct (expire (mr_code m) r) as [? []]. }
  destruct (_ && _); [|done]. pose proof (reg_ok_warned (mr_code m) r Hok).
  destruct (mr_connection m) as [c|]; [|done]. by destruct (ok c).
Qed.

Lemma reg_ok_sweep now warn ok r : reg_ok r → reg_ok (sweep_once now warn ok r).1.
Proof.
  intros Hok. unfold sweep_once.
  assert (∀ l st, reg_ok st.1 →
    reg_ok (fold_left (λ st m, sweep_mount now warn ok m st) l st).1) as Hf.
  { induction l as [|m l IH]; intros st Hst; simpl; [done|]. by apply IH, reg_ok_sweep_mount. }
  specialize (Hf (active_mounts r) (r, []) Hok).
  destruct (fold_left _ (active_mounts r) (r, [])) as [r' acts]. by apply reg_ok_delete_expired.
Qed.

Lemma request_for_None r code u :
  request_for code u r = None →
  ∀ i q, access_requests r !! i = Some q → ar_code q = code → ar_user_id q ≠ u.
Proof.
  unfold request_for. destruct (filter _ _) as [|[i v] l] eqn:E; [|done]. intros _ i q Hq Hc Hu.
  assert ((i, q) ∈ filter (λ kv : Z * AccessRequest, ar_code kv.2 = code ∧ ar_user_id kv.2 = u)
                     (map_to_list (access_requests r))) as Hin.
  { apply list_elem_of_filter. split; [done|]. by apply elem_of_map_to_list. }
  rewrite E in Hin. by apply elem_of_nil in Hin.
Qed.

Lemma request_for_Some r code u q :
  request_for code u r = Some q →
  ∃ i, access_requests r !! i = Some q ∧ ar_code q = code ∧ ar_user_id q = u.
Proof.
  unfold request_for. destruct (filter _ _) as [|[i v] l] eqn:E; [done|]. simpl. intros [= ->].
  assert ((i, q) ∈ (i, q) :: l) as Hin by left. rewrite <-E in Hin.
  apply list_elem_of_filter in Hin as [Hn Hin]. apply elem_of_map_to_list in Hin. eauto.
Qed.

Lemma reg_ok_request now code u r : reg_ok r → reg_ok (create_access_request now code u r).1.
Proof.
  intros Hok. unfold create_access_request. destruct (request_for code u r) eqn:E; [done|].
  pose proof (request_for_None _ _ _ E) as Hno. destruct Hok as [Hc Hq Hu Hs].
  split; simpl; try done.
  - intros i q [[<- <-]|[_ H]]%lookup_insert_Some; simpl; [split; [done|lia]|].
    apply Hq in H as [? ?]. split; [done|lia].
  - intros i j q q' [[<- <-]|[Hi H1]]%lookup_insert_Some [[<- <-]|[Hj H2]]%lookup_insert_Some; simpl.
    + done.
    + intros E1 E2. by destruct (Hno _ _ H2 (eq_sym E1)).
    + intros E1 E2. by destruct (Hno _ _ H1 E1).
    + by apply Hu.
  - lia.
Qed.

Lemma reg_ok_resolve i s r : reg_ok r → reg_ok (resolve_access_request i s r).1.
Proof.
  intros Hok. unfold resolve_access_request. destruct (access_requests r !! i) as [q|] eqn:E; [|done].
  destruct Hok as [Hc Hq Hu Hs]. split; simpl; try done.
  - intros j q' [[<- <-]|[_ H]]%lookup_insert_Some; [by apply Hq in E|by apply Hq].
  - intros j k q1 q2 [[<- <-]|[Hj H1]]%lookup_insert_Some [[<- <-]|[Hk H2]]%lookup_insert_Some; simpl.
    + done.
    + by apply Hu.
    + by apply Hu.
    + by apply Hu.
Qed.

Create HintDb registry.
#[export] Hint Resolve reg_ok_expire reg_ok_warned reg_ok_delete_expired reg_ok_sweep
  reg_ok_request reg_ok_resolve : registry.

Lemma reg_ok_step op r : reg_ok r → reg_ok (after_reg op r).
Proof.
  intros Hok. destruct op; cbn [after_reg]; eauto with registry.
  - unfold register. case_bool_decide; [done|]. apply (reg_ok_mounts r); [done|by destruct c..|].
    intros k c' Hk. assert (code = k ∨ code ≠ k ∧ _connections r !! k = Some c') as [->|[Hne Hc]].
    { destruct (decide (code = k)); [by left|right]. split; [done|].
      destruct c; simpl in Hk; [by rewrite lookup_insert_ne in Hk|done]. }
    + eexists. split; [destruct c; simpl; by rewrite lookup_insert_eq|done].
    + destruct (rok_conn _ Hok _ _ Hc) as (row & ? & ?). exists row. split; [|done].
      destruct c; simpl; by rewrite lookup_insert_ne.
  - unfold deregister. destruct (mounts r !! code); [|done]. apply (reg_ok_mounts r); [done..|].
    simpl. intros k c [Hne H]%lookup_delete_Some.
    destruct (rok_conn _ Hok _ _ H) as (row & ? & ?). exists row. by rewrite lookup_delete_ne.
  - unfold mark_offline. destruct (mounts r !! code) as [m|]; [|done].
    destruct (m_status m); [by apply reg_ok_leave| |];
      (apply (reg_ok_mounts r); [done..|exact (rok_conn r Hok)]).
  - destruct (reclaim_cases now code c ip r) as [->|(m & Hm & _ & _ & _ & ->)]; [done|].
    by eapply reg_ok_online.
  - destruct (reclaim_owner_cases now code c owner r) as [->|(m & Hm & _ & _ & _ & ->)]; [done|].
    by eapply reg_ok_online.
  - unfold set_owner_policy. destruct (mounts r !! code); [|done]. simpl.
    eapply (reg_ok_mounts (set_mounts (alter (with_policy owner mode pw) code (mounts r)) r));
      [by apply reg_ok_alter|done..|]. by apply (reg_ok_alter r (with_policy owner mode pw) code).
  - unfold add_policy_entry. destruct (mounts r !! code); [|done].
    apply (reg_ok_mounts r); [done..|exact (rok_conn r Hok)].
  - unfold set_identity_secret. repeat case_bool_decide; try done.
    apply (reg_ok_mounts r); [done..|exact (rok_conn r Hok)].
  - apply (reg_ok_mounts r); [done..|]. simpl. intros k c H. by rewrite lookup_empty in H.
Qed.

(** ** The in-memory registry as the specification *)

(** All the calls both registries have. *)
Inductive api_call :=
| CallRegister (code : pystr) (c : connection) (ip : pystr) (created_at : time)
    (expires_at : option time)
| CallDeregister (code : pystr)
| CallMarkOffline (code : pystr)
| CallGetConnection (is_closed : connection → bool) (code : pystr)
| CallHasMount (code : pystr)
| CallCountByIp (ip : pystr)
| CallActiveMounts.

Inductive api_result :=
| ResNone
| ResConn (c : connection)
| ResBool (b : bool)
| ResInt (n : Z)
| ResMounts (l : list MountRecord).

Definition to_result {S A} (f : A → api_result) (p : S * (RegistryExn + A))
    : S * (RegistryExn + api_result) :=
  (p.1, match p.2 with inl e => inl e | inr a => inr (f a) end).

Definition call_sqlite (call : api_call) (r : Registry) : Registry * (RegistryExn + api_result) :=
  match call with
  | CallRegister code c ip t e => to_result (λ _, ResNone) (register code (Some c) ip t e r)
  | CallDeregister code => to_result (λ _, ResNone) (deregister code r)
  | CallMarkOffline code => to_result (λ _, ResNone) (mark_offline code r)
  | CallGetConnection f code => to_result ResConn (get_connection f code r)
  | CallHasMount code => (r, inr (ResBool (has_mount code r)))
  | CallCountByIp ip => (r, inr (ResInt (count_mounts_by_ip ip r)))
  | CallActiveMounts => (r, inr (ResMounts (active_mounts r)))
  end.

Definition call_mem (call : api_call) (s : MemRegistry) : MemRegistry * (RegistryExn + api_result) :=
  match call with
  | CallRegister code c ip t e => to_result (λ _, ResNone) (mem_register code c ip t e s)
  | CallDeregister code => to_result (λ _, ResNone) (mem_deregister code s)
  | CallMarkOffline code => to_result (λ _, ResNone) (mem_mark_offline code s)
  | CallGetConnection f code => to_result ResConn (mem_get_connection f code s)
  | CallHasMount code => (s, inr (ResBool (mem_has_mount code s)))
  | CallCountByIp ip => (s, inr (ResInt (mem_count_mounts_by_ip ip s)))
  | CallActiveMounts => (s, inr (ResMounts (mem_active_mounts s)))
  end.

Fixpoint results {S} (call : api_call → S → S * (RegistryExn + api_result)) (cs : list api_call)
    (s : S) : list (RegistryExn + api_result) :=
  match cs with
  | [] => []
  | c :: cs' => let '(s', x) := call c s in x :: results call cs' s'
  end.

(** The record of a mount as the SQLite registry returns it: the in-memory registry keeps
    the connection of an agent that is gone, the other one forgets it. *)
Definition as_stored (rec : MountRecord) : MountRecord :=
  {| mr_code := mr_code rec;
     mr_connection := if bool_decide (mr_status rec = OFFLINE) then None else mr_connection rec;
     mr_status := mr_status rec; mr_agent_ip := mr_agent_ip rec; mr_created_at := mr_created_at rec;
     mr_expires_at := mr_expires_at rec; mr_ttl_warned := mr_ttl_warned rec |}.

(** A result of the in-memory registry and one of the SQLite registry. *)
Definition same_result (x y : RegistryExn + api_result) : Prop :=
  match x, y with
  | inr (ResMounts l), inr (ResMounts l') => l' ≡ₚ as_stored <$> l
  | _, _ => x = y
  end.

(** A record of the dictionary and a row with its connection. *)
Definition row_sim (r : Registry) (code : pystr) (o : option MountRecord) (o' : option mount_row) : Prop :=
  match o, o' with
  | None, None => True
  | Some rec, Some row =>
      record_of r (code, row) = as_stored rec ∧ is_Some (mr_connection rec) ∧ m_status row ≠ EXPIRED
  | _, _ => False
  end.

Definition sim (s : MemRegistry) (r : Registry) : Prop :=
  ∀ code, row_sim r code (_mounts s !! code) (mounts r !! code).

(** What the two agree on, field by field. *)
Lemma row_sim_fields r code rec row :
  row_sim r code (Some rec) (Some row) →
  mr_code rec = code ∧ mr_status rec = m_status row ∧ mr_agent_ip rec = m_agent_ip row ∧ m_status row ≠ EXPIRED ∧
  ∃ c, mr_connection rec = Some c ∧
       _connections r !! code = match m_status row with OFFLINE => None | _ => Some c end.
Proof.
  intros ([= -> Hc Hs Hip _ _ _] & [c Hr] & Hx). rewrite <- Hs in Hc. split_and!; try done. exists c. split; [done|].
  rewrite Hc, Hr. destruct (m_status row); [by rewrite bool_decide_false|by rewrite bool_decide_true|done].
Qed.

Lemma sim_count s r ip : sim s r → mem_count_mounts_by_ip ip s = count_mounts_by_ip ip r.
Proof.
  intros Hs. unfold mem_count_mounts_by_ip, count_mounts_by_ip. f_equal.
  rewrite <-!size_dom. f_equal. apply set_eq. intros code. rewrite !elem_of_dom. specialize (Hs code).
  split; intros [x [Hx Hp]%map_lookup_filter_Some]; rewrite Hx in Hs; simpl in Hp.
  - destruct (mounts r !! code) as [row|] eqn:E; [|done]. apply row_sim_fields in Hs as (_ & E1 & E3 & _).
    exists row. apply map_lookup_filter_Some. split; [done|]. simpl. by rewrite <-E1, <-E3.
  - destruct (_mounts s !! code) as [rec|] eqn:E; [|done]. apply row_sim_fields in Hs as (_ & E1 & E3 & _).
    exists rec. apply map_lookup_filter_Some. split; [done|]. simpl. by rewrite E1, E3.
Qed.

Lemma filter_every {A} (P : A → Prop) `{∀ x, Decision (P x)} l : Forall P l → filter P l = l.
Proof. induction 1 as [|x l Hx _ IH]; [done|]. by rewrite filter_cons, decide_True, IH. Qed.

(** The records of a map whose keys are in them are all different. *)
Lemma NoDup_records {A} (f : pystr * A → MountRecord) (m : gmap pystr A) :
  (∀ k x, m !! k = Some x → mr_code (f (k, x)) = k) → NoDup (f <$> map_to_list m).
Proof.
  intros Hf. apply NoDup_fmap_2_strong; [|apply NoDup_map_to_list].
  intros [k x] [k' x'] Hx%elem_of_map_to_list Hx'%elem_of_map_to_list E.
  assert (k = k') as -> by (rewrite <- (Hf k x), <- (Hf k' x'), E by done; done). congruence.
Qed.

Lemma sim_active s r : sim s r → active_mounts r ≡ₚ as_stored <$> mem_active_mounts s.
Proof.
  intros Hs. unfold active_mounts, mem_active_mounts.
  assert (filter (λ kv : pystr * mount_row, m_status kv.2 ≠ EXPIRED) (map_to_list (mounts r)) = map_to_list (mounts r)) as ->.
  { apply filter_every, Forall_forall. intros [k row] Hk%elem_of_map_to_list. specialize (Hs k). rewrite Hk in Hs.
    destruct (_mounts s !! k); [|done]. by apply row_sim_fields in Hs as (_ & _ & _ & ? & _). }
  assert (filter (λ rec, mr_status rec ≠ EXPIRED) (map_to_list (_mounts s)).*2 = (map_to_list (_mounts s)).*2) as ->.
  { apply filter_every, Forall_fmap, Forall_forall. intros [k rec] Hk%elem_of_map_to_list. specialize (Hs k).
    rewrite Hk in Hs. destruct (mounts r !! k); [|done]. apply row_sim_fields in Hs as (_ & Hst & _ & ? & _). simpl. congruence. }
  rewrite <- list_fmap_compose. apply NoDup_Permutation.
  - apply NoDup_records. done.
  - apply NoDup_records. intros k rec Hk. specialize (Hs k). rewrite Hk in Hs. destruct (mounts r !! k); [|done].
    by apply row_sim_fields in Hs as (? & _).
  - intros x. rewrite !list_elem_of_fmap. split; intros ([k y] & -> & Hk%elem_of_map_to_list); specialize (Hs k); rewrite Hk in Hs.
    + destruct (_mounts s !! k) as [rec|] eqn:E; [|done]. exists (k, rec). rewrite elem_of_map_to_list.
      split; [apply Hs|done].
    + destruct (mounts r !! k) as [row|] eqn:E; [|done]. exists (k, row). rewrite elem_of_map_to_list.
      split; [symmetry; apply Hs|done].
Qed.

(** A call that changes one code only. *)
Lemma sim_update s s' r r' code :
  sim s r → row_sim r' code (_mounts s' !! code) (mounts r' !! code) →
  (∀ k, k ≠ code → _mounts s' !! k = _mounts s !! k ∧ mounts r' !! k = mounts r !! k ∧
                   _connections r' !! k = _connections r !! k) → sim s' r'.
Proof.
  intros Hs Hc Ho k. destruct (decide (k = code)) as [->|Hne]; [done|].
  destruct (Ho k Hne) as (-> & -> & E). specialize (Hs k). unfold row_sim, record_of in *. simpl in *. by rewrite E.
Qed.

Lemma call_sim call s r :
  sim s r → same_result (call_mem call s).2 (call_sqlite call r).2 ∧
            sim (call_mem call s).1 (call_sqlite call r).1.
Proof.
  intros Hs. destruct call; simpl.
  - unfold mem_register, register. case_bool_decide; simpl; [done|]. split; [done|].
    apply (sim_update s _ r _ code Hs); simpl.
    + rewrite !lookup_insert_eq. unfold row_sim, record_of, as_stored. simpl. rewrite lookup_insert_eq. split_and!; done || by eexists.
    + intros k Hk. rewrite !lookup_insert_ne by done. done.
  - pose proof (Hs code) as Hc. unfold mem_deregister, deregister, row_sim in *.
    destruct (_mounts s !! code), (mounts r !! code); try done. split; [done|].
    apply (sim_update s _ r _ code Hs); simpl.
    + by rewrite !lookup_delete_eq.
    + intros k Hk. rewrite !lookup_delete_ne by done. done.
  - pose proof (Hs code) as Hc. unfold mem_mark_offline, mark_offline.
    destruct (_mounts s !! code) as [rec|] eqn:Em, (mounts r !! code) as [row|] eqn:Er; try done.
    split; [done|]. destruct Hc as (E1 & E2 & E3). injection E1 as E4 E5 E6 E7 E8 E9 E10.
    apply (sim_update s _ r _ code Hs).
    + simpl. rewrite lookup_insert_eq. destruct (m_status row) eqn:Es; [| |done]; simpl.
      * rewrite lookup_alter_eq, Er. unfold row_sim, record_of, as_stored. simpl. rewrite lookup_delete_eq.
        split_and!; [by f_equal|done|done].
      * rewrite Er. unfold row_sim, record_of, as_stored. simpl. rewrite Es.
        split_and!; [|done|done]. rewrite E5, <- E6, bool_decide_true by done. by f_equal.
    + intros k Hk. simpl. rewrite lookup_insert_ne by done.
      destruct (m_status row); simpl; rewrite ?lookup_alter_ne, ?lookup_delete_ne by done; done.
  - pose proof (Hs code) as Hc. unfold mem_get_connection, get_connection.
    destruct (_mounts s !! code) as [rec|], (mounts r !! code) as [row|] eqn:Er; try done.
    apply row_sim_fields in Hc as (_ & E1 & _ & E2 & c & E4 & E5). rewrite E1, E4.
    destruct (m_status row); [rewrite E5; by destruct (is_closed c)|done|done].
  - pose proof (Hs code) as Hc. unfold mem_has_mount, has_mount, row_sim in Hc |- *. split; [|done].
    by destruct (_mounts s !! code), (mounts r !! code).
  - split; [|done]. simpl. by rewrite (sim_count s r).
  - split; [|done]. by apply sim_active.
Qed.

Lemma results_sim cs : ∀ s r, sim s r → Forall2 same_result (results call_mem cs s) (results call_sqlite cs r).
Proof.
  induction cs as [|c cs IH]; intros s r Hs; simpl; [constructor|].
  destruct (call_sim c s r Hs) as [E H]. destruct (call_mem c s), (call_sqlite c r). simpl in *.
  constructor; [done|by apply IH].
Qed.

(** ** Policies *)

(** The role the last matching entry of a list gives. *)
Definition last_role (t : SubjectType) (id : Z) (entries : list PolicyEntry) : option Role :=
  fold_left (λ acc e, if decide (pe_subject_type e = t ∧ pe_subject_id e = id)
                      then Some (pe_role e) else acc) entries None.

Lemma insert_policies_lookup code entries : ∀ p k t id,
  fold_left (λ p e, insert_policy code e p) entries p !! (k, t, id)
  = if decide (k = code)
    then fold_left (λ acc e, if decide (pe_subject_type e = t ∧ pe_subject_id e = id)
                             then Some (pe_role e) else acc) entries (p !! (k, t, id))
    else p !! (k, t, id).
Proof.
  induction entries as [|e es IH]; intros p k t id; simpl; [by case_decide|].
  rewrite IH. unfold insert_policy. case_decide as Hk.
  - subst k. f_equal. case_decide as He.
    + destruct He as [<- <-]. by rewrite lookup_insert_eq.
    + rewrite lookup_insert_ne; [done|]. intros E. apply He. by simplify_eq.
  - rewrite lookup_insert_ne; [done|]. intros E. by simplify_eq.
Qed.

Lemma elem_policy_entries code r t id role :
  {| pe_subject_type := t; pe_subject_id := id; pe_role := role |} ∈ policy_entries code r
  ↔ mount_policy r !! (code, t, id) = Some role.
Proof.
  unfold policy_entries. rewrite list_elem_of_fmap. split.
  - intros ([[[k t'] id'] role'] & [= -> -> ->] & [Hk H]%list_elem_of_filter). simpl in *.
    apply elem_of_map_to_list in H. by subst.
  - intros H. exists (code, t, id, role). split; [done|]. apply list_elem_of_filter.
    split; [done|]. by apply elem_of_map_to_list.
Qed.

(** ** A warned row stays warned *)

Lemma warned_stays op code r row row' :
  (∀ c ip t e, op ≠ OpRegister code c ip t e) →
  mounts r !! code = Some row → m_ttl_warned row = true →
  mounts (after_reg op r) !! code = Some row' → m_ttl_warned row' = true.
Proof.
  intros Hop Hrow Hw.
  assert (Hid : mounts r !! code = Some row' → m_ttl_warned row' = true) by congruence.
  assert (Halt : ∀ f k, (∀ m, m_ttl_warned m = true → m_ttl_warned (f m) = true) →
    alter f k (mounts r) !! code = Some row' → m_ttl_warned row' = true).
  { intros f k Hf H. destruct (lookup_alter_inv f _ _ _ _ _ Hrow H) as [->|[_ ->]]; auto. }
  destruct op; cbn [after_reg].
  - unfold register. case_bool_decide; [done|].
    assert (code0 ≠ code) by (intros ->; by eapply Hop).
    destruct c; simpl; by rewrite lookup_insert_ne.
  - unfold deregister. destruct (mounts r !! code0); [|done]. simpl.
    intros [_ H]%lookup_delete_Some. auto.
  - unfold mark_offline. destruct (mounts r !! code0) as [m|]; [|done]. simpl.
    destruct (m_status m); simpl; auto. by apply Halt.
  - unfold expire. destruct (mounts r !! code0); [|done]. simpl. by apply Halt.
  - unfold mark_ttl_warned. destruct (mounts r !! code0); [|done]. simpl. by apply Halt.
  - destruct (reclaim_cases now code0 c ip r) as [->|(m & _ & _ & _ & _ & ->)]; [done|]. by apply Halt.
  - destruct (reclaim_owner_cases now code0 c owner r) as [->|(m & _ & _ & _ & _ & ->)]; [done|].
    by apply Halt.
  - intros H%delete_expired_row. auto.
  - unfold set_owner_policy. destruct (mounts r !! code0); [|done]. simpl. by apply Halt.
  - unfold add_policy_entry. by destruct (mounts r !! code0).
  - unfold set_identity_secret. by repeat case_bool_decide.
  - unfold create_access_request. by destruct (request_for code0 user_id r).
  - unfold resolve_access_request. by destruct (access_requests r !! request_id).
  - rewrite sweep_rows, Hrow. simpl. case_match; [done|]. intros [= <-].
    unfold swept_row. by repeat case_match.
  - rewrite restart_rows, Hrow. simpl. case_match; [done|]. intros [= <-].
    unfold restarted_row. by repeat case_match.
Qed.

(** A row absent stays absent, a warned one warned, until it is registered. *)
Definition warned_or_gone (code : pystr) (r : Registry) : Prop :=
  ∀ row, mounts r !! code = Some row → m_ttl_warned row = true.

Lemma absent_stays op code r :
  (∀ c ip t e, op ≠ OpRegister code c ip t e) →
  mounts r !! code = None → mounts (after_reg op r) !! code = None.
Proof.
  intros Hop Hrow.
  assert (Halt : ∀ (f : mount_row → mount_row) k, alter f k (mounts r) !! code = None).
  { intros f k. destruct (decide (k = code)) as [->|];
      [by rewrite lookup_alter_eq, Hrow|by rewrite lookup_alter_ne]. }
  destruct op; cbn [after_reg].
  - unfold register. case_bool_decide; [done|].
    assert (code0 ≠ code) by (intros ->; by eapply Hop).
    destruct c; simpl; by rewrite lookup_insert_ne.
  - unfold deregister. destruct (mounts r !! code0); [|done]. simpl.
    apply lookup_delete_None. auto.
  - unfold mark_offline. destruct (mounts r !! code0) as [m|]; [|done]. simpl.
    destruct (m_status m); [apply Halt|done|done].
  - unfold expire. destruct (mounts r !! code0); [apply Halt|done].
  - unfold mark_ttl_warned. destruct (mounts r !! code0); [apply Halt|done].
  - destruct (reclaim_cases now code0 c ip r) as [->|(m & _ & _ & _ & _ & ->)]; [done|]. apply Halt.
  - destruct (reclaim_owner_cases now code0 c owner r) as [->|(m & _ & _ & _ & _ & ->)]; [done|].
    apply Halt.
  - destruct (mounts (delete_expired_before cutoff r) !! code) eqn:E; [|done].
    apply delete_expired_row in E. congruence.
  - unfold set_owner_policy. destruct (mounts r !! code0); [apply Halt|done].
  - unfold add_policy_entry. by destruct (mounts r !! code0).
  - unfold set_identity_secret. by repeat case_bool_decide.
  - unfold create_access_request. by destruct (request_for code0 user_id r).
  - unfold resolve_access_request. by destruct (access_requests r !! request_id).
  - by rewrite sweep_rows, Hrow.
  - by rewrite restart_rows, Hrow.
Qed.

Definition registers (code : pystr) (op : registry_op) : bool :=
  match op with OpRegister code' _ _ _ _ => bool_decide (code' = code) | _ => false end.

Lemma warned_or_gone_run code ops : ∀ r,
  forallb (λ op, negb (registers code op)) ops = true → warned_or_gone code r →
  warned_or_gone code (fold_left (λ r op, after_reg op r) ops r).
Proof.
  induction ops as [|op ops IH]; intros r; simpl; [done|].
  intros [Hop Hops]%andb_true_iff Hw. apply IH; [done|].
  assert (∀ c ip t e, op ≠ OpRegister code c ip t e) as Hne.
  { intros c ip t e ->. simpl in Hop. by rewrite bool_decide_eq_true_2 in Hop. }
  intros row' H. destruct (mounts r !! code) as [row|] eqn:E.
  - by eapply warned_stays; [done|done|apply Hw|done].
  - by rewrite absent_stays in H.
Qed.

(** ** Properties *)

Definition after_regs (ops : list registry_op) (r : Registry) : Registry :=
  fold_left (λ r op, after_reg op r) ops r.

Lemma after_regs_ok ops : ∀ r, reg_ok r → reg_ok (after_regs ops r).
Proof. induction ops as [|op ops IH]; intros r Hok; simpl; [done|]. by apply IH, reg_ok_step. Qed.

Lemma empty_registry_ok : reg_ok empty_registry.
Proof. by split; simpl; try done; intros; rewrite lookup_empty in *. Qed.

(** C35: after any sequence of calls, sweeps and restarts from an empty
    database, a tunnel connection is held only for a mount that is ONLINE (so an
    OFFLINE or EXPIRED mount never keeps one), every access request carries its
    own id, and a user has at most one request per mount. *)
Theorem registry_invariant (ops : list registry_op) : reg_ok (after_regs ops empty_registry).
Proof. apply after_regs_ok, empty_registry_ok. Qed.

(** the lifecycle of a mount: until it is registered again a mount goes
    OFFLINE only from ONLINE, comes back ONLINE only from OFFLINE by a reclaim
    whose address or owner matches before the TTL has passed, and EXPIRED is
    final. *)
Theorem mount_lifecycle (op : registry_op) (code : pystr) (r : Registry) (row row' : mount_row) :
  registers code op = false →
  mounts r !! code = Some row → mounts (after_reg op r) !! code = Some row' →
  lifecycle op code row (m_status row') ∧ (m_status row = EXPIRED → m_status row' = EXPIRED).
Proof.
  intros Hop H1 H2.
  assert (lifecycle op code row (m_status row')) as Hl.
  { eapply lifecycle_step; [|done|done]. intros c ip t e ->. simpl in Hop.
    by rewrite bool_decide_eq_true_2 in Hop. }
  split; [done|]. intros He. destruct Hl; congruence.
Qed.

(** a reclaim by address succeeds exactly for an OFFLINE mount of that
    address whose TTL has not passed; it then only flips the status and installs
    the new connection, and reports the remaining TTL, which is never negative;
    a refused reclaim changes nothing. *)
Theorem try_reclaim_spec (now : time) (code : pystr) (c : connection) (ip : pystr) (r : Registry) :
  let '(r', res) := try_reclaim now code c ip r in
  (is_Some res ↔ ∃ row, mounts r !! code = Some row ∧ m_status row = OFFLINE ∧
                        m_agent_ip row = ip ∧ has_expired now (m_expires_at row) = false) ∧
  match res with
  | None => r' = r
  | Some n =>
      0 ≤ n ∧ mounts r' = alter (with_status ONLINE) code (mounts r) ∧
      _connections r' = <[code := c]> (_connections r) ∧ mount_policy r' = mount_policy r ∧
      ∃ row, mounts r !! code = Some row ∧
        match m_expires_at row with
        | None => n = 0
        | Some t => now < t ∧ seconds n ≤ t - now < seconds (n + 1)
        end
  end.
Proof.
  destruct (reclaim_cases now code c ip r) as [E|(row & Hrow & Hs & Hip & Hx & ->)].
  - rewrite E. split; [|done]. split; [by intros []|].
    intros (row & Hrow & Hs & Hip & Hx). unfold try_reclaim in E. rewrite Hrow in E.
    rewrite !bool_decide_eq_true_2, Hx in E by done. simpl in E. by injection E.
  - split; [split; eauto 10|]. simpl. unfold remaining_ttl, has_expired, int_seconds, seconds in *.
    destruct (m_expires_at row) as [t|] eqn:Et; bool_prop; split_and!; try done.
    + apply Z.quot_pos; lia.
    + exists row. split; [done|]. rewrite Et. split; [lia|]. divlia.
    + exists row. by rewrite Et.
Qed.

(** one TTL sweep, row by row: an ONLINE mount past its TTL becomes EXPIRED
    and its connection is closed, one inside the warning window is warned once
    and marked (unless the warning could not be sent), every other row is left
    alone, and an EXPIRED row is deleted when its TTL passed more than six hours
    ago; the loop over the snapshot does nothing else to any connection. *)
Theorem sweep_spec (now warn : time) (send_ok : connection → bool) (r : Registry) :
  (∀ code, mounts (sweep_once now warn send_ok r).1 !! code =
     mounts r !! code ≫= λ m,
       let m' := swept_row now warn send_ok (_connections r !! code) m in
       if past_retention now m' then None else Some m') ∧
  (∀ x, x ∈ (sweep_once now warn send_ok r).2 ↔
     ∃ code m, mounts r !! code = Some m ∧
               x ∈ row_actions now warn send_ok code (_connections r !! code) m).
Proof. split; [apply sweep_rows|apply sweep_actions]. Qed.

(** a mount is warned at most once per registration: after a sweep has sent
    the warning for a code, no later sweep sends another one, whatever calls
    happen in between, until the code is registered again. *)
Theorem sweep_warns_once (now1 warn1 : time) (ok1 : connection → bool) (now2 warn2 : time)
    (ok2 : connection → bool) (r : Registry) (code : pystr) (c1 c2 : connection) (n1 n2 : Z)
    (ops : list registry_op) :
  WarnConn code c1 n1 ∈ (sweep_once now1 warn1 ok1 r).2 →
  forallb (λ op, negb (registers code op)) ops = true →
  WarnConn code c2 n2 ∉ (sweep_once now2 warn2 ok2 (after_regs ops (sweep_once now1 warn1 ok1 r).1)).2.
Proof.
  intros (k & m & Hm & Hin)%sweep_actions Hops.
  assert (Hw : warned_or_gone code (sweep_once now1 warn1 ok1 r).1).
  { intros row Hrow. rewrite sweep_rows in Hrow. unfold row_actions in Hin.
    destruct (m_status m) eqn:Es; try by apply elem_of_nil in Hin.
    destruct (m_expires_at m) as [t|] eqn:Et; [|by apply elem_of_nil in Hin].
    destruct (_connections r !! k) as [c|] eqn:Ec; [|by apply elem_of_nil in Hin].
    destruct (t - now1 <=? 0) eqn:E0.
    { apply elem_of_cons in Hin as [?|Hin]; [done|by apply elem_of_nil in Hin]. }
    destruct ((t - now1 <=? warn1) && negb (m_ttl_warned m) && ok1 c) eqn:E1;
      [|by apply elem_of_nil in Hin].
    apply elem_of_cons in Hin as [[= <- <- _]|Hin]; [|by apply elem_of_nil in Hin].
    rewrite Hm in Hrow. cbn [mbind option_bind] in Hrow. rewrite Ec in Hrow. unfold swept_row in Hrow.
    rewrite Es, Et, E0, E1 in Hrow. cbv zeta in Hrow. case_match; [done|]. by injection Hrow as <-. }
  pose proof (warned_or_gone_run code ops _ Hops Hw) as Hw2.
  intros (k2 & m2 & Hm2 & Hin2)%sweep_actions. unfold row_actions in Hin2.
  destruct (m_status m2); try by apply elem_of_nil in Hin2.
  destruct (m_expires_at m2) as [t|]; [|by apply elem_of_nil in Hin2].
  destruct (_connections _ !! k2) as [c|]; [|by apply elem_of_nil in Hin2].
  destruct (t - now2 <=? 0).
  { apply elem_of_cons in Hin2 as [?|Hin2]; [done|by apply elem_of_nil in Hin2]. }
  destruct ((t - now2 <=? warn2) && negb (m_ttl_warned m2) && ok2 c) eqn:E1;
    [|by apply elem_of_nil in Hin2].
  apply elem_of_cons in Hin2 as [[= <- <- _]|Hin2]; [|by apply elem_of_nil in Hin2].
  bool_prop. by rewrite (Hw2 m2 Hm2) in *.
Qed.

(** an OFFLINE mount is never expired by the sweep, however long ago its
    TTL has passed: its row is untouched, and it keeps counting against the
    per-address mount limit. *)
Theorem sweep_skips_offline (code : pystr) (row : mount_row) (r : Registry)
    (sweeps : list (time * time * (connection → bool))) :
  mounts r !! code = Some row → m_status row = OFFLINE →
  let r' := fold_left (λ r '(now, warn, ok), (sweep_once now warn ok r).1) sweeps r in
  mounts r' !! code = Some row ∧ 0 < count_mounts_by_ip (m_agent_ip row) r'.
Proof.
  intros Hrow Hs. simpl.
  assert (∀ r, mounts r !! code = Some row → mounts (fold_left
    (λ r '(now, warn, ok), (sweep_once now warn ok r).1) sweeps r) !! code = Some row) as H.
  { induction sweeps as [|[[now warn] ok] sweeps IH]; intros r0 H0; simpl; [done|]. apply IH.
    rewrite sweep_rows, H0. simpl. unfold past_retention, swept_row. rewrite Hs, Hs. done. }
  split; [by apply H|]. unfold count_mounts_by_ip. specialize (H r Hrow).
  set (m := filter _ _). assert (m !! code = Some row) as Hm.
  { subst m. apply map_lookup_filter_Some. split; [done|]. simpl. by rewrite Hs. }
  assert (size m ≠ 0%nat); [|lia]. intros E. apply map_size_empty_inv in E.
  by rewrite E, lookup_empty in Hm.
Qed.

(** a restart of the relay keeps exactly the rows within retention, turns
    every row whose TTL has passed EXPIRED and every other ONLINE row OFFLINE,
    and holds no connection. *)
Theorem restart_spec (now : time) (r : Registry) (code : pystr) :
  mounts (restart now r) !! code =
    (mounts r !! code ≫= λ m, if past_retention now m then None else Some (restarted_row now m)) ∧
  _connections (restart now r) = ∅ ∧
  (∀ row, mounts (restart now r) !! code = Some row → m_status row ≠ ONLINE).
Proof.
  split_and!; [apply restart_rows|done|]. intros row. rewrite restart_rows.
  destruct (mounts r !! code) as [m|]; simpl; [|done]. case_match; [done|]. intros [= <-].
  unfold restarted_row. destruct (expires_before now m); [done|]. by case_bool_decide.
Qed.

(** [set_owner_policy] replaces the whole policy of a mount: [get_policy]
    returns the owner, mode and password flag that were set and exactly the
    entries given, the last one for a subject named twice; the policies of the
    other mounts are untouched. *)
Theorem policy_roundtrip (code : pystr) (owner : option Z) (mode : AccessMode) (pw : bool)
    (entries : list PolicyEntry) (r : Registry) :
  is_Some (mounts r !! code) →
  let r' := (set_owner_policy code owner mode pw entries r).1 in
  (∃ p, get_policy code r' = (r', inr p) ∧ mp_owner_user_id p = owner ∧
        mp_access_mode p = mode ∧ mp_has_password p = pw ∧
        ∀ t id role, {| pe_subject_type := t; pe_subject_id := id; pe_role := role |} ∈ mp_entries p
                     ↔ last_role t id entries = Some role) ∧
  ∀ k e, k ≠ code → e ∈ policy_entries k r' ↔ e ∈ policy_entries k r.
Proof.
  intros [row Hrow]. unfold set_owner_policy. rewrite Hrow. simpl. split.
  - eexists. split; [unfold get_policy; simpl; rewrite lookup_alter_eq, Hrow; reflexivity|].
    split_and!; [done..|]. intros t id role. simpl. rewrite elem_policy_entries. simpl.
    rewrite insert_policies_lookup, decide_True by done. unfold last_role.
    rewrite (proj2 (map_lookup_filter_None _ _ _)); [done|]. right. by intros x _ [].
  - intros k [t id role] Hk. rewrite !elem_policy_entries. simpl.
    rewrite insert_policies_lookup, decide_False by done.
    rewrite map_lookup_filter_Some. simpl. naive_solver.
Qed.

(** an access request is created once per user and mount: asking again
    returns the stored request unchanged, whatever its status, and a new one is
    PENDING and found again under its id. *)
Theorem access_request_dedup (now now' : time) (code : pystr) (u : Z) (r : Registry) :
  reg_ok r →
  let '(r', q) := create_access_request now code u r in
  ∃ a, q = Some a ∧ ar_code a = code ∧ ar_user_id a = u ∧
       get_access_request (ar_id a) r' = (r', inr a) ∧
       create_access_request now' code u r' = (r', Some a) ∧
       (request_for code u r = None → ar_status a = PENDING ∧ access_requests r !! ar_id a = None).
Proof.
  intros Hok. pose proof (reg_ok_request now code u r Hok) as Hok'.
  unfold create_access_request in *.
  destruct (request_for code u r) as [a|] eqn:E.
  - exists a. destruct (request_for_Some _ _ _ _ E) as (i & Hi & Hc & Hu).
    destruct (rok_request _ Hok _ _ Hi) as [<- _]. rewrite E.
    split_and!; try done. unfold get_access_request. by rewrite Hi.
  - cbv zeta in *. cbn [fst] in Hok'.
    destruct (request_for code u (set_requests _ _ r)) as [a|] eqn:Ea.
    + destruct (request_for_Some _ _ _ _ Ea) as (i & Hi & Hc & Hu).
      destruct (rok_request _ Hok' _ _ Hi) as [Hid _]. exists a.
      assert (i = requests_seq r + 1) as Hnew.
      { simpl in Hi. apply lookup_insert_Some in Hi as [[<- _]|[_ Hi]]; [done|].
        by destruct (request_for_None _ _ _ E _ _ Hi Hc). }
      subst. simpl in Hi. rewrite Hnew, lookup_insert_eq in Hi. injection Hi as <-.
      split_and!; try done.
      * unfold get_access_request. simpl. by rewrite lookup_insert_eq.
      * intros _. split; [done|]. simpl. destruct (access_requests r !! (requests_seq r + 1)) eqn:F; [|done].
        apply (rok_request _ Hok) in F. lia.
    + exfalso. eapply (request_for_None _ _ _ Ea (requests_seq r + 1));
        [simpl; apply lookup_insert_eq|done|done].
Qed.

(** C36: the SQLite registry against the in-memory one, for all the calls both offer.
    Any sequence of registrations, deregistrations, disconnects and queries gives the same
    results and the same errors, call by call; [active_mounts] lists the same mounts, in
    any order, with the same fields, except that a mount that is OFFLINE comes with its
    old connection from the in-memory registry and without one from the other. *)
Theorem registry_refines (calls : list api_call) :
  Forall2 same_result (results call_mem calls {| _mounts := ∅ |}) (results call_sqlite calls empty_registry).
Proof. apply results_sim. intros code. done. Qed.

(** The difference is seen as soon as an agent is gone. *)
Example active_mounts_differ :
  let calls := [CallRegister (py "abc"%string) 4%nat (py "10.0.0.1"%string) 0 None; CallMarkOffline (py "abc"%string);
                CallActiveMounts] in
  let connections (l : list (RegistryExn + api_result)) :=
    match last l with Some (inr (ResMounts ms)) => mr_connection <$> ms | _ => [] end in
  connections (results call_mem calls {| _mounts := ∅ |}) = [Some 4%nat] ∧
  connections (results call_sqlite calls empty_registry) = [None].
Proof. split; vm_compute; reflexivity. Qed.

(** *** Witnesses *)

(** A mount that expires at 900 s, owned by user 7. *)
Definition demo_registry : Registry :=
  after_regs
    [OpRegister (py "abc"%string) (Some 4%nat) (py "10.0.0.1"%string) 0 (Some (seconds 900));
     OpSetPolicy (py "abc"%string) (Some 7) RESTRICTED false [];
     OpRequest 3 (py "abc"%string) 8]
    empty_registry.

Lemma demo_registry_ok : reg_ok demo_registry.
Proof. apply after_regs_ok, empty_registry_ok. Qed.

Definition demo_row (s : MountStatus) : mount_row :=
  {| m_status := s; m_agent_ip := py "10.0.0.1"%string; m_created_at := 0;
     m_expires_at := Some (seconds 900); m_ttl_warned := false;
     m_owner_user_id := Some 7; m_access_mode := RESTRICTED; m_has_password := false |}.

Lemma mount_lifecycle_witness :
  lifecycle (OpMarkOffline (py "abc"%string)) (py "abc"%string) (demo_row ONLINE) OFFLINE.
Proof.
  apply (mount_lifecycle (OpMarkOffline (py "abc"%string)) (py "abc"%string) demo_registry
           (demo_row ONLINE) (demo_row OFFLINE)); vm_compute; reflexivity.
Defined.

(** The warning goes out at 700 s and not again at 800 s. *)
Lemma sweep_warns_once_witness :
  WarnConn (py "abc"%string) 4%nat 100 ∉
    (sweep_once (seconds 800) (seconds 300) (λ _, true)
       (after_regs [OpMarkOffline (py "abc"%string); OpReclaim (seconds 750) (py "abc"%string) 4%nat (py "10.0.0.1"%string)]
          (sweep_once (seconds 700) (seconds 300) (λ _, true) demo_registry).1)).2.
Proof.
  apply (sweep_warns_once (seconds 700) (seconds 300) (λ _, true) (seconds 800) (seconds 300)
           (λ _, true) demo_registry (py "abc"%string) 4%nat 4%nat 200 100).
  - vm_compute. apply list_elem_of_here.
  - vm_compute. reflexivity.
Defined.

Lemma sweep_skips_offline_witness :
  mounts (sweep_once (seconds 99999) (seconds 300) (λ _, true)
            (mark_offline (py "abc"%string) demo_registry).1).1 !! py "abc"%string = Some (demo_row OFFLINE).
Proof.
  apply (sweep_skips_offline (py "abc"%string) (demo_row OFFLINE) (mark_offline (py "abc"%string) demo_registry).1
           [(seconds 99999, seconds 300, λ _, true)]); vm_compute; reflexivity.
Defined.

Lemma policy_roundtrip_witness :
  ∃ p, (get_policy (py "abc"%string) (set_owner_policy (py "abc"%string) (Some 9) RESTRICTED true
          [{| pe_subject_type := USER; pe_subject_id := 3; pe_role := READ |}] demo_registry).1).2
         = inr p ∧ mp_owner_user_id p = Some 9.
Proof.
  destruct (policy_roundtrip (py "abc"%string) (Some 9) RESTRICTED true
    [{| pe_subject_type := USER; pe_subject_id := 3; pe_role := READ |}] demo_registry)
    as [(p & H1 & H2 & _) _]; [exists (demo_row ONLINE); vm_compute; reflexivity|].
  exists p. split; [by rewrite H1|exact H2].
Defined.

Lemma access_request_dedup_witness :
  ∃ a, (create_access_request 5 (py "abc"%string) 8 demo_registry).2 = Some a ∧ ar_user_id a = 8.
Proof.
  pose proof (access_request_dedup 5 6 (py "abc"%string) 8 demo_registry demo_registry_ok) as H.
  destruct (create_access_request 5 (py "abc"%string) 8 demo_registry) as [r' q].
  destruct H as (a & H1 & _ & H2 & _). exists a. split; [exact H1|exact H2].
Defined.
