(* ===== verification/Session.v ===== *)
(** Signed tokens of the relay, [src/relay/app/services/session.py]: the browser
    session, the agent-owner token and the OIDC state.

    itsdangerous is a parameter, the class [TimedSerializer], with its documented
    behaviour as [TimedSerializerLaws].  A signed value is a JSON value; Python's
    conversions of values that the relay never signs ([int] of a string or a
    float, [str] of anything but a string) are a parameter too. *)

From stdpp Require Import strings.
From S2P Require Import Prelude Json.

(** ** itsdangerous *)

Inductive LoadError := SignatureExpired | BadSignature.

(** [URLSafeTimedSerializer(secret, salt).dumps(v)] at a time, and [loads] of a
    token with a [max_age] in seconds. *)
Class TimedSerializer := {
  ts_dumps : pystr → pystr → time → json → pystr;
  ts_loads : pystr → pystr → time → Z → pystr → LoadError + json
}.

(** Time stamps are whole seconds. *)
Definition token_age (issued now : time) : Z := now / seconds 1 - issued / seconds 1.

Class TimedSerializerLaws (T : TimedSerializer) := {
  ts_not_empty : ∀ key salt t v, ts_dumps key salt t v ≠ [];
  ts_fresh : ∀ key salt t now age v, wf_json v = true →
    0 ≤ token_age t now ≤ age → ts_loads key salt now age (ts_dumps key salt t v) = inr v;
  ts_old : ∀ key salt t now age v, age < token_age t now →
    ts_loads key salt now age (ts_dumps key salt t v) = inl SignatureExpired;
  ts_salt : ∀ key salt salt' t now age v, salt ≠ salt' →
    ts_loads key salt' now age (ts_dumps key salt t v) = inl BadSignature
}.

(** [int(s)], [int(x)] of a float ([None] is a [ValueError]), [str(v)], and the
    truth value of a float and its comparison with an integer; and [str.lower]. *)
Class PyConv := {
  py_lower :: StrLower;
  int_of_str : pystr → option Z;
  int_of_float : pystr → option Z;
  str_of_value : json → pystr;
  float_true : pystr → bool;
  float_eq : pystr → Z → bool
}.

Inductive SessionExn :=
| InvalidSessionError
| SessValueError
| SessAttributeError.

Global Instance SessionExn_eq_dec : EqDecision SessionExn.
Proof. solve_decision. Defined.

(** ** Constants *)

Definition SESSION_COOKIE_NAME : pystr := py "wfs_session".
Definition SESSION_MAX_AGE_SECONDS : Z := 7 * 24 * 3600.
Definition _SESSION_SALT : pystr := py "wfs-relay-session".
Definition _AGENT_SALT : pystr := py "wfs-agent-owner".
Definition _OIDC_STATE_SALT : pystr := py "wfs-oidc-state".
Definition AGENT_TOKEN_MAX_AGE_SECONDS : Z := 120.
Definition OIDC_STATE_MAX_AGE_SECONDS : Z := 600.

Record SessionIdentity := { si_user_id : Z; si_username : pystr }.

(** The three serializers differ in their salts only. *)
Record RelaySession := { rs_secret_key : pystr }.

Definition init_session (secret_key : pystr) : SessionExn + RelaySession :=
  if bool_decide (secret_key = []) then inl SessValueError
  else inr {| rs_secret_key := secret_key |}.

Section session.
Context `{TimedSerializer} `{PyConv}.
Implicit Types self : RelaySession.

(** ** Conversions of payload fields *)

(** [int(v)]; [None] when it raises [TypeError] or [ValueError]. *)
Definition to_int (v : json) : option Z :=
  match v with
  | JInt z => Some z
  | JBool b => Some (if b then 1 else 0)
  | JStr s => int_of_str s
  | JFloat raw => int_of_float raw
  | JNull | JArr _ | JObj _ => None
  end.

(** [str(v)] *)
Definition to_str (v : json) : pystr :=
  match v with JStr s => s | _ => str_of_value v end.

(** [data[key]]; [None] when it raises [KeyError] or [TypeError]. *)
Definition subscript (data : json) (key : pystr) : option json :=
  match data with JObj l => dict_get key l | _ => None end.

Definition or_invalid {A} (x : option A) : SessionExn + A :=
  match x with Some a => inr a | None => inl InvalidSessionError end.

Definition _loads_or_raise (salt : pystr) (self : RelaySession) (now : time) (token : pystr)
    (max_age_seconds : Z) : SessionExn + json :=
  if bool_decide (token = []) then inl InvalidSessionError
  else match ts_loads (rs_secret_key self) salt now max_age_seconds token with
       | inl SignatureExpired => inl InvalidSessionError
       | inl BadSignature => inl InvalidSessionError
       | inr data => inr data
       end.

Definition _to_identity (data : json) : SessionExn + SessionIdentity :=
  or_invalid (v ← subscript data (py "uid"); uid ← to_int v;
              name ← subscript data (py "username");
              Some {| si_user_id := uid; si_username := to_str name |}).

(** ** Browser session *)

Definition issue (self : RelaySession) (now : time) (user_id : Z) (username : pystr)
    : SessionExn + pystr :=
  if bool_decide (username = []) then inl SessValueError
  else inr (ts_dumps (rs_secret_key self) _SESSION_SALT now
              (JObj [(py "uid", JInt user_id); (py "username", JStr username)])).

Definition verify (self : RelaySession) (now : time) (token : pystr) (max_age_seconds : Z)
    : SessionExn + SessionIdentity :=
  _loads_or_raise _SESSION_SALT self now token max_age_seconds ≫= _to_identity.

Definition verify_session_cookie (self : RelaySession) (now : time) (token : pystr)
    : SessionExn + SessionIdentity :=
  verify self now token SESSION_MAX_AGE_SECONDS.

(** ** OIDC state *)

Definition issue_oauth_state (self : RelaySession) (now : time) (next_url csrf : pystr)
    : SessionExn + pystr :=
  if bool_decide (csrf = []) then inl SessValueError
  else inr (ts_dumps (rs_secret_key self) _OIDC_STATE_SALT now
              (JObj [(py "next", JStr next_url); (py "csrf", JStr csrf)])).

Definition verify_oauth_state (self : RelaySession) (now : time) (token : pystr)
    : SessionExn + (pystr * pystr) :=
  data ← _loads_or_raise _OIDC_STATE_SALT self now token OIDC_STATE_MAX_AGE_SECONDS;
  or_invalid (n ← subscript data (py "next"); c ← subscript data (py "csrf");
              Some (to_str n, to_str c)).

(** ** Agent-owner token *)

Definition issue_agent_owner_token (self : RelaySession) (now : time) (user_id : Z) : pystr :=
  ts_dumps (rs_secret_key self) _AGENT_SALT now
    (JObj [(py "uid", JInt user_id); (py "purpose", JStr (py "agent"))]).

(** [data.get("purpose") != "agent"] *)
Definition has_agent_purpose (l : list (pystr * json)) : bool :=
  match dict_get (py "purpose") l with
  | Some (JStr s) => bool_decide (s = py "agent")
  | _ => false
  end.

(** A payload that is not an object has no [get]. *)
Definition verify_agent_owner_token (self : RelaySession) (now : time) (token : pystr)
    : SessionExn + Z :=
  data ← _loads_or_raise _AGENT_SALT self now token AGENT_TOKEN_MAX_AGE_SECONDS;
  match data with
  | JObj l =>
      if has_agent_purpose l then or_invalid (v ← dict_get (py "uid") l; to_int v)
      else inl InvalidSessionError
  | _ => inl SessAttributeError
  end.

(** ** Cookies *)

(** [identity_from_cookies] of [access_policy.py]. *)
Definition identity_from_cookies (now : time) (cookies : list (pystr * pystr))
    (session : option RelaySession) : option SessionIdentity :=
  match dict_get SESSION_COOKIE_NAME cookies with
  | None | Some [] => None
  | Some token =>
      match session with
      | None => None
      | Some s =>
          match verify_session_cookie s now token with
          | inl _ => None
          | inr identity => Some identity
          end
      end
  end.

(** ** Lemmas *)

Context `{!TimedSerializerLaws H}.

Lemma loads_issued (self : RelaySession) (salt salt' : pystr) (t now : time) (age : Z) (v : json) :
  wf_json v = true → 0 ≤ token_age t now →
  _loads_or_raise salt' self now (ts_dumps (rs_secret_key self) salt t v) age
  = if bool_decide (salt = salt' ∧ token_age t now ≤ age) then inr v else inl InvalidSessionError.
Proof.
  intros Hv Ht. unfold _loads_or_raise. rewrite bool_decide_eq_false_2 by apply ts_not_empty.
  destruct (decide (salt = salt')) as [->|Hne].
  - destruct (decide (token_age t now ≤ age)).
    + rewrite ts_fresh, bool_decide_eq_true_2; done.
    + rewrite ts_old, bool_decide_eq_false_2 by lia || naive_solver. done.
  - rewrite ts_salt, bool_decide_eq_false_2 by naive_solver. done.
Qed.

(** The payloads the relay signs are JSON that reads back. *)
Lemma wf_pair (k1 k2 : pystr) (v1 v2 : json) :
  scalars k1 = true → scalars k2 = true → k1 ≠ k2 → wf_json v1 = true → wf_json v2 = true →
  wf_json (JObj [(k1, v1); (k2, v2)]) = true.
Proof.
  intros H1 H2 Hne Hv1 Hv2. cbn [wf_json forallb fmap list_fmap fst].
  rewrite H1, H2, Hv1, Hv2. simpl. apply bool_decide_eq_true_2.
  repeat constructor; set_solver.
Qed.

(** ** Properties *)

(** C40: tokens are accepted exactly for their purpose and their time: a session
    token gives back the signed-in user during one week, an agent-owner token
    its user during two minutes, an OIDC state its URL and nonce during ten
    minutes; afterwards, and for any other purpose, each is refused with
    [InvalidSessionError]. *)
Theorem token_purposes (self : RelaySession) (t now : time) (uid : Z) (name next csrf : pystr)
    (session state : pystr) :
  wf_json (JInt uid) = true → scalars name = true → scalars next = true → scalars csrf = true →
  0 ≤ token_age t now →
  issue self t uid name = inr session → issue_oauth_state self t next csrf = inr state →
  let agent := issue_agent_owner_token self t uid in
  verify_session_cookie self now session
    = (if bool_decide (token_age t now ≤ 7 * 86400)
       then inr {| si_user_id := uid; si_username := name |} else inl InvalidSessionError) ∧
  verify_agent_owner_token self now agent
    = (if bool_decide (token_age t now ≤ 120) then inr uid else inl InvalidSessionError) ∧
  verify_oauth_state self now state
    = (if bool_decide (token_age t now ≤ 600) then inr (next, csrf) else inl InvalidSessionError) ∧
  (∀ tok, tok ∈ [agent; state] → verify_session_cookie self now tok = inl InvalidSessionError) ∧
  (∀ tok, tok ∈ [session; state] → verify_agent_owner_token self now tok = inl InvalidSessionError) ∧
  (∀ tok, tok ∈ [session; agent] → verify_oauth_state self now tok = inl InvalidSessionError).
Proof.
  intros Hu Hn Hx Hc Ht Hs Ho. cbv zeta.
  pose proof (wf_pair (py "uid") (py "username") (JInt uid) (JStr name) eq_refl eq_refl
                ltac:(done) Hu Hn) as Hw1.
  pose proof (wf_pair (py "next") (py "csrf") (JStr next) (JStr csrf) eq_refl eq_refl
                ltac:(done) Hx Hc) as Hw2.
  pose proof (wf_pair (py "uid") (py "purpose") (JInt uid) (JStr (py "agent")) eq_refl eq_refl
                ltac:(done) Hu eq_refl) as Hw3.
  unfold issue, issue_oauth_state in *.
  destruct (bool_decide (name = [])), (bool_decide (csrf = [])); simplify_eq.
  unfold verify_session_cookie, verify_agent_owner_token, verify_oauth_state, verify,
    issue_agent_owner_token, SESSION_MAX_AGE_SECONDS, AGENT_TOKEN_MAX_AGE_SECONDS,
    OIDC_STATE_MAX_AGE_SECONDS.
  assert (_SESSION_SALT ≠ _AGENT_SALT ∧ _SESSION_SALT ≠ _OIDC_STATE_SALT ∧
          _AGENT_SALT ≠ _OIDC_STATE_SALT) as (N1 & N2 & N3) by done.
  split_and!; intros;
    repeat match goal with H : _ ∈ _ :: _ |- _ => apply elem_of_cons in H as [->|H] end;
    try (by exfalso; eapply not_elem_of_nil);
    rewrite loads_issued by done; repeat case_bool_decide; try done; naive_solver lia.
Qed.

End session.

(** *** Witness *)

(** A serializer without any secrecy: the token is the key, the salt and the
    time stamp in front of the JSON text. *)
Definition plain_prefix (key salt : pystr) : pystr :=
  Z.of_nat (length key) :: key ++ Z.of_nat (length salt) :: salt.

Definition plain_loads (key salt : pystr) (now : time) (age : Z) (token : pystr) : LoadError + json :=
  if startswith token (plain_prefix key salt) then
    match drop (length (plain_prefix key salt)) token with
    | t :: body =>
        if age <? token_age t now then inl SignatureExpired
        else match loads body with inr v => inr v | inl _ => inl BadSignature end
    | [] => inl BadSignature
    end
  else inl BadSignature.

Definition plain_serializer : TimedSerializer :=
  {| ts_dumps key salt t v := plain_prefix key salt ++ t :: dumps v; ts_loads := plain_loads |}.

Lemma plain_prefix_other key salt salt' rest :
  salt ≠ salt' → startswith (plain_prefix key salt ++ rest) (plain_prefix key salt') = false.
Proof.
  intros Hne. apply not_true_iff_false. intros [k Hk]%startswith_spec. apply Hne.
  unfold plain_prefix in Hk. simpl in Hk. rewrite <-!(assoc_L (++)) in Hk. simpl in Hk.
  injection Hk as Hk. apply app_inv_head in Hk. injection Hk as Hl Hk.
  apply app_inj_1 in Hk as [? _]; [done|lia].
Qed.

Lemma plain_laws : TimedSerializerLaws plain_serializer.
Proof.
  split; intros; cbn [ts_dumps ts_loads plain_serializer]; unfold plain_loads; [done|..].
  - rewrite startswith_app, drop_app_length. destruct (Z.ltb_spec age (token_age t now)); [lia|].
    by rewrite loads_dumps.
  - rewrite startswith_app, drop_app_length. destruct (Z.ltb_spec age (token_age t now)); [done|lia].
  - by rewrite plain_prefix_other.
Qed.

Definition no_conv : PyConv :=
  {| py_lower := cyrillic_lower; int_of_str _ := None; int_of_float _ := None; str_of_value _ := [];
     float_true _ := true; float_eq _ _ := false |}.

(** A session token an hour later. *)
Lemma token_purposes_witness :
  let self := {| rs_secret_key := py "k" |} in
  let session := ts_dumps (TimedSerializer := plain_serializer) (py "k") _SESSION_SALT 0
                   (JObj [(py "uid", JInt 7); (py "username", JStr (py "ann"))]) in
  verify_session_cookie (H := plain_serializer) (H0 := no_conv) self (seconds 3600) session
    = inr {| si_user_id := 7; si_username := py "ann" |} ∧
  verify_agent_owner_token (H := plain_serializer) (H0 := no_conv) self (seconds 3600) session
    = inl InvalidSessionError.
Proof.
  cbv zeta.
  destruct (token_purposes (H := plain_serializer) (H0 := no_conv) (TimedSerializerLaws0 := plain_laws)
      {| rs_secret_key := py "k" |} 0 (seconds 3600) 7 (py "ann") (py "/") (py "c")
      (ts_dumps (TimedSerializer := plain_serializer) (py "k") _SESSION_SALT 0
         (JObj [(py "uid", JInt 7); (py "username", JStr (py "ann"))]))
      (ts_dumps (TimedSerializer := plain_serializer) (py "k") _OIDC_STATE_SALT 0
         (JObj [(py "next", JStr (py "/")); (py "csrf", JStr (py "c"))])))
    as (H1 & _ & _ & _ & H2 & _); try (vm_compute; congruence).
  split; [exact H1|apply H2, list_elem_of_here].
Defined.
