(* ===== verification/Access.v ===== *)
(** The access decision of the relay, [src/relay/app/services/access_policy.py]:
    who may reach a mount, and with which role.

    The account store is an interface, as in [src/accounts/store.py]: the class
    [AccountStore] has the methods the relay calls here and in the agent
    endpoint, [AccountStoreSpec] what it promises, and the decision is verified
    against that promise; the SQLite store discharges it. *)

From stdpp Require Import strings.
From S2P Require Import Prelude Accounts AccountsProps Registry RegistryProps Session.

(** ** The account store as the relay sees it *)

Class AccountStore (S : Type) := {
  store_get_user_by_id : Z → M S AccountExn User;
  store_get_user_by_username : pystr → M S AccountExn User;
  store_get_group_by_name : pystr → M S AccountExn Group;
  resolve_user_group_ids : Z → M S AccountExn (gset Z)
}.

Class AccountStoreSpec (S : Type) `{AccountStore S} := {
  store_ok : S → Prop;
  store_user : S → Z → bool;
  store_in_group : S → Z → Z → Prop;
  store_resolve_known : ∀ s u, store_ok s → store_user s u = true →
    ∃ gs, resolve_user_group_ids u s = (s, inr gs) ∧ ∀ g, g ∈ gs ↔ store_in_group s u g;
  store_resolve_unknown : ∀ s u, store_ok s → store_user s u = false →
    resolve_user_group_ids u s = (s, inl UserNotFoundError)
}.

(** [SqliteAccountStore] *)
Global Instance sqlite_store : AccountStore AccountDb := {
  store_get_user_by_id := get_user_by_id;
  store_get_user_by_username := get_user_by_username;
  store_get_group_by_name := get_group_by_name;
  resolve_user_group_ids := resolve_user_groups
}.

(** ** Decisions *)

Record AccessDecision := {
  identified : bool;
  ad_username : option pystr;
  ad_role : option Role
}.

Inductive AccessExn :=
| AuthenticationRequiredError (code : pystr)
| AccessDeniedError (code username : pystr)
| StoreError (e : AccountExn).

Definition _ROLE_RANK (r : Role) : Z :=
  match r with READ => 1 | RECEIVE => 2 | WRITE => 3 end.

(** [max(roles, key=...)] keeps the first of the largest. *)
Definition _highest_role (r : Role) (roles : list Role) : Role :=
  fold_left (λ best r, if _ROLE_RANK best <? _ROLE_RANK r then r else best) roles r.

(** The conditions of the loop over the allowlist. *)
Definition entry_matches (u : Z) (group_ids : gset Z) (e : PolicyEntry) : bool :=
  match pe_subject_type e with
  | USER => bool_decide (pe_subject_id e = u)
  | GROUP => bool_decide (pe_subject_id e ∈ group_ids)
  end.

Section access.
Context {S : Type} `{AccountStore S}.

Definition _matched_role (policy : MountPolicy) (identity : SessionIdentity) (store : option S)
    : AccessExn + option Role :=
  match store with
  | None => inr None
  | Some s =>
      match (resolve_user_group_ids (si_user_id identity) s).2 with
      | inl UserNotFoundError => inr None
      | inl e => inl (StoreError e)
      | inr group_ids =>
          match pe_role <$> filter (λ e, entry_matches (si_user_id identity) group_ids e = true)
                              (mp_entries policy) with
          | [] => inr None
          | r :: rs => inr (Some (_highest_role r rs))
          end
      end
  end.

(** The part of [authorize] after the allowlist found nobody. *)
Definition not_allowlisted (policy : MountPolicy) (code : pystr) (identity : option SessionIdentity)
    : AccessExn + AccessDecision :=
  match mp_access_mode policy with
  | LEGACY | OPEN_MODE =>
      inr {| identified := false; ad_username := si_username <$> identity; ad_role := None |}
  | RESTRICTED =>
      if mp_has_password policy
      then inr {| identified := false; ad_username := None; ad_role := None |}
      else match identity with
           | None => inl (AuthenticationRequiredError code)
           | Some i => inl (AccessDeniedError code (si_username i))
           end
  end.

Definition authorize (registry : Registry) (account_store : option S) (code : pystr)
    (identity : option SessionIdentity) : AccessExn + AccessDecision :=
  match (get_policy code registry).2 with
  | inl _ => inr {| identified := false; ad_username := None; ad_role := None |}
  | inr policy =>
      match identity with
      | None => not_allowlisted policy code None
      | Some i =>
          role ← _matched_role policy i account_store;
          match role with
          | Some r => inr {| identified := true; ad_username := Some (si_username i);
                             ad_role := Some r |}
          | None => not_allowlisted policy code (Some i)
          end
      end
  end.

(** ** The access rules *)

Context `{!AccountStoreSpec S}.

(** The allowlist gives the user [u] the role [r], directly or by a group. *)
Definition grants (account_store : option S) (policy : MountPolicy) (u : Z) (r : Role) : Prop :=
  ∃ s e, account_store = Some s ∧ store_user s u = true ∧ e ∈ mp_entries policy ∧ pe_role e = r ∧
    match pe_subject_type e with
    | USER => pe_subject_id e = u
    | GROUP => store_in_group s u (pe_subject_id e)
    end.

Definition grants_nothing (st : option S) (p : MountPolicy) (who : option SessionIdentity) : Prop :=
  ∀ i r, who = Some i → ¬ grants st p (si_user_id i) r.

Definition passthrough (name : option pystr) : AccessDecision :=
  {| identified := false; ad_username := name; ad_role := None |}.

(** The documented model: an allowlisted user passes with the highest role
    granted; anybody else passes an open (or legacy) mount, and a restricted
    one that has a password; otherwise the visitor must log in or is refused.
    A code without a mount passes. *)
Inductive access (st : option S) (code : pystr) (who : option SessionIdentity)
    : option MountPolicy → AccessExn + AccessDecision → Prop :=
| access_no_mount : access st code who None (inr (passthrough None))
| access_allowlisted p i r :
    who = Some i → grants st p (si_user_id i) r →
    (∀ r', grants st p (si_user_id i) r' → _ROLE_RANK r' ≤ _ROLE_RANK r) →
    access st code who (Some p)
      (inr {| identified := true; ad_username := Some (si_username i); ad_role := Some r |})
| access_open p :
    grants_nothing st p who → mp_access_mode p ≠ RESTRICTED →
    access st code who (Some p) (inr (passthrough (si_username <$> who)))
| access_password p :
    grants_nothing st p who → mp_access_mode p = RESTRICTED → mp_has_password p = true →
    access st code who (Some p) (inr (passthrough None))
| access_login p :
    who = None → mp_access_mode p = RESTRICTED → mp_has_password p = false →
    access st code who (Some p) (inl (AuthenticationRequiredError code))
| access_refused p i :
    who = Some i → grants_nothing st p who →
    mp_access_mode p = RESTRICTED → mp_has_password p = false →
    access st code who (Some p) (inl (AccessDeniedError code (si_username i))).

Definition policy_of (code : pystr) (r : Registry) : option MountPolicy :=
  match (get_policy code r).2 with inr p => Some p | inl _ => None end.

(** ** Lemmas *)

Lemma role_rank_inj r r' : _ROLE_RANK r = _ROLE_RANK r' → r = r'.
Proof. by destruct r, r'. Qed.

Lemma highest_role_spec r rs :
  _highest_role r rs ∈ r :: rs ∧ ∀ r', r' ∈ r :: rs → _ROLE_RANK r' ≤ _ROLE_RANK (_highest_role r rs).
Proof.
  unfold _highest_role. revert r. induction rs as [|x rs IH]; intros r; simpl.
  - split; [apply list_elem_of_here|]. intros r' Hr. assert (r' = r) as -> by set_solver. lia.
  - destruct (Z.ltb_spec (_ROLE_RANK r) (_ROLE_RANK x)) as [Hlt|Hge].
    + destruct (IH x) as [H1 H2]. split; [by apply list_elem_of_further|].
      intros r' [->|H']%elem_of_cons; [|by apply H2].
      specialize (H2 x (list_elem_of_here _ _)). lia.
    + destruct (IH r) as [H1 H2]. split; [set_solver|].
      pose proof (H2 r (list_elem_of_here _ _)).
      intros r' [->|[->|H']%elem_of_cons]%elem_of_cons; [done|lia|].
      apply H2. by apply list_elem_of_further.
Qed.

Lemma matched_role_spec policy i st :
  (∀ s, st = Some s → store_ok s) →
  ∃ o, _matched_role policy i st = inr o ∧
    match o with
    | None => ∀ r, ¬ grants st policy (si_user_id i) r
    | Some r => grants st policy (si_user_id i) r ∧
                ∀ r', grants st policy (si_user_id i) r' → _ROLE_RANK r' ≤ _ROLE_RANK r
    end.
Proof.
  intros Hok. unfold _matched_role. destruct st as [s|].
  2:{ eexists. split; [done|]. by intros r (? & ? & ? & _). }
  specialize (Hok s eq_refl). destruct (store_user s (si_user_id i)) eqn:Eu.
  2:{ rewrite store_resolve_unknown by done. eexists. split; [done|].
      intros r (s' & e & [= <-] & ? & _). congruence. }
  destruct (store_resolve_known s (si_user_id i) Hok Eu) as (gs & -> & Hgs). simpl.
  assert (Hin : ∀ r, r ∈ pe_role <$> filter (λ e, entry_matches (si_user_id i) gs e = true)
                           (mp_entries policy) ↔ grants (Some s) policy (si_user_id i) r).
  { intros r. rewrite list_elem_of_fmap. unfold grants, entry_matches. split.
    - intros (e & -> & [Hm He]%list_elem_of_filter). exists s, e. split_and!; try done.
      destruct (pe_subject_type e); apply bool_decide_eq_true in Hm; [done|by apply Hgs].
    - intros (s' & e & ? & _ & He & <- & Hm). simplify_eq. exists e. split; [done|].
      apply list_elem_of_filter. split; [|done].
      destruct (pe_subject_type e); apply bool_decide_eq_true; [done|by apply Hgs]. }
  destruct (pe_role <$> _) as [|r rs].
  - eexists. split; [done|]. intros r Hr%Hin. by apply elem_of_nil in Hr.
  - eexists. split; [done|]. destruct (highest_role_spec r rs) as [H1 H2].
    split; [by apply Hin|]. intros r' Hr%Hin. by apply H2.
Qed.

Lemma not_allowlisted_sound st p code who :
  grants_nothing st p who → access st code who (Some p) (not_allowlisted p code who).
Proof.
  intros Hn. unfold not_allowlisted. destruct (mp_access_mode p) eqn:Em.
  1,3: apply access_open; [done|congruence].
  destruct (mp_has_password p) eqn:Ep; [by apply access_password|].
  destruct who; [by apply access_refused|by apply access_login].
Qed.

Lemma authorize_sound registry st code who :
  (∀ s, st = Some s → store_ok s) →
  access st code who (policy_of code registry) (authorize registry st code who).
Proof.
  intros Hok. unfold authorize, policy_of.
  destruct ((get_policy code registry).2) as [e|p]; [constructor|].
  destruct who as [i|]; [|by apply not_allowlisted_sound].
  destruct (matched_role_spec p i st Hok) as ([r|] & -> & Hr); cbn [mbind sum_bind].
  - destruct Hr. by eapply access_allowlisted.
  - apply not_allowlisted_sound. intros ? r [= <-]. apply Hr.
Qed.

Lemma access_functional st code who p o1 o2 :
  access st code who p o1 → access st code who p o2 → o1 = o2.
Proof.
  intros H1 H2. inv H1; inv H2; simplify_eq; try done; try congruence;
    try by exfalso; match goal with
      | H : grants_nothing _ _ _, G : grants _ _ _ _ |- _ => by eapply H
      end.
  do 3 f_equal. apply role_rank_inj.
  match goal with |- _ ?a = _ ?b => assert (_ROLE_RANK a ≤ _ROLE_RANK b) by eauto;
    assert (_ROLE_RANK b ≤ _ROLE_RANK a) by eauto end. lia.
Qed.

(** ** Properties *)

(** C2: [authorize] implements the access rules: on an account store that keeps
    its promise it never fails with a store error, its outcome is one the rules
    allow, and the rules allow no other. *)
Theorem authorize_spec (registry : Registry) (st : option S) (code : pystr)
    (who : option SessionIdentity) (o : AccessExn + AccessDecision) :
  (∀ s, st = Some s → store_ok s) →
  access st code who (policy_of code registry) o ↔ authorize registry st code who = o.
Proof.
  intros Hok. pose proof (authorize_sound registry st code who Hok) as Hs. split.
  - intros Ha. by eapply access_functional.
  - by intros <-.
Qed.

End access.

(** ** The SQLite store keeps the promise *)

Lemma resolve_known (db : AccountDb) (u : Z) :
  db_ok db → bool_decide (is_Some (users db !! u)) = true →
  ∃ gs, resolve_user_groups u db = (db, inr gs) ∧ ∀ g, g ∈ gs ↔ belongs db u g.
Proof.
  intros Hok [x Hx]%bool_decide_eq_true.
  unfold resolve_user_groups, mbind, M_bind, get_user_by_id, get, lift_res. rewrite Hx.
  destruct (resolve_walk_spec db u (ok_acyclic db Hok)) as (acc & -> & H). eauto.
Qed.

Lemma resolve_unknown (db : AccountDb) (u : Z) :
  db_ok db → bool_decide (is_Some (users db !! u)) = false →
  resolve_user_groups u db = (db, inl UserNotFoundError).
Proof.
  intros Hok Hx%bool_decide_eq_false. apply eq_None_not_Some in Hx.
  unfold resolve_user_groups, mbind, M_bind, get_user_by_id. by rewrite Hx.
Qed.

Global Instance sqlite_store_spec : AccountStoreSpec AccountDb := {
  store_ok := db_ok;
  store_user db u := bool_decide (is_Some (users db !! u));
  store_in_group := belongs;
  store_resolve_known := resolve_known;
  store_resolve_unknown := resolve_unknown
}.

(** *** Witness *)

(** A restricted mount whose allowlist lets the outer group write; user 1 is in
    the inner group and passes with that role. *)
Definition demo_policy_registry : Registry :=
  after_regs
    [OpRegister (py "abc"%string) (Some 4%nat) (py "10.0.0.1"%string) 0 None;
     OpSetPolicy (py "abc"%string) None RESTRICTED false
       [{| pe_subject_type := USER; pe_subject_id := 1; pe_role := READ |};
        {| pe_subject_type := GROUP; pe_subject_id := 1; pe_role := WRITE |}]]
    empty_registry.

Lemma authorize_spec_witness :
  access (Some demo_db) (py "abc"%string)
    (Some {| si_user_id := 1; si_username := py "ann"%string |})
    (policy_of (py "abc"%string) demo_policy_registry)
    (inr {| identified := true; ad_username := Some (py "ann"%string); ad_role := Some WRITE |}).
Proof.
  apply authorize_spec; [|vm_compute; reflexivity].
  intros s [= <-]. exact demo_db_ok.
Defined.
