(* ===== verification/Identity.v ===== *)
(** Identity across the tunnel: the signature of [src/shared/identity_sig.py],
    the headers the relay forwards and injects ([mount_proxy.py]), what the
    server believes of them ([relay_identity.py]), and the guards that act on it
    ([mode_guard.py], [auth_middleware.py]).

    HMAC-SHA256 is a parameter, the class [Hmac]: nothing is assumed of it but
    that its hexadecimal digest is not empty and is ASCII. *)

From stdpp Require Import strings.
From S2P Require Import Prelude Utf8 Json Accounts.

(** [hmac.new(key, msg, sha256).hexdigest()] *)
Class Hmac := {
  hmac_hexdigest : bytes → bytes → pystr;
  hmac_not_empty : ∀ k m, hmac_hexdigest k m ≠ [];
  hmac_ascii : ∀ k m, forallb is_ascii (hmac_hexdigest k m) = true
}.

Inductive IdentityExn :=
| IdValueError
| IdUnicodeError
| IdTypeError.

(** A mapping of header names to values, in order. *)
Abbreviation header_map := (list (pystr * pystr)) (only parsing).

Definition IDENTITY_SIG_HEADER : pystr := py "x-wfs-identity-sig".
Definition HEADER_USER : pystr := py "x-wfs-user".
Definition HEADER_ROLE : pystr := py "x-wfs-role".
Definition HEADER_AUTH_BYPASS : pystr := py "x-wfs-auth-bypass".
Definition WFS_PREFIX : pystr := py "x-wfs-".

(** [Role.value] and [Role(value)] *)
Definition role_value (r : Role) : pystr :=
  match r with READ => py "read" | WRITE => py "write" | RECEIVE => py "receive" end.

Definition role_of_value (v : pystr) : option Role :=
  if bool_decide (v = py "read") then Some READ
  else if bool_decide (v = py "write") then Some WRITE
  else if bool_decide (v = py "receive") then Some RECEIVE
  else None.

(** ** Signatures *)

(** The text whose UTF-8 encoding is signed. *)
Definition canonical_text (user role : pystr) (bypass : bool) : pystr :=
  user ++ newline :: role ++ newline :: [if bypass then 49 else 48].

Definition _canonical (user role : pystr) (bypass : bool) : IdentityExn + bytes :=
  match utf8_encode (canonical_text user role bypass) with
  | None => inl IdUnicodeError
  | Some bs => inr bs
  end.

Section identity.
Context `{Hmac}.

Definition sign_identity (secret user role : pystr) (bypass : bool) : IdentityExn + pystr :=
  if bool_decide (secret = []) then inl IdValueError
  else match utf8_encode secret with
       | None => inl IdUnicodeError
       | Some key => msg ← _canonical user role bypass; inr (hmac_hexdigest key msg)
       end.

(** [hmac.compare_digest] of two strings raises unless both are ASCII. *)
Definition compare_digest (a b : pystr) : IdentityExn + bool :=
  if forallb is_ascii a && forallb is_ascii b then inr (bool_decide (a = b)) else inl IdTypeError.

Definition verify_identity (secret user role : pystr) (bypass : bool) (signature : pystr)
    : IdentityExn + bool :=
  if bool_decide (secret = []) then inl IdValueError
  else if bool_decide (signature = []) then inr false
  else expected ← sign_identity secret user role bypass; compare_digest expected signature.

(** ** The relay: headers for the agent *)

Definition HOP_BY_HOP : list pystr :=
  [py "connection"; py "keep-alive"; py "te"; py "trailers"; py "transfer-encoding";
   py "upgrade"; py "proxy-authenticate"; py "proxy-authorization"].

(** The [continue] of the loop over the request's headers. *)
Definition dropped (name : pystr) : bool :=
  let lname := lower name in
  bool_decide (lname ∈ HOP_BY_HOP) || bool_decide (lname = py "host") || startswith lname WFS_PREFIX.

Definition copy_headers (items : header_map) : header_map :=
  fold_left (λ h '(k, v), if dropped k then h else dict_set k v h) items [].

Definition _inject_identity (headers : header_map) (username role : pystr) (secret : option pystr)
    : IdentityExn + header_map :=
  let h := dict_set HEADER_AUTH_BYPASS (py "1")
             (dict_set HEADER_ROLE role (dict_set HEADER_USER username headers)) in
  match secret with
  | None => inr h
  | Some s => sig ← sign_identity s username role true; inr (dict_set IDENTITY_SIG_HEADER sig h)
  end.

(** The forwarded headers of [proxy_request] and of [proxy_websocket]; [who] is
    the user and role of an identified decision. *)
Definition forward_headers (items : header_map) (who : option (pystr * Role))
    (secret : option pystr) : IdentityExn + header_map :=
  let h := dict_set (py "host") (default [] (dict_get (py "host") items)) (copy_headers items) in
  match who with
  | None => inr h
  | Some (username, role) => _inject_identity h username (role_value role) secret
  end.

(** The headers given to an in-process mount. *)
Definition local_headers (items : header_map) : header_map :=
  fold_left (λ h '(k, v), if startswith (lower k) WFS_PREFIX then h else dict_set k v h) items [].

(** ** The server: which identity is believed *)

Record ServerConfig := {
  cfg_password_hash : option bytes;
  cfg_read_only : bool;
  cfg_receive : bool;
  cfg_mount_code : option pystr;
  cfg_identity_secret : option pystr
}.

Definition is_relay_served (config : ServerConfig) : bool :=
  match cfg_mount_code config with Some _ => true | None => false end.

Definition _verified_identity (config : ServerConfig) (headers : header_map)
    : IdentityExn + option (pystr * pystr * bool) :=
  if negb (is_relay_served config) then inr None
  else match cfg_identity_secret config with
  | None => inr None
  | Some secret =>
      match dict_get HEADER_USER headers, dict_get HEADER_ROLE headers,
            dict_get IDENTITY_SIG_HEADER headers with
      | Some user, Some role, Some signature =>
          let bypass := bool_decide (dict_get HEADER_AUTH_BYPASS headers = Some (py "1")) in
          ok ← verify_identity secret user role bypass signature;
          inr (if ok : bool then Some (user, role, bypass) else None)
      | _, _, _ => inr None
      end
  end.

Definition trusted_role (config : ServerConfig) (headers : header_map) : IdentityExn + option Role :=
  v ← _verified_identity config headers;
  inr (match v with Some (_, role, _) => role_of_value role | None => None end).

Definition trusted_user (config : ServerConfig) (headers : header_map) : IdentityExn + option pystr :=
  v ← _verified_identity config headers;
  inr (match v with Some (user, _, _) => Some user | None => None end).

Definition is_auth_bypassed (config : ServerConfig) (headers : header_map) : IdentityExn + bool :=
  v ← _verified_identity config headers;
  inr (match v with Some (_, _, bypass) => bypass | None => false end).

(** ** The guards *)

Inductive GuardExn :=
| ReadOnlyError
| GuardAccessDenied
| GuardIdentity (e : IdentityExn).

(** A call that may raise an [IdentityExn], inside a guard. *)
Definition in_guard {A} (r : IdentityExn + A) : GuardExn + A :=
  match r with inl e => inl (GuardIdentity e) | inr a => inr a end.

Definition require_write_access (config : ServerConfig) (headers : header_map) : GuardExn + unit :=
  role ← in_guard (trusted_role config headers);
  match role with
  | Some READ => inl ReadOnlyError
  | Some _ => inr tt
  | None => if cfg_read_only config then inl ReadOnlyError else inr tt
  end.

Definition require_full_access (config : ServerConfig) (headers : header_map) : GuardExn + unit :=
  role ← in_guard (trusted_role config headers);
  match role with
  | Some RECEIVE => inl GuardAccessDenied
  | Some _ => inr tt
  | None => if cfg_receive config then inl GuardAccessDenied else inr tt
  end.

Definition require_browse_access (config : ServerConfig) (headers : header_map) : GuardExn + unit :=
  role ← in_guard (trusted_role config headers);
  match role with
  | Some _ => inr tt
  | None => if cfg_receive config then inl GuardAccessDenied else inr tt
  end.

Definition receive_scope_user (config : ServerConfig) (headers : header_map)
    : IdentityExn + option pystr :=
  role ← trusted_role config headers;
  match role with
  | Some RECEIVE => trusted_user config headers
  | _ => inr None
  end.

(** ** The password gate *)

Definition GUARDED_PREFIX : pystr := py "/api/".
Definition EXEMPT_API_PREFIXES : list pystr :=
  [py "/api/auth/login"; py "/api/auth/logout"; py "/api/server-info"].

Inductive gate := PassThrough | Unauthorized401.

(** [str_headers]: lower-case names, the last value of a repeated name. *)
Definition lower_dict (items : header_map) : header_map :=
  fold_left (λ h '(k, v), dict_set (lower k) v h) items [].

(** [AuthMiddleware.__call__] for an HTTP request.  [session_cookie] is the
    value of the cookie [session] that [http.cookies] reads in a cookie header,
    [validate_token] the check of [AuthTokenService]. *)
Definition auth_middleware (session_cookie : pystr → option pystr) (validate_token : pystr → bool)
    (config : ServerConfig) (path : pystr) (items : header_map) : IdentityExn + gate :=
  if negb (startswith path GUARDED_PREFIX) then inr PassThrough
  else if existsb (startswith path) EXEMPT_API_PREFIXES then inr PassThrough
  else
    bypassed ← is_auth_bypassed config (lower_dict items);
    if bypassed : bool then inr PassThrough
    else
      let cookie_header := default [] (dict_get (py "cookie") (reverse items)) in
      match (if bool_decide (cookie_header = []) then None else session_cookie cookie_header) with
      | Some token => inr (if validate_token token then PassThrough else Unauthorized401)
      | None => inr Unauthorized401
      end.

End identity.
