(* ===== verification/IdentityProps.v ===== *)
(** The identity a server acts on is the one the relay decided, whatever headers
    the client sends; an accepted signature that was made for something else is
    an HMAC collision. *)

From stdpp Require Import strings.
From S2P Require Import Prelude Utf8 Json Metadata Accounts Identity.

(** ** The X-WFS headers of a header list *)

Definition is_wfs (name : pystr) : bool := startswith (lower name) WFS_PREFIX.

Definition wfs_items (h : list (pystr * pystr)) : list (pystr * pystr) :=
  filter (λ kv, is_wfs kv.1 = true) h.

(** What httpx and ASGI do with the headers of the tunnel: the request that
    reaches the server carries the forwarded headers under lower-case names, in
    order, and whatever they add has another name. *)
Definition delivers (forwarded items : list (pystr * pystr)) : Prop :=
  wfs_items items = (λ kv, (lower kv.1, kv.2)) <$> wfs_items forwarded.




Lemma wfs_items_cons k v h :
  wfs_items ((k, v) :: h) = if is_wfs k then (k, v) :: wfs_items h else wfs_items h.
Proof. unfold wfs_items. rewrite filter_cons. simpl. by destruct (is_wfs k). Qed.

Lemma wfs_items_set k v h :
  wfs_items (dict_set k v h) = if is_wfs k then dict_set k v (wfs_items h) else wfs_items h.
Proof.
  induction h as [|[k' v'] h IH]; simpl.
  - rewrite wfs_items_cons. by destruct (is_wfs k).
  - destruct (decide (k = k')) as [->|Hne]; rewrite !wfs_items_cons, ?IH.
    + destruct (is_wfs k'); simpl; [by rewrite decide_True|done].
    + destruct (is_wfs k'), (is_wfs k); simpl; try done. by rewrite decide_False.
Qed.

Lemma dict_get_wfs k h : is_wfs k = true → dict_get k h = dict_get k (wfs_items h).
Proof.
  intros Hk. induction h as [|[k' v'] h IH]; [done|]. rewrite wfs_items_cons. simpl.
  destruct (decide (k = k')) as [<-|Hne].
  - rewrite Hk. simpl. by rewrite decide_True.
  - destruct (is_wfs k'); simpl; [by rewrite decide_False|done].
Qed.

Lemma fold_wfs (f : list (pystr * pystr) → pystr * pystr → list (pystr * pystr)) items h :
  (∀ h kv, wfs_items (f h kv) = wfs_items h) →
  wfs_items (fold_left f items h) = wfs_items h.
Proof.
  intros Hf. revert h. induction items as [|kv items IH]; intros h; simpl; [done|].
  by rewrite IH, Hf.
Qed.

Lemma copy_headers_wfs items : wfs_items (copy_headers items) = [].
Proof.
  unfold copy_headers. rewrite fold_wfs; [done|]. intros h [k v].
  destruct (dropped k) eqn:Hd; [done|]. rewrite wfs_items_set.
  unfold dropped, is_wfs in *. apply orb_false_iff in Hd as [_ ->]. done.
Qed.

Lemma local_headers_wfs items : wfs_items (local_headers items) = [].
Proof.
  unfold local_headers. rewrite fold_wfs; [done|]. intros h [k v].
  destruct (startswith (lower k) WFS_PREFIX) eqn:Hd; [done|].
  rewrite wfs_items_set. unfold is_wfs. by rewrite Hd.
Qed.


Section identity.
Context `{Hmac}.

(** The X-WFS headers of a forwarded request. *)
Definition identity_items (u : pystr) (r : Role) : list (pystr * pystr) :=
  [(HEADER_USER, u); (HEADER_ROLE, role_value r); (HEADER_AUTH_BYPASS, py "1")].

Lemma forward_headers_wfs items who secret fwd :
  forward_headers items who secret = inr fwd →
  match who, secret with
  | None, _ => wfs_items fwd = []
  | Some (u, r), None => wfs_items fwd = identity_items u r
  | Some (u, r), Some s =>
      ∃ sig, sign_identity s u (role_value r) true = inr sig ∧
             wfs_items fwd = identity_items u r ++ [(IDENTITY_SIG_HEADER, sig)]
  end.
Proof.
  unfold forward_headers. set (h := dict_set (py "host") _ _).
  assert (wfs_items h = []) as Hh.
  { unfold h. rewrite wfs_items_set. apply copy_headers_wfs. }
  destruct who as [[u r]|]; [|by intros [= <-]]. unfold _inject_identity.
  set (h' := dict_set HEADER_AUTH_BYPASS _ _).
  assert (wfs_items h' = identity_items u r) as Hh'.
  { unfold h'. rewrite !wfs_items_set, Hh. reflexivity. }
  destruct secret as [s|]; [|by intros [= <-]].
  destruct (sign_identity s u (role_value r) true) as [e|sig] eqn:Es; [done|].
  intros [= <-]. exists sig. split; [done|]. rewrite wfs_items_set, Hh'. reflexivity.
Qed.

Lemma verify_signed s u role b sig :
  sign_identity s u role b = inr sig → verify_identity s u role b sig = inr true.
Proof.
  intros Hs. unfold verify_identity. rewrite Hs.
  unfold sign_identity in Hs. destruct (bool_decide (s = [])); [done|].
  destruct (utf8_encode s) as [key|]; [|done].
  destruct (_canonical u role b) as [e|msg]; [done|]. injection Hs as <-.
  rewrite bool_decide_eq_false_2 by apply hmac_not_empty. cbn [mbind sum_bind].
  unfold compare_digest. rewrite hmac_ascii. simpl. by rewrite bool_decide_eq_true_2.
Qed.

(** The identity read from a list whose X-WFS headers are known. *)
Lemma verified_identity_items config h u r s sig :
  is_Some (cfg_mount_code config) → cfg_identity_secret config = Some s →
  sign_identity s u (role_value r) true = inr sig →
  wfs_items h = identity_items u r ++ [(IDENTITY_SIG_HEADER, sig)] →
  _verified_identity config h = inr (Some (u, role_value r, true)).
Proof.
  intros [c Hc] Hsec Hs Hh. unfold _verified_identity, is_relay_served. rewrite Hc, Hsec. simpl negb.
  cbv iota. rewrite !(dict_get_wfs _ h) by reflexivity. rewrite Hh.
  set (l := identity_items u r ++ _).
  change (dict_get HEADER_USER l) with (Some u).
  change (dict_get HEADER_ROLE l) with (Some (role_value r)).
  change (dict_get IDENTITY_SIG_HEADER l) with (Some sig).
  change (dict_get HEADER_AUTH_BYPASS l) with (Some (py "1")). cbv iota zeta.
  rewrite bool_decide_eq_true_2 by reflexivity. by rewrite (verify_signed _ _ _ _ _ Hs).
Qed.

Lemma verified_identity_none config h :
  cfg_identity_secret config = None ∨ dict_get IDENTITY_SIG_HEADER (wfs_items h) = None →
  _verified_identity config h = inr None.
Proof.
  intros Hn. unfold _verified_identity. destruct (negb (is_relay_served config)); [done|].
  destruct (cfg_identity_secret config) as [s|]; [|done]. destruct Hn as [|Hn]; [done|].
  rewrite (dict_get_wfs IDENTITY_SIG_HEADER) by reflexivity. rewrite Hn. by repeat case_match.
Qed.

(** The identity a server with this mount's secret believes. *)
Definition believed (who : option (pystr * Role)) (secret : option pystr) : option (pystr * Role) :=
  match secret with Some _ => who | None => None end.

Lemma verified_delivered config items who secret fwd h :
  is_Some (cfg_mount_code config) → cfg_identity_secret config = secret →
  forward_headers items who secret = inr fwd →
  wfs_items h = ((λ kv, (lower kv.1, kv.2)) <$> wfs_items fwd) →
  _verified_identity config h
  = inr ((λ '(u, r), (u, role_value r, true)) <$> believed who secret).
Proof.
  intros Hc Hsec Hf Hh. apply forward_headers_wfs in Hf.
  destruct secret as [s|]; [|by rewrite verified_identity_none by auto].
  destruct who as [[u r]|]; simpl.
  - destruct Hf as (sig & Hs & Hw). rewrite Hw in Hh.
    by apply (verified_identity_items config h u r s sig).
  - apply verified_identity_none. right. by rewrite Hh, Hf.
Qed.

Lemma role_of_role_value r : role_of_value (role_value r) = Some r.
Proof. by destruct r. Qed.

(** ** The signed text is unambiguous *)

Lemma last_newline_inj (x : Z) (u u' r r' : pystr) :
  x ∉ r → x ∉ r' → u ++ x :: r = u' ++ x :: r' → u = u' ∧ r = r'.
Proof.
  intros Hr Hr'. revert u'. induction u as [|a u IH]; intros [|a' u'] E; simpl in E; injection E.
  - by intros ->.
  - intros -> _. destruct Hr. set_solver.
  - intros <- _. destruct Hr'. set_solver.
  - intros E' ->. by destruct (IH u' E') as [-> ->].
Qed.

Lemma canonical_text_inj u u' r r' b b' :
  newline ∉ r → newline ∉ r' → canonical_text u r b = canonical_text u' r' b' →
  u = u' ∧ r = r' ∧ b = b'.
Proof.
  intros Hr Hr' E. unfold canonical_text in E.
  assert (Hsplit : ∀ u r (c : Z), u ++ newline :: r ++ newline :: [c]
                                  = ((u ++ newline :: r) ++ [newline]) ++ [c]).
  { intros. by rewrite <-!(assoc_L (++)). }
  rewrite !Hsplit in E. apply app_inj_tail in E as [E Eb]. apply app_inj_tail in E as [E _].
  apply last_newline_inj in E as [-> ->]; try done. by destruct b, b'.
Qed.

Lemma role_value_no_newline r : newline ∉ role_value r.
Proof. destruct r; apply (bool_decide_unpack _); vm_compute; done. Qed.

Lemma role_of_value_Some v r : role_of_value v = Some r → v = role_value r.
Proof. unfold role_of_value. intros. by repeat case_bool_decide; simplify_eq. Qed.

(** Two tuples with the same signature under one secret. *)
Lemma same_signature s u r b u' r' b' sig :
  sign_identity s u (role_value r) b = inr sig → sign_identity s u' (role_value r') b' = inr sig →
  (u = u' ∧ r = r' ∧ b = b') ∨ ∃ key m m', m ≠ m' ∧ hmac_hexdigest key m = hmac_hexdigest key m'.
Proof.
  unfold sign_identity. destruct (bool_decide (s = [])); [done|].
  destruct (utf8_encode s) as [key|]; [|done]. unfold _canonical.
  destruct (utf8_encode (canonical_text u _ b)) as [m|] eqn:E1; [|done].
  destruct (utf8_encode (canonical_text u' _ b')) as [m'|] eqn:E2; [|done].
  cbn [mbind sum_bind]. intros [= E3] [= E4]. destruct (decide (m = m')) as [<-|Hne].
  - left. apply utf8_decode_encode in E1, E2. rewrite E1 in E2. injection E2 as E2.
    apply canonical_text_inj in E2 as (-> & Er & ->); try apply role_value_no_newline.
    split_and!; try done. assert (Some r = Some r') as [= ->]; [|done].
    by rewrite <-!role_of_role_value, Er.
  - right. exists key, m, m'. by rewrite E3, E4.
Qed.

(** ** Properties *)

(** C3: the identity the server trusts is the relay's decision: for any headers a
    client sends, forwarded by the relay under the secret the server shares,
    the server believes exactly the user and role the relay identified, and
    nobody when the relay identified nobody or the agent gave no secret. *)
Theorem identity_end_to_end (items : list (pystr * pystr)) (who : option (pystr * Role))
    (config : ServerConfig) (fwd hs : list (pystr * pystr)) :
  is_Some (cfg_mount_code config) →
  forward_headers items who (cfg_identity_secret config) = inr fwd → delivers fwd hs →
  let b := believed who (cfg_identity_secret config) in
  trusted_role config hs = inr (snd <$> b) ∧ trusted_user config hs = inr (fst <$> b) ∧
  is_auth_bypassed config hs = inr (bool_decide (is_Some b)).
Proof.
  intros Hc Hf Hd b.
  pose proof (verified_delivered config items who _ fwd hs Hc eq_refl Hf Hd) as Hv.
  unfold trusted_role, trusted_user, is_auth_bypassed. rewrite Hv. subst b.
  destruct (believed who (cfg_identity_secret config)) as [[u r]|]; simpl; [|done].
  by rewrite role_of_role_value.
Qed.


(** a signature is good for one identity only: if the server accepts headers
    whose signature the relay made for some user, role and bypass flag, then
    they assert that same identity, or two messages with the same HMAC have
    been found. *)
Theorem replayed_signature (config : ServerConfig) (hs : list (pystr * pystr)) (s sig u' : pystr)
    (r r' : Role) (b' : bool) :
  cfg_identity_secret config = Some s →
  dict_get IDENTITY_SIG_HEADER hs = Some sig →
  sign_identity s u' (role_value r') b' = inr sig →
  trusted_role config hs = inr (Some r) →
  (trusted_user config hs = inr (Some u') ∧ r = r' ∧ is_auth_bypassed config hs = inr b') ∨
  ∃ key m m', m ≠ m' ∧ hmac_hexdigest key m = hmac_hexdigest key m'.
Proof.
  intros Hsec Hsig Hs Ht. unfold trusted_role, trusted_user, is_auth_bypassed in *.
  destruct (_verified_identity config hs) as [e|[[[u role] b]|]] eqn:Ev; [done| |done].
  cbn [mbind sum_bind] in *. injection Ht as Ht. apply role_of_value_Some in Ht as ->.
  unfold _verified_identity in Ev. destruct (negb _); [done|]. rewrite Hsec, Hsig in Ev.
  destruct (dict_get HEADER_USER hs) as [v|]; [|done].
  destruct (dict_get HEADER_ROLE hs) as [w|]; [|done].
  set (b0 := bool_decide _) in Ev.
  destruct (verify_identity s v w b0 sig) as [e|[|]] eqn:E; try done.
  cbn [mbind sum_bind] in Ev. injection Ev as -> -> ->.
  unfold verify_identity in E. destruct (bool_decide (s = [])); [done|].
  destruct (bool_decide (sig = [])); [done|].
  destruct (sign_identity s u (role_value r) b) as [e|sig'] eqn:Es; [done|].
  cbn [mbind sum_bind] in E. unfold compare_digest in E.
  destruct (_ && _); [|done]. injection E as <-%bool_decide_eq_true.
  destruct (same_signature s u r b u' r' b' sig' Es Hs) as [(-> & -> & ->)|]; auto.
Qed.

End identity.

(** *** Witnesses *)

Definition hex_byte (b : byte) : pystr := [hex_digit (byte_Z b / 16); hex_digit (byte_Z b mod 16)].

Lemma hex_bytes_ascii (bs : bytes) : forallb is_ascii (mbind hex_byte bs) = true.
Proof.
  induction bs as [|b bs IH]; [done|]. rewrite bind_cons, forallb_app, IH, andb_true_r.
  unfold hex_byte. simpl. pose proof (byte_Z_range b). rewrite !hex_digit_ascii by divlia. done.
Qed.

(** A stand-in for HMAC: key and message, in hexadecimal. *)
Definition hex_mac : Hmac := {|
  hmac_hexdigest k m := 48 :: mbind hex_byte (k ++ m);
  hmac_not_empty k m := ltac:(discriminate);
  hmac_ascii k m := hex_bytes_ascii (k ++ m)
|}.

Definition demo_config : ServerConfig :=
  {| cfg_password_hash := None; cfg_read_only := true; cfg_receive := false;
     cfg_mount_code := Some (py "abc"); cfg_identity_secret := Some (py "s3cret") |}.

(** A request that tries to look like an administrator. *)
Definition spoofed : list (pystr * pystr) :=
  [(py "host", py "relay"); (py "X-WFS-User", py "root"); (py "x-wfs-role", py "write");
   (py "accept", py "*/*"); (py "x-wfs-auth-bypass", py "1")].

Definition demo_forwarded (who : option (pystr * Role)) : list (pystr * pystr) :=
  match forward_headers (H := hex_mac) spoofed who (Some (py "s3cret")) with
  | inr h => h
  | inl _ => []
  end.

Lemma identity_end_to_end_witness :
  trusted_role (H := hex_mac) demo_config (demo_forwarded None) = inr None ∧
  trusted_user (H := hex_mac) demo_config (demo_forwarded (Some (py "ann", RECEIVE)))
    = inr (Some (py "ann")).
Proof.
  split.
  - apply (identity_end_to_end (H := hex_mac) spoofed None demo_config (demo_forwarded None));
      [vm_compute; eauto|vm_compute; reflexivity..].
  - apply (identity_end_to_end (H := hex_mac) spoofed (Some (py "ann", RECEIVE)) demo_config
      (demo_forwarded (Some (py "ann", RECEIVE)))); [vm_compute; eauto|vm_compute; reflexivity..].
Defined.


(** The headers of ann's request, presented with ann's own signature. *)
Lemma replayed_signature_witness :
  let sig := 48 :: mbind hex_byte (Z_byte <$> py "s3cret" ++ canonical_text (py "ann") (py "read") true) in
  let hs := [(HEADER_USER, py "ann"); (HEADER_ROLE, py "read"); (HEADER_AUTH_BYPASS, py "1");
             (IDENTITY_SIG_HEADER, sig)] in
  (trusted_user (H := hex_mac) demo_config hs = inr (Some (py "ann")) ∧ READ = READ ∧
   is_auth_bypassed (H := hex_mac) demo_config hs = inr true) ∨
  ∃ key m m', m ≠ m' ∧
    hmac_hexdigest (Hmac := hex_mac) key m = hmac_hexdigest (Hmac := hex_mac) key m'.
Proof.
  cbv zeta.
  apply (replayed_signature (H := hex_mac) demo_config _ (py "s3cret")
    (48 :: mbind hex_byte (Z_byte <$> py "s3cret" ++ canonical_text (py "ann") (py "read") true))
    (py "ann") READ READ true); vm_compute; reflexivity.
Defined.
