(* ===== verification/Proxy.v ===== *)
(** A browser request through the tunnel: the relay's [proxy_request] of
    [src/relay/app/routers/mount_proxy.py] up to the moment the request has been
    sent to the agent, and the way [handle_open_frame] of [src/agent/proxy.py]
    rebuilds the request body.

    The connections of the relay are objects, found by the reference the
    registry keeps; a call on one changes it in the map.  The answer of the
    agent arrives on the stream and is the business of [Tunnel]. *)

From Stdlib Require Import String.
From stdpp Require Import strings.
From S2P Require Import Prelude Utf8 Frames Json Metadata Tunnel Accounts Registry Session Access Identity.
Local Open Scope Z_scope.

(** ** Requests and answers *)

(** [rq_url_path] is the whole path of the URL, [rq_path] the part after the
    mount code.  [rq_body] are the chunks of [request.stream()]; when
    [rq_disconnects], the client goes away after them and the iterator raises
    [ClientDisconnect]. *)
Record Request := {
  rq_method : pystr;
  rq_url_path : pystr;
  rq_path : pystr;
  rq_query : pystr;
  rq_headers : list (pystr * pystr);
  rq_body : list bytes;
  rq_disconnects : bool
}.

Inductive ProxyExn :=
| PConn (e : ConnExn)
| PRegistry (e : RegistryExn)
| PStore (e : AccountExn)
| PIdentity (e : IdentityExn)
| PValueError
| ClientDisconnect.

Inductive Reply :=
| ForwardLocal (headers : list (pystr * pystr))
| RedirectLogin (url : pystr)
| Answer (status : Z)
| AwaitAnswer (conn : nat) (request_id : UUID).

(** ** Helpers of the handler *)

(** [quote(s, safe='')]: everything but letters, digits and [_.-~] is escaped. *)
Definition unreserved (b : byte) : bool :=
  let c := byte_Z b in
  (48 <=? c) && (c <=? 57) || (65 <=? c) && (c <=? 90) || (97 <=? c) && (c <=? 122)
  || (c =? 95) || (c =? 46) || (c =? 45) || (c =? 126).

Definition hex_upper (n : Z) : Z := if n <? 10 then 48 + n else 55 + n.

Definition quote_byte (b : byte) : pystr :=
  if unreserved b then [byte_Z b]
  else [37; hex_upper (byte_Z b / 16); hex_upper (byte_Z b mod 16)].

Definition quote (s : pystr) : option pystr := mbind quote_byte <$> utf8_encode s.

(** The white space that [int] skips: all but the separators 28 to 31. *)
Definition int_space (c : Z) : bool := is_space c && negb ((28 <=? c) && (c <=? 31)).

(** [int(s)] on header text: blanks around, a sign, digits, single underscores
    between digits, at most [MAX_STR_DIGITS] digits. *)
Fixpoint int_digits (s acc : pystr) : option pystr :=
  match s with
  | [] => None
  | [c] => if is_digit c then Some (acc ++ [c]) else None
  | c :: ((d :: s'') as s') =>
      if is_digit c then
        if d =? 95 then int_digits s'' (acc ++ [c]) else int_digits s' (acc ++ [c])
      else None
  end.

Definition unsigned_int (s : pystr) : option Z :=
  ds ← int_digits s [];
  if (MAX_STR_DIGITS <? length ds)%nat then None else Some (digits_value ds).

Definition py_int (s : pystr) : option Z :=
  match strip_if int_space s with
  | 45 :: s' => Z.opp <$> unsigned_int s'
  | 43 :: s' => unsigned_int s'
  | s' => unsigned_int s'
  end.

(** [GET /m/{code}/status]; an online mount without connection is a local one. *)
Definition mount_status (closed : nat → bool) (registry : Registry) (code : pystr) : RegistryExn + pystr :=
  match (get_connection closed code registry).2 with
  | inr _ | inl LocalMountRuntimeError => inr (py "online")
  | inl MountOfflineError => inr (py "offline")
  | inl MountExpiredError => inr (py "expired")
  | inl MountNotFoundError => inr (py "not_found")
  | inl e => inl e
  end.

Definition header (name default_value : pystr) (r : Request) : pystr :=
  default default_value (dict_get name (rq_headers r)).

Definition next_url (r : Request) : pystr :=
  match rq_query r with [] => rq_url_path r | q => rq_url_path r ++ py "?" ++ q end.

(** The loop [while offset < len(chunk)] with [end = offset + MAX_PAYLOAD_BYTES];
    each turn moves [offset], so the length of the chunk is fuel enough. *)
Fixpoint slices (fuel : nat) (chunk : bytes) : list bytes :=
  match fuel with
  | O => []
  | S fuel' =>
      match chunk with
      | [] => []
      | _ => take (Z.to_nat MAX_PAYLOAD_BYTES) chunk
             :: slices fuel' (drop (Z.to_nat MAX_PAYLOAD_BYTES) chunk)
      end
  end.

Definition chunk_slices (chunk : bytes) : list bytes := slices (length chunk) chunk.

Section proxy.
Context {W : Type} `{!WebSocketProtocol W} {S : Type} `{AccountStore S} `{Hmac}.

Abbreviation Conns := (gmap nat (TunnelConnection W)).
Abbreviation P A := (M Conns ProxyExn A).

(** A call on the connection object [c]. *)
Definition on_conn {A} (c : nat) (m : M (TunnelConnection W) ConnExn A) : P A := λ cs,
  match cs !! c with
  | None => (cs, inl (PConn AttributeError))
  | Some x =>
      match m x with
      | (x', inl e) => (<[c := x']> cs, inl (PConn e))
      | (x', inr a) => (<[c := x']> cs, inr a)
      end
  end.

Definition conn_closed (cs : Conns) (c : nat) : bool :=
  match cs !! c with Some x => is_closed x | None => true end.

(** ** The request body, as DATA frames *)

Definition send_chunk (c : nat) (request_id : UUID) (chunk : bytes) : P unit :=
  for_each (λ part, on_conn c (send_data request_id part)) (chunk_slices chunk).

Definition send_body (c : nat) (request_id : UUID) (r : Request) : P unit :=
  for_each (send_chunk c request_id) (rq_body r) ≫= λ _,
  if rq_disconnects r then raise ClientDisconnect
  else on_conn c (send_data request_id []).

(** ** The handler *)

Definition drop_stream (c : nat) (request_id : UUID) : P unit :=
  on_conn c (modify (remove_stream request_id)).

(** [open_stream] and the [try] around sending the request. *)
Definition send_request (c : nat) (request_id : UUID) (metadata : RequestMetadata) (r : Request)
    : P Reply :=
  on_conn c (open_stream request_id) ≫= λ _,
  try_except
    (on_conn c (send_open request_id metadata) ≫= λ _, send_body c request_id r ≫= λ _,
     mret (AwaitAnswer c request_id))
    (λ e, match e with
          | PConn (Tun MetadataTooLargeError) => drop_stream c request_id ≫= λ _, mret (Answer 431)
          | PConn (Tun TunnelSendError) => drop_stream c request_id ≫= λ _, mret (Answer 503)
          | e => raise e
          end).

(** The identity that is injected: the user and role of an identified decision. *)
Definition injected (d : AccessDecision) : option (pystr * Role) :=
  if identified d then u ← ad_username d; r ← ad_role d; Some (u, r) else None.

Definition forward (registry : Registry) (code : pystr) (d : AccessDecision) (request_id : UUID)
    (r : Request) (c : nat) : P Reply :=
  match forward_headers (rq_headers r) (injected d) (get_identity_secret code registry) with
  | inl e => raise (PIdentity e)
  | inr headers =>
      match py_int (header (py "content-length") (py "0") r) with
      | None => raise PValueError
      | Some content_length =>
          send_request c request_id
            {| rm_method := rq_method r; rm_path := slash :: rq_path r; rm_query := rq_query r;
               rm_headers := headers; rm_content_length := content_length |} r
      end
  end.

(** The answer to a visitor who has to log in. *)
Definition login_reply (r : Request) : P Reply :=
  if contains (py "text/html") (header (py "accept") [] r) then
    match quote (next_url r) with
    | Some q => mret (RedirectLogin (py "/login?next=" ++ q))
    | None => raise PValueError
    end
  else mret (Answer 401).

Definition proxy_request (local_mounts : gset pystr) (registry : Registry) (account_store : option S)
    (identity : option SessionIdentity) (request_id : UUID) (code : pystr) (r : Request) : P Reply :=
  if bool_decide (code ∈ local_mounts) then mret (ForwardLocal (local_headers (rq_headers r)))
  else
    match authorize registry account_store code identity with
    | inl (AuthenticationRequiredError _) => login_reply r
    | inl (AccessDeniedError _ _) => mret (Answer 403)
    | inl (StoreError e) => raise (PStore e)
    | inr decision =>
        closed ← gets conn_closed;
        match (get_connection closed code registry).2 with
        | inl MountNotFoundError => mret (Answer 404)
        | inl MountOfflineError => mret (Answer 503)
        | inl MountExpiredError => mret (Answer 410)
        | inl e => raise (PRegistry e)
        | inr c => forward registry code decision request_id r c
        end
    end.

End proxy.

(** ** The agent: the body of a request *)

(** [handle_open_frame] takes chunks off the stream's queue up to the empty one;
    [None] while it still waits.  What is left of the queue is returned too. *)
Fixpoint read_body (queue : list bytes) : option (bytes * list bytes) :=
  match queue with
  | [] => None
  | [] :: rest => Some ([], rest)
  | chunk :: rest => '(body, later) ← read_body rest; Some (chunk ++ body, later)
  end.

(** The URL of the local request. *)
Definition local_url (m : RequestMetadata) : pystr :=
  let url := py "http://local" ++ rm_path m in
  match rm_query m with [] => url | q => url ++ py "?" ++ q end.
