(* ===== verification/ProxyProps.v ===== *)
(** Properties of the proxied request: the body arrives at the agent as it was
    sent, nothing is sent for a visitor who is not let in, and an upload that
    the browser aborts leaves its stream behind. *)

From stdpp Require Import strings.
From S2P Require Import Prelude Utf8 Frames Json Metadata Tunnel TunnelProps Accounts AccountsProps.
From S2P Require Import Registry RegistryProps Session Access Identity IdentityProps Proxy.

(** ** Slicing *)

Lemma slices_spec fuel chunk :
  (length chunk ≤ fuel)%nat →
  concat (slices fuel chunk) = chunk ∧
  Forall (λ p, p ≠ [] ∧ Z.of_nat (length p) ≤ MAX_PAYLOAD_BYTES) (slices fuel chunk).
Proof.
  revert chunk. induction fuel as [|fuel IH]; intros chunk Hf.
  - destruct chunk; simpl in *; [done|lia].
  - destruct chunk as [|b chunk]; [done|]. cbn [slices].
    assert (Hn : Z.of_nat (Z.to_nat MAX_PAYLOAD_BYTES) = MAX_PAYLOAD_BYTES ∧ 0 < MAX_PAYLOAD_BYTES).
    { by rewrite Z2Nat.id. }
    revert IH Hn. generalize (Z.to_nat MAX_PAYLOAD_BYTES). generalize MAX_PAYLOAD_BYTES.
    intros z n IH [Hn Hz].
    destruct (IH (drop n (b :: chunk))) as [H1 H2]; [rewrite length_drop; simpl in *; lia|]. split.
    + cbn [concat]. by rewrite H1, take_drop.
    + constructor; [|done]. split; [destruct n; [lia|done]|]. rewrite length_take. lia.
Qed.

Lemma chunk_slices_spec chunk :
  concat (chunk_slices chunk) = chunk ∧
  Forall (λ p, p ≠ [] ∧ Z.of_nat (length p) ≤ MAX_PAYLOAD_BYTES) (chunk_slices chunk).
Proof. by apply slices_spec. Qed.

(** The payloads of the DATA frames of a request. *)
Definition body_payloads (body : list bytes) : list bytes := mbind chunk_slices body ++ [[]].

Lemma read_body_app ps later :
  Forall (λ p, p ≠ []) ps → read_body (ps ++ [] :: later) = Some (concat ps, later).
Proof.
  induction 1 as [|p ps Hp Hps IH]; [done|]. destruct p as [|b p]; [done|].
  cbn [app read_body]. rewrite IH. done.
Qed.

Lemma body_slices_spec body :
  concat (mbind chunk_slices body) = concat body ∧
  Forall (λ p, p ≠ [] ∧ Z.of_nat (length p) ≤ MAX_PAYLOAD_BYTES) (mbind chunk_slices body).
Proof.
  induction body as [|chunk body [IH1 IH2]]; [done|]. rewrite bind_cons.
  destruct (chunk_slices_spec chunk) as [H1 H2]. split.
  - rewrite concat_app. simpl. by rewrite H1, IH1.
  - by apply Forall_app.
Qed.

Lemma read_body_payloads body later :
  read_body (body_payloads body ++ later) = Some (concat body, later).
Proof.
  unfold body_payloads. destruct (body_slices_spec body) as [H1 H2].
  rewrite <-(assoc_L (++)). cbn [app]. rewrite read_body_app, H1; [done|].
  eapply Forall_impl; [exact H2|]. by intros p [].
Qed.

(** ** Sending on a working WebSocket *)

Section log.
Context {S : Type} `{AccountStore S} `{Hmac}.
Implicit Types cs : gmap nat (TunnelConnection LogWs).
Implicit Types x : TunnelConnection LogWs.

(** The connection after sending frames. *)
Definition sent (fs : list bytes) x : TunnelConnection LogWs :=
  set_ws {| lw_sent := lw_sent (_ws x) ++ (inl <$> fs); lw_error := None;
            lw_open := lw_open (_ws x) |} x.

Lemma send_data_log rid p x :
  lw_error (_ws x) = None → uuid_ok rid → Z.of_nat (length p) ≤ MAX_PAYLOAD_BYTES →
  ∃ f, deserialize_frame f = inr (DATA, rid, p) ∧ send_data rid p x = (sent [f] x, inr tt).
Proof.
  intros Hx Hu Hp. destruct (frame_fits DATA rid p Hu Hp) as (f & Hf & Hd & _).
  exists f. split; [done|]. unfold send_data, tun. rewrite Hf.
  unfold mbind, M_bind, mret, M_ret, _guarded_send, try_except, on_ws. cbv beta iota.
  simpl. unfold lw_send. rewrite Hx. done.
Qed.

(** A list of payloads, one DATA frame each. *)
Lemma send_payloads c rid ps cs x :
  cs !! c = Some x → lw_error (_ws x) = None → uuid_ok rid →
  Forall (λ p, Z.of_nat (length p) ≤ MAX_PAYLOAD_BYTES) ps →
  ∃ fs, Forall2 (λ f p, deserialize_frame f = inr (DATA, rid, p)) fs ps ∧
        for_each (λ p, on_conn c (send_data rid p)) ps cs = (<[c := sent fs x]> cs, inr tt).
Proof.
  intros Hc Hx Hu Hps. revert cs x Hc Hx. induction Hps as [|p ps Hp Hps IH]; intros cs x Hc Hx.
  - exists []. split; [done|]. simpl. unfold mret, M_ret. f_equal. symmetry.
    apply insert_id. rewrite Hc. f_equal. unfold sent, set_ws. simpl. rewrite app_nil_r.
    destruct x as [[]]; simpl in *. by subst.
  - destruct (send_data_log rid p x Hx Hu Hp) as (f & Hd & Hs).
    destruct (IH (<[c := sent [f] x]> cs) (sent [f] x)) as (fs & Hfs & Hrun);
      [apply lookup_insert_eq|done|].
    exists (f :: fs). split; [by constructor|]. cbn [for_each].
    unfold mbind, M_bind. unfold on_conn at 1. rewrite Hc, Hs. cbv beta iota. rewrite Hrun.
    f_equal. rewrite insert_insert_eq. f_equal. unfold sent, set_ws. simpl.
    by rewrite <-(assoc_L (++)).
Qed.

(** The frames of a request body. *)
Lemma send_body_log c rid r cs x :
  cs !! c = Some x → lw_error (_ws x) = None → uuid_ok rid → rq_disconnects r = false →
  ∃ fs, Forall2 (λ f p, deserialize_frame f = inr (DATA, rid, p)) fs (body_payloads (rq_body r)) ∧
        send_body c rid r cs = (<[c := sent fs x]> cs, inr tt).
Proof.
  intros Hc Hx Hu Hd.
  destruct (send_payloads c rid (body_payloads (rq_body r)) cs x Hc Hx Hu) as (fs & Hfs & Hrun).
  { destruct (body_slices_spec (rq_body r)) as [_ H2]. apply Forall_app. split.
    - eapply Forall_impl; [exact H2|]. by intros p [].
    - by repeat constructor. }
  exists fs. split; [done|]. rewrite <-Hrun. unfold body_payloads. rewrite for_each_app.
  unfold send_body, send_chunk, mbind at 1 2, M_bind at 1 2. rewrite for_each_bind, Hd.
  clear Hrun. destruct (for_each _ _ cs) as [cs' [e|[]]]; [done|]. cbn [for_each].
  unfold mbind, M_bind, mret, M_ret. by destruct (on_conn c (send_data rid []) cs') as [? [?|[]]].
Qed.

End log.

(** ** What the handler leaves alone *)

Section handler.
Context {W : Type} `{!WebSocketProtocol W} {S : Type} `{AccountStore S} `{Hmac}.
Implicit Types cs : gmap nat (TunnelConnection W).

(** Only the connection [c] may differ. *)
Definition only (c : nat) : relation (gmap nat (TunnelConnection W)) :=
  λ cs cs', ∀ k, k ≠ c → cs' !! k = cs !! k.

(** Every connection keeps its registered streams and its closed flag. *)
Definition quiet : relation (gmap nat (TunnelConnection W)) :=
  λ cs cs', ∀ k, (λ x, (_streams x, _closed x)) <$> cs' !! k = (λ x, (_streams x, _closed x)) <$> cs !! k.

Global Instance only_preorder c : PreOrder (only c).
Proof. split; [by intros cs k|]. intros a b d H1 H2 k Hk. by rewrite H2, H1. Qed.

Global Instance quiet_preorder : PreOrder quiet.
Proof. split; [by intros cs k|]. intros a b d H1 H2 k. by rewrite H2, H1. Qed.


Lemma on_conn_quiet {A} c (m : M (TunnelConnection W) ConnExn A) :
  (∀ x, same_streams x (m x).1) → preserves quiet (on_conn c m).
Proof.
  intros Hm cs k. unfold on_conn. destruct (cs !! c) as [x|] eqn:Ec; [|done].
  specialize (Hm x). destruct (m x) as [x' r]. destruct Hm as (_ & _ & Hs & Hc). simpl in *.
  destruct r; simpl; (destruct (decide (k = c)) as [->|Hne];
    [rewrite lookup_insert_eq, Ec; simpl; by rewrite Hs, Hc|by rewrite lookup_insert_ne]).
Qed.

Lemma guarded_send_same f (x : TunnelConnection W) : same_streams x (_guarded_send f x).1.
Proof.
  unfold _guarded_send, try_except. pose proof (on_ws_same (ws_send_bytes f) x) as Hs.
  destruct (on_ws (ws_send_bytes f) x) as [x' [e|a]]; [|done]. by destruct (is_transport e).
Qed.

Lemma tun_send_same (r : TunnelExn + bytes) (k : bytes → M (TunnelConnection W) ConnExn unit) x :
  (∀ f x, same_streams x (k f x).1) → same_streams x ((tun r ≫= k) x).1.
Proof. intros Hk. unfold tun, mbind, M_bind. destruct r as [e|f]; [done|]. apply Hk. Qed.

Lemma send_data_same rid p (x : TunnelConnection W) : same_streams x (send_data rid p x).1.
Proof. apply tun_send_same. intros. apply guarded_send_same. Qed.

Lemma send_open_same rid m (x : TunnelConnection W) : same_streams x (send_open rid m x).1.
Proof. apply tun_send_same. intros. apply tun_send_same. intros. apply guarded_send_same. Qed.

Lemma send_body_quiet c rid r : preserves quiet (send_body (W := W) c rid r).
Proof.
  unfold send_body, send_chunk.
  apply preserves_bind; [apply _| |intros _; destruct (rq_disconnects r)];
    eauto using on_conn_quiet, send_data_same with preserve typeclass_instances.
Qed.

Lemma on_conn_error {A} c (m : M (TunnelConnection W) ConnExn A) cs e :
  (on_conn c m cs).2 = inl e → e ≠ ClientDisconnect.
Proof.
  unfold on_conn. destruct (cs !! c) as [x|]; [|by intros [= <-]].
  destruct (m x) as [x' [e'|a]]; simpl; [by intros [= <-]|done].
Qed.

(** The client goes away exactly when the body says so. *)
Lemma send_body_outcome c rid r cs :
  match (send_body (W := W) c rid r cs).2 with
  | inr _ => rq_disconnects r = false
  | inl ClientDisconnect => rq_disconnects r = true
  | inl _ => True
  end.
Proof.
  unfold send_body, mbind, M_bind.
  destruct (for_each (send_chunk c rid) (rq_body r) cs) as [cs' [e|[]]] eqn:E.
  - assert (e ≠ ClientDisconnect); [|by destruct e].
    apply (for_each_error (λ e, e ≠ ClientDisconnect) (send_chunk c rid) (rq_body r) cs);
      [|by rewrite E]. intros chunk s e'. unfold send_chunk.
    apply (for_each_error (λ e, e ≠ ClientDisconnect)). intros p s' e''. apply on_conn_error.
  - destruct (rq_disconnects r) eqn:Hd; [done|].
    pose proof (on_conn_error c (send_data rid []) cs') as He.
    destruct (on_conn c (send_data rid []) cs') as [cs'' [e|[]]]; [|done].
    specialize (He e eq_refl). by destruct e.
Qed.

(** A quiet call keeps the connection's streams and closed flag. *)
Lemma quiet_lookup cs cs' c x :
  quiet cs cs' → cs !! c = Some x →
  ∃ x', cs' !! c = Some x' ∧ _streams x' = _streams x ∧ _closed x' = _closed x.
Proof.
  intros Hq Hx. specialize (Hq c). rewrite Hx in Hq. simpl in Hq.
  apply fmap_Some in Hq as (x' & Hx' & [= Hs Hc]). eauto.
Qed.

Lemma drop_stream_log c rid cs x :
  cs !! c = Some x → drop_stream c rid cs = (<[c := remove_stream rid x]> cs, inr tt).
Proof. intros Hx. unfold drop_stream, on_conn, modify. by rewrite Hx. Qed.

(** The outcomes of [send_request]. *)
Definition request_sent (c : nat) (rid : UUID) (r : Request) (x x' : TunnelConnection W)
    (res : ProxyExn + Reply) : Prop :=
  match res with
  | inr (AwaitAnswer c' u) => c' = c ∧ u = rid ∧ is_Some (_streams x' !! rid) ∧ rq_disconnects r = false
  | inr (Answer n) => (n = 431 ∨ n = 503) ∧ _streams x' !! rid = None
  | inr _ => False
  | inl ClientDisconnect => rq_disconnects r = true ∧ _streams x !! rid = None ∧
      ∃ ref, _streams x' = <[rid := ref]> (_streams x)
  | inl _ => True
  end.

Lemma open_stream_result rid (x : TunnelConnection W) :
  match open_stream rid x with
  | (x', inl e) => x' = x
  | (x', inr ref) => _streams x !! rid = None ∧ _streams x' = <[rid := ref]> (_streams x) ∧
                     _closed x' = _closed x ∧ (size (_streams x) < MAX_STREAMS)%nat
  end.
Proof.
  unfold open_stream. destruct (Nat.leb_spec MAX_STREAMS (size (_streams x))); [done|].
  destruct (_streams x !! rid) eqn:E; done.
Qed.

(** The part inside the [try]. *)
Definition try_part (c : nat) (rid : UUID) (m : RequestMetadata) (r : Request)
    : M (gmap nat (TunnelConnection W)) ProxyExn Reply :=
  on_conn c (send_open rid m) ≫= λ _, send_body c rid r ≫= λ _, mret (AwaitAnswer c rid).

Lemma try_part_quiet c rid m r : preserves quiet (try_part c rid m r).
Proof.
  unfold try_part. eauto using on_conn_quiet, send_open_same, send_body_quiet
    with preserve typeclass_instances.
Qed.

Lemma try_part_outcome c rid m r cs :
  match (try_part c rid m r cs).2 with
  | inr rep => rep = AwaitAnswer c rid ∧ rq_disconnects r = false
  | inl ClientDisconnect => rq_disconnects r = true
  | inl _ => True
  end.
Proof.
  unfold try_part, mbind, M_bind. pose proof (on_conn_error c (send_open rid m) cs) as He.
  destruct (on_conn c (send_open rid m) cs) as [cs1 [e|[]]].
  { specialize (He e eq_refl). by destruct e. }
  pose proof (send_body_outcome c rid r cs1) as Hb.
  by destruct (send_body c rid r cs1) as [cs2 [e|[]]].
Qed.

Lemma only_trans c cs1 cs2 x : only c cs1 cs2 → only c cs1 (<[c := x]> cs2).
Proof. intros Ho k Hk. rewrite lookup_insert_ne by done. by apply Ho. Qed.



Lemma send_request_spec c rid m r cs x :
  cs !! c = Some x →
  let '(cs', res) := send_request c rid m r cs in
  ∃ x', cs' !! c = Some x' ∧ _closed x' = _closed x ∧ request_sent c rid r x x' res.
Proof.
  intros Hx. unfold send_request. unfold mbind at 1, M_bind at 1. unfold on_conn at 1. rewrite Hx.
  pose proof (open_stream_result rid x) as Ho. destruct (open_stream rid x) as [x1 [e|ref]].
  { subst. exists x. by rewrite lookup_insert_eq. }
  destruct Ho as (Hn & Hs1 & Hc1 & _). set (cs1 := <[c := x1]> cs).
  fold (try_part c rid m r). unfold try_except.
  pose proof (try_part_quiet c rid m r cs1) as Hq. pose proof (try_part_outcome c rid m r cs1) as Hout.
  destruct (try_part c rid m r cs1) as [cs2 [e|rep]]; simpl in Hq, Hout;
    (destruct (quiet_lookup cs1 cs2 c x1 Hq) as (x2 & Hx2 & Hs2 & Hc2); [apply lookup_insert_eq|]).
  - destruct e as [[[]| | | | | | |]| | | | |]; unfold raise;
      try (exists x2; rewrite Hc2, Hc1; by split_and!).
    1,2: unfold mbind, M_bind, mret, M_ret; rewrite (drop_stream_log _ _ _ _ Hx2);
      exists (remove_stream rid x2); rewrite lookup_insert_eq; split_and!;
      [done|etrans; [exact Hc2|exact Hc1]|split; [auto|apply lookup_delete_eq]].
    exists x2. rewrite Hc2, Hc1. split_and!; try done.
    simpl. split_and!; try done. exists ref. by rewrite Hs2, Hs1.
  - destruct Hout as [-> Hd]. exists x2. rewrite Hc2, Hc1. split_and!; try done.
    simpl. rewrite Hs2, Hs1, lookup_insert_eq. eauto.
Qed.

(** ** Who is let through *)

(** The mount is ONLINE and its connection [c] is open. *)
Definition online (registry : Registry) cs (code : pystr) (c : nat) : Prop :=
  ∃ row, mounts registry !! code = Some row ∧ m_status row = ONLINE ∧
         _connections registry !! code = Some c ∧ conn_closed cs c = false.

Lemma get_connection_online registry cs code :
  match (get_connection (conn_closed cs) code registry).2 with
  | inr c => online registry cs code c
  | inl MountNotFoundError => mounts registry !! code = None
  | inl MountExpiredError => ∃ row, mounts registry !! code = Some row ∧ m_status row = EXPIRED
  | inl MountOfflineError => ∃ row, mounts registry !! code = Some row ∧
      (m_status row = OFFLINE ∨
       ∃ c, m_status row = ONLINE ∧ _connections registry !! code = Some c ∧ conn_closed cs c = true)
  | inl _ => True
  end.
Proof.
  unfold get_connection, online. destruct (mounts registry !! code) as [row|] eqn:Er; [|done].
  destruct (m_status row) eqn:Es; [|simpl; eauto..].
  destruct (_connections registry !! code) as [c|] eqn:Ec; [|done].
  destruct (conn_closed cs c) eqn:Eo; simpl; eauto 10.
Qed.

(** The status that is polled: it never fails, it is [online] exactly when a request would find an
    open connection or a local mount, and [not_found] exactly without a record. *)
Lemma mount_status_spec registry cs code :
  ∃ s, mount_status (conn_closed cs) registry code = inr s ∧
    s ∈ [py "online"; py "offline"; py "expired"; py "not_found"] ∧
    (s = py "online" ↔ (∃ c, online registry cs code c) ∨
       ∃ row, mounts registry !! code = Some row ∧ m_status row = ONLINE ∧ _connections registry !! code = None) ∧
    (s = py "not_found" ↔ mounts registry !! code = None).
Proof.
  unfold mount_status, get_connection, online.
  assert (py "offline" ≠ py "online" ∧ py "expired" ≠ py "online" ∧ py "not_found" ≠ py "online" ∧
    py "online" ≠ py "not_found" ∧ py "offline" ≠ py "not_found" ∧ py "expired" ≠ py "not_found") as Hne by by vm_compute.
  revert Hne. generalize (py "online") (py "offline") (py "expired") (py "not_found").
  intros s1 s2 s3 s4 (? & ? & ? & ? & ? & ?).
  assert (∀ s, s = s1 ∨ s = s2 ∨ s = s3 ∨ s = s4 → s ∈ [s1; s2; s3; s4]) as Hin by (intros ? ?; rewrite !elem_of_cons; tauto).
  assert (∀ P Q : Prop, ¬ P → ¬ Q → (P ↔ Q)) as Hno by tauto.
  destruct (mounts registry !! code) as [row|] eqn:Er; [|exists s4; split_and!; [done|auto| |done]].
  2: { apply Hno; [done|]. by intros [(c & row & ? & _)|(row & ? & _)]. }
  destruct (m_status row) eqn:Es.
  - destruct (_connections registry !! code) as [c|] eqn:Ec; [destruct (conn_closed cs c) eqn:Eo|].
    + exists s2. split_and!; [done|auto|apply Hno; [done|]|by apply Hno].
      intros [(c' & row' & _ & _ & ? & ?)|(row' & _ & _ & ?)]; congruence.
    + exists s1. split_and!; [done|auto|split; [left; eauto 10|done]|by apply Hno].
    + exists s1. split_and!; [done|auto|split; [right; eauto|done]|by apply Hno].
  - exists s2. split_and!; [done|auto|apply Hno; [done|]|by apply Hno].
    intros [(c' & row' & ? & ? & _)|(row' & ? & ? & _)]; congruence.
  - exists s3. split_and!; [done|auto|apply Hno; [done|]|by apply Hno].
    intros [(c' & row' & ? & ? & _)|(row' & ? & ? & _)]; congruence.
Qed.

Lemma online_lookup registry cs code c : online registry cs code c → ∃ x, cs !! c = Some x ∧ _closed x = false.
Proof.
  intros (row & _ & _ & _ & Hc). unfold conn_closed, is_closed in Hc.
  destruct (cs !! c) as [x|] eqn:E; [eauto|done].
Qed.


(** [forward] raises before anything is sent, or is [send_request]. *)
Lemma forward_cases registry code d rid r c cs :
  (∃ e, forward (W := W) registry code d rid r c cs = (cs, inl e) ∧ e ≠ ClientDisconnect) ∨
  ∃ m, forward (W := W) registry code d rid r c cs = send_request c rid m r cs.
Proof.
  unfold forward. destruct (forward_headers _ _ _) as [e|h]; [left; by eexists|].
  destruct (py_int _); [right; by eexists|left; by eexists].
Qed.

Lemma login_reply_cases r cs :
  ∃ res, login_reply (W := W) r cs = (cs, res) ∧
    match res with inr (RedirectLogin _ | Answer 401) => True | inl PValueError => True | _ => False end.
Proof. unfold login_reply. repeat case_match; by eexists. Qed.

End handler.

(** ** Aborted uploads *)

Section aborted.
Context {W : Type} `{!WebSocketProtocol W} {S : Type} `{AccountStore S} `{Hmac}.
Context (local : gset pystr) (registry : Registry) (st : option S) (who : option SessionIdentity).
Context (code : pystr).
Implicit Types cs : gmap nat (TunnelConnection W).

(** Requests one after the other, each of which the browser aborts while its
    body is being sent; [None] when one of them ends in another way. *)
Fixpoint aborted (uploads : list (UUID * Request)) cs : option (gmap nat (TunnelConnection W)) :=
  match uploads with
  | [] => Some cs
  | (rid, r) :: uploads' =>
      match proxy_request local registry st who rid code r cs with
      | (cs', inl ClientDisconnect) => aborted uploads' cs'
      | _ => None
      end
  end.

Lemma abort_leaves_stream rid r cs cs' :
  proxy_request local registry st who rid code r cs = (cs', inl ClientDisconnect) →
  ∃ c x x', online registry cs code c ∧ online registry cs' code c ∧
    cs !! c = Some x ∧ cs' !! c = Some x' ∧ size (_streams x') = Datatypes.S (size (_streams x)).
Proof.
  unfold proxy_request. case_bool_decide; [done|].
  destruct (authorize registry st code who) as [[c|c u|e]|d]; try done.
  { destruct (login_reply_cases r cs) as (res & -> & Hres). by intros [= -> ->]. }
  unfold mbind, M_bind, gets. pose proof (get_connection_online registry cs code) as Hg.
  destruct (get_connection (conn_closed cs) code registry).2 as [e|c]; [by destruct e|].
  destruct (online_lookup _ _ _ _ Hg) as (x & Hx & Hopen).
  destruct (forward_cases registry code d rid r c cs) as [(e & E & He)|(m & E)]; rewrite E.
  { by intros [= _ ->]. }
  pose proof (send_request_spec c rid m r cs x Hx) as Hs. intros Er. rewrite Er in Hs.
  destruct Hs as (x' & Hx' & Hc & _ & Hn & ref & Hst).
  exists c, x, x'. split_and!; try done.
  - destruct Hg as (row & Hm & Hon & Hcn & _). exists row. split_and!; try done.
    unfold conn_closed, is_closed. by rewrite Hx', Hc.
  - by rewrite Hst, map_size_insert_None.
Qed.

Lemma aborted_streams uploads cs cs' c x :
  aborted uploads cs = Some cs' → online registry cs code c → cs !! c = Some x →
  online registry cs' code c ∧
  ∃ x', cs' !! c = Some x' ∧ size (_streams x') = (size (_streams x) + length uploads)%nat.
Proof.
  revert cs x. induction uploads as [|[rid r] uploads IH]; intros cs x; cbn [aborted].
  { intros [= <-] Ho Hx. split; [done|]. exists x. simpl. split; [done|lia]. }
  destruct (proxy_request local registry st who rid code r cs) as [cs1 [e|rep]] eqn:E; [|done].
  destruct e; try done. intros Ha Ho Hx.
  destruct (abort_leaves_stream rid r cs cs1 E) as (c' & x0 & x1 & Ho0 & Ho1 & Hx0 & Hx1 & Hsz).
  assert (c' = c) as ->.
  { destruct Ho as (? & _ & _ & Hc & _), Ho0 as (? & _ & _ & Hc0 & _). congruence. }
  simplify_eq. destruct (IH cs1 x1 Ha Ho1 Hx1) as (Ho' & x' & Hx' & Hs'). split; [done|].
  exists x'. split; [done|]. rewrite Hs', Hsz. simpl. lia.
Qed.

Lemma full_refuses c rid m r cs x :
  cs !! c = Some x → (MAX_STREAMS ≤ size (_streams x))%nat →
  (send_request c rid m r cs).2 = inl (PConn (Tun StreamLimitError)).
Proof.
  intros Hx Hsz. unfold send_request, mbind, M_bind. unfold on_conn at 1. rewrite Hx.
  unfold open_stream. by destruct (Nat.leb_spec MAX_STREAMS (size (_streams x))); [|lia].
Qed.

End aborted.

(** ** Properties *)

(** C23: an upload arrives as it was sent: on a working WebSocket the relay turns
    the body of a request, in whatever chunks it comes, into DATA frames of the
    stream with at most 65536 bytes each, and the agent, reading the payloads
    off its queue, gets exactly the body and stops exactly at its end. *)
Theorem upload_roundtrip (c : nat) (rid : UUID) (r : Request)
    (cs : gmap nat (TunnelConnection LogWs)) (x : TunnelConnection LogWs) :
  cs !! c = Some x → lw_error (_ws x) = None → uuid_ok rid → rq_disconnects r = false →
  ∃ frames payloads,
    send_body c rid r cs = (<[c := sent frames x]> cs, inr tt) ∧
    Forall2 (λ f p, deserialize_frame f = inr (DATA, rid, p)) frames payloads ∧
    Forall (λ p, Z.of_nat (length p) ≤ 65536) payloads ∧
    ∀ later, read_body (payloads ++ later) = Some (concat (rq_body r), later).
Proof.
  intros Hc Hx Hu Hd. destruct (send_body_log c rid r cs x Hc Hx Hu Hd) as (fs & Hfs & Hrun).
  exists fs, (body_payloads (rq_body r)). split_and!; [done|done| |apply read_body_payloads].
  destruct (body_slices_spec (rq_body r)) as [_ H2]. apply Forall_app. split.
  - eapply Forall_impl; [exact H2|]. by intros p [].
  - by repeat constructor.
Qed.


(** every upload that the browser aborts costs the mount one stream for good:
    after [MAX_STREAMS] aborted uploads no request of anybody is forwarded to
    the agent any more; one that would be forwarded fails with
    [StreamLimitError]. *)
Theorem aborted_uploads_exhaust {W : Type} `{!WebSocketProtocol W} {S : Type} `{AccountStore S}
    `{Hmac} (local : gset pystr) (registry : Registry) (st : option S) (who : option SessionIdentity)
    (code : pystr) (uploads : list (UUID * Request)) (cs cs' : gmap nat (TunnelConnection W)) :
  aborted local registry st who code uploads cs = Some cs' →
  (MAX_STREAMS ≤ length uploads)%nat →
  ∀ who' rid r,
    let res := (proxy_request local registry st who' rid code r cs').2 in
    (∀ k u, res ≠ inr (AwaitAnswer k u)) ∧
    ∀ d h n, code ∉ local → authorize registry st code who' = inr d →
      forward_headers (rq_headers r) (injected d) (get_identity_secret code registry) = inr h →
      py_int (header (py "content-length") (py "0") r) = Some n →
      res = inl (PConn (Tun StreamLimitError)).
Proof.
  intros Ha Hlen who' rid r.
  assert (∃ c x', online registry cs' code c ∧ cs' !! c = Some x' ∧
                  (MAX_STREAMS ≤ size (_streams x'))%nat) as (c & x' & Ho & Hx' & Hsz).
  { destruct uploads as [|[rid0 r0] uploads]; [simpl in Hlen; unfold MAX_STREAMS in Hlen; lia|].
    pose proof Ha as Ha0. cbn [aborted] in Ha0.
    destruct (proxy_request local registry st who rid0 code r0 cs) as [cs1 [e|rep]] eqn:E; [|done].
    destruct e; try done.
    destruct (abort_leaves_stream _ _ _ _ _ _ _ _ _ E) as (c & x & x1 & Ho & _ & Hx & _).
    destruct (aborted_streams _ _ _ _ _ _ _ _ _ _ Ha Ho Hx) as (Ho' & x' & Hx' & Hs).
    exists c, x'. split_and!; try done. lia. }
  assert (Hconn : (get_connection (conn_closed cs') code registry).2 = inr c).
  { destruct Ho as (row & Hm & Hs & Hc & Hcl). unfold get_connection. by rewrite Hm, Hs, Hc, Hcl. }
  cbv zeta. unfold proxy_request. split.
  - intros k u. case_bool_decide; [done|].
    destruct (authorize registry st code who') as [[|? ?|]|d]; try done.
    { destruct (login_reply_cases r cs') as (res & -> & Hres). simpl. by destruct res as [|[]]. }
    unfold mbind, M_bind, gets. rewrite Hconn.
    destruct (forward_cases registry code d rid r c cs') as [(e & -> & _)|(m & ->)]; [done|].
    by rewrite (full_refuses c rid m r cs' x' Hx' Hsz).
  - intros d h n Hl Hd Hh Hn. rewrite bool_decide_eq_false_2, Hd by done.
    unfold mbind, M_bind, gets. rewrite Hconn. unfold forward. rewrite Hh, Hn.
    by apply full_refuses with x'.
Qed.

(** *** Witnesses *)

Definition demo_request (disconnects : bool) : Request :=
  {| rq_method := py "POST"; rq_url_path := py "/m/abc/api/upload"; rq_path := py "api/upload";
     rq_query := []; rq_headers := [(py "host", py "relay"); (py "content-length", py "3")];
     rq_body := [[Z_byte 1; Z_byte 2]; []; [Z_byte 3]]; rq_disconnects := disconnects |}.

Definition demo_conns : gmap nat (TunnelConnection LogWs) := {[4%nat := init_connection fresh_ws]}.

Definition demo_open_registry : Registry :=
  after_regs [OpRegister (py "abc") (Some 4%nat) (py "10.0.0.1") 0 None] empty_registry.

Lemma upload_roundtrip_witness :
  ∃ frames payloads,
    send_body 4 7 (demo_request false) demo_conns
      = (<[4%nat := sent frames (init_connection fresh_ws)]> demo_conns, inr tt) ∧
    Forall2 (λ f p, deserialize_frame f = inr (DATA, 7, p)) frames payloads ∧
    Forall (λ p, Z.of_nat (length p) ≤ 65536) payloads ∧
    ∀ later, read_body (payloads ++ later) = Some ([Z_byte 1; Z_byte 2; Z_byte 3], later).
Proof.
  apply (upload_roundtrip 4 7 (demo_request false) demo_conns (init_connection fresh_ws));
    [reflexivity|reflexivity|unfold uuid_ok; lia|reflexivity].
Defined.

Definition demo_uploads : list (UUID * Request) :=
  (λ n, (Z.of_nat n, demo_request true)) <$> seq 0 MAX_STREAMS.

(** The connections after the hundred aborted uploads. *)
Definition demo_exhausted : gmap nat (TunnelConnection LogWs) :=
  default ∅ (aborted (S := AccountDb) (H0 := hex_mac) ∅ demo_open_registry None None (py "abc")
               demo_uploads demo_conns).

Lemma demo_exhausted_eq :
  aborted (S := AccountDb) (H0 := hex_mac) ∅ demo_open_registry None None (py "abc")
    demo_uploads demo_conns = Some demo_exhausted.
Proof.
  unfold demo_exhausted.
  destruct (aborted (S := AccountDb) (H0 := hex_mac) ∅ demo_open_registry None None (py "abc")
              demo_uploads demo_conns) eqn:E; [reflexivity|].
  vm_compute in E. discriminate E.
Qed.

(** The next request, of anybody. *)
Lemma aborted_uploads_exhaust_witness :
  (proxy_request (S := AccountDb) (H0 := hex_mac) ∅ demo_open_registry None None 100 (py "abc")
     (demo_request false) demo_exhausted).2 = inl (PConn (Tun StreamLimitError)).
Proof.
  destruct (aborted_uploads_exhaust (S := AccountDb) (H0 := hex_mac) ∅ demo_open_registry None None
    (py "abc") demo_uploads demo_conns demo_exhausted demo_exhausted_eq ltac:(vm_compute; lia)
    None 100 (demo_request false)) as [_ H].
  eapply H; [apply not_elem_of_empty|vm_compute; reflexivity..].
Defined.
