(* ===== verification/AgentWs.v ===== *)
(** The agent endpoint of the relay, [src/relay/app/routers/agent_ws.py]: the
    admission checks, the [agent_auth] handshake, reclaim or registration of the
    mount, and the end of the session.

    The rate limiter of the [limits] library is a parameter, a state with
    [test] and [hit]; the random code of [generate_mount_code] is an argument.
    The handler is cut at the await of the handshake frame, where other handlers
    run: [admission] before it, [register_agent] after it. *)

From stdpp Require Import strings.
From S2P Require Import Prelude Frames Json Tunnel Accounts Registry Session Access.

(** ** Outcomes *)

(** The error frames of the handshake. *)
Inductive AuthError :=
| ExpectedAgentAuth
| VersionMismatch
| InvalidAccessMode
| InvalidOwnerToken
| RestrictedRequiresLogin
| MalformedAllowlistEntry
| UnknownSubject (t : SubjectType) (ref : pystr).

(** Exceptions that leave the handler. *)
Inductive AgentExn :=
| AgSession (e : SessionExn)
| AgRegistry (e : RegistryExn)
| AgStore (e : AccountExn)
| AgNotWired
| AgTypeError
| AgAttributeError.

Record AgentAuth := {
  aa_owner_user_id : option Z;
  aa_owner_username : option pystr;
  aa_access_mode : AccessMode;
  aa_has_password : bool;
  aa_entries : list PolicyEntry;
  aa_identity_secret : option pystr
}.

(** [Refused None] closes the socket without an error frame. *)
Inductive AuthResult :=
| Refused (error : option AuthError)
| AuthOk (auth : AgentAuth).

(** ** Values of the handshake message *)

(** [AccessMode(v)], [SubjectType(v)] and [Role(v)]; [None] is a [ValueError]. *)
Definition access_mode_of (v : json) : option AccessMode :=
  match v with
  | JStr s => if bool_decide (s = py "open") then Some OPEN_MODE
              else if bool_decide (s = py "restricted") then Some RESTRICTED
              else if bool_decide (s = py "legacy") then Some LEGACY else None
  | _ => None
  end.

Definition subject_type_of (v : json) : option SubjectType :=
  match v with
  | JStr s => if bool_decide (s = py "user") then Some USER
              else if bool_decide (s = py "group") then Some GROUP else None
  | _ => None
  end.

Definition role_of (v : json) : option Role :=
  match v with
  | JStr s => if bool_decide (s = py "read") then Some READ
              else if bool_decide (s = py "write") then Some WRITE
              else if bool_decide (s = py "receive") then Some RECEIVE else None
  | _ => None
  end.

(** ** Configuration and rate limiter *)

Record RelayConfig := {
  dropbox_code : pystr;
  max_mounts_per_ip : Z;
  max_ttl_seconds : Z
}.

(** The rate limiter, [test] and [hit] for one client. *)
Record Limiter (L : Type) := { lim_test : pystr → L → bool; lim_hit : pystr → L → L }.
Arguments lim_test {L}.
Arguments lim_hit {L}.

Section agent.
Context `{TimedSerializer} `{PyConv} {S : Type} `{AccountStore S}.

(** [bool(v)] *)
Definition truthy (v : json) : bool :=
  match v with
  | JNull => false
  | JBool b => b
  | JInt z => negb (z =? 0)
  | JFloat raw => float_true raw
  | JStr s => negb (bool_decide (s = []))
  | JArr l => match l with [] => false | _ => true end
  | JObj l => match l with [] => false | _ => true end
  end.

(** [v == n] for an integer [n] *)
Definition eq_int (v : json) (n : Z) : bool :=
  match v with
  | JInt z => z =? n
  | JBool b => (if b then 1 else 0) =? n
  | JFloat raw => float_eq raw n
  | _ => false
  end.

(** [for item in v]; [None] is a [TypeError]. *)
Definition iterate (v : json) : option (list json) :=
  match v with
  | JArr l => Some l
  | JStr s => Some ((λ c, JStr [c]) <$> s)
  | JObj l => Some (JStr <$> l.*1)
  | _ => None
  end.

Definition get_or (key : pystr) (d : json) (msg : list (pystr * json)) : json :=
  default d (dict_get key msg).

(** ** The handshake *)

Definition parse_entry (item : json) : option (SubjectType * pystr * Role) :=
  st ← subscript item (py "subject_type") ≫= subject_type_of;
  ref ← subscript item (py "subject_ref");
  role ← subscript item (py "role") ≫= role_of;
  Some (st, to_str ref, role).

(** The id of the subject; [inr None] when it is unknown. *)
Definition lookup_subject (store : S) (st : SubjectType) (ref : pystr) : AgentExn + option Z :=
  match st with
  | USER =>
      match (store_get_user_by_username ref store).2 with
      | inr u => inr (Some (u_id u))
      | inl UserNotFoundError | inl GroupNotFoundError => inr None
      | inl e => inl (AgStore e)
      end
  | GROUP =>
      match (store_get_group_by_name ref store).2 with
      | inr g => inr (Some (g_id g))
      | inl UserNotFoundError | inl GroupNotFoundError => inr None
      | inl e => inl (AgStore e)
      end
  end.

Fixpoint read_allowlist (store : S) (items : list json) (entries : list PolicyEntry)
    : AgentExn + (AuthError + list PolicyEntry) :=
  match items with
  | [] => inr (inr entries)
  | item :: items' =>
      match parse_entry item with
      | None => inr (inl MalformedAllowlistEntry)
      | Some (st, ref, role) =>
          id ← lookup_subject store st ref;
          match id with
          | None => inr (inl (UnknownSubject st ref))
          | Some i => read_allowlist store items'
                        (entries ++ [{| pe_subject_type := st; pe_subject_id := i; pe_role := role |}])
          end
      end
  end.

(** The owner of a token: its id and name; [inr None] is "invalid owner token". *)
Definition token_owner (session : option RelaySession) (store : option S) (now : time) (token : json)
    : AgentExn + option (Z * pystr) :=
  match session with
  | None => inl AgNotWired
  | Some ses =>
      let uid := match token with
                 | JStr s => verify_agent_owner_token ses now s
                 | _ => inl InvalidSessionError
                 end in
      match uid with
      | inl InvalidSessionError => inr None
      | inl e => inl (AgSession e)
      | inr uid =>
          match store with
          | None => inl AgNotWired
          | Some st =>
              match (store_get_user_by_id uid st).2 with
              | inr u => inr (Some (uid, u_username u))
              | inl UserNotFoundError => inr None
              | inl e => inl (AgStore e)
              end
          end
      end
  end.

(** [identity_secret if isinstance(identity_secret, str) and identity_secret else None] *)
Definition secret_of (v : json) : option pystr :=
  match v with JStr [] => None | JStr s => Some s | _ => None end.

(** The allowlist of the message, resolved; the store is only asked for when
    there is something to resolve. *)
Definition resolve_allowlist (store : option S) (raw_allow : json)
    : AgentExn + (AuthError + list PolicyEntry) :=
  if truthy raw_allow then
    match store, iterate raw_allow with
    | None, _ => inl AgNotWired
    | Some _, None => inl AgTypeError
    | Some st, Some items => read_allowlist st items []
    end
  else inr (inr []).

(** [_read_agent_auth], on the text of the frame ([None]: nothing was received). *)
Definition _read_agent_auth (session : option RelaySession) (store : option S) (now : time)
    (frame : option pystr) : AgentExn + AuthResult :=
  match frame with
  | None => inr (Refused None)
  | Some text =>
      match receive_control text with
      | inl _ => inr (Refused None)
      | inr (JObj msg) =>
          if negb (type_is (py "agent_auth") msg) then inr (Refused (Some ExpectedAgentAuth))
          else if negb (eq_int (get_or (py "protocol_version") JNull msg) PROTOCOL_VERSION)
          then inr (Refused (Some VersionMismatch))
          else
            match access_mode_of (get_or (py "access_mode") (JStr (py "open")) msg) with
            | None => inr (Refused (Some InvalidAccessMode))
            | Some mode =>
                let token := get_or (py "token") JNull msg in
                owner ← (if truthy token then
                           o ← token_owner session store now token;
                           inr (match o with Some x => inr (Some x) | None => inl InvalidOwnerToken end)
                         else inr (inr None)) : AgentExn + (AuthError + option (Z * pystr));
                match owner with
                | inl e => inr (Refused (Some e))
                | inr o =>
                    if bool_decide (mode = RESTRICTED ∧ o = None)
                    then inr (Refused (Some RestrictedRequiresLogin))
                    else
                      entries ← resolve_allowlist store (get_or (py "allowlist") (JArr []) msg);
                      inr match entries with
                      | inl e => Refused (Some e)
                      | inr es =>
                          AuthOk {| aa_owner_user_id := fst <$> o; aa_owner_username := snd <$> o;
                                    aa_access_mode := mode;
                                    aa_has_password := truthy (get_or (py "has_password") (JBool false) msg);
                                    aa_entries := es;
                                    aa_identity_secret := secret_of (get_or (py "identity_secret") JNull msg) |}
                      end
                end
            end
      | inr _ => inl AgAttributeError
      end
  end.

(** ** Admission *)

(** [X-Forwarded-For] or the peer of the socket. *)
Definition client_ip (forwarded peer : option pystr) : pystr :=
  match forwarded with
  | Some ((_ :: _) as f) => strip (default [] (head (split_on 44 f)))
  | _ => default (py "unknown") peer
  end.

Inductive Rejection :=
| ReservedCode
| RateLimited
| TooManyMounts
| BadHandshake (error : option AuthError).

(** The checks before the WebSocket is accepted for good; [None] lets it in. *)
Definition admission {L : Type} (lim : Limiter L) (config : RelayConfig) (code : option pystr) (ip : pystr)
    (r : Registry) (l : L) : L * option Rejection :=
  if bool_decide (code = Some (dropbox_code config)) then (l, Some ReservedCode)
  else if negb (lim_test lim ip l) then (l, Some RateLimited)
  else
    let l := lim_hit lim ip l in
    if max_mounts_per_ip config <=? count_mounts_by_ip ip r then (l, Some TooManyMounts)
    else (l, None).

(** ** Reclaim or register *)

(** [effective_ttl] of a new mount. *)
Definition effective_ttl (config : RelayConfig) (ttl : option Z) : Z :=
  match ttl with Some t => Z.min t (max_ttl_seconds config) | None => max_ttl_seconds config end.

(** What is sent as [mount_registered]. *)
Record Registered := {
  rg_code : pystr;
  rg_ttl : Z;
  rg_expires_in : Z;
  rg_reclaimed : bool;
  rg_remaining_ttl : option Z;
  rg_owner : option pystr
}.

(** Reclaim by owner, then by address. *)
Definition reclaim (now : time) (code : pystr) (c : nat) (owner : option Z) (ip : pystr) (r : Registry)
    : Registry * option Z :=
  match owner with
  | Some u =>
      match try_reclaim_as_owner now code c u r with
      | (r', Some n) => (r', Some n)
      | (r', None) => try_reclaim now code c ip r'
      end
  | None => try_reclaim now code c ip r
  end.

(** The assigned code and the remaining TTL of a reclaimed mount. *)
Definition assign (now : time) (code : option pystr) (fresh : pystr) (c : nat) (owner : option Z)
    (ip : pystr) (r : Registry) : Registry * (pystr * option Z) :=
  match code with
  | None => (r, (fresh, None))
  | Some k =>
      match reclaim now k c owner ip r with
      | (r', Some n) => (r', (k, Some n))
      | (r', None) => (r', (if has_mount k r' then fresh else k, None))
      end
  end.

(** From the handshake to the stored secret.  [now] is the time of the reclaim
    and of the registration. *)
Definition register_agent (config : RelayConfig) (now : time) (code : option pystr) (ttl : option Z)
    (fresh : pystr) (c : nat) (ip : pystr) (auth : AgentAuth) : M Registry AgentExn Registered := λ r,
  let '(r1, (assigned, remaining)) := assign now code fresh c (aa_owner_user_id auth) ip r in
  let '(r2, res) :=
    match remaining with
    | Some _ => (r1, inr tt)
    | None => register assigned (Some c) ip now (Some (now + seconds (effective_ttl config ttl))) r1
    end in
  match res with
  | inl e => (r2, inl (AgRegistry e))
  | inr _ =>
      let r3 := (set_owner_policy assigned (aa_owner_user_id auth) (aa_access_mode auth)
                   (aa_has_password auth) (aa_entries auth) r2).1 in
      let '(r4, res4) :=
        match aa_identity_secret auth with
        | None => (r3, inr tt)
        | Some s => set_identity_secret assigned s r3
        end in
      match res4 with
      | inl e => (r4, inl (AgRegistry e))
      | inr _ =>
          let t := default (effective_ttl config ttl) remaining in
          (r4, inr {| rg_code := assigned; rg_ttl := t; rg_expires_in := t;
                      rg_reclaimed := bool_decide (is_Some remaining);
                      rg_remaining_ttl := remaining; rg_owner := aa_owner_username auth |})
      end
  end.

(** ** The end of the session *)

(** The [finally] clause: an unknown code is ignored. *)
Definition end_session (code : pystr) (r : Registry) : Registry := (mark_offline code r).1.

(** ** A whole session *)

Inductive SessionEnd :=
| Turned_away (why : Rejection)
| Served (reg : Registered)
| Crashed (e : AgentExn)
| AnnounceFailed (e : ConnExn).

(** The handler of one agent that meets no other on the way.  [send_error] is
    what [send_control] raises when the agent is already gone; it happens
    before the [try], so the [finally] clause does not run. *)
Definition agent_websocket {L : Type} (lim : Limiter L) (config : RelayConfig)
    (session : option RelaySession) (store : option S) (now : time) (code : option pystr)
    (ttl : option Z) (fresh : pystr) (c : nat) (ip : pystr) (frame : option pystr)
    (send_error : option ConnExn) (rl : Registry * L) : Registry * L * SessionEnd :=
  let '(r, l) := rl in
  match admission lim config code ip r l with
  | (l', Some why) => (r, l', Turned_away why)
  | (l', None) =>
      match _read_agent_auth session store now frame with
      | inl e => (r, l', Crashed e)
      | inr (Refused e) => (r, l', Turned_away (BadHandshake e))
      | inr (AuthOk auth) =>
          match register_agent config now code ttl fresh c ip auth r with
          | (r', inl e) => (r', l', Crashed e)
          | (r', inr reg) =>
              match send_error with
              | Some e => (r', l', AnnounceFailed e)
              | None => (end_session (rg_code reg) r', l', Served reg)
              end
          end
      end
  end.

End agent.
