(* ===== verification/AgentWsProps.v ===== *)
(** Properties of the agent endpoint: what a successful handshake guarantees, what
    registration stores, the mount cap when handlers do not overlap and when
    they do, and two ways to lose a mount. *)

From stdpp Require Import strings.
From S2P Require Import Prelude Frames Json Tunnel Accounts AccountsProps Registry RegistryProps Session Access AgentWs.

Implicit Types r : Registry.

(** ** Counting mounts *)

(** The address a row counts for. *)
Definition counts_for (m : mount_row) : option pystr :=
  if bool_decide (m_status m = EXPIRED) then None else Some (m_agent_ip m).

Lemma count_alt ip r :
  count_mounts_by_ip ip r
  = Z.of_nat (size (filter (λ kv : pystr * mount_row, counts_for kv.2 = Some ip) (mounts r))).
Proof.
  unfold count_mounts_by_ip. do 2 f_equal. apply map_filter_ext. intros k m _. simpl.
  unfold counts_for. case_bool_decide; naive_solver.
Qed.

(** Only what the rows count for matters. *)
Lemma count_ext ip r r' :
  (∀ k, counts_for <$> mounts r' !! k = counts_for <$> mounts r !! k) →
  count_mounts_by_ip ip r' = count_mounts_by_ip ip r.
Proof.
  intros Hk. rewrite !count_alt.
  assert (Hf : ∀ m : gmap pystr mount_row,
    size (filter (λ kv : pystr * mount_row, counts_for kv.2 = Some ip) m)
    = size (filter (λ kv : pystr * option pystr, kv.2 = Some ip) (counts_for <$> m))).
  { intros m. rewrite map_filter_fmap. by rewrite map_size_fmap. }
  rewrite !Hf. do 3 f_equal. apply map_eq. intros k. by rewrite !lookup_fmap.
Qed.

Lemma count_register ip r k row :
  count_mounts_by_ip ip (set_mounts (<[k := row]> (mounts r)) r)
  ≤ count_mounts_by_ip ip r + (if bool_decide (counts_for row = Some ip) then 1 else 0).
Proof.
  rewrite !count_alt. simpl. rewrite map_filter_insert. simpl.
  case_bool_decide; rewrite ?decide_True, ?decide_False by done.
  - rewrite map_size_insert. destruct (filter _ (mounts r) !! k); unfold id; lia.
  - rewrite map_filter_delete, map_size_delete. destruct (filter _ (mounts r) !! k); simpl; lia.
Qed.

Lemma count_register_fresh ip r k row :
  mounts r !! k = None → counts_for row = Some ip →
  count_mounts_by_ip ip (set_mounts (<[k := row]> (mounts r)) r) = count_mounts_by_ip ip r + 1.
Proof.
  intros Hk Hrow. rewrite !count_alt. simpl. rewrite map_filter_insert_True by done.
  rewrite map_size_insert_None; [lia|]. apply map_lookup_filter_None. by left.
Qed.

(** ** Reclaim and registration *)

Lemma reclaim_spec now k c owner ip r :
  reclaim now k c owner ip r = (r, None) ∨
  ∃ row n, mounts r !! k = Some row ∧ m_status row = OFFLINE ∧
    has_expired now (m_expires_at row) = false ∧
    (m_agent_ip row = ip ∨ ∃ u, owner = Some u ∧ m_owner_user_id row = Some u) ∧
    reclaim now k c owner ip r = (bring_online k c r, Some n).
Proof.
  unfold reclaim. destruct owner as [u|].
  - destruct (reclaim_owner_cases now k c u r) as [->|(row & H1 & H2 & H3 & H4 & ->)].
    + destruct (reclaim_cases now k c ip r) as [->|(row & H1 & H2 & H3 & H4 & ->)]; [by left|].
      right. eauto 10.
    + right. eauto 12.
  - destruct (reclaim_cases now k c ip r) as [->|(row & H1 & H2 & H3 & H4 & ->)]; [by left|].
    right. eauto 10.
Qed.

(** The row of the mount before its policy is stored, and where it comes from. *)
Definition came_from (config : RelayConfig) (now : time) (code : option pystr) (ttl : option Z)
    (fresh k ip : pystr) (owner : option Z) (remaining : option Z) r (row : mount_row) : Prop :=
  match remaining with
  | Some _ => code = Some k ∧ ∃ old, mounts r !! k = Some old ∧ m_status old = OFFLINE ∧
      has_expired now (m_expires_at old) = false ∧
      (m_agent_ip old = ip ∨ ∃ u, owner = Some u ∧ m_owner_user_id old = Some u) ∧
      row = with_status ONLINE old
  | None => (k = fresh ∨ code = Some k ∧ mounts r !! k = None) ∧ m_status row = ONLINE ∧
      m_agent_ip row = ip ∧ m_ttl_warned row = false ∧
      m_expires_at row = Some (now + seconds (effective_ttl config ttl))
  end.

(** Every mount but [k] is as it was. *)
Definition others_kept (k : pystr) r r' : Prop :=
  ∀ k', k' ≠ k → mounts r' !! k' = mounts r !! k' ∧ _connections r' !! k' = _connections r !! k' ∧
                 ∀ e, e ∈ policy_entries k' r' ↔ e ∈ policy_entries k' r.

Lemma policy_of_other k owner mode pw entries r k' e :
  k' ≠ k →
  e ∈ policy_entries k' (set_owner_policy k owner mode pw entries r).1 ↔ e ∈ policy_entries k' r.
Proof.
  intros Hk. destruct e as [t id role]. rewrite !elem_policy_entries. unfold set_owner_policy.
  destruct (mounts r !! k); [|done]. simpl. rewrite insert_policies_lookup, decide_False by done.
  rewrite map_lookup_filter_Some. simpl. naive_solver.
Qed.

Lemma policy_of_same k owner mode pw entries r t id role :
  is_Some (mounts r !! k) →
  {| pe_subject_type := t; pe_subject_id := id; pe_role := role |} ∈
    policy_entries k (set_owner_policy k owner mode pw entries r).1
  ↔ last_role t id entries = Some role.
Proof.
  intros [row Hrow]. rewrite elem_policy_entries. unfold set_owner_policy. rewrite Hrow. simpl.
  rewrite insert_policies_lookup, decide_True by done. unfold last_role.
  by rewrite (proj2 (map_lookup_filter_None _ _ _)); [|right; intros x _ []].
Qed.

(** Assignment and registration, before the policy. *)
Lemma occupy config now code ttl fresh c ip owner r r1 k remaining :
  assign now code fresh c owner ip r = (r1, (k, remaining)) →
  let '(r2, res) := match remaining with
                    | Some _ => (r1, inr tt)
                    | None => register k (Some c) ip now (Some (now + seconds (effective_ttl config ttl))) r1
                    end in
  match res with
  | inl e => r2 = r ∧ k = [] ∧ e = RegValueError
  | inr _ => ∃ row, mounts r2 = <[k := row]> (mounts r) ∧ _connections r2 = <[k := c]> (_connections r) ∧
      mount_policy r2 = mount_policy r ∧ _identity_secrets r2 = _identity_secrets r ∧
      came_from config now code ttl fresh k ip owner remaining r row
  end.
Proof.
  unfold assign. intros Ha. assert (Hcases :
    (remaining = None ∧ r1 = r ∧ (k = fresh ∨ code = Some k ∧ mounts r !! k = None)) ∨
    ∃ n row, remaining = Some n ∧ code = Some k ∧ r1 = bring_online k c r ∧
      mounts r !! k = Some row ∧ m_status row = OFFLINE ∧ has_expired now (m_expires_at row) = false ∧
      (m_agent_ip row = ip ∨ ∃ u, owner = Some u ∧ m_owner_user_id row = Some u)).
  { destruct code as [k'|]; [|simplify_eq; left; auto].
    destruct (reclaim_spec now k' c owner ip r) as [E|(row & n & H1 & H2 & H3 & H4 & E)];
      rewrite E in Ha; simplify_eq; [left|right; eauto 12].
    unfold has_mount. case_bool_decide as Hm; [auto|]. apply eq_None_not_Some in Hm. auto. }
  destruct Hcases as [(-> & -> & Hk)|(n & row & -> & -> & -> & Hrow & Hs & Hx & Ho)].
  - unfold register. case_bool_decide; [done|]. simpl. eexists. split_and!; try done.
  - exists (with_status ONLINE row). unfold bring_online, update_status. simpl. split_and!; try done.
    + apply map_eq. intros j. destruct (decide (j = k)) as [->|Hne].
      * by rewrite lookup_alter_eq, lookup_insert_eq, Hrow.
      * by rewrite lookup_alter_ne, lookup_insert_ne.
    + eexists. eauto.
Qed.

Lemma register_agent_cases config now code ttl fresh c ip auth r :
  match register_agent config now code ttl fresh c ip auth r with
  | (r', inl e) => e = AgRegistry RegValueError ∧
      (mounts r' = mounts r ∨ ∃ k remaining row,
         came_from config now code ttl fresh k ip (aa_owner_user_id auth) remaining r row ∧
         mounts r' = <[k := with_policy (aa_owner_user_id auth) (aa_access_mode auth)
                              (aa_has_password auth) row]> (mounts r))
  | (r', inr reg) =>
      let k := rg_code reg in
      ∃ row, came_from config now code ttl fresh k ip (aa_owner_user_id auth) (rg_remaining_ttl reg) r row ∧
        mounts r' = <[k := with_policy (aa_owner_user_id auth) (aa_access_mode auth)
                             (aa_has_password auth) row]> (mounts r) ∧
        _connections r' = <[k := c]> (_connections r) ∧
        (∀ t id role, {| pe_subject_type := t; pe_subject_id := id; pe_role := role |} ∈ policy_entries k r'
                      ↔ last_role t id (aa_entries auth) = Some role) ∧
        (∀ k' e, k' ≠ k → e ∈ policy_entries k' r' ↔ e ∈ policy_entries k' r) ∧
        rg_reclaimed reg = bool_decide (is_Some (rg_remaining_ttl reg)) ∧
        rg_ttl reg = default (effective_ttl config ttl) (rg_remaining_ttl reg) ∧
        get_identity_secret k r' = match aa_identity_secret auth with
                                   | Some s => Some s
                                   | None => get_identity_secret k r
                                   end
  end.
Proof.
  unfold register_agent.
  destruct (assign now code fresh c (aa_owner_user_id auth) ip r) as [r1 [k remaining]] eqn:Ea.
  pose proof (occupy config now code ttl fresh c ip (aa_owner_user_id auth) r r1 k remaining Ea) as Ho.
  destruct (match remaining with Some _ => _ | None => _ end) as [r2 [e|[]]].
  { destruct Ho as (-> & _ & ->). auto. }
  destruct Ho as (row & Hm & Hc & Hp & Hsec & Hfrom).
  assert (is_Some (mounts r2 !! k)) as Hk by (rewrite Hm, lookup_insert_eq; eauto).
  set (r3 := (set_owner_policy k _ _ _ _ r2).1).
  assert (Hr3 : mounts r3 = <[k := with_policy (aa_owner_user_id auth) (aa_access_mode auth)
                                     (aa_has_password auth) row]> (mounts r) ∧
                _connections r3 = <[k := c]> (_connections r) ∧
                _identity_secrets r3 = _identity_secrets r).
  { unfold r3, set_owner_policy. rewrite Hm, lookup_insert_eq. simpl. split_and!; [|done..].
    by rewrite alter_insert_eq. }
  destruct Hr3 as (Hm3 & Hc3 & Hs3).
  assert (Hpol : ∀ k' e, k' ≠ k → e ∈ policy_entries k' r3 ↔ e ∈ policy_entries k' r).
  { intros k' [t id role] Hne. unfold r3. rewrite policy_of_other by done.
    by rewrite !elem_policy_entries, Hp. }
  pose proof (λ t id role, policy_of_same k (aa_owner_user_id auth) (aa_access_mode auth)
    (aa_has_password auth) (aa_entries auth) r2 t id role Hk) as Hent. fold r3 in Hent.
  unfold get_identity_secret. destruct (aa_identity_secret auth) as [s|].
  - unfold set_identity_secret.
    destruct (bool_decide (k = [])); [eauto 10|]. destruct (bool_decide (s = [])); [eauto 10|].
    exists row. split_and!; try done. simpl. by rewrite lookup_insert_eq.
  - exists row. split_and!; try done. simpl. by rewrite Hs3.
Qed.

(** What the rows count for, after a registration. *)
Lemma came_from_count config now code ttl fresh k ip owner remaining r row pol mode pw r' ip' :
  came_from config now code ttl fresh k ip owner remaining r row →
  mounts r' = <[k := with_policy pol mode pw row]> (mounts r) →
  count_mounts_by_ip ip' r' ≤ count_mounts_by_ip ip' r + (if bool_decide (ip' = ip) then 1 else 0).
Proof.
  intros Hf Hm. destruct remaining as [n|]; simpl in Hf.
  - destruct Hf as (_ & old & Hold & Hs & _ & _ & ->).
    rewrite (count_ext ip' r r'); [case_match; lia|]. intros j. rewrite Hm.
    destruct (decide (j = k)) as [->|Hne]; [|by rewrite lookup_insert_ne].
    rewrite lookup_insert_eq, Hold. simpl. unfold counts_for. simpl. by rewrite Hs.
  - destruct Hf as (_ & Hs & Hip & _).
    pose proof (count_register ip' r k (with_policy pol mode pw row)) as Hc.
    assert (counts_for (with_policy pol mode pw row) = Some ip) as Hcf.
    { unfold counts_for. simpl. by rewrite Hs, Hip. }
    rewrite Hcf in Hc. etrans; [|etrans; [exact Hc|]].
    + apply Z.eq_le_incl, count_ext. intros j. by rewrite Hm.
    + repeat case_bool_decide; simplify_eq; lia.
Qed.

Lemma register_agent_count config now code ttl fresh c ip auth r ip' :
  count_mounts_by_ip ip' (register_agent config now code ttl fresh c ip auth r).1
  ≤ count_mounts_by_ip ip' r + (if bool_decide (ip' = ip) then 1 else 0).
Proof.
  pose proof (register_agent_cases config now code ttl fresh c ip auth r) as Hc.
  destruct (register_agent config now code ttl fresh c ip auth r) as [r' [e|reg]]; simpl in *.
  - destruct Hc as [_ [Hm|(k & remaining & row & Hf & Hm)]]; [|by eapply came_from_count].
    rewrite (count_ext ip' r r'); [case_match; lia|]. intros j. by rewrite Hm.
  - destruct Hc as (row & Hf & Hm & _). by eapply came_from_count.
Qed.

Lemma end_session_count k r ip : count_mounts_by_ip ip (end_session k r) = count_mounts_by_ip ip r.
Proof.
  apply count_ext. intros j. unfold end_session, mark_offline.
  destruct (mounts r !! k) as [row|] eqn:Ek; [|done]. simpl.
  destruct (m_status row) eqn:Es; try done. simpl.
  destruct (decide (j = k)) as [->|Hne]; [|by rewrite lookup_alter_ne].
  rewrite lookup_alter_eq, Ek. simpl. unfold counts_for. simpl. by rewrite Es.
Qed.

(** ** Sweeps and offline rows *)

Lemma sweep_keeps_offline now warn ok r k row :
  mounts r !! k = Some row → m_status row = OFFLINE →
  mounts (sweep_once now warn ok r).1 !! k = Some row.
Proof.
  intros Hrow Hs. rewrite sweep_rows, Hrow. simpl. unfold past_retention, swept_row.
  by rewrite Hs, Hs.
Qed.

Definition sweeps (l : list (time * time * (nat → bool))) r : Registry :=
  fold_left (λ r '(now, warn, ok), (sweep_once now warn ok r).1) l r.

Lemma sweeps_keep_offline l r k row :
  mounts r !! k = Some row → m_status row = OFFLINE → mounts (sweeps l r) !! k = Some row.
Proof.
  revert r. induction l as [|[[now warn] ok] l IH]; intros r H1 H2; [done|].
  apply IH; [|done]. by apply sweep_keeps_offline.
Qed.

(** The OFFLINE mounts of an address. *)
Definition offline_of (ip : pystr) r : gmap pystr mount_row :=
  filter (λ kv : pystr * mount_row, m_status kv.2 = OFFLINE ∧ m_agent_ip kv.2 = ip) (mounts r).

Lemma offline_count ip l r :
  Z.of_nat (size (offline_of ip r)) ≤ count_mounts_by_ip ip (sweeps l r).
Proof.
  rewrite count_alt. apply Nat2Z.inj_le, map_subseteq_size, map_subseteq_spec.
  intros k row [Hrow [Hs Hip]]%map_lookup_filter_Some. simpl in *.
  apply map_lookup_filter_Some. split; [by apply sweeps_keep_offline|].
  unfold counts_for. simpl. by rewrite Hs, Hip.
Qed.

(** ** Handlers that wait for their handshake at the same time *)

(** The registry, the limiter and the addresses of the admitted agents whose
    handshake has not arrived yet. *)
Inductive agents_step {L : Type} (lim : Limiter L) (config : RelayConfig)
    : Registry * L * list pystr → Registry * L * list pystr → Prop :=
| step_arrive r l l' waiting code ip :
    admission lim config code ip r l = (l', None) →
    agents_step lim config (r, l, waiting) (r, l', waiting ++ [ip])
| step_finish r r' l w1 w2 ip now code ttl fresh c auth res :
    register_agent config now code ttl fresh c ip auth r = (r', res) →
    agents_step lim config (r, l, w1 ++ ip :: w2) (r', l, w1 ++ w2).

Definition plain_auth : AgentAuth :=
  {| aa_owner_user_id := None; aa_owner_username := None; aa_access_mode := OPEN_MODE;
     aa_has_password := false; aa_entries := []; aa_identity_secret := None |}.

Lemma register_fresh_count config k ip r :
  k ≠ [] → mounts r !! k = None →
  let r' := (register_agent config 0 None None k 0%nat ip plain_auth r).1 in
  count_mounts_by_ip ip r' = count_mounts_by_ip ip r + 1 ∧
  ∀ j, j ≠ k → mounts r' !! j = mounts r !! j.
Proof.
  intros Hk Hr. pose proof (register_agent_cases config 0 None None k 0%nat ip plain_auth r) as Hc.
  unfold register_agent in *. simpl in *. unfold register in *.
  rewrite (bool_decide_eq_false_2 (k = [])) in * by done. simpl in *.
  destruct Hc as (row & (_ & Hs & Hip & _) & Hm & _). split.
  - rewrite <-(count_register_fresh ip r k (with_policy None OPEN_MODE false row)) by
      (done || (unfold counts_for; simpl; by rewrite Hs, Hip)).
    apply count_ext. intros j. by rewrite Hm.
  - intros j Hj. rewrite Hm. by apply lookup_insert_ne.
Qed.

Section race.
Context {L : Type} (lim : Limiter L) (config : RelayConfig) (ip : pystr).
Hypothesis unlimited : ∀ ip l, lim_test lim ip l = true.
Hypothesis cap_pos : 0 < max_mounts_per_ip config.

Lemma all_arrive n l waiting :
  ∃ l', rtc (agents_step lim config) (empty_registry, l, waiting)
                                     (empty_registry, l', waiting ++ replicate n ip).
Proof.
  revert l waiting. induction n as [|n IH]; intros l waiting.
  - exists l. rewrite app_nil_r. done.
  - destruct (IH (lim_hit lim ip l) (waiting ++ [ip])) as (l' & Hl). exists l'.
    eapply rtc_l; [|by rewrite <-(assoc_L (++)) in Hl].
    apply step_arrive with (code := None). unfold admission.
    rewrite bool_decide_eq_false_2, unlimited by done. simpl.
    destruct (Z.leb_spec (max_mounts_per_ip config) (count_mounts_by_ip ip empty_registry)); [|done].
    change (count_mounts_by_ip ip empty_registry) with 0 in *. lia.
Qed.

(** The handlers of the codes [[n], [n-1], ...] finish. *)
Lemma all_finish n r l :
  (∀ i, (i < n)%nat → mounts r !! [Z.of_nat i] = None) →
  ∃ r', rtc (agents_step lim config) (r, l, replicate n ip) (r', l, []) ∧
        count_mounts_by_ip ip r' = count_mounts_by_ip ip r + Z.of_nat n.
Proof.
  revert r. induction n as [|n IH]; intros r Hfree.
  - exists r. split; [done|lia].
  - destruct (register_fresh_count config [Z.of_nat n] ip r) as [Hc Ho]; [done|apply Hfree; lia|].
    set (r1 := (register_agent config 0 None None [Z.of_nat n] 0%nat ip plain_auth r).1) in *.
    destruct (IH r1) as (r' & Hr & Hcount).
    { intros i Hi. rewrite Ho; [apply Hfree; lia|]. intros [= E]. lia. }
    exists r'. split; [|rewrite Hcount, Hc; lia].
    eapply rtc_l; [|exact Hr].
    eapply (step_finish lim config r r1 l [] (replicate n ip) ip 0 None None [Z.of_nat n] 0%nat plain_auth).
    apply surjective_pairing.
Qed.

End race.

(** ** The allowlist of a handshake *)

Section handshake.
Context `{TimedSerializer} `{PyConv} {S : Type} `{AccountStore S}.











End handshake.

(** ** Properties of the sessions *)

(** a registered agent is reachable under its code with the policy of its
    handshake: the proxy finds its connection, [get_policy] returns its owner,
    mode, password flag and allowlist, a new mount expires no later than the
    configured maximum allows while a reclaimed one keeps its address and expiry,
    and no other mount is touched. *)
Theorem register_agent_spec (config : RelayConfig) (now : time) (code : option pystr) (ttl : option Z)
    (fresh : pystr) (c : nat) (ip : pystr) (auth : AgentAuth) (r r' : Registry) (reg : Registered) :
  register_agent config now code ttl fresh c ip auth r = (r', inr reg) →
  let k := rg_code reg in
  get_connection (λ _, false) k r' = (r', inr c) ∧
  (∃ p, get_policy k r' = (r', inr p) ∧ mp_owner_user_id p = aa_owner_user_id auth ∧
     mp_access_mode p = aa_access_mode auth ∧ mp_has_password p = aa_has_password auth ∧
     ∀ t id role, {| pe_subject_type := t; pe_subject_id := id; pe_role := role |} ∈ mp_entries p
                  ↔ last_role t id (aa_entries auth) = Some role) ∧
  (∃ row, mounts r' !! k = Some row ∧
     if rg_reclaimed reg
     then ∃ old, mounts r !! k = Some old ∧ m_status old = OFFLINE ∧
            m_expires_at row = m_expires_at old ∧ m_agent_ip row = m_agent_ip old
     else m_agent_ip row = ip ∧ m_expires_at row = Some (now + seconds (rg_ttl reg)) ∧
          rg_ttl reg ≤ max_ttl_seconds config) ∧
  others_kept k r r'.
Proof.
  intros E k. pose proof (register_agent_cases config now code ttl fresh c ip auth r) as Hc.
  rewrite E in Hc. destruct Hc as (row & Hf & Hm & Hc & Hent & Hoth & Hrec & Httl & _). fold k in Hf, Hm, Hc, Hent, Hoth.
  assert (Hrow : mounts r' !! k = Some (with_policy (aa_owner_user_id auth) (aa_access_mode auth)
                                          (aa_has_password auth) row)).
  { rewrite Hm. apply lookup_insert_eq. }
  split_and!.
  - unfold get_connection. rewrite Hrow, Hc, lookup_insert_eq. simpl.
    destruct (rg_remaining_ttl reg); simpl in Hf; [|by destruct Hf as (_ & -> & _)].
    by destruct Hf as (_ & old & _ & _ & _ & _ & ->).
  - eexists. split; [unfold get_policy; rewrite Hrow; reflexivity|]. simpl. auto.
  - eexists. split; [exact Hrow|]. rewrite Hrec, Httl. simpl.
    destruct (rg_remaining_ttl reg) as [n|]; simpl in Hf |- *.
    + destruct Hf as (_ & old & Ho & Hs & _ & _ & ->). eauto.
    + destruct Hf as (_ & _ & Hip & _ & Hx).
      split_and!; [done|done|]. unfold effective_ttl. destruct ttl; lia.
  - intros k' Hk'. split_and!.
    + rewrite Hm. by apply lookup_insert_ne.
    + rewrite Hc. by apply lookup_insert_ne.
    + intros e. by apply Hoth.
Qed.

(** One agent that comes, is served and goes, without meeting another. *)
Record Visit := {
  v_now : time; v_code : option pystr; v_ttl : option Z; v_fresh : pystr; v_conn : nat;
  v_ip : pystr; v_frame : option pystr; v_send_error : option ConnExn
}.

(** when agents do not overlap in their handshakes, no address ever has more
    mounts than the configured cap, whatever the agents ask for and however
    their sessions end. *)
Theorem sessions_keep_cap `{TimedSerializer} `{PyConv} {S : Type} `{AccountStore S} {L : Type}
    (lim : Limiter L) (config : RelayConfig) (session : option RelaySession) (store : option S)
    (visits : list Visit) (r : Registry) (l : L) :
  (∀ ip, count_mounts_by_ip ip r ≤ max_mounts_per_ip config) →
  ∀ ip, count_mounts_by_ip ip
    (fold_left (λ rl v, (agent_websocket lim config session store (v_now v) (v_code v) (v_ttl v)
       (v_fresh v) (v_conn v) (v_ip v) (v_frame v) (v_send_error v) rl).1) visits (r, l)).1
  ≤ max_mounts_per_ip config.
Proof.
  revert r l. induction visits as [|v visits IH]; intros r l Hcap; [done|]. cbn [fold_left].
  set (st := agent_websocket _ _ _ _ _ _ _ _ _ _ _ _ _).
  assert (Hst : ∀ ip, count_mounts_by_ip ip st.1.1 ≤ max_mounts_per_ip config).
  2:{ destruct st as [[r1 l1] o]. by apply IH. }
  intros ip. subst st. unfold agent_websocket.
  destruct (admission lim config (v_code v) (v_ip v) r l) as [l' [why|]] eqn:Ea; [apply Hcap|].
  assert (Hlt : count_mounts_by_ip (v_ip v) r < max_mounts_per_ip config).
  { unfold admission in Ea. repeat case_match; simplify_eq. by bool_prop. }
  destruct (_read_agent_auth session store (v_now v) (v_frame v)) as [e|[e|auth]]; [apply Hcap..|].
  pose proof (register_agent_count config (v_now v) (v_code v) (v_ttl v) (v_fresh v) (v_conn v)
                (v_ip v) auth r ip) as Hc.
  specialize (Hcap ip).
  destruct (register_agent config _ _ _ _ _ _ auth r) as [r' [e|reg]]; simpl in Hc;
    [|destruct (v_send_error v)]; simpl; rewrite ?end_session_count;
    case_bool_decide; subst; lia.
Qed.

(** the cap does not hold when handshakes overlap: the count is checked before
    the handler waits for the handshake frame and not again, so any number of
    agents of one address can be admitted and then registered. *)
Theorem mount_cap_race {L : Type} (lim : Limiter L) (config : RelayConfig) (ip : pystr) (l : L) (n : nat) :
  (∀ ip l, lim_test lim ip l = true) → 0 < max_mounts_per_ip config →
  ∃ r l', rtc (agents_step lim config) (empty_registry, l, []) (r, l', []) ∧
          count_mounts_by_ip ip r = Z.of_nat n.
Proof.
  intros Hl Hcap. destruct (all_arrive lim config ip Hl Hcap n l []) as (l' & H1).
  destruct (all_finish lim config ip n empty_registry l') as (r & H2 & Hc); [done|].
  exists r, l'. split; [etrans; eassumption|]. by rewrite Hc.
Qed.

(** an address whose OFFLINE mounts fill the cap is locked out: no number of
    TTL sweeps frees them, and every later agent of that address is turned away
    before it can reclaim one of them. *)
Theorem offline_mounts_lock_out `{TimedSerializer} `{PyConv} {S : Type} `{AccountStore S} {L : Type}
    (lim : Limiter L) (config : RelayConfig) (session : option RelaySession) (store : option S)
    (r : Registry) (ip : pystr) (l : list (time * time * (nat → bool))) :
  max_mounts_per_ip config ≤ Z.of_nat (size (offline_of ip r)) →
  ∀ now code ttl fresh c frame send_error st,
  ∃ why st', agent_websocket lim config session store now code ttl fresh c ip frame send_error
               (sweeps l r, st) = (sweeps l r, st', Turned_away why).
Proof.
  intros Hcap. intros. unfold agent_websocket, admission.
  case_bool_decide; [eauto|]. destruct (negb _); [eauto|].
  pose proof (offline_count ip l r).
  destruct (Z.leb_spec (max_mounts_per_ip config) (count_mounts_by_ip ip (sweeps l r))); [eauto|lia].
Qed.

(** the address alone is enough to take over somebody's offline mount: an
    agent that logs in as nobody and comes from the address of an OFFLINE mount
    reclaims it, whoever owns it, and its own policy replaces the owner's. *)
Theorem reclaim_takes_over (config : RelayConfig) (now : time) (k : pystr) (ttl : option Z)
    (fresh : pystr) (c : nat) (auth : AgentAuth) (r : Registry) (row : mount_row) :
  mounts r !! k = Some row → m_status row = OFFLINE → has_expired now (m_expires_at row) = false →
  k ≠ [] → aa_owner_user_id auth = None → aa_identity_secret auth ≠ Some [] →
  ∃ r' reg row', register_agent config now (Some k) ttl fresh c (m_agent_ip row) auth r = (r', inr reg) ∧
    rg_code reg = k ∧ rg_reclaimed reg = true ∧ mounts r' !! k = Some row' ∧
    m_status row' = ONLINE ∧ m_owner_user_id row' = None ∧ m_access_mode row' = aa_access_mode auth.
Proof.
  intros Hrow Hs Hx Hk Ho Hsec.
  assert (E : assign now (Some k) fresh c (aa_owner_user_id auth) (m_agent_ip row) r
              = (bring_online k c r, (k, Some (remaining_ttl now (m_expires_at row))))).
  { unfold assign, reclaim. rewrite Ho. unfold try_reclaim.
    by rewrite Hrow, !bool_decide_eq_true_2, Hx by done. }
  pose proof (register_agent_cases config now (Some k) ttl fresh c (m_agent_ip row) auth r) as Hc.
  destruct (register_agent config now (Some k) ttl fresh c (m_agent_ip row) auth r)
    as [r' [e|reg]] eqn:Er; unfold register_agent in Er; rewrite E in Er.
  - destruct (aa_identity_secret auth) as [s|]; [|done]. unfold set_identity_secret in Er.
    rewrite !bool_decide_eq_false_2 in Er by naive_solver. done.
  - assert (Hreg : rg_code reg = k ∧ is_Some (rg_remaining_ttl reg)).
    { destruct (aa_identity_secret auth) as [s|]; [|by simplify_eq/=; eauto].
      unfold set_identity_secret in Er. rewrite !bool_decide_eq_false_2 in Er by naive_solver.
      by simplify_eq/=; eauto. }
    destruct Hreg as [Hcode [n Hn]].
    destruct Hc as (row0 & Hf & Hm & _ & _ & _ & Hrec & _). rewrite Hcode, Hn in *.
    destruct Hf as (_ & old & Hold & _ & _ & _ & ->). simplify_eq.
    eexists r', reg, _. split; [done|]. split; [done|]. split; [by rewrite Hrec|].
    split; [rewrite Hm; apply lookup_insert_eq|]. simpl. by rewrite Ho.
Qed.

(** an agent that is gone before its mount is announced leaves a mount that
    looks alive: when sending [mount_registered] fails the clean-up clause is
    not reached, the registry still hands out the dead connection, and the
    agent cannot reclaim its code because the mount is not OFFLINE. *)
Theorem lost_agent_stays_online `{TimedSerializer} `{PyConv} {S : Type} `{AccountStore S} {L : Type}
    (lim : Limiter L) (config : RelayConfig) (session : option RelaySession) (store : option S)
    (now : time) (code : option pystr) (ttl : option Z) (fresh : pystr) (c : nat) (ip : pystr)
    (frame : option pystr) (e : ConnExn) (r r' : Registry) (l l' : L) :
  agent_websocket lim config session store now code ttl fresh c ip frame (Some e) (r, l)
    = (r', l', AnnounceFailed e) →
  ∃ k, get_connection (λ _, false) k r' = (r', inr c) ∧
    ∀ now' c' ip', try_reclaim now' k c' ip' r' = (r', None).
Proof.
  unfold agent_websocket. destruct (admission _ _ _ _ _ _) as [l1 [why|]]; [done|].
  destruct (_read_agent_auth session store now frame) as [x|[x|auth]]; [done|done|].
  pose proof (register_agent_cases config now code ttl fresh c ip auth r) as Hc.
  destruct (register_agent config now code ttl fresh c ip auth r) as [r1 [x|reg]].
  { done. }
  intros [= <- <-]. destruct Hc as (row & Hf & Hm & Hconn & _). exists (rg_code reg).
  assert (m_status row = ONLINE) as Hs.
  { destruct (rg_remaining_ttl reg); [by destruct Hf as (_ & ? & _ & _ & _ & _ & ->)|].
    by destruct Hf as (_ & ? & _). }
  unfold get_connection, try_reclaim. rewrite Hm, Hconn, !lookup_insert_eq. simpl. by rewrite Hs.
Qed.

(** *** Witnesses *)

Definition demo_relay_config : RelayConfig :=
  {| dropbox_code := py "dropbox"; max_mounts_per_ip := 1; max_ttl_seconds := 86400 |}.

Definition no_limit : Limiter unit := {| lim_test _ _ := true; lim_hit _ l := l |}.

(** The handshake of an agent without login. *)
Definition demo_frame : pystr :=
  dumps (JObj [(py "type", JStr (py "agent_auth")); (py "protocol_version", JInt 1);
               (py "has_password", JBool true); (py "identity_secret", JStr (py "s3cret"))]).

Definition demo_auth : AgentAuth :=
  {| aa_owner_user_id := None; aa_owner_username := None; aa_access_mode := OPEN_MODE;
     aa_has_password := true; aa_entries := []; aa_identity_secret := Some (py "s3cret") |}.





Definition demo_registered : Registry * (AgentExn + Registered) :=
  register_agent demo_relay_config 0 (Some (py "abc")) (Some 600) (py "x") 4%nat (py "10.0.0.1")
    demo_auth empty_registry.

Lemma register_agent_spec_witness :
  get_connection (λ _, false) (py "abc") demo_registered.1 = (demo_registered.1, inr 4%nat).
Proof.
  apply (register_agent_spec demo_relay_config 0 (Some (py "abc")) (Some 600) (py "x") 4%nat
    (py "10.0.0.1") demo_auth empty_registry demo_registered.1
    {| rg_code := py "abc"; rg_ttl := 600; rg_expires_in := 600; rg_reclaimed := false;
       rg_remaining_ttl := None; rg_owner := None |}).
  vm_compute. reflexivity.
Defined.

Definition demo_visit (code : pystr) : Visit :=
  {| v_now := 0; v_code := Some code; v_ttl := None; v_fresh := py "x"; v_conn := 4%nat;
     v_ip := py "10.0.0.1"; v_frame := Some demo_frame; v_send_error := None |}.

(** The second agent of the address is turned away. *)
Lemma sessions_keep_cap_witness :
  count_mounts_by_ip (py "10.0.0.1")
    (fold_left (λ rl v, (agent_websocket (H := plain_serializer) (H0 := no_conv) (S := AccountDb)
       no_limit demo_relay_config None None (v_now v) (v_code v) (v_ttl v)
       (v_fresh v) (v_conn v) (v_ip v) (v_frame v) (v_send_error v) rl).1)
       [demo_visit (py "abc"); demo_visit (py "def")] (empty_registry, tt)).1 ≤ 1.
Proof.
  apply (sessions_keep_cap (H := plain_serializer) (H0 := no_conv) (S := AccountDb)
    no_limit demo_relay_config None None [demo_visit (py "abc"); demo_visit (py "def")]
    empty_registry tt).
  intros ip. vm_compute. discriminate.
Defined.

(** Nine mounts of one address under a cap of one. *)
Lemma mount_cap_race_witness :
  ∃ r l', rtc (agents_step no_limit demo_relay_config) (empty_registry, tt, []) (r, l', []) ∧
          count_mounts_by_ip (py "10.0.0.1") r = 9.
Proof.
  apply (mount_cap_race no_limit demo_relay_config (py "10.0.0.1") tt 9); [reflexivity|].
  vm_compute. reflexivity.
Defined.

Definition demo_offline : Registry := (mark_offline (py "abc") demo_registry).1.

(** The address cannot even reclaim its own mount. *)
Lemma offline_mounts_lock_out_witness :
  ∃ why st', agent_websocket (H := plain_serializer) (H0 := no_conv) (S := AccountDb) no_limit
    demo_relay_config None None (seconds 10) (Some (py "abc")) None (py "x") 5%nat (py "10.0.0.1")
    (Some demo_frame) None (sweeps [(seconds 9, seconds 300, λ _, true)] demo_offline, tt)
  = (sweeps [(seconds 9, seconds 300, λ _, true)] demo_offline, st', Turned_away why).
Proof.
  apply (offline_mounts_lock_out (H := plain_serializer) (H0 := no_conv) (S := AccountDb) no_limit
    demo_relay_config None None demo_offline (py "10.0.0.1")
    [(seconds 9, seconds 300, λ _, true)]).
  vm_compute. discriminate.
Defined.

(** The mount of user 7, taken over. *)
Lemma reclaim_takes_over_witness :
  ∃ r' reg row', register_agent demo_relay_config (seconds 10) (Some (py "abc")) None (py "x") 5%nat
      (py "10.0.0.1") demo_auth demo_offline = (r', inr reg) ∧
    rg_code reg = py "abc" ∧ rg_reclaimed reg = true ∧ mounts r' !! py "abc" = Some row' ∧
    m_status row' = ONLINE ∧ m_owner_user_id row' = None ∧ m_access_mode row' = OPEN_MODE.
Proof.
  apply (reclaim_takes_over demo_relay_config (seconds 10) (py "abc") None (py "x") 5%nat demo_auth
    demo_offline (demo_row OFFLINE)); vm_compute; congruence.
Defined.

Lemma lost_agent_stays_online_witness :
  ∃ k, get_connection (λ _, false) k demo_registered.1 = (demo_registered.1, inr 4%nat) ∧
    ∀ now' c' ip', try_reclaim now' k c' ip' demo_registered.1 = (demo_registered.1, None).
Proof.
  apply (lost_agent_stays_online (H := plain_serializer) (H0 := no_conv) (S := AccountDb) no_limit
    demo_relay_config None None 0 (Some (py "abc")) (Some 600) (py "x") 4%nat (py "10.0.0.1")
    (Some demo_frame) ConnectionError empty_registry demo_registered.1 tt tt).
  vm_compute. reflexivity.
Defined.
