(* ===== verification/Files.v ===== *)
(** The file service of the server, [src/server/app/services/file_service.py], on
    a file system with symbolic links.

    The file system is a map from absolute paths (lists of names) to nodes.
    [resolve] is [Path.resolve()]: it follows links and keeps the rest of a path
    that does not exist.  After [MAX_LINKS] links it gives up, as the kernel and
    [Path.resolve] do with a loop.  Permissions, time stamps and failures of the
    disk are not modelled; an upload is its bytes. *)

From stdpp Require Import strings.
From S2P Require Import Prelude Json.

(** ** The file system *)

Abbreviation path := (list (list Z)) (only parsing).

Inductive node :=
| FFile (content : bytes)
| FDir
| FLink (target : pystr).

#[export] Instance node_eq_dec : EqDecision node.
Proof. solve_decision. Defined.

Abbreviation fs := (gmap (list (list Z)) node) (only parsing).

Inductive FsExn :=
| PathTraversalError
| FileNotFoundError
| FileConflictError (name : pystr)
| InvalidFileNameError
| InvalidFileRequestError
| SymlinkLoop
| FsValueError
| IsADirectoryError
| NotADirectoryError
| FileExistsError.

Definition MAX_LINKS : nat := 40.

Definition is_dot (c : pystr) : bool := bool_decide (c = []) || bool_decide (c = [dot]).
Definition is_dotdot (c : pystr) : bool := bool_decide (c = [dot; dot]).

(** The components [rest] are appended to the resolved path [cur] one by one. *)
Fixpoint resolve (links : nat) (t : fs) {struct links} : path → list pystr → option path :=
  fix walk (cur : path) (rest : list pystr) {struct rest} : option path :=
    match rest with
    | [] => Some cur
    | c :: rest' =>
        if is_dot c then walk cur rest'
        else if is_dotdot c then walk (removelast cur) rest'
        else match t !! (cur ++ [c]) with
             | Some (FLink target) =>
                 match links with
                 | O => None
                 | S links' =>
                     resolve links' t (if startswith target [slash] then [] else cur)
                       (split_on slash target ++ rest')
                 end
             | _ => walk (cur ++ [c]) rest'
             end
    end.

(** [p.resolve()]; [None] is a loop of links. *)
Definition resolve_path (t : fs) (cur : path) (rest : list pystr) : FsExn + path :=
  match resolve MAX_LINKS t cur rest with Some p => inr p | None => inl SymlinkLoop end.

(** [p.stat()], which follows links. *)
Definition stat (t : fs) (p : path) : option node := q ← resolve MAX_LINKS t [] p; t !! q.

Definition exists_ (t : fs) (p : path) : bool := bool_decide (is_Some (stat t p)).

Definition is_dir (t : fs) (p : path) : bool :=
  match stat t p with Some FDir => true | _ => false end.

Definition parent (p : path) : path := removelast p.

(** [open(p, "wb")] and the bytes written: links are followed. *)
Definition write_file (t : fs) (p : path) (content : bytes) : FsExn + fs :=
  match resolve MAX_LINKS t [] p with
  | None => inl SymlinkLoop
  | Some q =>
      match t !! q with
      | Some FDir => inl IsADirectoryError
      | _ => match t !! parent q with
             | Some FDir => inr (<[q := FFile content]> t)
             | Some _ => inl NotADirectoryError
             | None => inl FileNotFoundError
             end
      end
  end.

(** [os.replace(p, q)] of a file: the entries themselves, links included. *)
Definition replace_file (t : fs) (p q : path) : fs :=
  match t !! p with Some n => <[q := n]> (delete p t) | None => t end.

(** [shutil.rmtree(p)] *)
Definition rmtree (t : fs) (p : path) : fs := filter (λ kv, ¬ p `prefix_of` kv.1) t.

(** [p.rename(q)] of a tree: everything below [p] moves below [q].  Nothing is left
    below [q], which is no directory; sending that part to [p] makes the map of
    names a bijection. *)
Definition relocate (p q k : path) : path :=
  if decide (p `prefix_of` k) then q ++ drop (length p) k
  else if decide (q `prefix_of` k) then p ++ drop (length q) k
  else k.

Definition move (t : fs) (p q : path) : fs := kmap (relocate p q) (delete q t).

(** ** Paths from the user *)

Definition resolve_safe_path (base_dir : path) (user_path : pystr) (t : fs) : FsExn + path :=
  base_resolved ← resolve_path t [] base_dir;
  if bool_decide (user_path = []) then inr base_resolved
  else if startswith user_path [slash] then inl PathTraversalError
  else if bool_decide (0 ∈ user_path) then inl FsValueError
  else
    candidate ← resolve_path t base_resolved (split_on slash user_path);
    if negb (bool_decide (base_resolved `prefix_of` candidate)) then inl PathTraversalError
    else if negb (exists_ t candidate) then inl FileNotFoundError
    else inr candidate.

Definition _resolve_safe_path_for_new (base_dir : path) (user_path : pystr) (t : fs) : FsExn + path :=
  base_resolved ← resolve_path t [] base_dir;
  if bool_decide (user_path = []) then inr base_resolved
  else if startswith user_path [slash] then inl PathTraversalError
  else if bool_decide (0 ∈ user_path) then inl FsValueError
  else
    candidate ← resolve_path t base_resolved (split_on slash user_path);
    if negb (bool_decide (base_resolved `prefix_of` candidate)) then inl PathTraversalError
    else inr candidate.

(** [os.sep] is the slash. *)
Definition _validate_name (name : pystr) : FsExn + unit :=
  if bool_decide (name = []) then inl InvalidFileNameError
  else if bool_decide (slash ∈ name) then inl InvalidFileNameError
  else if is_dotdot name then inl InvalidFileNameError
  else if bool_decide ([dot; dot] ∈ split_on slash name) then inl InvalidFileNameError
  else if bool_decide (0 ∈ name) then inl InvalidFileNameError
  else inr tt.

(** A name that is absolute on either platform contains a slash or a backslash. *)
Definition validate_upload_filename (filename : pystr) : FsExn + pystr :=
  if bool_decide (filename = []) then inl InvalidFileNameError
  else if bool_decide (0 ∈ filename) then inl InvalidFileNameError
  else if bool_decide (slash ∈ filename) then inl InvalidFileNameError
  else if bool_decide (backslash ∈ filename) then inl InvalidFileNameError
  else if bool_decide (filename = [dot] ∨ filename = [dot; dot]) then inl InvalidFileNameError
  else inr filename.

(** ** Listing *)

Inductive FileType := FILE | DIRECTORY.

#[export] Instance FileType_eq_dec : EqDecision FileType.
Proof. solve_decision. Defined.

(** The size of a directory depends on the file system and is left out. *)
Record FileEntry := { fe_name : pystr; fe_type : FileType; fe_size : option Z }.

Definition children (t : fs) (p : path) : list pystr :=
  omap (λ kv : path * node,
          match last kv.1 with
          | Some n => if decide (kv.1 = p ++ [n]) then Some n else None
          | None => None
          end) (map_to_list t).

(** [item.stat()] raises on a link that leads nowhere. *)
Definition entry_of (t : fs) (p : path) (n : pystr) : FsExn + FileEntry :=
  match stat t (p ++ [n]) with
  | None => inl FileNotFoundError
  | Some FDir => inr {| fe_name := n; fe_type := DIRECTORY; fe_size := None |}
  | Some (FFile c) => inr {| fe_name := n; fe_type := FILE; fe_size := Some (Z.of_nat (length c)) |}
  | Some (FLink _) => inl SymlinkLoop
  end.

Fixpoint entries_of (t : fs) (p : path) (ns : list pystr) : FsExn + list FileEntry :=
  match ns with
  | [] => inr []
  | n :: ns' => e ← entry_of t p n; es ← entries_of t p ns'; inr (e :: es)
  end.

Definition list_directory (base_dir : path) (relative_path : pystr) (t : fs) : FsExn + list FileEntry :=
  target ← resolve_safe_path base_dir relative_path t;
  match t !! target with
  | Some FDir => entries_of t target (children t target)
  | Some _ => inl NotADirectoryError
  | None => inl FileNotFoundError
  end.

(** ** Upload *)

Inductive ConflictResolution := OVERWRITE | RENAME | SKIP.

Record UploadResult := { ur_name : pystr; ur_size : option Z; ur_skipped : bool }.

(** The index of the last dot, [name.rfind(".")]. *)
Fixpoint rfind_dot (s : pystr) : option nat :=
  match s with
  | [] => None
  | c :: s' =>
      match rfind_dot s' with
      | Some i => Some (S i)
      | None => if c =? dot then Some 0%nat else None
      end
  end.

(** [PurePath.stem] and [PurePath.suffix] of a name. *)
Definition split_suffix (name : pystr) : pystr * pystr :=
  match rfind_dot name with
  | Some i => if (0 <? i)%nat && (i <? length name - 1)%nat then (take i name, drop i name) else (name, [])
  | None => (name, [])
  end.

Definition numbered (stem suffix : pystr) (counter : Z) : pystr :=
  stem ++ 95 :: dump_nat counter ++ suffix.

(** The loop that counts up to a free name.  Every name tried is taken by an
    entry of the directory, so [size t] turns are enough. *)
Fixpoint free_name (fuel : nat) (t : fs) (dir : path) (stem suffix : pystr) (counter : Z) : option pystr :=
  match fuel with
  | O => None
  | S fuel' =>
      let new_name := numbered stem suffix counter in
      if exists_ t (dir ++ [new_name]) then free_name fuel' t dir stem suffix (counter + 1)
      else Some new_name
  end.

Definition uploaded (name : pystr) (content : bytes) : UploadResult :=
  {| ur_name := name; ur_size := Some (Z.of_nat (length content)); ur_skipped := false |}.

(** [_write_upload_chunks] and the result. *)
Definition write_upload (t : fs) (dir : path) (name : pystr) (content : bytes)
    : fs * (FsExn + UploadResult) :=
  match write_file t (dir ++ [name]) content with
  | inl e => (t, inl e)
  | inr t' => (t', inr (uploaded name content))
  end.

(** Write to [name.tmp], then [os.replace]. *)
Definition overwrite_upload (t : fs) (dir : path) (name : pystr) (content : bytes)
    : fs * (FsExn + UploadResult) :=
  let temp_path := dir ++ [name ++ py ".tmp"] in
  match write_file t temp_path content with
  | inl e => (t, inl e)
  | inr t1 =>
      match t1 !! (dir ++ [name]) with
      | Some FDir => (t1, inl IsADirectoryError)
      | _ => (replace_file t1 temp_path (dir ++ [name]), inr (uploaded name content))
      end
  end.

Definition upload_file (base_dir : path) (relative_dir : pystr) (upload_name : pystr) (content : bytes)
    (conflict_resolution : option ConflictResolution) (t : fs) : fs * (FsExn + UploadResult) :=
  match resolve_safe_path base_dir relative_dir t with
  | inl e => (t, inl e)
  | inr dir =>
      match validate_upload_filename upload_name with
      | inl e => (t, inl e)
      | inr name =>
          match stat t (dir ++ [name]) with
          | None => write_upload t dir name content
          | Some existing =>
              match conflict_resolution with
              | None => (t, inl (FileConflictError name))
              | Some SKIP =>
                  (t, inr {| ur_name := name;
                             ur_size := match existing with FFile c => Some (Z.of_nat (length c)) | _ => None end;
                             ur_skipped := true |})
              | Some RENAME =>
                  let '(stem, suffix) := split_suffix name in
                  match free_name (S (size t)) t dir stem suffix 1 with
                  | Some new_name => write_upload t dir new_name content
                  | None => (t, inl SymlinkLoop)
                  end
              | Some OVERWRITE => overwrite_upload t dir name content
              end
          end
      end
  end.

(** ** The other operations *)

Definition download_file (base_dir : path) (relative_path : pystr) (t : fs) : FsExn + path :=
  resolved ← resolve_safe_path base_dir relative_path t;
  if is_dir t resolved then inl InvalidFileRequestError else inr resolved.

Fixpoint delete_paths (base_dir : path) (paths deleted : list pystr) (t : fs)
    : fs * (FsExn + list pystr) :=
  match paths with
  | [] => (t, inr deleted)
  | path_str :: paths' =>
      match resolve_safe_path base_dir path_str t with
      | inl e => (t, inl e)
      | inr resolved =>
          match t !! resolved with
          | None => (t, inl FileNotFoundError)
          | Some _ =>
              let t' := if is_dir t resolved then rmtree t resolved else delete resolved t in
              delete_paths base_dir paths' (deleted ++ [path_str]) t'
          end
      end
  end.

(** [relative_to(base)]; [None] is a [ValueError]. *)
Definition relative_to (p base : path) : FsExn + path :=
  if bool_decide (base `prefix_of` p) then inr (drop (length base) p) else inl FsValueError.

(** [resolved.rename(new_path)]: a dangling link at the new name is replaced by a
    file, and refused for a directory. *)
Definition rename_entry (t : fs) (p q : path) : fs * (FsExn + unit) :=
  match t !! p, t !! q with
  | None, _ => (t, inl FileNotFoundError)
  | Some FDir, Some _ => (t, inl NotADirectoryError)
  | _, _ => (move t p q, inr tt)
  end.

Definition rename_path (base_dir : path) (old_relative new_name : pystr) (t : fs)
    : fs * (FsExn + path) :=
  match _validate_name new_name with
  | inl e => (t, inl e)
  | inr _ =>
      match resolve_safe_path base_dir old_relative t with
      | inl e => (t, inl e)
      | inr resolved =>
          let new_path := parent resolved ++ [new_name] in
          if exists_ t new_path then
            (t, inl match base ← resolve_path t [] base_dir; relative_to new_path base with
                    | inl e => e
                    | inr _ => FileConflictError new_name
                    end)
          else
            match rename_entry t resolved new_path with
            | (t', inl e) => (t', inl e)
            | (t', inr _) => (t', base ← resolve_path t' [] base_dir; relative_to new_path base)
            end
      end
  end.

Definition create_folder (base_dir : path) (parent_relative folder_name : pystr) (t : fs)
    : fs * (FsExn + path) :=
  match _validate_name folder_name with
  | inl e => (t, inl e)
  | inr _ =>
      match resolve_safe_path base_dir parent_relative t with
      | inl e => (t, inl e)
      | inr dir =>
          let new_dir := dir ++ [folder_name] in
          if exists_ t new_dir then (t, inl (FileConflictError folder_name))
          else match t !! dir, t !! new_dir with
               | Some FDir, None =>
                   let t' := <[new_dir := FDir]> t in
                   (t', base ← resolve_path t' [] base_dir; relative_to new_dir base)
               | Some FDir, Some _ => (t, inl FileExistsError)
               | None, _ => (t, inl FileNotFoundError)
               | Some _, _ => (t, inl NotADirectoryError)
               end
      end
  end.

(** The members of a ZIP archive: all paths are checked before the first byte. *)
Fixpoint zip_members (base_dir : path) (paths : list pystr) (t : fs) : FsExn + list path :=
  match paths with
  | [] => inr []
  | p :: paths' => r ← resolve_safe_path base_dir p t; rs ← zip_members base_dir paths' t; inr (r :: rs)
  end.
