(* ===== verification/FilesProps.v ===== *)
(** Properties of the file service: what a user path can reach, what an upload, a
    deletion, a renaming change, and where links and the root of the shared
    folder defeat the confinement. *)

From stdpp Require Import strings.
From S2P Require Import Prelude Json Files.

Implicit Types t : gmap (list (list Z)) node.
Implicit Types p q cur base dir : list (list Z).

(** ** Paths without links *)

(** A name that is a component of a path. *)
Definition clean (c : pystr) : Prop := is_dot c = false ∧ is_dotdot c = false.

(** No prefix of the path is a link: the path is what it says. *)
Definition link_free t p : Prop := ∀ q target, q `prefix_of` p → t !! q ≠ Some (FLink target).

Lemma prefix_snoc_cases {A} (q p : list A) x : q `prefix_of` p ++ [x] → q = p ++ [x] ∨ q `prefix_of` p.
Proof.
  intros [k Hk]. destruct k as [|y k _] using rev_ind.
  - rewrite app_nil_r in Hk. by left.
  - rewrite (assoc_L (++)) in Hk. apply app_inj_tail in Hk as [-> _]. right. by apply prefix_app_r.
Qed.

Lemma removelast_prefix {A} (p : list A) : removelast p `prefix_of` p.
Proof.
  destruct p as [|x p _] using rev_ind; [done|]. rewrite removelast_last. by apply prefix_app_r.
Qed.

Lemma link_free_prefix t p q : link_free t p → q `prefix_of` p → link_free t q.
Proof. intros H Hq q' target Hq'. apply H. by etrans. Qed.

Lemma link_free_snoc t cur c :
  link_free t cur → (∀ target, t !! (cur ++ [c]) ≠ Some (FLink target)) → link_free t (cur ++ [c]).
Proof. intros Hc Hn q target [->|Hq]%prefix_snoc_cases; [apply Hn|by apply Hc]. Qed.

Lemma link_free_subseteq t t' p : t' ⊆ t → link_free t p → link_free t' p.
Proof.
  intros Hs Hp q target Hq Hl. apply (Hp q target Hq). by eapply lookup_weaken.
Qed.

Lemma Forall_removelast {A} (P : A → Prop) l : Forall P l → Forall P (removelast l).
Proof.
  intros H. destruct l as [|x l _] using rev_ind; [done|]. rewrite removelast_last.
  by apply Forall_app in H as [H _].
Qed.

Lemma resolve_unfold links t cur rest :
  resolve links t cur rest =
  match rest with
  | [] => Some cur
  | c :: rest' =>
      if is_dot c then resolve links t cur rest'
      else if is_dotdot c then resolve links t (removelast cur) rest'
      else match t !! (cur ++ [c]) with
           | Some (FLink target) =>
               match links with
               | O => None
               | S links' => resolve links' t (if startswith target [slash] then [] else cur)
                               (split_on slash target ++ rest')
               end
           | _ => resolve links t (cur ++ [c]) rest'
           end
  end.
Proof. by destruct links, rest. Qed.

(** A resolved path is free of links and has clean components only. *)
Lemma resolve_real links t cur rest p :
  link_free t [] → link_free t cur → Forall clean cur → resolve links t cur rest = Some p →
  link_free t p ∧ Forall clean p.
Proof.
  intros H0. revert cur rest p. induction links as [|links IHl]; intros cur rest; revert cur.
  all: induction rest as [|c rest IH]; intros cur p Hc Hf; rewrite resolve_unfold;
    [by intros [= <-]|].
  all: destruct (is_dot c) eqn:E1; [by apply IH|]; destruct (is_dotdot c) eqn:E2;
    [apply IH; [eapply link_free_prefix, removelast_prefix; done|by apply Forall_removelast]|].
  all: destruct (t !! (cur ++ [c])) as [[content| |target]|] eqn:Et;
    try (apply IH; [apply link_free_snoc; [done|congruence]|apply Forall_app; repeat constructor; done]).
  - done.
  - apply IHl; destruct (startswith target [slash]); done.
Qed.

(** A path without links resolves to itself. *)
Lemma resolve_self links t cur rest :
  link_free t (cur ++ rest) → Forall clean rest → resolve links t cur rest = Some (cur ++ rest).
Proof.
  revert cur. induction rest as [|c rest IH]; intros cur Hl Hf; rewrite resolve_unfold.
  { by rewrite app_nil_r. }
  apply Forall_cons in Hf as [[E1 E2] Hf]. rewrite E1, E2.
  assert (Hl' : link_free t ((cur ++ [c]) ++ rest)) by by rewrite <-(assoc_L (++)).
  specialize (IH (cur ++ [c]) Hl' Hf). rewrite <-(assoc_L (++)) in IH.
  destruct (t !! (cur ++ [c])) as [[| |target]|] eqn:Et; try done.
  exfalso. apply (Hl' (cur ++ [c]) target); [by apply prefix_app_r|done].
Qed.

Lemma stat_real t p : link_free t p → Forall clean p → stat t p = t !! p.
Proof. intros Hl Hf. unfold stat. by rewrite (resolve_self MAX_LINKS t [] p). Qed.

(** The shared folder: a real directory, as [ServerConfig] resolved it. *)
Record base_ok t base : Prop := {
  base_links : link_free t base;
  base_clean : Forall clean base
}.

Lemma base_root t base : base_ok t base → link_free t [].
Proof. intros [Hl _]. eapply link_free_prefix; [done|apply prefix_nil]. Qed.

Lemma base_resolves t base : base_ok t base → resolve_path t [] base = inr base.
Proof. intros [Hl Hc]. unfold resolve_path. by rewrite (resolve_self MAX_LINKS t [] base). Qed.

(** ** User paths *)

Lemma safe_path_inside base u t p :
  base_ok t base → resolve_safe_path base u t = inr p →
  base `prefix_of` p ∧ link_free t p ∧ Forall clean p ∧ (u ≠ [] → is_Some (t !! p)).
Proof.
  intros Hb. unfold resolve_safe_path. rewrite (base_resolves t base Hb). cbn [mbind sum_bind].
  case_bool_decide as Hu. { intros [= <-]. destruct Hb. by split_and!. }
  destruct (startswith u [slash]); [done|]. case_bool_decide; [done|].
  unfold resolve_path. destruct (resolve MAX_LINKS t base (split_on slash u)) as [c|] eqn:Er; [|done].
  cbn [mbind sum_bind].
  destruct (resolve_real _ _ _ _ _ (base_root t base Hb) (base_links _ _ Hb) (base_clean _ _ Hb) Er)
    as [Hl Hc].
  case_bool_decide as Hp; [|done]. unfold exists_. rewrite stat_real by done.
  case_bool_decide as He; [|done]. intros [= <-]. by split_and!.
Qed.

(** The user path of a node: its names, separated by slashes. *)
Fixpoint join_slash (l : list pystr) : pystr :=
  match l with
  | [] => []
  | [c] => c
  | c :: l' => c ++ slash :: join_slash l'
  end.

Lemma split_on_no_sep c s : c ∉ s → split_on c s = [s].
Proof.
  induction s as [|d s IH]; [done|]. rewrite not_elem_of_cons. intros [Hd Hs]. simpl.
  destruct (Z.eqb_spec d c); [by subst|]. by rewrite IH.
Qed.

Lemma split_on_app c s rest : c ∉ s → split_on c (s ++ c :: rest) = s :: split_on c rest.
Proof.
  induction s as [|d s IH]; simpl.
  - intros _. by rewrite Z.eqb_refl.
  - rewrite not_elem_of_cons. intros [Hd Hs]. destruct (Z.eqb_spec d c); [by subst|].
    by rewrite IH.
Qed.

Lemma split_join l : l ≠ [] → Forall (λ c, slash ∉ c) l → split_on slash (join_slash l) = l.
Proof.
  intros Hl Hf. induction Hf as [|c l Hc Hf IH]; [done|]. destruct l as [|d l].
  - by apply split_on_no_sep.
  - change (join_slash (c :: d :: l)) with (c ++ slash :: join_slash (d :: l)).
    rewrite split_on_app by done. by rewrite IH.
Qed.

(** A name as it appears in a listing of a sane folder. *)
Definition plain_name (c : pystr) : Prop := clean c ∧ slash ∉ c ∧ 0 ∉ c.

#[export] Instance plain_name_dec c : Decision (plain_name c).
Proof. unfold plain_name, clean. apply _. Defined.

Lemma join_slash_not_in (x : Z) l : x ≠ slash → Forall (λ c, x ∉ c) l → x ∉ join_slash l.
Proof.
  intros Hx Hf. induction Hf as [|c l Hc Hf IH]; [by apply not_elem_of_nil|].
  destruct l as [|d l]; [done|].
  change (join_slash (c :: d :: l)) with (c ++ slash :: join_slash (d :: l)).
  rewrite not_elem_of_app, not_elem_of_cons. done.
Qed.

Lemma join_slash_head l : l ≠ [] → Forall plain_name l → join_slash l ≠ [] ∧
  startswith (join_slash l) [slash] = false.
Proof.
  intros Hl Hf. destruct l as [|c l]; [done|]. apply Forall_cons in Hf as [([Hc _] & Hs & _) _].
  unfold is_dot in Hc. apply orb_false_iff in Hc as [Hc _]. apply bool_decide_eq_false in Hc.
  destruct c as [|x c]; [done|]. assert (x ≠ slash) by set_solver.
  assert (∃ r, join_slash ((x :: c) :: l) = x :: r) as [r ->] by (destruct l; simpl; eauto).
  split; [done|]. cbn [startswith]. rewrite andb_true_r. by apply Z.eqb_neq.
Qed.

(** ** Writing inside a directory without links *)

(** No entry of the directory is a link. *)
Definition no_links_in t dir : Prop := ∀ n target, t !! (dir ++ [n]) ≠ Some (FLink target).

Lemma entry_real t dir n :
  link_free t dir → Forall clean dir → no_links_in t dir → clean n →
  link_free t (dir ++ [n]) ∧ Forall clean (dir ++ [n]).
Proof.
  intros Hl Hc Hn Hcl. split; [by apply link_free_snoc|]. apply Forall_app.
  by rewrite Forall_singleton.
Qed.

Lemma stat_entry t dir n :
  link_free t dir → Forall clean dir → no_links_in t dir → clean n →
  stat t (dir ++ [n]) = t !! (dir ++ [n]).
Proof. intros. destruct (entry_real t dir n) as [H3 H4]; [done..|]. by apply stat_real. Qed.

Lemma write_entry t dir n content :
  link_free t dir → Forall clean dir → no_links_in t dir → clean n → t !! dir = Some FDir →
  write_file t (dir ++ [n]) content
  = match t !! (dir ++ [n]) with
    | Some FDir => inl IsADirectoryError
    | _ => inr (<[dir ++ [n] := FFile content]> t)
    end.
Proof.
  intros Hl Hc Hn Hcl Hd. destruct (entry_real t dir n) as [H1 H2]; try done.
  unfold write_file. rewrite (resolve_self MAX_LINKS t [] (dir ++ [n])) by done. simpl.
  unfold parent. rewrite removelast_last, Hd. by repeat case_match.
Qed.

Lemma valid_filename name name' :
  validate_upload_filename name = inr name' → name' = name ∧ plain_name name.
Proof.
  unfold validate_upload_filename. repeat case_bool_decide; try done. intros [= <-].
  split; [done|]. unfold plain_name, clean, is_dot, is_dotdot.
  rewrite !bool_decide_eq_false_2 by tauto. done.
Qed.

(** A longer name stays clean. *)
Lemma clean_app c s : clean c → (2 < length (c ++ s))%nat → clean (c ++ s).
Proof.
  intros _ Hlen. unfold clean, is_dot, is_dotdot.
  rewrite !bool_decide_eq_false_2; [done|..]; intros E; rewrite E in Hlen; simpl in Hlen; lia.
Qed.

(** ** Names that are counted up *)

Lemma dump_nat_inj m n : 0 ≤ m → 0 ≤ n → dump_nat m = dump_nat n → m = n.
Proof.
  intros Hm Hn E. destruct (dump_nat_spec m Hm) as (c & r & Em & _ & Vm & _).
  destruct (dump_nat_spec n Hn) as (c' & r' & En & _ & Vn & _). congruence.
Qed.

Lemma numbered_inj stem suffix m n :
  0 ≤ m → 0 ≤ n → numbered stem suffix m = numbered stem suffix n → m = n.
Proof.
  unfold numbered. intros Hm Hn E. apply app_inv_head in E. injection E as E.
  apply app_inv_tail in E. by apply dump_nat_inj.
Qed.

Lemma numbered_clean stem suffix n : 0 ≤ n → stem ≠ [] → clean (numbered stem suffix n).
Proof.
  intros Hn Hs. destruct (dump_nat_spec n Hn) as (c & r & E & _). unfold numbered. rewrite E.
  unfold clean, is_dot, is_dotdot. destruct stem as [|x stem]; [done|].
  rewrite !bool_decide_eq_false_2; try done; destruct stem as [|y stem]; simpl; try done.
  destruct stem; done.
Qed.

Lemma split_suffix_stem name : name ≠ [] → (split_suffix name).1 ≠ [].
Proof.
  intros Hn. unfold split_suffix. destruct (rfind_dot name) as [i|]; [|done].
  destruct ((0 <? i)%nat && _) eqn:E; [|done]. apply andb_true_iff in E as [E _].
  apply Nat.ltb_lt in E. destruct name; [done|]. by destruct i; [lia|].
Qed.

(** If the loop runs out, all the names it tried are entries. *)
Lemma free_name_None fuel t dir stem suffix n :
  free_name fuel t dir stem suffix n = None →
  ∀ i, 0 ≤ i < Z.of_nat fuel → exists_ t (dir ++ [numbered stem suffix (n + i)]) = true.
Proof.
  revert n. induction fuel as [|fuel IH]; intros n H i Hi; [lia|]. cbn [free_name] in H.
  destruct (exists_ t (dir ++ [numbered stem suffix n])) eqn:E; [|done].
  destruct (decide (i = 0)) as [->|Hne]; [by rewrite Z.add_0_r|].
  replace (n + i) with (n + 1 + (i - 1)) by lia. apply IH; [done|lia].
Qed.

Lemma free_name_Some fuel t dir stem suffix n r :
  free_name fuel t dir stem suffix n = Some r →
  exists_ t (dir ++ [r]) = false ∧ ∃ i, n ≤ i ∧ r = numbered stem suffix i.
Proof.
  revert n. induction fuel as [|fuel IH]; intros n; cbn [free_name]; [done|].
  destruct (exists_ t (dir ++ [numbered stem suffix n])) eqn:E.
  - intros H. destruct (IH _ H) as [H1 (i & Hi & ->)]. split; [done|]. exists i. split; [lia|done].
  - intros [= <-]. split; [done|]. exists n. split; [lia|done].
Qed.

(** The walk along a path without links. *)
Lemma resolve_app links t cur l rest :
  link_free t (cur ++ l) → Forall clean l → resolve links t cur (l ++ rest) = resolve links t (cur ++ l) rest.
Proof.
  revert cur. induction l as [|c l IH]; intros cur Hl Hf; [by rewrite app_nil_r|].
  apply Forall_cons in Hf as [[E1 E2] Hf]. cbn [app]. rewrite resolve_unfold, E1, E2.
  assert (Hl' : link_free t ((cur ++ [c]) ++ l)) by by rewrite <-(assoc_L (++)).
  specialize (IH (cur ++ [c]) Hl' Hf). rewrite <-(assoc_L (++)) in IH.
  destruct (t !! (cur ++ [c])) as [[| |target]|] eqn:Et; try done.
  exfalso. apply (Hl' (cur ++ [c]) target); [by apply prefix_app_r|done].
Qed.

(** What exists in a directory is an entry of it, a link perhaps. *)
Lemma exists_entry t dir n :
  link_free t dir → Forall clean dir → clean n → exists_ t (dir ++ [n]) = true →
  is_Some (t !! (dir ++ [n])).
Proof.
  intros Hl Hc [E1 E2] He. unfold exists_, stat in He. apply bool_decide_eq_true in He.
  rewrite (resolve_app MAX_LINKS t [] dir [n]) in He by done. cbn [app] in He.
  rewrite resolve_unfold, E1, E2 in He.
  destruct (t !! (dir ++ [n])) as [[| |target]|] eqn:Et; eauto.
  rewrite resolve_unfold in He. cbn in He. by rewrite Et in He.
Qed.

(** The loop ends within the number of entries of the file system. *)
Lemma free_name_ends t dir stem suffix :
  stem ≠ [] → link_free t dir → Forall clean dir →
  ∃ r, free_name (S (size t)) t dir stem suffix 1 = Some r.
Proof.
  intros Hs Hl Hc. destruct (free_name (S (size t)) t dir stem suffix 1) as [r|] eqn:E; [eauto|].
  pose proof (free_name_None _ _ _ _ _ _ E) as Hex.
  set (names := (λ i, dir ++ [numbered stem suffix (1 + Z.of_nat i)]) <$> seq 0 (S (size t))).
  assert (NoDup names) as Hnd.
  { apply NoDup_fmap_2_strong; [|apply NoDup_seq]. intros i j _ _ Hij.
    apply app_inv_head in Hij. injection Hij as Hij. apply numbered_inj in Hij; lia. }
  assert (list_to_set names ⊆ dom t) as Hsub.
  { intros q. rewrite elem_of_list_to_set. intros (i & -> & Hi%elem_of_seq)%list_elem_of_fmap.
    specialize (Hex (Z.of_nat i) ltac:(lia)). apply elem_of_dom.
    apply exists_entry; [done..|apply numbered_clean; [lia|done]|done]. }
  apply subseteq_size in Hsub. rewrite size_list_to_set, size_dom in Hsub by done.
  unfold names in Hsub. rewrite length_fmap, length_seq in Hsub. lia.
Qed.

(** ** Deleting and renaming *)

(** Outside the shared folder nothing has changed. *)
Definition same_outside base t t' : Prop := ∀ k, ¬ base `prefix_of` k → t' !! k = t !! k.

Lemma rmtree_lookup t p k : rmtree t p !! k = if decide (p `prefix_of` k) then None else t !! k.
Proof.
  unfold rmtree. case_decide as Hk.
  - apply map_lookup_filter_None. right. intros n _ Hn. by apply Hn.
  - destruct (t !! k) as [n|] eqn:E.
    + by apply map_lookup_filter_Some.
    + apply map_lookup_filter_None. by left.
Qed.

Lemma rmtree_subseteq t p : rmtree t p ⊆ t.
Proof. apply map_filter_subseteq. Qed.

Lemma base_ok_subseteq t t' base : t' ⊆ t → base_ok t base → base_ok t' base.
Proof. intros Hs [Hl Hc]. split; [by eapply link_free_subseteq|done]. Qed.

Lemma delete_step base t p :
  base `prefix_of` p →
  let t' := if is_dir t p then rmtree t p else delete p t in
  t' ⊆ t ∧ same_outside base t t'.
Proof.
  intros Hp. cbv zeta. destruct (is_dir t p).
  - split; [apply rmtree_subseteq|]. intros k Hk. rewrite rmtree_lookup, decide_False; [done|].
    intros Hpk. apply Hk. by etrans.
  - split; [apply delete_subseteq|]. intros k Hk. apply lookup_delete_ne. by intros ->.
Qed.

(** Siblings are never inside one another. *)
Lemma sibling_not_prefix {A} (d : list A) (a b : A) k :
  a ≠ b → d ++ [a] `prefix_of` k → ¬ d ++ [b] `prefix_of` k.
Proof.
  intros Hab [x ->] [y Hy]. rewrite <-!(assoc_L (++)) in Hy. apply app_inv_head in Hy. by injection Hy.
Qed.

(** Nothing but the entry itself is below a name that is not a directory. *)
Definition tree_ok t : Prop := ∀ p c, is_Some (t !! (p ++ [c])) → t !! p = Some FDir.

Lemma tree_ok_below t p k :
  tree_ok t → p `prefix_of` k → is_Some (t !! k) → k = p ∨ t !! p = Some FDir.
Proof.
  intros Ht [s ->]. induction s as [|c s IH] using rev_ind.
  - rewrite app_nil_r. auto.
  - rewrite (assoc_L (++)). intros Hk. right. apply Ht in Hk.
    destruct IH as [E|]; [by eexists|by rewrite E in Hk|done].
Qed.

Lemma relocate_involutive {d : path} {a b : pystr} k :
  a ≠ b → relocate (d ++ [a]) (d ++ [b]) (relocate (d ++ [a]) (d ++ [b]) k) = k.
Proof.
  intros Hab. unfold relocate.
  destruct (decide (d ++ [a] `prefix_of` k)) as [[s ->]|Ha].
  - rewrite drop_app_length.
    rewrite decide_False by (apply (sibling_not_prefix d b a); [done|by eexists]).
    rewrite decide_True by by eexists. by rewrite drop_app_length.
  - destruct (decide (d ++ [b] `prefix_of` k)) as [[s ->]|Hb].
    + rewrite drop_app_length. rewrite decide_True by by eexists. by rewrite drop_app_length.
    + by rewrite !decide_False.
Qed.

(** What a renaming of siblings does to every path. *)
Lemma move_lookup t d a b k :
  a ≠ b → tree_ok t → t !! (d ++ [b]) ≠ Some FDir →
  move t (d ++ [a]) (d ++ [b]) !! k
  = if decide (d ++ [b] `prefix_of` k) then t !! ((d ++ [a]) ++ drop (length (d ++ [b])) k)
    else if decide (d ++ [a] `prefix_of` k) then None else t !! k.
Proof.
  intros Hab Ht Hb. set (f := relocate (d ++ [a]) (d ++ [b])).
  assert (Inj (=) (=) f) as Hinj.
  { intros x y E. rewrite <-(@relocate_involutive d a b x Hab), <-(@relocate_involutive d a b y Hab).
    by change (f (f x) = f (f y)); rewrite E. }
  assert (Hk : move t (d ++ [a]) (d ++ [b]) !! k = delete (d ++ [b]) t !! f k).
  { unfold move. fold f. rewrite <-(@relocate_involutive d a b k Hab) at 1. fold f.
    by rewrite lookup_kmap. }
  rewrite Hk. unfold f, relocate. clear Hk.
  destruct (decide (d ++ [a] `prefix_of` k)) as [Hpa|Hna].
  - rewrite (decide_False (P := d ++ [b] `prefix_of` k)) by by eapply sibling_not_prefix.
    destruct Hpa as [s ->]. rewrite drop_app_length.
    destruct (decide (s = [])) as [->|Hs]; [by rewrite app_nil_r, lookup_delete_eq|].
    rewrite lookup_delete_ne.
    + apply eq_None_not_Some. intros Hsome.
      destruct (tree_ok_below t (d ++ [b]) _ Ht ltac:(by eexists) Hsome) as [E|]; [|done].
      apply Hs. apply (app_inv_head (d ++ [b])). by rewrite app_nil_r.
    + intros E. apply Hs. apply (app_inv_head (d ++ [b])). by rewrite app_nil_r.
  - destruct (decide (d ++ [b] `prefix_of` k)) as [Hpb|Hnb].
    + rewrite lookup_delete_ne; [done|]. intros E.
      eapply (sibling_not_prefix d a b (d ++ [b])); [done| |done]. rewrite E. by apply prefix_app_r.
    + rewrite lookup_delete_ne; [done|]. intros E. apply Hnb. by rewrite E.
Qed.

(** ** User paths, both ways *)

(** The names of a node lead to it. *)
Lemma resolve_names t base s :
  base_ok t base → Forall plain_name s → s ≠ [] → link_free t (base ++ s) → is_Some (t !! (base ++ s)) →
  resolve_safe_path base (join_slash s) t = inr (base ++ s).
Proof.
  intros Hb Hp Hs Hl He. destruct (join_slash_head s Hs Hp) as [H1 H2].
  assert (Forall clean s) as Hc by (apply (Forall_impl plain_name); [done|by intros c [? _]]).
  assert (0 ∉ join_slash s) as H0.
  { apply join_slash_not_in; [done|]. apply (Forall_impl plain_name); [done|by intros c (_ & _ & ?)]. }
  assert (split_on slash (join_slash s) = s) as Hsp.
  { apply split_join; [done|]. apply (Forall_impl plain_name); [done|by intros c (_ & ? & _)]. }
  unfold resolve_safe_path. rewrite (base_resolves t base Hb). cbn [mbind sum_bind].
  rewrite bool_decide_eq_false_2, H2, bool_decide_eq_false_2, Hsp by done.
  unfold resolve_path. rewrite (resolve_self MAX_LINKS t base s) by done. cbn [mbind sum_bind].
  rewrite bool_decide_eq_true_2 by by apply prefix_app_r. cbn [negb].
  unfold exists_. rewrite stat_real; [|done|].
  - by rewrite bool_decide_eq_true_2.
  - apply Forall_app. by split; [apply Hb|].
Qed.

(** C7: In a shared folder whose own path has no links, [resolve_safe_path] answers
    only with paths inside the folder, free of links and of dots, and (unless the
    user path is empty) existing; conversely the slash-separated names of any node
    of the folder that is not behind a link are accepted and lead to that node; and
    an absolute user path is always refused. *)
Theorem resolve_safe_path_spec t base :
  base_ok t base →
  (∀ u p, resolve_safe_path base u t = inr p →
     base `prefix_of` p ∧ link_free t p ∧ Forall clean p ∧ (u ≠ [] → is_Some (t !! p))) ∧
  (∀ s, Forall plain_name s → s ≠ [] → link_free t (base ++ s) → is_Some (t !! (base ++ s)) →
     resolve_safe_path base (join_slash s) t = inr (base ++ s)) ∧
  (∀ u, resolve_safe_path base (slash :: u) t = inl PathTraversalError).
Proof.
  intros Hb. split; [intros u p; by apply safe_path_inside|]. split.
  - intros s. by apply resolve_names.
  - intros u. unfold resolve_safe_path. by rewrite (base_resolves t base Hb).
Qed.

(** ** Uploads *)

Section upload.
Context t dir (Hl : link_free t dir) (Hc : Forall clean dir) (Hn : no_links_in t dir).
Context (Hd : t !! dir = Some FDir).

Lemma write_upload_real n content :
  clean n → t !! (dir ++ [n]) ≠ Some FDir →
  write_upload t dir n content = (<[dir ++ [n] := FFile content]> t, inr (uploaded n content)).
Proof. intros Hcl He. unfold write_upload. rewrite write_entry by done. by destruct (t !! (dir ++ [n])) as [[]|]. Qed.

Lemma tmp_name_ne (n : pystr) : n ++ py ".tmp" ≠ n.
Proof. intros E. apply (f_equal length) in E. rewrite length_app in E. simpl in E. lia. Qed.

Lemma tmp_path_ne (n : pystr) : dir ++ [n ++ py ".tmp"] ≠ dir ++ [n].
Proof. intros E. apply app_inv_head in E. injection E as E. by apply tmp_name_ne in E. Qed.

Lemma tmp_clean (n : pystr) : clean n → clean (n ++ py ".tmp").
Proof. intros H. apply clean_app; [done|]. rewrite length_app. simpl. lia. Qed.

Lemma overwrite_upload_real n content :
  clean n →
  overwrite_upload t dir n content =
  match t !! (dir ++ [n ++ py ".tmp"]), t !! (dir ++ [n]) with
  | Some FDir, _ => (t, inl IsADirectoryError)
  | _, Some FDir => (<[dir ++ [n ++ py ".tmp"] := FFile content]> t, inl IsADirectoryError)
  | _, _ => (delete (dir ++ [n ++ py ".tmp"]) (<[dir ++ [n] := FFile content]> t),
             inr (uploaded n content))
  end.
Proof.
  intros Hcl. unfold overwrite_upload. cbv zeta. pose proof (tmp_path_ne n) as Hne.
  set (tmp := dir ++ [n ++ py ".tmp"]) in *.
  assert (Hw : write_file t tmp content
               = match t !! tmp with
                 | Some FDir => inl IsADirectoryError
                 | _ => inr (<[tmp := FFile content]> t)
                 end) by (apply write_entry; try done; by apply tmp_clean).
  assert (Hr : replace_file (<[tmp := FFile content]> t) tmp (dir ++ [n])
               = delete tmp (<[dir ++ [n] := FFile content]> t)).
  { unfold replace_file. rewrite lookup_insert_eq. rewrite delete_insert_eq.
    by rewrite delete_insert_ne. }
  rewrite Hw. destruct (t !! tmp) as [[]|]; try done; rewrite lookup_insert_ne, Hr by done;
    by repeat case_match.
Qed.

(** The first free number. *)
Lemma free_name_first fuel stem suffix k r :
  0 ≤ k → stem ≠ [] → free_name fuel t dir stem suffix k = Some r →
  ∃ i, k ≤ i ∧ r = numbered stem suffix i ∧ t !! (dir ++ [r]) = None ∧
    ∀ j, k ≤ j < i → is_Some (t !! (dir ++ [numbered stem suffix j])).
Proof.
  intros Hk Hs. revert k Hk. induction fuel as [|fuel IH]; intros k Hk; cbn [free_name]; [done|].
  assert (Hex : exists_ t (dir ++ [numbered stem suffix k])
                = bool_decide (is_Some (t !! (dir ++ [numbered stem suffix k])))).
  { unfold exists_. rewrite stat_entry; [done..|]. by apply numbered_clean. }
  cbv zeta. rewrite Hex. case_bool_decide as He.
  - intros H. destruct (IH (k + 1) ltac:(lia) H) as (i & Hi & -> & Hr & Hj).
    exists i. split_and!; [lia|done|done|]. intros j Hji.
    destruct (decide (j = k)) as [->|]; [done|]. apply Hj. lia.
  - intros [= <-]. exists k. split_and!; [lia|done|by apply eq_None_not_Some|]. lia.
Qed.

End upload.

(** C8: An upload into a directory without links.  A bad name changes nothing.  A new
    name receives exactly the bytes.  For a name that is taken: without a conflict
    mode the upload is refused and nothing changes, SKIP changes nothing, RENAME
    always ends and writes the bytes under the first free number, leaving everything
    that was there, and OVERWRITE puts the bytes in place of the old file, at the
    price of the entry called like the file with [.tmp] appended; a directory is
    never overwritten, but the refused upload is left behind as that [.tmp] file. *)
Theorem upload_spec t base rel dir name content cr :
  base_ok t base → resolve_safe_path base rel t = inr dir → t !! dir = Some FDir →
  no_links_in t dir →
  let '(t', r) := upload_file base rel name content cr t in
  match validate_upload_filename name with
  | inl e => t' = t ∧ r = inl e
  | inr _ =>
      match t !! (dir ++ [name]), cr with
      | None, _ => t' = <[dir ++ [name] := FFile content]> t ∧ r = inr (uploaded name content)
      | Some _, None => t' = t ∧ r = inl (FileConflictError name)
      | Some _, Some SKIP => t' = t ∧ ∃ res, r = inr res ∧ ur_skipped res = true ∧ ur_name res = name
      | Some _, Some RENAME =>
          let '(stem, suffix) := split_suffix name in
          ∃ i, 1 ≤ i ∧
            (∀ j, 1 ≤ j < i → is_Some (t !! (dir ++ [numbered stem suffix j]))) ∧
            t !! (dir ++ [numbered stem suffix i]) = None ∧
            t' = <[dir ++ [numbered stem suffix i] := FFile content]> t ∧
            r = inr (uploaded (numbered stem suffix i) content)
      | Some old, Some OVERWRITE =>
          match t !! (dir ++ [name ++ py ".tmp"]), old with
          | Some FDir, _ => t' = t ∧ r = inl IsADirectoryError
          | _, FDir => t' = <[dir ++ [name ++ py ".tmp"] := FFile content]> t ∧ r = inl IsADirectoryError
          | _, _ => t' = delete (dir ++ [name ++ py ".tmp"]) (<[dir ++ [name] := FFile content]> t) ∧
                    r = inr (uploaded name content)
          end
      end
  end.
Proof.
  intros Hb Hr Hd Hn. destruct (safe_path_inside _ _ _ _ Hb Hr) as (_ & Hl & Hc & _).
  unfold upload_file. rewrite Hr.
  destruct (validate_upload_filename name) as [e|n'] eqn:Ev; [done|].
  apply valid_filename in Ev as [-> [Hcl [Hs _]]].
  assert (Hne : name ≠ []).
  { intros ->. by destruct Hcl. }
  rewrite stat_entry by done. destruct (t !! (dir ++ [name])) as [old|] eqn:Eo.
  - destruct cr as [[]|]; [| | |done].
    + rewrite overwrite_upload_real by done. rewrite Eo.
      destruct (t !! (dir ++ [name ++ py ".tmp"])) as [[]|], old; done.
    + pose proof (split_suffix_stem name Hne) as Hst. destruct (split_suffix name) as [stem suffix].
      destruct (free_name_ends t dir stem suffix Hst Hl Hc) as [r Hf]. rewrite Hf.
      apply free_name_first in Hf as (i & Hi & -> & Hno & Hj); [|done..].
      rewrite write_upload_real; [|done..|apply numbered_clean; [lia|done]|by rewrite Hno].
      by exists i.
    + split; [done|]. by eexists.
  - rewrite write_upload_real; [done..|]. by rewrite Eo.
Qed.

(** ** The shared folder under every operation *)

(** A folder that may be shared safely: its own path is real, it is a directory,
    nothing in it is a link, and the file system is a tree. *)
Record share_ok base t : Prop := {
  share_base : base_ok t base;
  share_dir : t !! base = Some FDir;
  share_links : ∀ k target, base `prefix_of` k → t !! k ≠ Some (FLink target);
  share_tree : tree_ok t
}.

Inductive file_op :=
| OpUpload (rel name : pystr) (content : bytes) (cr : option ConflictResolution)
| OpDelete (paths : list pystr)
| OpRename (old new : pystr)
| OpCreate (rel name : pystr).

Definition run_op base (op : file_op) t : gmap (list (list Z)) node :=
  match op with
  | OpUpload rel name content cr => (upload_file base rel name content cr t).1
  | OpDelete paths => (delete_paths base paths [] t).1
  | OpRename old new => (rename_path base old new t).1
  | OpCreate rel name => (create_folder base rel name t).1
  end.

(** The operation is not aimed at the shared folder itself. *)
Definition spares_root base (op : file_op) t : Prop :=
  match op with
  | OpDelete paths => (delete_paths base paths [] t).1 !! base = Some FDir
  | OpRename old _ => resolve_safe_path base old t ≠ inr base
  | _ => True
  end.

Lemma share_no_links base t dir : share_ok base t → base `prefix_of` dir → no_links_in t dir.
Proof. intros Hs Hd n target. eapply share_links; [done|]. etrans; [done|by apply prefix_app_r]. Qed.

(** What a change inside the folder must satisfy to keep it safe. *)
Lemma share_change base t t' :
  share_ok base t → same_outside base t t' → t' !! base = Some FDir → tree_ok t' →
  (∀ k target, base `prefix_of` k → t' !! k ≠ Some (FLink target)) → share_ok base t'.
Proof.
  intros Hs Ho Hd Ht Hl. split; [|done..]. destruct Hs as [[Hbl Hbc] _ _ _]. split; [|done].
  intros q target Hq E. destruct (decide (base `prefix_of` q)) as [Hb|Hb].
  - by apply (Hl q target).
  - rewrite Ho in E by done. by apply (Hbl q target).
Qed.

(** A new or changed entry of a directory that exists. *)
Lemma tree_ok_insert t d n x :
  tree_ok t → t !! d = Some FDir → (t !! (d ++ [n]) = Some FDir → x = FDir) →
  tree_ok (<[d ++ [n] := x]> t).
Proof.
  intros Ht Hd Hx p c. destruct (decide (p ++ [c] = d ++ [n])) as [E|E].
  - apply app_inj_tail in E as [-> ->]. intros _. rewrite lookup_insert_ne; [done|].
    intros E. apply (f_equal length) in E. rewrite length_app in E. simpl in E. lia.
  - rewrite lookup_insert_ne by done. intros Hs%Ht. destruct (decide (p = d ++ [n])) as [->|].
    + rewrite lookup_insert_eq. by rewrite Hx.
    + by rewrite lookup_insert_ne.
Qed.

Lemma tree_ok_delete t k : tree_ok t → t !! k ≠ Some FDir → tree_ok (delete k t).
Proof.
  intros Ht Hk p c. destruct (decide (k = p ++ [c])) as [->|E].
  { rewrite lookup_delete_eq. by intros []. }
  rewrite lookup_delete_ne by done. intros Hs%Ht. rewrite lookup_delete_ne; [done|]. by intros ->.
Qed.

Lemma tree_ok_rmtree t k : tree_ok t → tree_ok (rmtree t k).
Proof.
  intros Ht p c. rewrite !rmtree_lookup. case_decide as H1; [by intros []|]. intros Hs%Ht.
  rewrite decide_False; [done|]. intros H2. apply H1. by apply prefix_app_r.
Qed.

(** Entries written in the folder. *)
Lemma share_insert base t d n x :
  share_ok base t → base `prefix_of` d → t !! d = Some FDir →
  (t !! (d ++ [n]) = Some FDir → x = FDir) → (∀ target, x ≠ FLink target) →
  let t' := <[d ++ [n] := x]> t in same_outside base t t' ∧ share_ok base t'.
Proof.
  intros Hs Hp Hd Hx Hnl. cbv zeta.
  assert (base `prefix_of` d ++ [n]) as Hpn by (etrans; [done|by apply prefix_app_r]).
  assert (base ≠ d ++ [n]) as Hne.
  { intros E. apply prefix_length in Hp. apply (f_equal length) in E.
    rewrite length_app in E. simpl in E. lia. }
  assert (same_outside base t (<[d ++ [n] := x]> t)) as Ho.
  { intros k Hk. rewrite lookup_insert_ne; [done|]. by intros <-. }
  split; [done|]. apply (share_change base t); try done.
  - rewrite lookup_insert_ne by done. apply Hs.
  - apply tree_ok_insert; [apply Hs|done..].
  - intros k target Hk. destruct (decide (k = d ++ [n])) as [->|].
    + rewrite lookup_insert_eq. intros [= E]. by apply (Hnl target).
    + rewrite lookup_insert_ne by done. by eapply share_links.
Qed.

Lemma share_delete base t k :
  share_ok base t → base `prefix_of` k → t !! k ≠ Some FDir →
  same_outside base t (delete k t) ∧ share_ok base (delete k t).
Proof.
  intros Hs Hp Hk. assert (same_outside base t (delete k t)) as Ho.
  { intros k' Hk'. rewrite lookup_delete_ne; [done|]. by intros <-. }
  split; [done|]. apply (share_change base t); try done.
  - rewrite lookup_delete_ne; [apply Hs|]. intros ->. by destruct Hs.
  - by apply tree_ok_delete; [apply Hs|].
  - intros k' target Hk' [_ E]%lookup_delete_Some. by eapply share_links.
Qed.

#[export] Instance same_outside_preorder base : PreOrder (same_outside base).
Proof.
  split; [by intros t k|]. intros t1 t2 t3 H1 H2 k Hk. by rewrite H2, H1.
Qed.

(** What keeps the folder, and everything outside it. *)
Definition keeps base t t' : Prop := same_outside base t t' ∧ share_ok base t'.

Lemma keeps_refl base t : share_ok base t → keeps base t t.
Proof. done. Qed.

(** A path that the user reaches is a directory, or has no entries. *)
Lemma not_dir_no_entry t d n : tree_ok t → t !! d ≠ Some FDir → t !! (d ++ [n]) = None.
Proof. intros Ht Hd. apply eq_None_not_Some. intros Hs. by apply Hd, (Ht d n). Qed.

Lemma write_upload_nodir t d n content :
  link_free t d → Forall clean d → no_links_in t d → clean n → tree_ok t → t !! d ≠ Some FDir →
  (write_upload t d n content).1 = t.
Proof.
  intros Hl Hc Hn Hcl Ht Hd. destruct (entry_real t d n) as [H1 H2]; try done.
  unfold write_upload, write_file. rewrite (resolve_self MAX_LINKS t [] (d ++ [n])) by done.
  cbn [app]. rewrite not_dir_no_entry by done. unfold parent. rewrite removelast_last.
  by destruct (t !! d) as [[]|].
Qed.

Lemma upload_keeps base t rel name content cr :
  share_ok base t → keeps base t (upload_file base rel name content cr t).1.
Proof.
  intros Hs. pose proof (share_base _ _ Hs) as Hb. unfold upload_file.
  destruct (resolve_safe_path base rel t) as [e|d] eqn:Er; [by apply keeps_refl|].
  destruct (safe_path_inside _ _ _ _ Hb Er) as (Hp & Hl & Hc & _).
  pose proof (share_no_links _ _ _ Hs Hp) as Hn.
  destruct (validate_upload_filename name) as [e|n'] eqn:Ev; [by apply keeps_refl|].
  apply valid_filename in Ev as [-> [Hcl _]].
  rewrite stat_entry by done. destruct (decide (t !! d = Some FDir)) as [Hd|Hd]; last first.
  { rewrite not_dir_no_entry by (done || apply Hs). rewrite write_upload_nodir; try done.
    apply Hs. }
  assert (Hw : ∀ n, clean n → t !! (d ++ [n]) = None → keeps base t (write_upload t d n content).1).
  { intros n Hcn Hno. rewrite write_upload_real; [|done..|by rewrite Hno].
    apply share_insert; [done..| |done]. by rewrite Hno. }
  destruct (t !! (d ++ [name])) as [old|] eqn:Eo; [|by apply Hw].
  destruct cr as [[]|]; try by apply keeps_refl.
  - rewrite overwrite_upload_real by done. rewrite Eo. set (tmp := name ++ py ".tmp").
    assert (keeps base t (<[d ++ [tmp] := FFile content]> t) ∨ t !! (d ++ [tmp]) = Some FDir) as Ht.
    { destruct (decide (t !! (d ++ [tmp]) = Some FDir)); [by right|left]. by apply share_insert. }
    assert (old ≠ FDir → t !! (d ++ [tmp]) ≠ Some FDir →
            keeps base t (delete (d ++ [tmp]) (<[d ++ [name] := FFile content]> t))) as Hw'.
    { intros Ho Hnt. destruct (share_insert base t d name (FFile content) Hs Hp Hd) as [H1 H2];
        [congruence|done|]. destruct (share_delete base _ (d ++ [tmp]) H2) as [H3 H4].
      - etrans; [done|by apply prefix_app_r].
      - rewrite lookup_insert_ne; [done|]. apply not_eq_sym, tmp_path_ne.
      - split; [by etrans|done]. }
    destruct (t !! (d ++ [tmp])) as [[]|]; destruct old; cbn; try (by apply Hw'); try by apply keeps_refl.
    all: by destruct Ht.
  - assert (name ≠ []) as Hne by (intros ->; by destruct Hcl).
    pose proof (split_suffix_stem name Hne) as Hst. destruct (split_suffix name) as [stem suffix].
    destruct (free_name_ends t d stem suffix Hst Hl Hc) as [r Hf]. rewrite Hf.
    apply free_name_first in Hf as (i & Hi & -> & Hno & Hj); [|done..].
    apply Hw; [apply numbered_clean; [lia|done]|done].
Qed.

Lemma delete_paths_outside base t paths acc :
  base_ok t base → tree_ok t →
  let t' := (delete_paths base paths acc t).1 in
  t' ⊆ t ∧ same_outside base t t' ∧ tree_ok t'.
Proof.
  cbv zeta. revert t acc. induction paths as [|u paths IH]; intros t acc Hb Ht; [by split_and!|].
  cbn [delete_paths]. destruct (resolve_safe_path base u t) as [e|p] eqn:Er; [by split_and!|].
  destruct (t !! p) as [x|] eqn:Ex; [|by split_and!].
  destruct (safe_path_inside _ _ _ _ Hb Er) as (Hp & Hl & Hc & _).
  destruct (delete_step base t p Hp) as [Hsub Ho].
  assert (tree_ok (if is_dir t p then rmtree t p else delete p t)) as Ht'.
  { unfold is_dir. rewrite stat_real by done.
    rewrite Ex. destruct x; try (by apply tree_ok_delete; [|congruence]). by apply tree_ok_rmtree. }
  destruct (IH _ (acc ++ [u]) (base_ok_subseteq _ _ _ Hsub Hb) Ht') as (H1 & H2 & H3).
  split_and!; [by etrans|by etrans|done].
Qed.

Lemma delete_keeps base t paths :
  share_ok base t → (delete_paths base paths [] t).1 !! base = Some FDir →
  keeps base t (delete_paths base paths [] t).1.
Proof.
  intros Hs Hd. destruct (delete_paths_outside base t paths []) as (H1 & H2 & H3); [apply Hs..|].
  split; [done|]. apply (share_change base t); try done.
  intros k target Hk E. apply (share_links _ _ Hs k target Hk). by eapply lookup_weaken.
Qed.

Lemma valid_name n : _validate_name n = inr () → n = [dot] ∨ clean n.
Proof.
  unfold _validate_name, clean. destruct (bool_decide (n = [])) eqn:E1; [done|].
  destruct (bool_decide (slash ∈ n)); [done|]. destruct (is_dotdot n) eqn:E2; [done|]. intros _.
  unfold is_dot. rewrite E1. destruct (bool_decide (n = [dot])) eqn:E3; [|by right].
  left. by apply bool_decide_eq_true in E3.
Qed.

(** A directory contains itself under the name of a dot. *)
Lemma exists_dot t d :
  link_free t d → Forall clean d → exists_ t (d ++ [[dot]]) = bool_decide (is_Some (t !! d)).
Proof.
  intros Hl Hc. unfold exists_, stat. rewrite (resolve_app MAX_LINKS t [] d [[dot]]) by done.
  by rewrite resolve_unfold.
Qed.

(** Where [rename_path] renames at all: a node that is an entry of a directory, to a
    name that no entry has. *)
Lemma rename_path_real base t old new resolved :
  share_ok base t → _validate_name new = inr () → resolve_safe_path base old t = inr resolved →
  resolved ≠ base →
  ∃ d a, resolved = d ++ [a] ∧ base `prefix_of` d ∧ t !! d = Some FDir ∧ is_Some (t !! resolved) ∧
    if exists_ t (d ++ [new]) then
      new = [dot] ∨ is_Some (t !! (d ++ [new]))
    else new ≠ a ∧ clean new ∧ t !! (d ++ [new]) = None.
Proof.
  intros Hs Hv Hr Hne. pose proof (share_base _ _ Hs) as Hb.
  destruct (safe_path_inside _ _ _ _ Hb Hr) as ([s ->] & Hl & Hc & He).
  destruct s as [|a s _] using rev_ind; [by rewrite app_nil_r in Hne|].
  assert (old ≠ []) as Ho.
  { intros ->. unfold resolve_safe_path in Hr. rewrite (base_resolves _ _ Hb) in Hr. cbn in Hr. congruence. }
  specialize (He Ho). rewrite (assoc_L (++)) in *. set (d := base ++ s) in *.
  exists d, a. assert (t !! d = Some FDir) as Hd by by eapply share_tree.
  assert (link_free t d) as Hld by (eapply link_free_prefix; [done|by apply prefix_app_r]).
  assert (Forall clean d) as Hcd by by apply Forall_app in Hc as [? _].
  assert (base `prefix_of` d) as Hp by by apply prefix_app_r.
  pose proof (share_no_links _ _ _ Hs Hp) as Hn.
  split_and!; try done. apply valid_name in Hv as [->|Hv].
  - rewrite exists_dot, Hd, bool_decide_eq_true_2 by done. by left.
  - unfold exists_. rewrite stat_entry by done. case_bool_decide as Hx; [by right|].
    split_and!; [|done|by apply eq_None_not_Some]. by intros ->.
Qed.

Lemma tree_ok_move t d a b :
  a ≠ b → tree_ok t → t !! (d ++ [b]) = None → tree_ok (move t (d ++ [a]) (d ++ [b])).
Proof.
  intros Hab Ht Hb p c. rewrite !move_lookup by (done || by rewrite Hb).
  set (pa := d ++ [a]). set (pb := d ++ [b]).
  destruct (decide (pb `prefix_of` p ++ [c])) as [Hc|Hc].
  - apply prefix_snoc_cases in Hc as [Hc|Hc].
    + intros Hsome. rewrite <-Hc, drop_all, app_nil_r in Hsome.
      apply app_inj_tail in Hc as [<- <-].
      assert (pb `prefix_of` d → False) as Hx.
      { intros Hx%prefix_length. unfold pb in Hx. rewrite length_app in Hx. simpl in Hx. lia. }
      assert (pa `prefix_of` d → False) as Hy.
      { intros Hy%prefix_length. unfold pa in Hy. rewrite length_app in Hy. simpl in Hy. lia. }
      rewrite !decide_False by done. by eapply Ht.
    + rewrite decide_True by done. destruct Hc as [s ->]. rewrite <-(assoc_L (++)), !drop_app_length.
      rewrite (assoc_L (++)). apply Ht.
  - destruct (decide (pa `prefix_of` p ++ [c])) as [Ha|Ha]; [by intros []|]. intros Hsome.
    rewrite decide_False by (intros Hx; apply Hc; by apply prefix_app_r).
    rewrite decide_False by (intros Hx; apply Ha; by apply prefix_app_r). by eapply Ht.
Qed.

Lemma share_move base t d a b :
  share_ok base t → base `prefix_of` d → a ≠ b → t !! (d ++ [b]) = None →
  keeps base t (move t (d ++ [a]) (d ++ [b])).
Proof.
  intros Hs Hp Hab Hno. pose proof (share_tree _ _ Hs) as Ht.
  pose proof (λ k, move_lookup t d a b k Hab Ht ltac:(by rewrite Hno)) as Hm.
  assert (∀ x, ¬ d ++ [x] `prefix_of` base) as Hx.
  { intros x H. apply prefix_length in H, Hp. rewrite length_app in H. simpl in H. lia. }
  assert (∀ x k, ¬ base `prefix_of` k → ¬ d ++ [x] `prefix_of` k) as Hy.
  { intros x k Hk H. apply Hk. etrans; [done|]. etrans; [|done]. by apply prefix_app_r. }
  assert (same_outside base t (move t (d ++ [a]) (d ++ [b]))) as Ho.
  { intros k Hk. rewrite Hm, !decide_False by by apply Hy. done. }
  split; [done|]. apply (share_change base t); try done.
  - rewrite Hm, !decide_False by done. apply Hs.
  - by apply tree_ok_move.
  - intros k target Hk. rewrite Hm. destruct (decide (d ++ [b] `prefix_of` k)).
    + eapply share_links; [done|]. etrans; [exact Hp|]. by do 2 apply prefix_app_r.
    + case_decide; [done|]. by eapply share_links.
Qed.

Lemma rename_entry_free t p q :
  is_Some (t !! p) → t !! q = None → rename_entry t p q = (move t p q, inr ()).
Proof. intros [x Hp] Hq. unfold rename_entry. rewrite Hp, Hq. by destruct x. Qed.

Lemma rename_keeps base t old new :
  share_ok base t → resolve_safe_path base old t ≠ inr base →
  keeps base t (rename_path base old new t).1.
Proof.
  intros Hs Hne. unfold rename_path. destruct (_validate_name new) as [e|[]] eqn:Ev; [by apply keeps_refl|].
  destruct (resolve_safe_path base old t) as [e|resolved] eqn:Er; [by apply keeps_refl|].
  destruct (rename_path_real base t old new resolved Hs Ev Er ltac:(congruence))
    as (d & a & -> & Hp & Hd & Hx & Hex).
  unfold parent. rewrite removelast_last. cbv zeta.
  destruct (exists_ t (d ++ [new])); [by apply keeps_refl|]. destruct Hex as (Hna & _ & Hno).
  rewrite rename_entry_free by done. by apply share_move.
Qed.

Lemma create_keeps base t rel name :
  share_ok base t → keeps base t (create_folder base rel name t).1.
Proof.
  intros Hs. unfold create_folder. destruct (_validate_name name) as [e|[]]; [by apply keeps_refl|].
  destruct (resolve_safe_path base rel t) as [e|d] eqn:Er; [by apply keeps_refl|].
  destruct (safe_path_inside _ _ _ _ (share_base _ _ Hs) Er) as (Hp & _).
  cbv zeta. destruct (exists_ t (d ++ [name])); [by apply keeps_refl|].
  destruct (t !! d) as [[]|] eqn:Ed; try by apply keeps_refl.
  destruct (t !! (d ++ [name])) eqn:En; [by apply keeps_refl|]. by apply share_insert.
Qed.

(** One request to the file service. *)
Inductive file_step base : gmap (list (list Z)) node → gmap (list (list Z)) node → Prop :=
| step_op t op : spares_root base op t → file_step base t (run_op base op t).

(** C5: Confinement of the file service.  From a shared folder without links, any
    sequence of uploads, deletions, renamings and new folders, whatever the user
    paths, names and contents, none aimed at the shared folder itself, changes
    nothing outside of the folder, keeps it a directory, keeps the file system a
    tree, and creates no link. *)
Theorem share_confined base t t' :
  share_ok base t → rtc (file_step base) t t' → same_outside base t t' ∧ share_ok base t'.
Proof.
  intros Hs Hst. induction Hst as [t|t t1 t2 Hstep Hst IH]; [done|].
  assert (keeps base t t1) as [H1 H2].
  { destruct Hstep as [t op Hop]. destruct op; cbn [run_op spares_root] in *.
    - by apply upload_keeps.
    - by apply delete_keeps.
    - by apply rename_keeps.
    - by apply create_keeps. }
  destruct (IH H2) as [H3 H4]. split; [by etrans|done].
Qed.

(** A renaming of a node other than the shared folder, in a folder without links.
    With a bad name, a bad path, or a name that is taken, nothing changes.  Otherwise
    the node with everything below it is found under the new name in the same
    directory, nothing is left under the old one, all other paths are as they were,
    and the answer is the new path relative to the folder. *)
Theorem rename_spec base t old new :
  share_ok base t → resolve_safe_path base old t ≠ inr base →
  let '(t', r) := rename_path base old new t in
  match r with
  | inl _ => t' = t
  | inr rel =>
      ∃ d a, resolve_safe_path base old t = inr (d ++ [a]) ∧ base ++ rel = d ++ [new] ∧
        t !! (d ++ [new]) = None ∧
        (∀ s, t' !! (d ++ new :: s) = t !! (d ++ a :: s)) ∧
        (∀ s, t' !! (d ++ a :: s) = None) ∧
        (∀ k, ¬ d ++ [a] `prefix_of` k → ¬ d ++ [new] `prefix_of` k → t' !! k = t !! k)
  end.
Proof.
  intros Hs Hne. unfold rename_path. destruct (_validate_name new) as [e|[]] eqn:Ev; [done|].
  destruct (resolve_safe_path base old t) as [e|resolved] eqn:Er; [done|].
  destruct (rename_path_real base t old new resolved Hs Ev Er ltac:(congruence))
    as (d & a & -> & Hp & Hd & Hx & Hex).
  unfold parent. rewrite removelast_last. cbv zeta.
  destruct (exists_ t (d ++ [new])); [done|]. destruct Hex as (Hna & _ & Hno).
  rewrite rename_entry_free by done. destruct (share_move base t d a new) as [_ Hs']; try done.
  rewrite (base_resolves _ _ (share_base _ _ Hs')). cbn [mbind sum_bind]. unfold relative_to.
  assert (base `prefix_of` d ++ [new]) as Hpn by (etrans; [done|by apply prefix_app_r]).
  rewrite bool_decide_eq_true_2 by done.
  pose proof (λ k, move_lookup t d a new k ltac:(done) (share_tree _ _ Hs) ltac:(by rewrite Hno)) as Hm.
  assert (∀ x (s : list pystr), d ++ [x] `prefix_of` d ++ x :: s) as Hpre.
  { intros x s. exists s. by rewrite <-(assoc_L (++)). }
  exists d, a. split_and!; try done.
  - destruct Hpn as [k Hk]. by rewrite Hk, drop_app_length.
  - intros s. rewrite Hm, decide_True by done.
    replace (d ++ new :: s) with ((d ++ [new]) ++ s) by by rewrite <-(assoc_L (++)).
    rewrite drop_app_length. by rewrite <-(assoc_L (++)).
  - intros s. rewrite Hm, decide_False, decide_True; [done|done|].
    by eapply (sibling_not_prefix d a new).
  - intros k H1 H2. by rewrite Hm, !decide_False.
Qed.

(** ** Listing *)

Lemma elem_of_children t p n : n ∈ children t p ↔ is_Some (t !! (p ++ [n])).
Proof.
  unfold children. rewrite list_elem_of_omap. split.
  - intros ([k x] & Hk%elem_of_map_to_list & E). cbn [fst] in E.
    destruct (last k) as [m|]; [|done]. case_decide as Hd; [|done]. injection E as ->. subst k. eauto.
  - intros [x Hx]. exists (p ++ [n], x). split; [by apply elem_of_map_to_list|]. cbn [fst].
    rewrite last_snoc. by rewrite decide_True.
Qed.

Lemma children_NoDup t p : NoDup (children t p).
Proof.
  unfold children. generalize (NoDup_fst_map_to_list t). generalize (map_to_list t).
  intros l. induction l as [|[k x] l IH]; [intros; constructor|].
  rewrite fmap_cons, NoDup_cons. cbn [fst]. intros [Hk Hl]. cbn [omap list_omap].
  specialize (IH Hl). cbn [fst]. destruct (last k) as [m|] eqn:Em; [|done].
  case_decide as Hd; [|done]. apply NoDup_cons. split; [|done].
  rewrite list_elem_of_omap. intros ([k' x'] & Hk' & E). cbn [fst] in E.
  destruct (last k') as [m'|]; [|done]. case_decide as Hd'; [|done]. injection E as ->.
  apply Hk. rewrite Hd, <-Hd'. by apply (list_elem_of_fmap_2 fst _ (k', x')).
Qed.

(** The entry that describes a node. *)
Definition describes t p (e : FileEntry) : Prop :=
  match t !! (p ++ [fe_name e]) with
  | Some (FFile c) => fe_type e = FILE ∧ fe_size e = Some (Z.of_nat (length c))
  | Some FDir => fe_type e = DIRECTORY
  | _ => False
  end.

Lemma entries_of_ok t p ns :
  (∀ n, n ∈ ns → stat t (p ++ [n]) = t !! (p ++ [n]) ∧ is_Some (t !! (p ++ [n])) ∧
                 ∀ target, t !! (p ++ [n]) ≠ Some (FLink target)) →
  ∃ es, entries_of t p ns = inr es ∧ fe_name <$> es = ns ∧ Forall (describes t p) es.
Proof.
  induction ns as [|n ns IH]; intros H; [by exists []|].
  destruct IH as (es & Hes & Hn & Hd); [intros m Hm; apply H; by constructor|].
  destruct (H n ltac:(constructor)) as (H1 & [x Hx] & H3). cbn [entries_of]. rewrite Hes.
  unfold entry_of. rewrite H1, Hx. rewrite Hx in H3.
  destruct x as [c| |target]; [| |by destruct (H3 target)]; cbn [mbind sum_bind];
    (eexists; split; [done|]; split; [by rewrite fmap_cons, Hn|]; constructor; [|done]);
    unfold describes; cbn [fe_name]; by rewrite Hx.
Qed.

Lemma entries_of_error t p ns n :
  n ∈ ns → stat t (p ++ [n]) = None → ∃ e, entries_of t p ns = inl e.
Proof.
  intros Hn Hs. induction Hn as [ns|n m ns Hn IH]; cbn [entries_of].
  - unfold entry_of. rewrite Hs. by eexists.
  - destruct (entry_of t p m) as [e|x]; [by exists e|]. cbn [mbind sum_bind].
    destruct (IH Hs) as [e ->]. by exists e.
Qed.

(** The listing of a directory of a shared folder without links names every entry
    of the directory exactly once and nothing else, with its kind and, for a file,
    its size; a file cannot be listed. *)
Theorem list_directory_spec base t rel dir :
  share_ok base t → (∀ k, is_Some (t !! k) → Forall clean k) →
  resolve_safe_path base rel t = inr dir →
  match t !! dir with
  | Some FDir =>
      ∃ es, list_directory base rel t = inr es ∧ NoDup (fe_name <$> es) ∧
        (∀ n, n ∈ fe_name <$> es ↔ is_Some (t !! (dir ++ [n]))) ∧ Forall (describes t dir) es
  | Some _ => list_directory base rel t = inl NotADirectoryError
  | None => list_directory base rel t = inl FileNotFoundError
  end.
Proof.
  intros Hs Hclean Hr. destruct (safe_path_inside _ _ _ _ (share_base _ _ Hs) Hr) as (Hp & Hl & Hc & _).
  unfold list_directory. rewrite Hr. cbn [mbind sum_bind].
  destruct (t !! dir) as [[]|] eqn:Ed; try done.
  destruct (entries_of_ok t dir (children t dir)) as (es & -> & Hn & Hd).
  - intros n Hn%elem_of_children. pose proof (share_no_links _ _ _ Hs Hp) as Hnl.
    split_and!; [|done|apply Hnl]. apply stat_real; [by apply link_free_snoc|by apply Hclean].
  - exists es. rewrite Hn. split_and!; [done|apply children_NoDup|apply elem_of_children|done].
Qed.

(** ** Where the confinement ends *)

(** A link that leads nowhere makes the listing of its directory fail as a whole. *)
Theorem dangling_link_hides_directory base t rel dir n :
  resolve_safe_path base rel t = inr dir → t !! dir = Some FDir →
  is_Some (t !! (dir ++ [n])) → stat t (dir ++ [n]) = None →
  ∃ e, list_directory base rel t = inl e.
Proof.
  intros Hr Hd Hn Hs. unfold list_directory. rewrite Hr. cbn [mbind sum_bind]. rewrite Hd.
  eapply entries_of_error; [by apply elem_of_children|done].
Qed.

(** Overwriting a file destroys the file called like it with [.tmp] appended. *)
Theorem overwrite_destroys_tmp base t rel dir name content old other :
  base_ok t base → resolve_safe_path base rel t = inr dir → t !! dir = Some FDir →
  no_links_in t dir → validate_upload_filename name = inr name →
  t !! (dir ++ [name]) = Some (FFile old) → t !! (dir ++ [name ++ py ".tmp"]) = Some (FFile other) →
  let '(t', r) := upload_file base rel name content (Some OVERWRITE) t in
  r = inr (uploaded name content) ∧ t' !! (dir ++ [name ++ py ".tmp"]) = None.
Proof.
  intros Hb Hr Hd Hn Hv Ho Ht. destruct (safe_path_inside _ _ _ _ Hb Hr) as (_ & Hl & Hc & _).
  unfold upload_file. rewrite Hr, Hv. apply valid_filename in Hv as [_ [Hcl _]].
  rewrite stat_entry, Ho by done. rewrite overwrite_upload_real, Ho, Ht by done.
  split; [done|]. apply lookup_delete_eq.
Qed.

(** The empty path in a deletion is the shared folder itself. *)
Theorem delete_empty_path base t :
  base_ok t base → t !! base = Some FDir → delete_paths base [[]] [] t = (rmtree t base, inr [[]]).
Proof.
  intros Hb Hd. cbn [delete_paths]. unfold resolve_safe_path. rewrite (base_resolves _ _ Hb).
  cbn [mbind sum_bind]. rewrite bool_decide_eq_true_2 by done. unfold is_dir.
  rewrite stat_real by apply Hb. by rewrite Hd.
Qed.

(** The renaming that [spares_root] leaves out.  With the empty path the shared
    folder itself is renamed, with everything in it, to a path outside of it; the
    request then fails, after the fact, and every later path is looked up in a folder
    that no longer exists. *)
Theorem rename_root_escapes t d a new :
  share_ok (d ++ [a]) t → clean new → _validate_name new = inr () → new ≠ a →
  t !! (d ++ [new]) = None →
  let '(t', r) := rename_path (d ++ [a]) [] new t in
  r = inl FsValueError ∧
  t' !! (d ++ [a]) = None ∧
  (∀ s, t' !! (d ++ new :: s) = t !! (d ++ a :: s)) ∧ ¬ d ++ [a] `prefix_of` d ++ [new].
Proof.
  intros Hs Hcl Hv Hna Hno. pose proof (share_base _ _ Hs) as Hb.
  assert (link_free t d ∧ Forall clean d) as [Hl Hc].
  { destruct Hb as [H1 H2]. apply Forall_app in H2 as [H2 _]. split; [|done].
    eapply link_free_prefix; [done|by apply prefix_app_r]. }
  pose proof (λ k, move_lookup t d a new k ltac:(done) (share_tree _ _ Hs) ltac:(by rewrite Hno)) as Hm.
  assert (¬ d ++ [new] `prefix_of` d ++ [a]) as Hsib by by eapply (sibling_not_prefix d a new).
  assert (¬ d ++ [a] `prefix_of` d ++ [new]) as Hsib' by by eapply (sibling_not_prefix d new a).
  unfold rename_path. rewrite Hv. unfold resolve_safe_path. rewrite (base_resolves _ _ Hb).
  cbn [mbind sum_bind]. rewrite bool_decide_eq_true_2 by done. cbv zeta. unfold parent.
  rewrite removelast_last.
  assert (exists_ t (d ++ [new]) = false) as ->.
  { apply not_true_iff_false. intros Hx. apply exists_entry in Hx; [|done..]. rewrite Hno in Hx. by destruct Hx. }
  rewrite rename_entry_free by (done || by eexists; apply Hs).
  assert (base_ok (move t (d ++ [a]) (d ++ [new])) (d ++ [a])) as Hb'.
  { split; [|apply Hb]. intros q target Hq. rewrite Hm.
    rewrite decide_False by (intros Hx; apply Hsib; by etrans). case_decide; [done|]. by apply Hb. }
  rewrite (base_resolves _ _ Hb'). cbn [mbind sum_bind]. unfold relative_to.
  rewrite bool_decide_eq_false_2 by done. split; [done|]. split; [|split; [|done]].
  - by rewrite Hm, decide_False, decide_True.
  - intros s. rewrite Hm, decide_True by (exists s; by rewrite <-(assoc_L (++))).
    replace (d ++ new :: s) with ((d ++ [new]) ++ s) by by rewrite <-(assoc_L (++)).
    rewrite drop_app_length. by rewrite <-(assoc_L (++)).
Qed.

(** The links that [no_links_in] leaves out.  A name that exists in the folder as a
    link that leads nowhere does not count as a conflict, and the upload is written
    where the link points, also outside of the shared folder. *)
Theorem upload_follows_link base t rel dir name target q content cr :
  base_ok t base → resolve_safe_path base rel t = inr dir → validate_upload_filename name = inr name →
  t !! (dir ++ [name]) = Some (FLink target) →
  resolve MAX_LINKS t [] (dir ++ [name]) = Some q → t !! q = None → t !! parent q = Some FDir →
  upload_file base rel name content cr t = (<[q := FFile content]> t, inr (uploaded name content)).
Proof.
  intros Hb Hr Hv Hlink Hq Hno Hp. unfold upload_file. rewrite Hr, Hv. unfold stat. rewrite Hq.
  cbn [mbind option_bind]. rewrite Hno. unfold write_upload, write_file. by rewrite Hq, Hno, Hp.
Qed.

(** ** Examples *)

Definition tree_check t : bool :=
  forallb (λ kv : list (list Z) * node,
             match kv.2 with FLink _ => false | _ => true end &&
             match last kv.1 with
             | None => true
             | Some _ => bool_decide (t !! removelast kv.1 = Some FDir)
             end) (map_to_list t).

Lemma tree_check_node t k n :
  tree_check t = true → t !! k = Some n →
  (∀ target, n ≠ FLink target) ∧ ∀ p c, k = p ++ [c] → t !! p = Some FDir.
Proof.
  unfold tree_check. rewrite forallb_forall. intros H Hk.
  specialize (H (k, n)). apply andb_true_iff in H as [H1 H2].
  - split; [intros target ->; done|]. intros p c ->. cbn [fst] in H2.
    rewrite last_snoc, removelast_last in H2. by apply bool_decide_eq_true in H2.
  - by apply list_elem_of_In, elem_of_map_to_list.
Qed.

Lemma tree_check_links t p : tree_check t = true → link_free t p.
Proof. intros H q target _ E. by apply (proj1 (tree_check_node _ _ _ H E) target). Qed.

Lemma tree_check_ok base t :
  tree_check t = true → Forall clean base → t !! base = Some FDir → share_ok base t.
Proof.
  intros H Hc Hd. split; [split; [by apply tree_check_links|done]|done| |].
  - intros q target _ E. by apply (proj1 (tree_check_node _ _ _ H E) target).
  - intros p c [n E]. by eapply (proj2 (tree_check_node _ _ _ H E)).
Qed.

Definition ex_base : list (list Z) := [py "srv"; py "share"].

Definition ex_tree : gmap (list (list Z)) node :=
  list_to_map
    [([], FDir); ([py "srv"], FDir); (ex_base, FDir); (ex_base ++ [py "sub"], FDir);
     (ex_base ++ [py "a.txt"], FFile [Byte.x01]); (ex_base ++ [py "a_1.txt"], FFile [Byte.x02]);
     (ex_base ++ [py "a.txt.tmp"], FFile [Byte.x03]); (ex_base ++ [py "sub"; py "b"], FFile [Byte.x04])].

Lemma clean_check p : forallb (λ c, negb (is_dot c) && negb (is_dotdot c)) p = true → Forall clean p.
Proof.
  rewrite forallb_forall. intros H. apply Forall_forall. intros c Hc%list_elem_of_In.
  apply H, andb_true_iff in Hc as [H1 H2]. by apply negb_true_iff in H1, H2.
Qed.

Lemma names_check t :
  forallb (λ kv, forallb (λ c, negb (is_dot c) && negb (is_dotdot c)) kv.1) (map_to_list t) = true →
  ∀ k, is_Some (t !! k) → Forall clean k.
Proof.
  rewrite forallb_forall. intros H k [n Hk]. apply clean_check. apply (H (k, n)).
  by apply list_elem_of_In, elem_of_map_to_list.
Qed.

Lemma ex_check : tree_check ex_tree = true.
Proof. by vm_compute. Qed.

Lemma ex_share : share_ok ex_base ex_tree.
Proof. apply tree_check_ok; [apply ex_check|by apply clean_check|by vm_compute]. Qed.

Lemma resolve_safe_path_spec_witness :
  resolve_safe_path ex_base (py "sub/b") ex_tree = inr (ex_base ++ [py "sub"; py "b"]).
Proof.
  destruct (resolve_safe_path_spec ex_tree ex_base (share_base _ _ ex_share)) as (_ & H & _).
  apply (H [py "sub"; py "b"]).
  - apply (bool_decide_unpack _). by vm_compute.
  - done.
  - apply tree_check_links, ex_check.
  - apply (bool_decide_unpack _). by vm_compute.
Defined.

(** The second free number: [a_1.txt] is taken. *)
Lemma upload_spec_witness :
  let '(t', r) := upload_file ex_base [] (py "a.txt") [Byte.x05] (Some RENAME) ex_tree in
  t' = <[ex_base ++ [py "a_2.txt"] := FFile [Byte.x05]]> ex_tree ∧
  r = inr (uploaded (py "a_2.txt") [Byte.x05]).
Proof.
  destruct (upload_file ex_base [] (py "a.txt") [Byte.x05] (Some RENAME) ex_tree) as [t' r] eqn:E.
  pose proof (upload_spec ex_tree ex_base [] ex_base (py "a.txt") [Byte.x05] (Some RENAME)
    (share_base _ _ ex_share) ltac:(by vm_compute) (share_dir _ _ ex_share)
    (share_no_links _ _ _ ex_share ltac:(done))) as H.
  rewrite E in H. replace (validate_upload_filename (py "a.txt")) with (inr (A := FsExn) (py "a.txt")) in H
    by by vm_compute.
  replace (ex_tree !! (ex_base ++ [py "a.txt"])) with (Some (FFile [Byte.x01])) in H by by vm_compute.
  replace (split_suffix (py "a.txt")) with (py "a", py ".txt") in H by by vm_compute.
  destruct H as (i & H1 & H2 & H3 & H4).
  assert (i = 2) as ->; [|done].
  destruct (decide (i = 1)) as [->|]; [by vm_compute in H3|].
  destruct (decide (i = 2)) as [|]; [done|]. destruct (H2 2 ltac:(lia)) as [x Hx]. by vm_compute in Hx.
Defined.

Lemma share_confined_witness :
  same_outside ex_base ex_tree
    (run_op ex_base (OpRename (py "sub") (py "new")) (run_op ex_base (OpDelete [py "a.txt"]) ex_tree)).
Proof.
  apply (share_confined ex_base ex_tree _ ex_share).
  eapply rtc_l; [apply (step_op _ _ (OpDelete [py "a.txt"])); by vm_compute|].
  eapply rtc_l; [apply (step_op _ _ (OpRename (py "sub") (py "new"))); by vm_compute|]. constructor.
Defined.

Lemma rename_spec_witness :
  let '(t', r) := rename_path ex_base (py "sub") (py "new") ex_tree in
  r = inr [py "new"] ∧ t' !! (ex_base ++ [py "new"; py "b"]) = Some (FFile [Byte.x04]).
Proof.
  pose proof (rename_spec ex_base ex_tree (py "sub") (py "new") ex_share ltac:(by vm_compute)) as H.
  assert ((rename_path ex_base (py "sub") (py "new") ex_tree).2 = inr [py "new"]) as Hr by by vm_compute.
  destruct (rename_path ex_base (py "sub") (py "new") ex_tree) as [t' r]. cbn in Hr. subst r.
  destruct H as (d & a & H1 & H2 & _ & H4 & _). split; [done|].
  change (ex_base ++ [py "new"]) with (ex_base ++ [py "new"]) in H2. apply app_inj_tail in H2 as [<- _].
  assert (resolve_safe_path ex_base (py "sub") ex_tree = inr (ex_base ++ [py "sub"])) as E by by vm_compute.
  rewrite E in H1. injection H1 as <-. by rewrite (H4 [py "b"]).
Defined.

Lemma list_directory_spec_witness :
  ∃ es, list_directory ex_base (py "sub") ex_tree = inr es ∧ NoDup (fe_name <$> es) ∧
        py "b" ∈ fe_name <$> es ∧ py "a.txt" ∉ fe_name <$> es.
Proof.
  destruct (list_directory_spec ex_base ex_tree (py "sub") (ex_base ++ [py "sub"]) ex_share)
    as (es & H1 & H2 & H3 & _).
  - apply names_check. by vm_compute.
  - by vm_compute.
  - exists es. split; [done|]. split; [done|]. rewrite !H3. split.
    + apply (bool_decide_unpack _). by vm_compute.
    + apply (bool_decide_eq_false_1 _). by vm_compute.
Defined.

Lemma rename_root_escapes_witness :
  let '(t', r) := rename_path ex_base [] (py "private") ex_tree in
  r = inl FsValueError ∧ t' !! ex_base = None ∧
  t' !! [py "srv"; py "private"; py "a.txt"] = Some (FFile [Byte.x01]).
Proof.
  assert (clean (py "private")) as Hc by (split; by vm_compute).
  assert (_validate_name (py "private") = inr ()) as Hv by by vm_compute.
  assert (py "private" ≠ py "share") as Hn by done.
  assert (ex_tree !! [py "srv"; py "private"] = None) as Hl by by vm_compute.
  pose proof (rename_root_escapes ex_tree [py "srv"] (py "share") (py "private") ex_share Hc Hv Hn Hl) as H.
  change ([py "srv"] ++ [py "share"]) with ex_base in H.
  destruct (rename_path ex_base [] (py "private") ex_tree) as [t' r].
  destruct H as (H1 & H2 & H3 & _). split; [done|]. split; [done|].
  assert (ex_tree !! ([py "srv"] ++ py "share" :: [py "a.txt"]) = Some (FFile [Byte.x01])) as Ha by by vm_compute.
  by rewrite <-Ha, <-(H3 [py "a.txt"]).
Defined.

Definition ex_link : gmap (list (list Z)) node := <[ex_base ++ [py "out"] := FLink (py "/srv/secret")]> ex_tree.

Lemma ex_link_base : base_ok ex_link ex_base.
Proof.
  split; [|by apply clean_check]. intros q target Hq E. unfold ex_link in E.
  apply lookup_insert_Some in E as [[<- _]|[_ E]].
  - apply prefix_length in Hq. vm_compute in Hq. lia.
  - by apply (tree_check_links ex_tree ex_base ex_check q target).
Qed.

(** A file next to the shared folder is created from within it. *)
Lemma upload_follows_link_witness :
  ∃ t', upload_file ex_base [] (py "out") [Byte.x07] None ex_link = (t', inr (uploaded (py "out") [Byte.x07])) ∧
        t' !! [py "srv"; py "secret"] = Some (FFile [Byte.x07]).
Proof.
  eexists. split.
  - apply (upload_follows_link ex_base ex_link [] ex_base (py "out") (py "/srv/secret") [py "srv"; py "secret"]
             [Byte.x07] None ex_link_base); by vm_compute.
  - by vm_compute.
Defined.
