(* ===== verification/StateStore.v ===== *)
(** The state store of the server, [src/server/app/services/sqlite_store.py]: the
    tables for clipboard snippets, file requests, share links, upload owners and
    secrets.

    A table is a finite map from its primary key; a method is one transaction, as
    the lock and the connection's context manager make it.  A time stamp is the
    number of microseconds: the store keeps ISO strings of UTC times, whose order
    is the order of the times.  Rows with equal time stamps are listed in any
    order by SQLite; here in the order of the map. *)

From stdpp Require Import strings sorting.
From S2P Require Import Prelude.

Inductive StoreExn := StoreKeyError | StoreIntegrityError.

(** ** Rows *)

Record ClipboardRow := {
  cb_id : pystr;
  cb_title : pystr;
  cb_content : pystr;
  cb_created_at : time;
  cb_updated_at : time
}.

Inductive RequestStatus := PENDING | FULFILLED | DISMISSED.

#[export] Instance RequestStatus_eq_dec : EqDecision RequestStatus.
Proof. solve_decision. Defined.

Record FileRequestRow := {
  fq_id : pystr;
  fq_description : pystr;
  fq_requester_device_id : pystr;
  fq_requester_device_name : pystr;
  fq_status : RequestStatus;
  fq_created_at : time;
  fq_fulfilled_by_device_name : option pystr;
  fq_fulfilled_file_name : option pystr;
  fq_fulfilled_file_path : option pystr;
  fq_fulfilled_at : option time
}.

Record ShareLinkRow := {
  sl_token : pystr;
  sl_file_path : pystr;
  sl_created_at : time;
  sl_ttl_seconds : Z
}.

Record ServerStateStore := {
  tb_clipboard : gmap (list Z) ClipboardRow;
  tb_requests : gmap (list Z) FileRequestRow;
  tb_shares : gmap (list Z) ShareLinkRow;
  tb_owners : gmap (list Z) (list Z);
  tb_meta : gmap (list Z) (list Z)
}.

Definition empty_store : ServerStateStore :=
  {| tb_clipboard := ∅; tb_requests := ∅; tb_shares := ∅; tb_owners := ∅; tb_meta := ∅ |}.

Implicit Types db : ServerStateStore.

Definition put_clipboard (t : gmap (list Z) ClipboardRow) db : ServerStateStore :=
  {| tb_clipboard := t; tb_requests := tb_requests db; tb_shares := tb_shares db;
     tb_owners := tb_owners db; tb_meta := tb_meta db |}.
Definition put_requests (t : gmap (list Z) FileRequestRow) db : ServerStateStore :=
  {| tb_clipboard := tb_clipboard db; tb_requests := t; tb_shares := tb_shares db;
     tb_owners := tb_owners db; tb_meta := tb_meta db |}.
Definition put_shares (t : gmap (list Z) ShareLinkRow) db : ServerStateStore :=
  {| tb_clipboard := tb_clipboard db; tb_requests := tb_requests db; tb_shares := t;
     tb_owners := tb_owners db; tb_meta := tb_meta db |}.
Definition put_owners (t : gmap (list Z) (list Z)) db : ServerStateStore :=
  {| tb_clipboard := tb_clipboard db; tb_requests := tb_requests db; tb_shares := tb_shares db;
     tb_owners := t; tb_meta := tb_meta db |}.
Definition put_meta (t : gmap (list Z) (list Z)) db : ServerStateStore :=
  {| tb_clipboard := tb_clipboard db; tb_requests := tb_requests db; tb_shares := tb_shares db;
     tb_owners := tb_owners db; tb_meta := t |}.

(** The rows of a table, [SELECT]ed. *)
Definition rows {A} (t : gmap (list Z) A) : list A := (map_to_list t).*2.

(** ** Meta *)

Definition _META_SHARE_SECRET_KEY : pystr := py "share_secret".

Definition get_meta (key : pystr) db : option pystr := tb_meta db !! key.

Definition set_meta (key value : pystr) db : ServerStateStore :=
  put_meta (<[key := value]> (tb_meta db)) db.

(** [fresh] is the result of [secrets.token_urlsafe(32)]. *)
Definition get_or_create_share_secret (fresh : pystr) db : ServerStateStore * pystr :=
  match get_meta _META_SHARE_SECRET_KEY db with
  | Some value => (db, value)
  | None => (set_meta _META_SHARE_SECRET_KEY fresh db, fresh)
  end.

(** ** Clipboard snippets *)

Definition cb_le (r1 r2 : ClipboardRow) : Prop := cb_created_at r1 ≤ cb_created_at r2.
#[export] Instance cb_le_dec : RelDecision cb_le.
Proof. intros r1 r2. apply Z.le_dec. Defined.

Definition list_clipboard_snippets db : list ClipboardRow := merge_sort cb_le (rows (tb_clipboard db)).

Definition count_clipboard_snippets db : Z := Z.of_nat (size (tb_clipboard db)).

Definition insert_clipboard_snippet (row : ClipboardRow) db : ServerStateStore * (StoreExn + unit) :=
  match tb_clipboard db !! cb_id row with
  | Some _ => (db, inl StoreIntegrityError)
  | None => (put_clipboard (<[cb_id row := row]> (tb_clipboard db)) db, inr tt)
  end.

Definition update_clipboard_snippet (now : time) (snippet_id : pystr) (title content : option pystr) db
    : ServerStateStore * (StoreExn + ClipboardRow) :=
  match tb_clipboard db !! snippet_id with
  | None => (db, inl StoreKeyError)
  | Some row =>
      let row' := {| cb_id := cb_id row;
                     cb_title := default (cb_title row) title;
                     cb_content := default (cb_content row) content;
                     cb_created_at := cb_created_at row;
                     cb_updated_at := now |} in
      (put_clipboard (<[snippet_id := row']> (tb_clipboard db)) db, inr row')
  end.

Definition delete_clipboard_snippet (snippet_id : pystr) db : ServerStateStore * (StoreExn + unit) :=
  match tb_clipboard db !! snippet_id with
  | None => (db, inl StoreKeyError)
  | Some _ => (put_clipboard (delete snippet_id (tb_clipboard db)) db, inr tt)
  end.

(** ** File requests *)

Definition fq_ge (r1 r2 : FileRequestRow) : Prop := fq_created_at r2 ≤ fq_created_at r1.
#[export] Instance fq_ge_dec : RelDecision fq_ge.
Proof. intros r1 r2. apply Z.le_dec. Defined.

Definition list_file_requests db : list FileRequestRow :=
  merge_sort fq_ge (filter (λ r, fq_status r ≠ DISMISSED) (rows (tb_requests db))).

Definition insert_file_request (row : FileRequestRow) db : ServerStateStore * (StoreExn + unit) :=
  match tb_requests db !! fq_id row with
  | Some _ => (db, inl StoreIntegrityError)
  | None => (put_requests (<[fq_id row := row]> (tb_requests db)) db, inr tt)
  end.

Definition get_file_request (request_id : pystr) db : StoreExn + FileRequestRow :=
  match tb_requests db !! request_id with Some row => inr row | None => inl StoreKeyError end.

(** [a if a is not None else b], of columns that may be NULL. *)
Definition or_else {A} (a b : option A) : option A := match a with Some _ => a | None => b end.

Definition update_file_request (request_id : pystr) (status : option RequestStatus)
    (fulfilled_by_device_name fulfilled_file_name fulfilled_file_path : option pystr)
    (fulfilled_at : option time) db : ServerStateStore * (StoreExn + FileRequestRow) :=
  match tb_requests db !! request_id with
  | None => (db, inl StoreKeyError)
  | Some row =>
      let row' := {| fq_id := fq_id row;
                     fq_description := fq_description row;
                     fq_requester_device_id := fq_requester_device_id row;
                     fq_requester_device_name := fq_requester_device_name row;
                     fq_status := default (fq_status row) status;
                     fq_created_at := fq_created_at row;
                     fq_fulfilled_by_device_name :=
                       or_else fulfilled_by_device_name (fq_fulfilled_by_device_name row);
                     fq_fulfilled_file_name := or_else fulfilled_file_name (fq_fulfilled_file_name row);
                     fq_fulfilled_file_path := or_else fulfilled_file_path (fq_fulfilled_file_path row);
                     fq_fulfilled_at := or_else fulfilled_at (fq_fulfilled_at row) |} in
      (put_requests (<[request_id := row']> (tb_requests db)) db, inr row')
  end.

(** The row with status 'dismissed'. *)
Definition dismissed (row : FileRequestRow) : FileRequestRow :=
  {| fq_id := fq_id row;
     fq_description := fq_description row;
     fq_requester_device_id := fq_requester_device_id row;
     fq_requester_device_name := fq_requester_device_name row;
     fq_status := DISMISSED;
     fq_created_at := fq_created_at row;
     fq_fulfilled_by_device_name := fq_fulfilled_by_device_name row;
     fq_fulfilled_file_name := fq_fulfilled_file_name row;
     fq_fulfilled_file_path := fq_fulfilled_file_path row;
     fq_fulfilled_at := fq_fulfilled_at row |}.

(** The [UPDATE] of [dismiss_file_request]. *)
Definition store_dismiss (request_id : pystr) db : ServerStateStore * (StoreExn + unit) :=
  match tb_requests db !! request_id with
  | None => (db, inl StoreKeyError)
  | Some row => (put_requests (<[request_id := dismissed row]> (tb_requests db)) db, inr tt)
  end.

(** ** Share links *)

Definition store_share_links db : list ShareLinkRow := rows (tb_shares db).

Definition upsert_share_link (row : ShareLinkRow) db : ServerStateStore :=
  put_shares (<[sl_token row := row]> (tb_shares db)) db.

Definition delete_share_link (token : pystr) db : ServerStateStore * (StoreExn + unit) :=
  match tb_shares db !! token with
  | None => (db, inl StoreKeyError)
  | Some _ => (put_shares (delete token (tb_shares db)) db, inr tt)
  end.

Definition get_share_link (token : pystr) db : option ShareLinkRow := tb_shares db !! token.

(** ** Upload ownership *)

Definition record_upload_owner (rel_path uploader : pystr) db : ServerStateStore :=
  put_owners (<[rel_path := uploader]> (tb_owners db)) db.

Definition is_upload_owned_by (rel_path uploader : pystr) db : bool :=
  bool_decide (tb_owners db !! rel_path = Some uploader).

Definition owned_upload_paths (uploader : pystr) db : gset (list Z) :=
  dom (filter (λ kv, kv.2 = uploader) (tb_owners db)).
