(* ===== verification/FilesApi.v ===== *)
(** The endpoints of the file service, [src/server/app/routers/files.py], with the
    guards of [Identity], the operations of [Files] and the table of upload owners
    ([upload_index.py], [sqlite_store.py]) that scopes RECEIVE users to what they
    uploaded.

    The state is the file system and the state store.  File TTLs and the toast message
    that follow an upload touch neither and are left out, as are the headers of the
    answers; a download answers the path whose file is sent.  The search is in
    [Search]. *)

From S2P Require Import Prelude Json Accounts Identity Files StateStore.

Inductive ApiExn :=
| ApiGuard (e : GuardExn)
| ApiFs (e : FsExn)
| ApiIdentity (e : IdentityExn)
| ApiValueError.

Definition of_guard {A} (r : GuardExn + A) : ApiExn + A :=
  match r with inl e => inl (ApiGuard e) | inr a => inr a end.
Definition of_fs {A} (r : FsExn + A) : ApiExn + A :=
  match r with inl e => inl (ApiFs e) | inr a => inr a end.
Definition of_identity {A} (r : IdentityExn + A) : ApiExn + A :=
  match r with inl e => inl (ApiIdentity e) | inr a => inr a end.

(** ** The owners of uploads *)

Definition _norm (rel_path : pystr) : ApiExn + pystr :=
  if bool_decide (strip rel_path = []) then inl ApiValueError else inr (lstrip_slash (strip rel_path)).

Definition record_upload (rel_path uploader : pystr) (db : ServerStateStore)
    : ServerStateStore * (ApiExn + unit) :=
  if bool_decide (uploader = []) then (db, inl ApiValueError)
  else match _norm rel_path with
       | inl e => (db, inl e)
       | inr key => (record_upload_owner key uploader db, inr tt)
       end.

Definition is_owned_by (rel_path uploader : pystr) (db : ServerStateStore) : ApiExn + bool :=
  key ← _norm rel_path; inr (is_upload_owned_by key uploader db).

(** ** The endpoints *)

Record api_state := { st_fs : gmap (list (list Z)) node; st_db : ServerStateStore }.

Definition with_fs (st : api_state) (t : gmap (list (list Z)) node) : api_state :=
  {| st_fs := t; st_db := st_db st |}.

(** [f"{path}/{name}".lstrip("/") if path else name] *)
Definition rel_key (path name : pystr) : pystr :=
  if bool_decide (path = []) then name else lstrip_slash (path ++ slash :: name).

(** The loop over the uploaded files; a failure keeps the files before it. *)
Fixpoint upload_each (base : path) (dir : pystr) (cr : option ConflictResolution)
    (files : list (pystr * bytes)) (results : list UploadResult) (t : fs)
    : fs * (FsExn + list UploadResult) :=
  match files with
  | [] => (t, inr results)
  | (name, content) :: files' =>
      match upload_file base dir name content cr t with
      | (t', inl e) => (t', inl e)
      | (t', inr r) => upload_each base dir cr files' (results ++ [r]) t'
      end
  end.

(** The loop that records the uploader of every result. *)
Fixpoint record_each (dir uploader : pystr) (results : list UploadResult) (db : ServerStateStore)
    : ServerStateStore * (ApiExn + unit) :=
  match results with
  | [] => (db, inr tt)
  | r :: results' =>
      if bool_decide (ur_name r = []) then record_each dir uploader results' db
      else match record_upload (rel_key dir (ur_name r)) uploader db with
           | (db', inl e) => (db', inl e)
           | (db', inr _) => record_each dir uploader results' db'
           end
  end.

Section api.
Context `{Hmac}.

(** The folder and settings of the server, and the headers of the request. *)
Context (base : list (list Z)) (config : ServerConfig) (headers : list (pystr * pystr)).

Definition get_files (path : pystr) (st : api_state) : ApiExn + list FileEntry :=
  _ ← of_guard (require_browse_access config headers);
  listing ← of_fs (list_directory base path (st_fs st));
  scope_user ← of_identity (receive_scope_user config headers);
  inr match scope_user with
      | None => listing
      | Some u =>
          let owned := owned_upload_paths u (st_db st) in
          filter (λ e, fe_type e ≠ DIRECTORY ∧ rel_key path (fe_name e) ∈ owned) listing
      end.

Definition upload_files (files : list (pystr * bytes)) (path : pystr)
    (conflict_resolution : option ConflictResolution) (st : api_state)
    : api_state * (ApiExn + list UploadResult) :=
  match require_write_access config headers with
  | inl e => (st, inl (ApiGuard e))
  | inr _ =>
      match upload_each base path conflict_resolution files [] (st_fs st) with
      | (t, inl e) => (with_fs st t, inl (ApiFs e))
      | (t, inr results) =>
          match trusted_user config headers with
          | inl e => (with_fs st t, inl (ApiIdentity e))
          | inr None => (with_fs st t, inr results)
          | inr (Some uploader) =>
              let '(db, r) := record_each path uploader results (st_db st) in
              ({| st_fs := t; st_db := db |}, _ ← r; inr results)
          end
      end
  end.

(** The check of one path for a RECEIVE user. *)
Definition check_owned (scope_user : option pystr) (path : pystr) (st : api_state) : ApiExn + unit :=
  match scope_user with
  | None => inr tt
  | Some u =>
      ok ← is_owned_by path u (st_db st);
      if ok : bool then inr tt else inl (ApiFs FileNotFoundError)
  end.

Definition download_single_file (path : pystr) (st : api_state) : ApiExn + list (list Z) :=
  _ ← of_guard (require_browse_access config headers);
  scope_user ← of_identity (receive_scope_user config headers);
  _ ← check_owned scope_user path st;
  of_fs (download_file base path (st_fs st)).

Definition preview_file (path : pystr) (st : api_state) : ApiExn + list (list Z) :=
  _ ← of_guard (require_browse_access config headers);
  scope_user ← of_identity (receive_scope_user config headers);
  _ ← check_owned scope_user path st;
  of_fs (download_file base path (st_fs st)).

Fixpoint check_all_owned (scope_user : option pystr) (paths : list pystr) (st : api_state) : ApiExn + unit :=
  match paths with
  | [] => inr tt
  | p :: paths' => _ ← check_owned scope_user p st; check_all_owned scope_user paths' st
  end.

Definition download_zip (paths : list pystr) (st : api_state) : ApiExn + list (list (list Z)) :=
  _ ← of_guard (require_browse_access config headers);
  scope_user ← of_identity (receive_scope_user config headers);
  _ ← check_all_owned scope_user paths st;
  of_fs (zip_members base paths (st_fs st)).

(** The two guards of the endpoints that change the folder. *)
Definition change_guard : GuardExn + unit :=
  _ ← require_write_access config headers; require_full_access config headers.

Definition guarded {A} (body : fs → fs * (FsExn + A)) (st : api_state) : api_state * (ApiExn + A) :=
  match change_guard with
  | inl e => (st, inl (ApiGuard e))
  | inr _ => let '(t, r) := body (st_fs st) in (with_fs st t, of_fs r)
  end.

Definition rename_file (path new_name : pystr) : api_state → api_state * (ApiExn + list (list Z)) :=
  guarded (rename_path base path new_name).

Definition delete_files (paths : list pystr) : api_state → api_state * (ApiExn + list pystr) :=
  guarded (delete_paths base paths []).

Definition create_new_folder (parent_path name : pystr) : api_state → api_state * (ApiExn + list (list Z)) :=
  guarded (create_folder base parent_path name).

End api.
