(* ===== verification/FilesApiProps.v ===== *)
(** Properties of the file endpoints: what each role can read and change, that a
    RECEIVE user finds the own uploads again, and how the table of owners can be
    turned against the scope it is meant to enforce. *)

From stdpp Require Import strings.
From S2P Require Import Prelude Json Accounts Identity IdentityProps Files FilesProps StateStore FilesApi.

Implicit Types st : api_state.
Implicit Types db : ServerStateStore.

(** ** Keys of the table *)

Lemma join_slash_snoc (s : list pystr) n :
  s ≠ [] → join_slash (s ++ [n]) = join_slash s ++ slash :: n.
Proof.
  induction s as [|c s IH]; [done|]. intros _. destruct s as [|d s]; [done|].
  change (join_slash ((c :: d :: s) ++ [n])) with (c ++ slash :: join_slash ((d :: s) ++ [n])).
  change (join_slash (c :: d :: s)) with (c ++ slash :: join_slash (d :: s)).
  rewrite IH by done. by rewrite <-(assoc_L (++)).
Qed.

Lemma lstrip_slash_nop (k : pystr) : startswith k [slash] = false → lstrip_slash k = k.
Proof.
  intros Hk. apply lstrip_if_nop. intros c r ->. cbn [startswith] in Hk. rewrite andb_true_r in Hk.
  by rewrite Z.eqb_sym.
Qed.

(** The key of a node is its path. *)
Lemma rel_key_join (s : list pystr) n :
  Forall plain_name (s ++ [n]) → rel_key (join_slash s) n = join_slash (s ++ [n]).
Proof.
  intros Hp. unfold rel_key. destruct (decide (s = [])) as [->|Hs]; [done|].
  assert (Forall plain_name s) as Hps by by apply Forall_app in Hp as [? _].
  destruct (join_slash_head s Hs Hps) as [Hne _]. rewrite bool_decide_eq_false_2 by done.
  rewrite <-join_slash_snoc by done. apply lstrip_slash_nop.
  apply join_slash_head; [|done]. by destruct s.
Qed.

Lemma elem_of_owned (u k : pystr) db :
  k ∈ owned_upload_paths u db ↔ tb_owners db !! k = Some u.
Proof.
  unfold owned_upload_paths. rewrite elem_of_dom. split.
  - intros [v [Hv Hu]%map_lookup_filter_Some]. cbn in Hu. by subst.
  - intros Hk. exists u. by apply map_lookup_filter_Some.
Qed.

(** ** Uploads of a single file, without the conflict cases *)

Lemma upload_fresh base t rel dir name content cr :
  base_ok t base → resolve_safe_path base rel t = inr dir → t !! dir = Some FDir →
  no_links_in t dir → validate_upload_filename name = inr name → t !! (dir ++ [name]) = None →
  upload_file base rel name content cr t
  = (<[dir ++ [name] := FFile content]> t, inr (uploaded name content)).
Proof.
  intros Hb Hr Hd Hn Hv Hno. destruct (safe_path_inside _ _ _ _ Hb Hr) as (_ & Hl & Hc & _).
  unfold upload_file. rewrite Hr, Hv. apply valid_filename in Hv as [_ [Hcl _]].
  rewrite stat_entry, Hno by done. rewrite write_upload_real; [done..|]. by rewrite Hno.
Qed.

Lemma upload_skip base t rel dir name content c :
  base_ok t base → resolve_safe_path base rel t = inr dir → no_links_in t dir →
  validate_upload_filename name = inr name → t !! (dir ++ [name]) = Some (FFile c) →
  upload_file base rel name content (Some SKIP) t
  = (t, inr {| ur_name := name; ur_size := Some (Z.of_nat (length c)); ur_skipped := true |}).
Proof.
  intros Hb Hr Hn Hv Ho. destruct (safe_path_inside _ _ _ _ Hb Hr) as (_ & Hl & Hc & _).
  unfold upload_file. rewrite Hr, Hv. apply valid_filename in Hv as [_ [Hcl _]].
  by rewrite stat_entry, Ho by done.
Qed.

(** Nothing below the folder is behind a link. *)
Lemma share_link_free t base s : share_ok base t → link_free t (base ++ s).
Proof.
  intros Hs q target Hq E. destruct (decide (base `prefix_of` q)) as [Hbq|Hbq].
  - by apply (share_links _ _ Hs q target).
  - apply (base_links _ _ (share_base _ _ Hs) q target); [|done].
    destruct (prefix_weak_total q base (base ++ s)); [done|by apply prefix_app_r|done|done].
Qed.

(** A real directory is reached by its names, and the folder by the empty path. *)
Lemma resolve_dir t base s :
  share_ok base t → Forall plain_name s → t !! (base ++ s) = Some FDir →
  resolve_safe_path base (join_slash s) t = inr (base ++ s).
Proof.
  intros Hs Hp Hd. pose proof (share_base _ _ Hs) as Hb. destruct (decide (s = [])) as [->|Hne].
  - unfold resolve_safe_path. rewrite (base_resolves _ _ Hb). by rewrite app_nil_r.
  - apply resolve_names; try done. by apply share_link_free.
Qed.

(** So is every file below it. *)
Lemma download_real t base s c :
  share_ok base t → Forall plain_name s → s ≠ [] → t !! (base ++ s) = Some (FFile c) →
  download_file base (join_slash s) t = inr (base ++ s).
Proof.
  intros Hs Hp Hne Hf. pose proof (share_base _ _ Hs) as Hb.
  pose proof (share_link_free t base s Hs) as Hl.
  unfold download_file. rewrite resolve_names; try done. cbn [mbind sum_bind]. unfold is_dir.
  rewrite stat_real, Hf; [done|done|]. apply Forall_app. split; [apply Hb|].
  apply (Forall_impl plain_name); [done|by intros c' [? _]].
Qed.

(** ** Roles *)

Section roles.
Context `{Hmac}.
Context (base : list (list Z)) (config : ServerConfig) (headers : list (pystr * pystr)).

(** The relay vouches for the user and the role. *)
Definition acts_as (u : pystr) (r : Role) : Prop :=
  _verified_identity config headers = inr (Some (u, role_value r, true)).

Lemma acts_as_guards u r :
  acts_as u r →
  trusted_user config headers = inr (Some u) ∧
  require_write_access config headers = (if bool_decide (r = READ) then inl ReadOnlyError else inr tt) ∧
  require_full_access config headers = (if bool_decide (r = RECEIVE) then inl GuardAccessDenied else inr tt) ∧
  require_browse_access config headers = inr tt ∧
  receive_scope_user config headers = inr (if bool_decide (r = RECEIVE) then Some u else None).
Proof.
  intros Ha. unfold require_write_access, require_full_access, require_browse_access,
    receive_scope_user, trusted_role, trusted_user. rewrite Ha.
  cbn [mbind sum_bind in_guard]. rewrite role_of_role_value. by destruct r; rewrite ?Ha.
Qed.

Lemma check_owned_ok u path st :
  check_owned (Some u) path st = inr () → ∃ k, _norm path = inr k ∧ tb_owners (st_db st) !! k = Some u.
Proof.
  unfold check_owned, is_owned_by. destruct (_norm path) as [e|k] eqn:Ek; [done|].
  cbn [mbind sum_bind]. unfold is_upload_owned_by. case_bool_decide as Ho; [|done]. eauto.
Qed.

Lemma check_all_owned_ok u paths st :
  check_all_owned (Some u) paths st = inr () →
  Forall (λ path, ∃ k, _norm path = inr k ∧ tb_owners (st_db st) !! k = Some u) paths.
Proof.
  induction paths as [|p paths IH]; [constructor|]. cbn [check_all_owned].
  destruct (check_owned (Some u) p st) as [e|[]] eqn:E; [done|]. cbn [mbind sum_bind]. intros Hp.
  constructor; [by apply check_owned_ok|by apply IH].
Qed.

Lemma zip_members_inside t paths ps :
  base_ok t base → zip_members base paths t = inr ps → Forall (prefix base) ps.
Proof.
  intros Hb. revert ps. induction paths as [|p paths IH]; intros ps; cbn [zip_members].
  { intros [= <-]. constructor. }
  destruct (resolve_safe_path base p t) as [e|r] eqn:Er; [done|]. cbn [mbind sum_bind].
  destruct (zip_members base paths t) as [e|rs] eqn:Ez; [done|]. cbn [mbind sum_bind]. intros [= <-].
  constructor; [by apply (safe_path_inside _ _ _ _ Hb Er)|by apply IH].
Qed.

Lemma download_file_inside t path p :
  base_ok t base → download_file base path t = inr p → base `prefix_of` p ∧ t !! p ≠ Some FDir.
Proof.
  intros Hb. unfold download_file. destruct (resolve_safe_path base path t) as [e|r] eqn:Er; [done|].
  cbn [mbind sum_bind]. destruct (safe_path_inside _ _ _ _ Hb Er) as (Hp & Hl & Hc & _).
  destruct (is_dir t r) eqn:Ed; [done|]. intros [= <-]. split; [done|]. intros E.
  unfold is_dir in Ed. by rewrite stat_real, E in Ed.
Qed.

(** C11: What a RECEIVE user reads, and what READ and RECEIVE users change.  Listings
    show a RECEIVE user only files recorded as the own uploads; a file is downloaded,
    previewed or packed only if it is recorded so, and it lies in the shared folder.
    Requests of a RECEIVE user to rename, delete or create folders, and of a READ user
    to upload or to do any of these, are refused and change nothing. *)
Theorem role_limits u st :
  base_ok (st_fs st) base →
  (acts_as u RECEIVE →
     (∀ path es e, get_files base config headers path st = inr es → e ∈ es →
        fe_type e = FILE ∧ tb_owners (st_db st) !! rel_key path (fe_name e) = Some u) ∧
     (∀ path p, (download_single_file base config headers path st = inr p ∨
                 preview_file base config headers path st = inr p) →
        (∃ k, _norm path = inr k ∧ tb_owners (st_db st) !! k = Some u) ∧
        base `prefix_of` p ∧ st_fs st !! p ≠ Some FDir) ∧
     (∀ paths ps, download_zip base config headers paths st = inr ps →
        Forall (λ path, ∃ k, _norm path = inr k ∧ tb_owners (st_db st) !! k = Some u) paths ∧
        Forall (prefix base) ps)) ∧
  (∀ r e, acts_as u r →
     (r = RECEIVE ∧ e = GuardAccessDenied ∨ r = READ ∧ e = ReadOnlyError) →
     (∀ path n, rename_file base config headers path n st = (st, inl (ApiGuard e))) ∧
     (∀ paths, delete_files base config headers paths st = (st, inl (ApiGuard e))) ∧
     (∀ path n, create_new_folder base config headers path n st = (st, inl (ApiGuard e))) ∧
     (r = READ → ∀ files path cr,
        upload_files base config headers files path cr st = (st, inl (ApiGuard e)))).
Proof.
  intros Hb. split.
  - intros Ha. destruct (acts_as_guards u RECEIVE Ha) as (_ & _ & _ & Hbr & Hsc).
    rewrite bool_decide_eq_true_2 in Hsc by done. split_and!.
    + intros path es e. unfold get_files. rewrite Hbr. cbn [of_guard mbind sum_bind].
      destruct (list_directory base path (st_fs st)) as [x|l]; [done|]. cbn [of_fs mbind sum_bind].
      rewrite Hsc. cbn [of_identity mbind sum_bind]. intros [= <-].
      intros [[Ht Hk] _]%list_elem_of_filter. split; [by destruct (fe_type e)|]. by apply elem_of_owned.
    + intros path p Hd. assert (download_single_file base config headers path st = inr p) as Hd'.
      { by destruct Hd. }
      clear Hd. revert Hd'. unfold download_single_file. rewrite Hbr, Hsc.
      cbn [of_guard of_identity mbind sum_bind].
      destruct (check_owned (Some u) path st) as [x|[]] eqn:Ec; [done|]. cbn [mbind sum_bind].
      destruct (download_file base path (st_fs st)) as [x|q] eqn:Ed; [done|]. intros [= <-].
      split; [by apply check_owned_ok|by apply (download_file_inside _ path)].
    + intros paths ps. unfold download_zip. rewrite Hbr, Hsc. cbn [of_guard of_identity mbind sum_bind].
      destruct (check_all_owned (Some u) paths st) as [x|[]] eqn:Ec; [done|]. cbn [mbind sum_bind].
      destruct (zip_members base paths (st_fs st)) as [x|q] eqn:Ez; [done|]. intros [= <-].
      split; [by apply check_all_owned_ok|by eapply zip_members_inside].
  - intros r e Ha Hr. destruct (acts_as_guards u r Ha) as (_ & Hw & Hf & _ & _).
    assert (change_guard config headers = inl e) as Hg.
    { unfold change_guard. rewrite Hw, Hf. by destruct Hr as [[-> ->]|[-> ->]]. }
    unfold rename_file, delete_files, create_new_folder, guarded. rewrite Hg.
    split_and!; try done. intros -> files path cr. unfold upload_files. rewrite Hw.
    destruct Hr as [[? _]|[_ ->]]; [done|]. done.
Qed.

(** ** Uploads of RECEIVE users *)

Lemma receive_upload_one u name content path cr st t' r k :
  acts_as u RECEIVE → u ≠ [] → upload_file base path name content cr (st_fs st) = (t', inr r) →
  ur_name r ≠ [] → _norm (rel_key path (ur_name r)) = inr k →
  upload_files base config headers [(name, content)] path cr st
  = ({| st_fs := t'; st_db := record_upload_owner k u (st_db st) |}, inr [r]).
Proof.
  intros Ha Hu Hup Hr Hk. destruct (acts_as_guards u RECEIVE Ha) as (Htu & Hw & _).
  unfold upload_files. rewrite Hw, bool_decide_eq_false_2 by done. cbn [upload_each]. rewrite Hup.
  rewrite Htu. cbn [app record_each]. rewrite bool_decide_eq_false_2 by done.
  unfold record_upload. by rewrite (bool_decide_eq_false_2 (u = [])), Hk by done.
Qed.

Lemma receive_download u path st k :
  acts_as u RECEIVE → _norm path = inr k →
  download_single_file base config headers path st
  = if decide (tb_owners (st_db st) !! k = Some u) then of_fs (download_file base path (st_fs st))
    else inl (ApiFs FileNotFoundError).
Proof.
  intros Ha Hk. destruct (acts_as_guards u RECEIVE Ha) as (_ & _ & _ & Hbr & Hsc).
  unfold download_single_file. rewrite Hbr, Hsc, bool_decide_eq_true_2 by done.
  cbn [of_guard of_identity mbind sum_bind]. unfold check_owned, is_owned_by. rewrite Hk.
  cbn [mbind sum_bind]. unfold is_upload_owned_by.
  destruct (decide (tb_owners (st_db st) !! k = Some u)) as [Ho|Ho].
  - by rewrite (bool_decide_eq_true_2 _ Ho).
  - by rewrite (bool_decide_eq_false_2 _ Ho).
Qed.

(** A RECEIVE user sees an own file in the listing of its directory. *)
Lemma receive_listed u rel dir name content st :
  acts_as u RECEIVE → share_ok base (st_fs st) → (∀ k, is_Some (st_fs st !! k) → Forall clean k) →
  resolve_safe_path base rel (st_fs st) = inr dir → st_fs st !! dir = Some FDir →
  st_fs st !! (dir ++ [name]) = Some (FFile content) → tb_owners (st_db st) !! rel_key rel name = Some u →
  ∃ es e, get_files base config headers rel st = inr es ∧ e ∈ es ∧ fe_name e = name ∧
    fe_type e = FILE ∧ fe_size e = Some (Z.of_nat (length content)).
Proof.
  intros Ha Hs Hcl Hres Hd Hf Ho.
  pose proof (list_directory_spec base (st_fs st) rel dir Hs Hcl Hres) as Hl.
  rewrite Hd in Hl. destruct Hl as (es & Hes & _ & Hin & Hdesc).
  assert (name ∈ fe_name <$> es) as Hname by (apply Hin; rewrite Hf; by eexists).
  apply list_elem_of_fmap in Hname as (e & Hen & He).
  rewrite Forall_forall in Hdesc. pose proof (Hdesc e He) as Hde. unfold describes in Hde.
  rewrite <-Hen, Hf in Hde. destruct Hde as [Hty Hsz].
  destruct (acts_as_guards u RECEIVE Ha) as (_ & _ & _ & Hbr & Hsc).
  rewrite bool_decide_eq_true_2 in Hsc by done.
  eexists _, e. split; [|split; [|done]].
  - unfold get_files. rewrite Hbr. cbn [of_guard mbind sum_bind]. rewrite Hes.
    cbn [of_fs mbind sum_bind]. rewrite Hsc. done.
  - apply list_elem_of_filter. split; [|done]. split; [by rewrite Hty|]. apply elem_of_owned. by rewrite <-Hen.
Qed.

(** A RECEIVE user finds an upload again: a file uploaded under a new name into a
    directory of a shared folder without links is stored byte for byte, appears in the
    user's listing of that directory with its size, and can be downloaded; provided
    that the path has no white space around it. *)
Theorem receive_upload_roundtrip u s name content cr st :
  acts_as u RECEIVE → u ≠ [] → share_ok base (st_fs st) →
  (∀ k, is_Some (st_fs st !! k) → Forall clean k) →
  Forall plain_name s → st_fs st !! (base ++ s) = Some FDir →
  validate_upload_filename name = inr name → st_fs st !! (base ++ s ++ [name]) = None →
  strip (join_slash (s ++ [name])) = join_slash (s ++ [name]) →
  let '(st', r) := upload_files base config headers [(name, content)] (join_slash s) cr st in
  r = inr [uploaded name content] ∧
  st_fs st' !! (base ++ s ++ [name]) = Some (FFile content) ∧
  (∃ es e, get_files base config headers (join_slash s) st' = inr es ∧ e ∈ es ∧ fe_name e = name ∧
     fe_type e = FILE ∧ fe_size e = Some (Z.of_nat (length content))) ∧
  download_single_file base config headers (join_slash (s ++ [name])) st' = inr (base ++ s ++ [name]).
Proof.
  intros Ha Hu Hs Hcl Hp Hd Hv Hno Hst. set (t := st_fs st) in *.
  destruct (valid_filename _ _ Hv) as [_ Hpn]. pose proof (share_base _ _ Hs) as Hb.
  assert (Forall plain_name (s ++ [name])) as Hpa by (apply Forall_app; by rewrite Forall_singleton).
  assert (s ++ [name] ≠ []) as Hne by by destruct s.
  destruct (join_slash_head _ Hne Hpa) as [Hk0 Hk1]. set (key := join_slash (s ++ [name])) in *.
  assert (_norm key = inr key) as Hnorm.
  { unfold _norm. rewrite Hst, bool_decide_eq_false_2 by done. by rewrite lstrip_slash_nop. }
  assert (rel_key (join_slash s) name = key) as Hrel by by apply rel_key_join.
  rewrite (assoc_L (++)) in Hno |- *.
  pose proof (share_no_links _ _ (base ++ s) Hs ltac:(by apply prefix_app_r)) as Hnl.
  assert (name ≠ []) as Hn0 by (intros ->; by destruct Hpn as [[? _] _]).
  rewrite (receive_upload_one u name content (join_slash s) cr st
            (<[(base ++ s) ++ [name] := FFile content]> t) (uploaded name content) key);
    [|done|done|apply upload_fresh; try done; by apply resolve_dir|done|by cbn [ur_name uploaded]; rewrite Hrel].
  destruct (share_insert base t (base ++ s) name (FFile content) Hs ltac:(by apply prefix_app_r) Hd)
    as [_ Hs']; [by rewrite Hno|done|]. set (t' := <[(base ++ s) ++ [name] := FFile content]> t) in *.
  assert (t' !! ((base ++ s) ++ [name]) = Some (FFile content)) as Hf by apply lookup_insert_eq.
  assert (t' !! (base ++ s) = Some FDir) as Hd'.
  { unfold t'. rewrite lookup_insert_ne; [done|]. intros E. apply (f_equal length) in E.
    rewrite length_app in E. simpl in E. lia. }
  split; [done|]. split; [done|]. split.
  - apply (receive_listed u _ (base ++ s) _ content); try done; [|by apply resolve_dir|].
    + intros k Hk. destruct (decide (k = (base ++ s) ++ [name])) as [->|].
      * apply Forall_app. rewrite Forall_singleton. split; [|by destruct Hpn].
        apply Hcl. rewrite Hd. by eexists.
      * apply Hcl. cbn [st_fs] in Hk. unfold t' in Hk. by rewrite lookup_insert_ne in Hk.
    + cbn [st_db record_upload_owner tb_owners put_owners]. rewrite Hrel. apply lookup_insert_eq.
  - rewrite (receive_download u key _ key) by done. rewrite decide_True.
    + cbn [st_fs]. unfold key. rewrite (download_real _ base _ content); try done.
      all: by rewrite (assoc_L (++)).
    + apply lookup_insert_eq.
Qed.

(** The ownership of uploads protects nothing.  A RECEIVE user who uploads any bytes
    to the path of an existing file with the conflict mode SKIP changes no file, but is
    recorded as the uploader; a file that could not be downloaded before can be
    downloaded from then on. *)
Theorem receive_claims_any_file u s name content c st :
  acts_as u RECEIVE → u ≠ [] → share_ok base (st_fs st) →
  Forall plain_name s → st_fs st !! (base ++ s) = Some FDir →
  validate_upload_filename name = inr name → st_fs st !! (base ++ s ++ [name]) = Some (FFile c) →
  strip (join_slash (s ++ [name])) ≠ [] →
  ((∀ k, tb_owners (st_db st) !! k ≠ Some u) →
     download_single_file base config headers (join_slash (s ++ [name])) st = inl (ApiFs FileNotFoundError)) ∧
  let '(st', r) := upload_files base config headers [(name, content)] (join_slash s) (Some SKIP) st in
  (∃ res, r = inr [res] ∧ ur_skipped res = true) ∧ st_fs st' = st_fs st ∧
  download_single_file base config headers (join_slash (s ++ [name])) st' = inr (base ++ s ++ [name]).
Proof.
  intros Ha Hu Hs Hp Hd Hv Hf Hst. destruct (valid_filename _ _ Hv) as [_ Hpn].
  pose proof (share_base _ _ Hs) as Hb.
  assert (Forall plain_name (s ++ [name])) as Hpa by (apply Forall_app; by rewrite Forall_singleton).
  assert (s ++ [name] ≠ []) as Hne by by destruct s.
  set (key := join_slash (s ++ [name])) in *.
  assert (_norm key = inr (lstrip_slash (strip key))) as Hnorm.
  { unfold _norm. by rewrite bool_decide_eq_false_2. }
  pose proof (share_no_links _ _ (base ++ s) Hs ltac:(by apply prefix_app_r)) as Hnl.
  assert (name ≠ []) as Hn0 by (intros ->; by destruct Hpn as [[? _] _]).
  split.
  - intros Hno. rewrite (receive_download u key st _ Ha Hnorm). by rewrite decide_False.
  - erewrite (receive_upload_one u name content (join_slash s) (Some SKIP) st);
      [|done|done|eapply upload_skip; [done|by apply resolve_dir|done|done|by rewrite <-(assoc_L (++))]
       |done|by cbn [ur_name]; rewrite rel_key_join].
    split; [by eexists|]. split; [done|].
    erewrite (receive_download u key) by done. rewrite decide_True by apply lookup_insert_eq.
    cbn [st_fs]. unfold key. by rewrite (download_real _ base _ c).
Qed.

(** The key of an upload is trimmed: with a space in front of the name, a RECEIVE user
    becomes the owner of the file without the space. *)
Theorem whitespace_claims_file u name content c st :
  acts_as u RECEIVE → u ≠ [] → share_ok base (st_fs st) →
  validate_upload_filename name = inr name → strip name = name →
  st_fs st !! (base ++ [name]) = Some (FFile c) → st_fs st !! (base ++ [32 :: name]) = None →
  let '(st', r) := upload_files base config headers [(32 :: name, content)] [] None st in
  r = inr [uploaded (32 :: name) content] ∧
  download_single_file base config headers name st' = inr (base ++ [name]).
Proof.
  intros Ha Hu Hs Hv Hst Hf Hno. destruct (valid_filename _ _ Hv) as [_ Hpn].
  pose proof (share_base _ _ Hs) as Hb. assert (name ≠ []) as Hn0 by (intros ->; by destruct Hpn as [[? _] _]).
  assert (validate_upload_filename (32 :: name) = inr (32 :: name)) as Hv'.
  { destruct Hpn as [_ [Hsl H0]]. unfold validate_upload_filename in Hv |- *.
    rewrite (bool_decide_eq_false_2 (name = [])) in Hv by done.
    destruct (bool_decide (0 ∈ name)) eqn:E0; [done|]. destruct (bool_decide (slash ∈ name)) eqn:E1; [done|].
    destruct (bool_decide (backslash ∈ name)) eqn:E2; [done|]. apply bool_decide_eq_false in E2.
    by rewrite !bool_decide_eq_false_2 by set_solver. }
  assert (Forall plain_name [name]) as Hp1 by by rewrite Forall_singleton.
  destruct (join_slash_head [name] ltac:(done) Hp1) as [_ Hk1]. cbn [join_slash] in Hk1.
  assert (_norm name = inr name) as Hn1.
  { unfold _norm. rewrite Hst, bool_decide_eq_false_2 by done. by rewrite lstrip_slash_nop. }
  assert (_norm (32 :: name) = inr name) as Hn2.
  { rewrite <-Hn1. unfold _norm. by change (strip (32 :: name)) with (strip name). }
  pose proof (resolve_dir _ base [] Hs ltac:(constructor)) as Hr. rewrite !app_nil_r in Hr.
  rewrite (receive_upload_one u (32 :: name) content [] None st
            (<[base ++ [32 :: name] := FFile content]> (st_fs st)) (uploaded (32 :: name) content) name);
    [|done|done|apply upload_fresh; try done; [apply Hr, Hs|apply Hs|by apply (share_no_links base)]|done|done].
  split; [done|]. rewrite (receive_download u name _ name) by done.
  rewrite decide_True by apply lookup_insert_eq. cbn [st_fs].
  destruct (share_insert base (st_fs st) base (32 :: name) (FFile content) Hs ltac:(done) (share_dir _ _ Hs))
    as [_ Hs']; [by rewrite Hno|done|].
  rewrite (download_real _ base [name] c); try done. rewrite lookup_insert_ne; [done|].
  intros E. apply app_inv_head in E. injection E as E. apply (f_equal length) in E. simpl in E. lia.
Qed.

End roles.

(** ** Witnesses *)

Definition ann_headers : list (pystr * pystr) := demo_forwarded (Some (py "ann", RECEIVE)).

Lemma ann_receives : acts_as (H := hex_mac) demo_config ann_headers (py "ann") RECEIVE.
Proof. by vm_compute. Qed.

Definition ex_state : api_state := {| st_fs := ex_tree; st_db := empty_store |}.

Lemma role_limits_witness :
  delete_files (H := hex_mac) ex_base demo_config ann_headers [py "a.txt"] ex_state
  = (ex_state, inl (ApiGuard GuardAccessDenied)).
Proof.
  destruct (role_limits (H := hex_mac) ex_base demo_config ann_headers (py "ann") ex_state
    (share_base _ _ ex_share)) as [_ H].
  apply (H RECEIVE GuardAccessDenied ann_receives). by left.
Defined.

Lemma receive_upload_roundtrip_witness :
  let '(st', r) := upload_files (H := hex_mac) ex_base demo_config ann_headers
                     [(py "new.txt", [Byte.x09])] (py "sub") None ex_state in
  download_single_file (H := hex_mac) ex_base demo_config ann_headers (py "sub/new.txt") st'
  = inr (ex_base ++ [py "sub"; py "new.txt"]).
Proof.
  pose proof (receive_upload_roundtrip (H := hex_mac) ex_base demo_config ann_headers (py "ann")
    [py "sub"] (py "new.txt") [Byte.x09] None ex_state ann_receives) as H.
  change (join_slash [py "sub"]) with (py "sub") in H.
  destruct (upload_files ex_base demo_config ann_headers [(py "new.txt", [Byte.x09])] (py "sub") None ex_state)
    as [st' r].
  apply H; [done|apply ex_share|apply names_check; by vm_compute|apply (bool_decide_unpack _); by vm_compute|
            by vm_compute..].
Defined.

Lemma receive_claims_any_file_witness :
  download_single_file (H := hex_mac) ex_base demo_config ann_headers (py "sub/b") ex_state
  = inl (ApiFs FileNotFoundError).
Proof.
  destruct (receive_claims_any_file (H := hex_mac) ex_base demo_config ann_headers (py "ann")
    [py "sub"] (py "b") [] [Byte.x04] ex_state ann_receives) as [H _].
  - done.
  - apply ex_share.
  - apply (bool_decide_unpack _). by vm_compute.
  - by vm_compute.
  - by vm_compute.
  - by vm_compute.
  - by vm_compute.
  - apply H. intros k. change (tb_owners (st_db ex_state)) with (∅ : gmap (list Z) (list Z)). by rewrite lookup_empty.
Defined.
