(* ===== verification/Sharing.v ===== *)
(** Share links: [src/server/app/services/share_service.py] and the endpoints of
    [src/server/app/routers/share.py].

    The service keeps the active links in memory and in the state store; itsdangerous
    is the class [TimedSerializer] of [Session].  An operation is the body that runs
    in a worker thread, as one step.  The clock is read twice when a link is created,
    for the token and for the record.  The order of a listing, file names and sizes
    shown on pages, and the URLs of links are left out. *)

From stdpp Require Import strings.
From S2P Require Import Prelude Json Session Accounts Identity Files StateStore FilesApi.

Inductive ShareExn :=
| ShareLinkRevokedError (token : pystr)
| ShareLinkNotFoundError (token : pystr)
| ShareLinkExpiredError (token : pystr)
| ShareBadSignature
| ShareKeyError.

Inductive ShareTTL := FIFTEEN_MINUTES | ONE_HOUR | SIX_HOURS | TWENTY_FOUR_HOURS.

Definition ttl_value (ttl : ShareTTL) : Z :=
  match ttl with
  | FIFTEEN_MINUTES => 900
  | ONE_HOUR => 3600
  | SIX_HOURS => 21600
  | TWENTY_FOUR_HOURS => 86400
  end.

Record ShareLinkRecord := {
  lr_token : pystr;
  lr_file_path : pystr;
  lr_created_at : time;
  lr_ttl_seconds : Z
}.

Record ShareLinkService := {
  ss_secret_key : pystr;
  ss_active_links : gmap (list Z) ShareLinkRecord
}.

Definition SALT : pystr := py "share-link".

Definition record_of (row : ShareLinkRow) : ShareLinkRecord :=
  {| lr_token := sl_token row; lr_file_path := sl_file_path row;
     lr_created_at := sl_created_at row; lr_ttl_seconds := sl_ttl_seconds row |}.

Definition row_of (r : ShareLinkRecord) : ShareLinkRow :=
  {| sl_token := lr_token r; sl_file_path := lr_file_path r;
     sl_created_at := lr_created_at r; sl_ttl_seconds := lr_ttl_seconds r |}.

(** The server with its folder, its state store and the service. *)
Record share_state := {
  sh_fs : gmap (list (list Z)) node;
  sh_db : ServerStateStore;
  sh_service : ShareLinkService
}.

Definition with_service (st : share_state) (db : ServerStateStore) (links : gmap (list Z) ShareLinkRecord)
    : share_state :=
  {| sh_fs := sh_fs st; sh_db := db;
     sh_service := {| ss_secret_key := ss_secret_key (sh_service st); ss_active_links := links |} |}.

(** ** The service *)

(** [ShareLinkService(secret_key, store)] *)
Definition init_share_service (secret_key : pystr) (db : ServerStateStore) : ShareLinkService :=
  {| ss_secret_key := secret_key;
     ss_active_links :=
       fold_left (λ links row, <[sl_token row := record_of row]> links) (store_share_links db) ∅ |}.

(** [create_app]: the store is opened and the secret read or created. *)
Definition create_app (fresh_secret : pystr) (t : fs) (db : ServerStateStore) : share_state :=
  let '(db', secret) := get_or_create_share_secret fresh_secret db in
  {| sh_fs := t; sh_db := db'; sh_service := init_share_service secret db' |}.

(** The directory of the state store, next to the shared folder. *)
Definition data_dir (shared_folder : path) : path := parent shared_folder ++ [py ".wfs_data"].

(** A link leaves the memory and, if it is there, the store. *)
Definition drop_link (token : pystr) (st : share_state) : share_state :=
  with_service st (delete_share_link token (sh_db st)).1
    (delete token (ss_active_links (sh_service st))).

Section service.
Context `{TimedSerializer}.

Definition token_for (secret_key : pystr) (signed_at : time) (file_path : pystr) : pystr :=
  ts_dumps secret_key SALT signed_at (JObj [(py "path", JStr file_path)]).

Definition _create_link_sync (signed_at now : time) (file_path : pystr) (ttl : ShareTTL) (st : share_state)
    : share_state * ShareLinkRecord :=
  let token := token_for (ss_secret_key (sh_service st)) signed_at file_path in
  let record := {| lr_token := token; lr_file_path := file_path;
                   lr_created_at := now; lr_ttl_seconds := ttl_value ttl |} in
  (with_service st (upsert_share_link (row_of record) (sh_db st))
     (<[token := record]> (ss_active_links (sh_service st))), record).

(** [self._serializer.loads(token, salt, max_age)] *)
Definition loads_link (st : share_state) (now : time) (ttl_seconds : Z) (token : pystr) : LoadError + json :=
  ts_loads (ss_secret_key (sh_service st)) SALT now ttl_seconds token.

(** A token in the registry was signed by the service, with a string as its path. *)
Definition _validate_token_sync (now : time) (token : pystr) (st : share_state)
    : share_state * (ShareExn + pystr) :=
  match ss_active_links (sh_service st) !! token with
  | None => (st, inl (ShareLinkRevokedError token))
  | Some record =>
      match loads_link st now (lr_ttl_seconds record) token with
      | inl SignatureExpired => (drop_link token st, inl (ShareLinkExpiredError token))
      | inl BadSignature => (st, inl ShareBadSignature)
      | inr data =>
          (st, match subscript data (py "path") with Some (JStr p) => inr p | _ => inl ShareKeyError end)
      end
  end.

Definition _revoke_link_sync (token : pystr) (st : share_state) : share_state * (ShareExn + unit) :=
  match ss_active_links (sh_service st) !! token with
  | None => (st, inl (ShareLinkNotFoundError token))
  | Some _ => (drop_link token st, inr tt)
  end.

(** Whether [loads] still accepts the link. *)
Definition still_valid (st : share_state) (now : time) (kv : list Z * ShareLinkRecord) : bool :=
  match loads_link st now (lr_ttl_seconds kv.2) kv.1 with inr _ => true | inl _ => false end.

Definition _list_active_links_sync (now : time) (st : share_state) : share_state * list ShareLinkRecord :=
  let snapshot := map_to_list (ss_active_links (sh_service st)) in
  let active := filter (λ kv, still_valid st now kv = true) snapshot in
  let expired_tokens := (filter (λ kv, still_valid st now kv = false) snapshot).*1 in
  (fold_left (λ st token, drop_link token st) expired_tokens st, active.*2).

End service.

(** ** The endpoints *)

Inductive share_page_result :=
| ShareExpiredPage
| ShareUnavailablePage
| ShareFile (p : list (list Z)).

Section endpoints.
Context `{TimedSerializer} `{Hmac}.
Context (base : list (list Z)) (config : ServerConfig) (headers : list (pystr * pystr)).

Definition create_share_link (signed_at now : time) (file_path : pystr) (ttl : ShareTTL) (st : share_state)
    : share_state * (ApiExn + ShareLinkRecord) :=
  match change_guard config headers with
  | inl e => (st, inl (ApiGuard e))
  | inr _ =>
      match resolve_safe_path base file_path (sh_fs st) with
      | inl e => (st, inl (ApiFs e))
      | inr _ => let '(st', r) := _create_link_sync signed_at now file_path ttl st in (st', inr r)
      end
  end.

Definition list_share_links (now : time) (st : share_state) : share_state * (ApiExn + list ShareLinkRecord) :=
  match change_guard config headers with
  | inl e => (st, inl (ApiGuard e))
  | inr _ => let '(st', l) := _list_active_links_sync now st in (st', inr l)
  end.

Definition revoke_share_link (token : pystr) (st : share_state) : share_state * (ApiExn + (ShareExn + unit)) :=
  match change_guard config headers with
  | inl e => (st, inl (ApiGuard e))
  | inr _ => let '(st', r) := _revoke_link_sync token st in (st', inr r)
  end.

(** Nobody is asked to log in.  [KeyError] and the exceptions of [resolve_safe_path] other than a missing file are
    not caught. *)
Definition share_download (now : time) (token : pystr) (st : share_state)
    : share_state * ((ShareExn + FsExn) + share_page_result) :=
  match _validate_token_sync now token st with
  | (st', inl ShareKeyError) => (st', inl (inl ShareKeyError))
  | (st', inl (ShareLinkNotFoundError t)) => (st', inl (inl (ShareLinkNotFoundError t)))
  | (st', inl _) => (st', inr ShareExpiredPage)
  | (st', inr file_path) =>
      (st', match resolve_safe_path base file_path (sh_fs st') with
            | inl FileNotFoundError => inr ShareUnavailablePage
            | inl e => inl (inr e)
            | inr resolved => inr (ShareFile resolved)
            end)
  end.

(** The page finds the file the way the download does, and shows its name and size. *)
Definition share_page (now : time) (token : pystr) (st : share_state)
    : share_state * ((ShareExn + FsExn) + share_page_result) :=
  share_download now token st.

End endpoints.
