(* ===== verification/SharingProps.v ===== *)
(** Properties of share links: memory and store agree and survive a restart, a link
    is served for exactly its life time unless it is revoked; tokens of the same second
    collide, and servers of sibling folders share their links. *)

From stdpp Require Import strings.
From S2P Require Import Prelude Json Session Accounts Identity IdentityProps Files FilesProps StateStore FilesApi FilesApiProps Sharing.

Implicit Types st : share_state.
Implicit Types db : ServerStateStore.

(** ** Links in memory and in the store *)

Lemma record_row r : record_of (row_of r) = r.
Proof. by destruct r. Qed.

Lemma row_record r : row_of (record_of r) = r.
Proof. by destruct r. Qed.

(** The rows of a table are found under their own token. *)
Definition keyed (t : gmap (list Z) ShareLinkRow) : Prop := ∀ k row, t !! k = Some row → sl_token row = k.

Lemma fold_insert_links (l : list ShareLinkRow) (m : gmap (list Z) ShareLinkRecord) :
  NoDup (sl_token <$> l) →
  fold_left (λ links row, <[sl_token row := record_of row]> links) l m
  = list_to_map ((λ row, (sl_token row, record_of row)) <$> l) ∪ m.
Proof.
  revert m. induction l as [|row l IH]; intros m; [intros _; symmetry; apply (left_id_L ∅ (∪))|].
  rewrite fmap_cons, NoDup_cons. intros [Hr Hl]. cbn [fold_left fmap list_fmap list_to_map].
  rewrite IH by done. rewrite list_to_map_cons. rewrite <-insert_union_l. symmetry. apply insert_union_r.
  apply not_elem_of_list_to_map_1. by rewrite <-list_fmap_compose.
Qed.

Lemma rows_tokens (t : gmap (list Z) ShareLinkRow) :
  keyed t →
  (λ row, (sl_token row, record_of row)) <$> rows t = prod_map id record_of <$> map_to_list t.
Proof.
  intros Hk. unfold rows. rewrite <-list_fmap_compose. apply list_fmap_ext.
  intros i [k row] Hi. cbn. apply list_elem_of_lookup_2, elem_of_map_to_list in Hi.
  by rewrite (Hk _ _ Hi).
Qed.

Lemma init_links secret db :
  keyed (tb_shares db) → ss_active_links (init_share_service secret db) = record_of <$> tb_shares db.
Proof.
  intros Hk. cbn [init_share_service ss_active_links]. unfold store_share_links.
  rewrite fold_insert_links.
  - rewrite (right_id_L ∅ (∪)), rows_tokens by done. rewrite list_to_map_fmap.
    by rewrite list_to_map_to_list.
  - replace (sl_token <$> rows (tb_shares db)) with (map_to_list (tb_shares db)).*1;
      [apply NoDup_fst_map_to_list|]. unfold rows. rewrite <-list_fmap_compose. apply list_fmap_ext.
    intros i [k row] Hi. cbn. apply list_elem_of_lookup_2, elem_of_map_to_list in Hi.
    by rewrite (Hk _ _ Hi).
Qed.

Section links.
Context `{T : TimedSerializer} `{!TimedSerializerLaws T}.

Abbreviation secret st := (ss_secret_key (sh_service st)) (only parsing).
Abbreviation links st := (ss_active_links (sh_service st)) (only parsing).

(** The invariant of the service: the store holds the links of the memory and the
    secret, and every token was signed for the path of its record. *)
Record links_ok st : Prop := {
  lk_store : tb_shares (sh_db st) = row_of <$> links st;
  lk_secret : get_meta _META_SHARE_SECRET_KEY (sh_db st) = Some (secret st);
  lk_token : ∀ k r, links st !! k = Some r → lr_token r = k ∧ scalars (lr_file_path r) = true ∧
               ∃ signed_at, k = token_for (secret st) signed_at (lr_file_path r)
}.

Lemma links_keyed st : links_ok st → keyed (tb_shares (sh_db st)).
Proof.
  intros Hok k row. rewrite (lk_store _ Hok). intros (r & <- & Hr)%lookup_fmap_Some.
  by apply (lk_token _ Hok).
Qed.

(** The service of a server that starts on the store. *)
Lemma restart_same fresh t st :
  links_ok st → sh_service (create_app fresh t (sh_db st)) = sh_service st ∧
                sh_db (create_app fresh t (sh_db st)) = sh_db st.
Proof.
  intros Hok. unfold create_app, get_or_create_share_secret. rewrite (lk_secret _ Hok).
  cbn [sh_service sh_db]. split; [|done]. pose proof (init_links (secret st) (sh_db st) (links_keyed _ Hok)) as Hi.
  rewrite (lk_store _ Hok), <-map_fmap_compose in Hi.
  destruct (sh_service st) as [key active] eqn:E. cbn [ss_active_links ss_secret_key] in *.
  unfold init_share_service in *. cbn [ss_active_links] in Hi. rewrite Hi. f_equal.
  apply map_eq. intros k. rewrite lookup_fmap. destruct (active !! k) as [r|]; [|done]. cbn.
  by rewrite record_row.
Qed.

Lemma drop_links token st : links (drop_link token st) = delete token (links st).
Proof. done. Qed.

Lemma drop_shares token st : tb_shares (sh_db (drop_link token st)) = delete token (tb_shares (sh_db st)).
Proof.
  unfold drop_link, delete_share_link. cbn [with_service sh_db].
  destruct (tb_shares (sh_db st) !! token) eqn:E; [done|]. cbn [fst]. by rewrite delete_id.
Qed.

Lemma drop_meta token st : tb_meta (sh_db (drop_link token st)) = tb_meta (sh_db st).
Proof.
  unfold drop_link, delete_share_link. cbn [with_service sh_db]. by destruct (tb_shares (sh_db st) !! token).
Qed.

Lemma drop_ok token st : links_ok st → links_ok (drop_link token st).
Proof.
  intros Hok. split.
  - rewrite drop_shares, drop_links, (lk_store _ Hok). by rewrite fmap_delete.
  - unfold get_meta. rewrite drop_meta. apply Hok.
  - intros k r. rewrite drop_links. intros [_ Hk]%lookup_delete_Some. by apply (lk_token _ Hok).
Qed.

Lemma drop_all_spec tokens st :
  links_ok st →
  let st' := fold_left (λ st token, drop_link token st) tokens st in
  links_ok st' ∧ secret st' = secret st ∧ ∀ k, k ∉ tokens → links st' !! k = links st !! k.
Proof.
  cbv zeta. revert st. induction tokens as [|tok tokens IH]; intros st Hok; [done|].
  cbn [fold_left]. destruct (IH _ (drop_ok tok st Hok)) as (H1 & H2 & H3).
  split_and!; [done|done|]. intros k. rewrite not_elem_of_cons. intros [Hne Hk].
  rewrite H3, drop_links by done. by apply lookup_delete_ne.
Qed.

(** Tokens that are dropped are gone. *)
Lemma drop_all_gone tokens st k :
  links st !! k = None → links (fold_left (λ st token, drop_link token st) tokens st) !! k = None.
Proof.
  revert st. induction tokens as [|tok tokens IH]; intros st Hk; [done|]. cbn [fold_left]. apply IH.
  rewrite drop_links. apply lookup_delete_None. by right.
Qed.

Lemma create_ok signed_at now p ttl st :
  links_ok st → scalars p = true → links_ok (_create_link_sync signed_at now p ttl st).1.
Proof.
  intros Hok Hp. unfold _create_link_sync. cbn [fst]. split; cbn [with_service sh_db sh_service ss_active_links ss_secret_key].
  - cbn [upsert_share_link put_shares tb_shares sl_token row_of lr_token].
    by rewrite fmap_insert, (lk_store _ Hok).
  - apply Hok.
  - intros k r [[<- <-]|[_ Hk]]%lookup_insert_Some; [|by apply (lk_token _ Hok)].
    cbn. split_and!; [done|done|by eexists].
Qed.

(** ** The life of a link *)

(** [loads] of a token that the service signed. *)
Lemma loads_own st signed_at now age p :
  scalars p = true → 0 ≤ token_age signed_at now →
  loads_link st now age (token_for (secret st) signed_at p)
  = if age <? token_age signed_at now then inl SignatureExpired
    else inr (JObj [(py "path", JStr p)]).
Proof.
  intros Hp Hage. unfold loads_link, token_for. destruct (Z.ltb_spec age (token_age signed_at now)).
  - by apply ts_old.
  - apply ts_fresh; [|lia]. cbn. by rewrite Hp.
Qed.

(** What can happen to a server with an active link, other than creating the same token
    again or revoking it: at a time [t]. *)
Inductive share_step (token : pystr) (t : time) : share_state → share_state → Prop :=
| step_create signed_at now p ttl st :
    scalars p = true → token_for (secret st) signed_at p ≠ token →
    share_step token t st (_create_link_sync signed_at now p ttl st).1
| step_validate tok st : share_step token t st (_validate_token_sync t tok st).1
| step_revoke tok st : tok ≠ token → share_step token t st (_revoke_link_sync tok st).1
| step_list st : share_step token t st (_list_active_links_sync t st).1
| step_restart fresh files st : share_step token t st (create_app fresh files (sh_db st)).

Lemma validate_links t tok st :
  links_ok st →
  let st' := (_validate_token_sync t tok st).1 in st' = st ∨ st' = drop_link tok st.
Proof.
  intros Hok. cbv zeta. unfold _validate_token_sync.
  destruct (links st !! tok) as [r|]; [|by left].
  destruct (loads_link st t (lr_ttl_seconds r) tok) as [[]|data]; [by right|by left|by left].
Qed.

Lemma step_ok token t st st' :
  links_ok st → share_step token t st st' → links_ok st' ∧ secret st' = secret st.
Proof.
  intros Hok Hst. destruct Hst as [sa now p ttl st Hp _|tok st|tok st _|st|fresh files st].
  - split; [by apply create_ok|done].
  - destruct (validate_links t tok st Hok) as [->| ->]; [done|]. split; [by apply drop_ok|done].
  - unfold _revoke_link_sync. destruct (links st !! tok); [|done]. split; [by apply drop_ok|done].
  - unfold _list_active_links_sync. cbn [fst]. by edestruct drop_all_spec as (? & ? & _).
  - destruct (restart_same fresh files st Hok) as [H1 H2]. rewrite H1. split; [|done].
    split; rewrite ?H1, ?H2; apply Hok.
Qed.

(** A link that has not expired stays. *)
Lemma step_keeps p ttl signed_at t st st' r token :
  token = token_for (secret st) signed_at p →
  links_ok st → share_step token t st st' → scalars p = true →
  links st !! token = Some r → lr_ttl_seconds r = ttl → 0 ≤ token_age signed_at t ≤ ttl →
  links st' !! token = Some r.
Proof.
  intros Htok Hok Hst Hp Hr <- Hage.
  assert (loads_link st t (lr_ttl_seconds r) token = inr (JObj [(py "path", JStr p)])) as Hl.
  { rewrite Htok, loads_own by (done || lia). by destruct (Z.ltb_spec (lr_ttl_seconds r) (token_age signed_at t)); [lia|]. }
  clear Htok. destruct Hst as [sa now p' ttl' st Hp' Hne|tok st|tok st Hne|st|fresh files st].
  - unfold _create_link_sync. cbn [fst with_service sh_service ss_active_links].
    by rewrite lookup_insert_ne.
  - unfold _validate_token_sync. destruct (decide (tok = token)) as [->|Hne].
    + by rewrite Hr, Hl.
    + destruct (links st !! tok); [|done]. destruct (loads_link st t (lr_ttl_seconds s) tok) as [[]|]; try done.
      cbn [fst]. rewrite drop_links. by rewrite lookup_delete_ne.
  - unfold _revoke_link_sync. destruct (links st !! tok); [|done]. cbn [fst]. rewrite drop_links.
    by rewrite lookup_delete_ne.
  - unfold _list_active_links_sync. cbn [fst].
    destruct (drop_all_spec (filter (λ kv, still_valid st t kv = false) (map_to_list (links st))).*1 st Hok)
      as (_ & _ & H3). rewrite H3; [done|].
    intros ([k r'] & Hk & Hf)%list_elem_of_fmap. apply list_elem_of_filter in Hf as [Hf Hin].
    cbn in Hk. subst k. apply elem_of_map_to_list in Hin. rewrite Hr in Hin. injection Hin as <-.
    unfold still_valid in Hf. cbn [fst snd] in Hf. by rewrite Hl in Hf.
  - by rewrite (proj1 (restart_same fresh files st Hok)).
Qed.

(** A token that is not active stays so, unless it is created. *)
Lemma step_gone token t st st' :
  links_ok st → share_step token t st st' → links st !! token = None → links st' !! token = None.
Proof.
  intros Hok Hst Hno.
  destruct Hst as [sa now p ttl st Hp Hne|tok st|tok st _|st|fresh files st].
  - unfold _create_link_sync. cbn [fst with_service sh_service ss_active_links].
    by rewrite lookup_insert_ne.
  - destruct (validate_links t tok st Hok) as [->| ->]; [done|]. rewrite drop_links.
    apply lookup_delete_None. by right.
  - unfold _revoke_link_sync. destruct (links st !! tok); [|done]. cbn [fst]. rewrite drop_links.
    apply lookup_delete_None. by right.
  - unfold _list_active_links_sync. cbn [fst]. by apply drop_all_gone.
  - by rewrite (proj1 (restart_same fresh files st Hok)).
Qed.

(** C13: The life of a share link.  A new link is accepted, with its path, at every time
    within its TTL (in whole seconds from the signature), whatever other links are
    created, revoked, validated or listed in between, and across restarts on the same
    store; beyond the TTL it is never accepted again; and once revoked it is never
    accepted again, unless the same token is created anew. *)
Theorem share_link_lifecycle st signed_at created p ttl :
  links_ok st → scalars p = true →
  let '(st1, record) := _create_link_sync signed_at created p ttl st in
  let token := lr_token record in
  let alive t := 0 ≤ token_age signed_at t ≤ ttl_value ttl in
  (∀ st' now, rtc (λ a b, ∃ t, alive t ∧ share_step token t a b) st1 st' → alive now →
     _validate_token_sync now token st' = (st', inr p)) ∧
  (∀ st' now, rtc (λ a b, ∃ t, alive t ∧ share_step token t a b) st1 st' →
     ttl_value ttl < token_age signed_at now →
     ∃ st'', _validate_token_sync now token st' = (st'', inl (ShareLinkExpiredError token)) ∧
             (_validate_token_sync now token st'').2 = inl (ShareLinkRevokedError token)) ∧
  (∀ st2 st' now, rtc (λ a b, ∃ t, alive t ∧ share_step token t a b) st1 st2 →
     rtc (λ a b, ∃ t, share_step token t a b) (_revoke_link_sync token st2).1 st' →
     _validate_token_sync now token st' = (st', inl (ShareLinkRevokedError token))).
Proof.
  intros Hok Hp. unfold _create_link_sync. set (token := token_for (secret st) signed_at p).
  set (record := {| lr_token := token; lr_file_path := p; lr_created_at := created;
                    lr_ttl_seconds := ttl_value ttl |}). cbn [lr_token record].
  set (st1 := with_service st _ _). cbv zeta.
  assert (∀ st', rtc (λ a b, ∃ t, 0 ≤ token_age signed_at t ≤ ttl_value ttl ∧ share_step token t a b) st1 st' →
            links_ok st' ∧ secret st' = secret st ∧ links st' !! token = Some record) as Hinv.
  { intros st' Hst. assert (links_ok st1 ∧ secret st1 = secret st ∧ links st1 !! token = Some record) as H1.
    { split_and!; [by apply create_ok|done|apply lookup_insert_eq]. }
    induction Hst as [|a b c (t & Ht & Hab) Hst IH]; [done|]. apply IH. destruct H1 as (Ha & Hs & Hr).
    destruct (step_ok _ _ _ _ Ha Hab) as [Hb Hs']. split_and!; [done|congruence|].
    eapply (step_keeps p (ttl_value ttl) signed_at t a b record token); try done. by rewrite Hs. }
  assert (∀ st' now, secret st' = secret st → 0 ≤ token_age signed_at now →
    loads_link st' now (ttl_value ttl) token
    = if ttl_value ttl <? token_age signed_at now then inl SignatureExpired else inr (JObj [(py "path", JStr p)]))
    as Hl.
  { intros st' now Hs Hage. unfold token. rewrite <-Hs. by apply loads_own. }
  split_and!.
  - intros st' now Hst Hage. destruct (Hinv _ Hst) as (_ & Hs & Hr). unfold _validate_token_sync.
    rewrite Hr. cbn [lr_ttl_seconds record]. rewrite Hl by (done || lia).
    destruct (Z.ltb_spec (ttl_value ttl) (token_age signed_at now)); [lia|]. done.
  - intros st' now Hst Hage. destruct (Hinv _ Hst) as (_ & Hs & Hr).
    exists (drop_link token st'). unfold _validate_token_sync at 1. rewrite Hr. cbn [lr_ttl_seconds record].
    rewrite Hl; [|done|destruct ttl; cbn in Hage; lia].
    destruct (Z.ltb_spec (ttl_value ttl) (token_age signed_at now)); [|lia]. split; [done|].
    unfold _validate_token_sync. by rewrite drop_links, lookup_delete_eq.
  - intros st2 st' now Hst Hst'. destruct (Hinv _ Hst) as (Hok2 & _ & Hr).
    assert (links_ok st' ∧ links st' !! token = None) as [_ Hno].
    { unfold _revoke_link_sync in Hst'. rewrite Hr in Hst'. cbn [fst] in Hst'.
      assert (links_ok (drop_link token st2) ∧ links (drop_link token st2) !! token = None) as Hd.
      { split; [by apply drop_ok|]. by rewrite drop_links, lookup_delete_eq. }
      induction Hst' as [|a b c [t Hab] Hbc IH]; [done|]. apply IH. destruct Hd as [Ha Hna].
      split; [by eapply step_ok|by eapply step_gone]. }
    unfold _validate_token_sync. by rewrite Hno.
Qed.

End links.

(** ** Where links are not what they seem *)

(** A token depends on the second of its signature only. *)
Class TimedSerializerSeconds (T : TimedSerializer) :=
  ts_second : ∀ key salt t t' v, t / seconds 1 = t' / seconds 1 →
    ts_dumps key salt t v = ts_dumps key salt t' v.

(** Links to one path that are created within a second are one link: they have the
    same token, and the life time of the last one replaces the others'.  A first link
    promised for longer expires with the second. *)
Theorem share_token_collision `{T : TimedSerializer} `{!TimedSerializerLaws T} `{!TimedSerializerSeconds T}
    st signed1 created1 signed2 created2 now p ttl1 ttl2 :
  links_ok st → scalars p = true → signed1 / seconds 1 = signed2 / seconds 1 →
  ttl_value ttl2 < token_age signed1 now ≤ ttl_value ttl1 →
  let '(st1, first) := _create_link_sync signed1 created1 p ttl1 st in
  let '(st2, second) := _create_link_sync signed2 created2 p ttl2 st1 in
  lr_token first = lr_token second ∧ lr_ttl_seconds first = ttl_value ttl1 ∧
  _validate_token_sync now (lr_token first) st1 = (st1, inr p) ∧
  (_validate_token_sync now (lr_token first) st2).2 = inl (ShareLinkExpiredError (lr_token first)).
Proof.
  intros Hok Hp Hsec Hage. unfold _create_link_sync.
  cbn [fst snd lr_token lr_ttl_seconds with_service sh_service ss_secret_key].
  assert (token_for (ss_secret_key (sh_service st)) signed2 p = token_for (ss_secret_key (sh_service st)) signed1 p)
    as -> by (unfold token_for; by apply ts_second).
  assert (0 ≤ token_age signed1 now) as H0 by (destruct ttl2; cbn in Hage; lia).
  set (token := token_for _ signed1 p).
  assert (∀ st', ss_secret_key (sh_service st') = ss_secret_key (sh_service st) → ∀ age,
    loads_link st' now age token = if age <? token_age signed1 now then inl SignatureExpired
                                   else inr (JObj [(py "path", JStr p)])) as Hl.
  { intros st' Hs age. unfold token. rewrite <-Hs. by apply loads_own. }
  split_and!; [done|done| |]; unfold _validate_token_sync; cbn [sh_service with_service ss_active_links];
    rewrite lookup_insert_eq, Hl by done; cbn [lr_ttl_seconds].
  - destruct (Z.ltb_spec (ttl_value ttl1) (token_age signed1 now)); [lia|]. done.
  - destruct (Z.ltb_spec (ttl_value ttl2) (token_age signed1 now)); [|lia]. done.
Qed.

(** Servers of folders next to each other have one state store, since it lies in the
    parent directory.  A link that is created on one of them is, after a restart of the
    other, served by it from its own folder: a file that nobody shared. *)
Theorem sibling_folders_share_links `{T : TimedSerializer} `{!TimedSerializerLaws T}
    st signed_at created now fresh t d a b s ttl c :
  links_ok st → share_ok (d ++ [b]) t → Forall plain_name s → s ≠ [] →
  scalars (join_slash s) = true → t !! ((d ++ [b]) ++ s) = Some (FFile c) →
  0 ≤ token_age signed_at now ≤ ttl_value ttl →
  data_dir (d ++ [a]) = data_dir (d ++ [b]) ∧
  let '(st1, record) := _create_link_sync signed_at created (join_slash s) ttl st in
  let other := create_app fresh t (sh_db st1) in
  share_download (d ++ [b]) now (lr_token record) other = (other, inr (ShareFile ((d ++ [b]) ++ s))).
Proof.
  intros Hok Hs Hp Hne Hsc Hf Hage. unfold data_dir, parent. rewrite !removelast_last. split; [done|].
  pose proof (create_ok signed_at created (join_slash s) ttl st Hok Hsc) as Hok1.
  unfold _create_link_sync in Hok1 |- *. cbn [fst] in Hok1.
  set (token := token_for (ss_secret_key (sh_service st)) signed_at (join_slash s)) in *.
  set (st1 := with_service st _ _) in *. cbn [lr_token].
  destruct (restart_same fresh t st1 Hok1) as [Hserv Hdb].
  set (other := create_app fresh t (sh_db st1)) in *.
  assert (sh_fs other = t) as Hfs.
  { unfold other, create_app. by destruct (get_or_create_share_secret fresh (sh_db st1)). }
  unfold share_download, _validate_token_sync. rewrite Hserv at 1.
  cbn [st1 with_service sh_service ss_active_links]. rewrite lookup_insert_eq. cbn [lr_ttl_seconds].
  assert (loads_link other now (ttl_value ttl) token = inr (JObj [(py "path", JStr (join_slash s))])) as ->.
  { unfold token. change (ss_secret_key (sh_service st)) with (ss_secret_key (sh_service st1)).
    rewrite <-Hserv, loads_own by (done || lia).
    by destruct (Z.ltb_spec (ttl_value ttl) (token_age signed_at now)); [lia|]. }
  cbn [subscript dict_get]. rewrite decide_True by done. rewrite Hfs.
  rewrite resolve_names; [done|apply Hs|done|done|by apply share_link_free|by rewrite Hf].
Qed.

(** ** Witnesses *)

(** The stand-in of [Session], with whole seconds. *)
Definition second_serializer : TimedSerializer :=
  {| ts_dumps key salt t v :=
       ts_dumps (TimedSerializer := plain_serializer) key salt (t / seconds 1 * seconds 1) v;
     ts_loads := ts_loads (TimedSerializer := plain_serializer) |}.

Lemma token_age_seconds t now : token_age (t / seconds 1 * seconds 1) now = token_age t now.
Proof. unfold token_age. rewrite Z.div_mul; [done|]. unfold seconds. lia. Qed.

Lemma second_laws : TimedSerializerLaws second_serializer.
Proof.
  destruct plain_laws as [H1 H2 H3 H4]. split; intros; cbn [ts_dumps ts_loads second_serializer].
  - apply H1.
  - apply H2; [done|]. by rewrite token_age_seconds.
  - apply H3. by rewrite token_age_seconds.
  - by apply H4.
Qed.

Lemma second_seconds : TimedSerializerSeconds second_serializer.
Proof. intros key salt t t' v E. cbn [ts_dumps second_serializer]. by rewrite E. Qed.

Definition new_server : share_state := create_app (py "secret") ex_tree empty_store.

Lemma new_server_ok : links_ok (T := second_serializer) new_server.
Proof. split; [by vm_compute|by vm_compute|]. intros k r Hk. by vm_compute in Hk. Qed.

(** An hour's link, after 59 minutes and a restart. *)
Lemma share_link_lifecycle_witness :
  let '(st1, record) := _create_link_sync (H := second_serializer) 0 5 (py "a.txt") ONE_HOUR new_server in
  let st2 := create_app (py "other") ex_tree (sh_db st1) in
  _validate_token_sync (H := second_serializer) (seconds 3540) (lr_token record) st2 = (st2, inr (py "a.txt")).
Proof.
  pose proof (share_link_lifecycle (T := second_serializer) (TimedSerializerLaws0 := second_laws)
    new_server 0 5 (py "a.txt") ONE_HOUR new_server_ok ltac:(by vm_compute)) as H.
  destruct (_create_link_sync (H := second_serializer) 0 5 (py "a.txt") ONE_HOUR new_server) as [st1 record].
  destruct H as (H & _ & _). apply H; [|by vm_compute].
  apply rtc_once. exists 10. split; [by vm_compute|apply step_restart].
Defined.

Lemma share_token_collision_witness :
  let '(st1, first) := _create_link_sync (H := second_serializer) 0 5 (py "a.txt") TWENTY_FOUR_HOURS new_server in
  let '(st2, second) := _create_link_sync (H := second_serializer) 999 1004 (py "a.txt") FIFTEEN_MINUTES st1 in
  (_validate_token_sync (H := second_serializer) (seconds 901) (lr_token first) st2).2
  = inl (ShareLinkExpiredError (lr_token first)).
Proof.
  pose proof (share_token_collision (T := second_serializer) (TimedSerializerLaws0 := second_laws)
    (TimedSerializerSeconds0 := second_seconds) new_server 0 5 999 1004 (seconds 901) (py "a.txt")
    TWENTY_FOUR_HOURS FIFTEEN_MINUTES new_server_ok ltac:(by vm_compute) ltac:(by vm_compute) ltac:(by vm_compute)) as H.
  destruct (_create_link_sync 0 5 (py "a.txt") TWENTY_FOUR_HOURS new_server) as [st1 first].
  destruct (_create_link_sync 999 1004 (py "a.txt") FIFTEEN_MINUTES st1) as [st2 second]. apply H.
Defined.

(** The example folder under another name, and a link made next door. *)
Lemma sibling_folders_share_links_witness :
  data_dir [py "srv"; py "public"] = data_dir ex_base ∧
  let '(st1, record) := _create_link_sync (H := second_serializer) 0 5 (py "sub/b") ONE_HOUR new_server in
  let other := create_app (py "x") ex_tree (sh_db st1) in
  share_download (H := second_serializer) ex_base (seconds 60) (lr_token record) other
  = (other, inr (ShareFile (ex_base ++ [py "sub"; py "b"]))).
Proof.
  apply (sibling_folders_share_links (T := second_serializer) (TimedSerializerLaws0 := second_laws)
    new_server 0 5 (seconds 60) (py "x") ex_tree [py "srv"] (py "public") (py "share") [py "sub"; py "b"]
    ONE_HOUR [Byte.x04] new_server_ok ex_share); try by vm_compute.
  apply (bool_decide_unpack _). by vm_compute.
Defined.
