(* ===== verification/RelayAuth.v ===== *)
(** The account endpoints of the relay: [src/relay/app/dependencies.py] and the routers
    [auth.py], [admin.py], [access_requests.py] and [oidc_auth.py].

    The state is the account tables and the registry.  An exception that an endpoint
    turns into a status is [HTTPException]; the others pass through.  bcrypt is a
    parameter, so are the random texts, the clock, the identity provider's answer and
    Python's [str.isalnum].  Rate limits, request validation and the cookie attributes
    are left out. *)

From stdpp Require Import strings.
From S2P Require Import Prelude Json Utf8 Session Accounts Registry Identity.

Inductive RelayExn :=
| HTTPException (status : Z)
| RxAccount (e : AccountExn)
| RxRegistry (e : RegistryExn)
| RxSession (e : SessionExn)
| RxTypeError
| RxOidcError.

Record relay_state := { rl_accounts : AccountDb; rl_registry : Registry }.

Abbreviation Relay T := (M relay_state RelayExn T).

(** The part of [RelayConfig] these endpoints read. *)
Record RelayConfig := { rc_admin_users : list pystr; rc_oidc_group_prefix : pystr }.

(** A call of the account store, with [h] for the [except] clauses. *)
Definition acc {T} (h : AccountExn → RelayExn) (m : A T) : Relay T := λ s,
  match m (rl_accounts s) with
  | (db, inl e) => ({| rl_accounts := db; rl_registry := rl_registry s |}, inl (h e))
  | (db, inr a) => ({| rl_accounts := db; rl_registry := rl_registry s |}, inr a)
  end.

Definition reg {T} (m : R T) : Relay T := λ s,
  match m (rl_registry s) with
  | (r, inl e) => ({| rl_accounts := rl_accounts s; rl_registry := r |}, inl (RxRegistry e))
  | (r, inr a) => ({| rl_accounts := rl_accounts s; rl_registry := r |}, inr a)
  end.

(** ** Who is asking, [dependencies.py] *)

(** [RELAY_ADMIN_USERS] *)
Definition admin_users_of `{StrLower} (env : pystr) : list pystr :=
  (λ u, str_lower (strip u)) <$> filter (λ u, strip u ≠ []) (split_on 44 env).

Definition is_admin_username `{StrLower} (username : pystr) (config : RelayConfig) : bool :=
  bool_decide (str_lower (strip username) ∈ rc_admin_users config).

Section relay.
Context `{TimedSerializer} `{PyConv}.
Context (hashpw : bytes → bytes → bytes) (checkpw : bytes → bytes → option bool).
Context (config : RelayConfig) (session : RelaySession).

(** [cookie] is the value of [SESSION_COOKIE_NAME]. *)
Definition get_optional_identity (now : time) (cookie : option pystr)
    : RelayExn + option SessionIdentity :=
  match cookie with
  | None => inr None
  | Some token =>
      if bool_decide (token = []) then inr None
      else match verify_session_cookie session now token with
           | inl InvalidSessionError => inr None
           | inl e => inl (RxSession e)
           | inr identity => inr (Some identity)
           end
  end.

Definition get_current_identity (now : time) (cookie : option pystr) : RelayExn + SessionIdentity :=
  identity ← get_optional_identity now cookie;
  match identity with None => inl (HTTPException 401) | Some i => inr i end.

Definition require_admin (now : time) (cookie : option pystr) : RelayExn + SessionIdentity :=
  identity ← get_current_identity now cookie;
  if is_admin_username (si_username identity) config then inr identity else inl (HTTPException 403).

(** ** [auth.py] *)

Definition signup (salt : bytes) (now : time) (username password : pystr) (email : option pystr)
    : Relay (Z * pystr) :=
  password_hash ← lift_res match hash_password hashpw salt password with
                           | inl WeakPasswordError => inl (HTTPException 400)
                           | inl e => inl (RxAccount e)
                           | inr h => inr h
                           end;
  user ← acc (λ e, match e with
                   | UsernameTakenError => HTTPException 409
                   | AccValueError => HTTPException 400
                   | _ => RxAccount e
                   end) (create_user now username password_hash email);
  mret (u_id user, u_username user).

(** The credentials of [login] and [agent_token]. *)
Definition credentials (username password : pystr) : Relay User :=
  user ← acc (λ e, match e with UserNotFoundError => HTTPException 401 | _ => RxAccount e end)
           (get_user_by_username username);
  ok ← lift_res match verify_password checkpw password (u_password_hash user) with
                | inl WeakPasswordError => inl (HTTPException 401)
                | inl e => inl (RxAccount e)
                | inr b => inr b
                end;
  if negb ok || negb (u_is_active user) then raise (HTTPException 401) else mret user.

Definition of_session {T} (r : SessionExn + T) : RelayExn + T :=
  match r with inl e => inl (RxSession e) | inr a => inr a end.

(** The session token, and the admin flag. *)
Definition login (now : time) (username password : pystr) : Relay (pystr * bool) :=
  user ← credentials username password;
  token ← lift_res (of_session (issue session now (u_id user) (u_username user)));
  mret (token, is_admin_username (u_username user) config).

Definition agent_token (now : time) (username password : pystr) : Relay pystr :=
  user ← credentials username password;
  mret (issue_agent_owner_token session now (u_id user)).

Definition me (now : time) (cookie : option pystr) : RelayExn + (SessionIdentity * bool) :=
  identity ← get_current_identity now cookie;
  inr (identity, is_admin_username (si_username identity) config).

(** ** [admin.py]: every endpoint requires an admin *)

Section admin.
Context (now : time) (cookie : option pystr).

Definition as_admin {T} (m : Relay T) : Relay T :=
  _ ← lift_res (require_admin now cookie); m.

Definition admin_list_users : Relay (list User) := as_admin (acc RxAccount list_users).

Definition admin_set_user_active (user_id : Z) (is_active : bool) : Relay unit :=
  as_admin (acc (λ e, match e with UserNotFoundError => HTTPException 404 | _ => RxAccount e end)
              (set_user_active user_id is_active)).

Definition admin_list_groups : Relay (list Group) := as_admin (acc RxAccount list_groups).

Definition admin_create_group (name : pystr) : Relay Group :=
  as_admin (acc (λ e, match e with
                      | GroupNameTakenError => HTTPException 409
                      | AccValueError => HTTPException 400
                      | _ => RxAccount e
                      end) (create_group now name)).

Definition admin_delete_group (group_id : Z) : Relay unit :=
  as_admin (acc (λ e, match e with GroupNotFoundError => HTTPException 404 | _ => RxAccount e end)
              (delete_group group_id)).

Definition admin_list_group_members (group_id : Z) : Relay (list Membership) :=
  as_admin (acc (λ e, match e with GroupNotFoundError => HTTPException 404 | _ => RxAccount e end)
              (list_group_members group_id)).

Definition _resolve_member_id (member_type : SubjectType) (member_ref : pystr) : Relay Z :=
  let h e := match e with
             | UserNotFoundError | GroupNotFoundError => HTTPException 404
             | _ => RxAccount e
             end in
  match member_type with
  | USER => u ← acc h (get_user_by_username member_ref); mret (u_id u)
  | GROUP => g ← acc h (get_group_by_name member_ref); mret (g_id g)
  end.

Definition admin_add_group_member (group_id : Z) (member_type : SubjectType) (member_ref : pystr)
    : Relay Z :=
  as_admin (
    member_id ← _resolve_member_id member_type member_ref;
    _ ← acc (λ e, match e with
                  | GroupNotFoundError => HTTPException 404
                  | GroupCycleError => HTTPException 409
                  | DuplicateMembershipError => HTTPException 409
                  | _ => RxAccount e
                  end) (add_member group_id member_type member_id);
    mret member_id).

Definition admin_remove_group_member (group_id : Z) (member_type : SubjectType) (member_id : Z)
    : Relay unit :=
  as_admin (acc (λ e, match e with MembershipNotFoundError => HTTPException 404 | _ => RxAccount e end)
              (remove_member group_id member_type member_id)).

(** ** [access_requests.py] *)

(** [create_access_request] answers the request it finds or has inserted. *)
Definition store_request (code : pystr) (user_id : Z) : Relay (option AccessRequest) := λ s,
  let '(r, q) := create_access_request now code user_id (rl_registry s) in
  ({| rl_accounts := rl_accounts s; rl_registry := r |}, inr q).

Definition create_request (code : pystr) : Relay (option AccessRequest) :=
  identity ← lift_res (get_current_identity now cookie);
  store_request code (si_user_id identity).

(** The own requests and those for the own mounts, each once, newest first; the user
    names shown with them are left out. *)
Definition list_requests : Relay (list AccessRequest) :=
  identity ← lift_res (get_current_identity now cookie);
  gets (λ s : relay_state,
    let r := rl_registry s in
    if is_admin_username (si_username identity) config then list_all_access_requests r
    else filter (λ q, ar_user_id q = si_user_id identity ∨
                      (mounts r !! ar_code q) ≫= m_owner_user_id = Some (si_user_id identity))
           (all_requests r)).

Inductive ResolveAction := APPROVE | DENY.

Definition resolve_request (request_id : Z) (action : ResolveAction) (role : option Role) : Relay AccessRequestStatus :=
  identity ← lift_res (get_current_identity now cookie);
  req ← reg (get_access_request request_id);
  policy ← reg (get_policy (ar_code req));
  if negb (bool_decide (mp_owner_user_id policy = Some (si_user_id identity)) ||
           is_admin_username (si_username identity) config)
  then raise (HTTPException 403)
  else match action with
       | APPROVE =>
           _ ← reg (add_policy_entry (ar_code req) USER (ar_user_id req) (default READ role));
           _ ← reg (resolve_access_request request_id APPROVED);
           mret APPROVED
       | DENY => _ ← reg (resolve_access_request request_id DENIED); mret DENIED
       end.

End admin.

(** ** [oidc_auth.py] *)

Definition PROVIDER : pystr := py "authentik".

Definition _safe_next (raw : option pystr) : pystr :=
  match raw with
  | Some s => if negb (bool_decide (s = [])) && startswith s [slash] && negb (startswith s [slash; slash])
              then s else [slash]
  | None => [slash]
  end.

Section oidc.
Context (isalnum : Z → bool).

Definition is_mark (c : Z) : bool := (c =? 45) || (c =? 95) || (c =? dot).

(** The first claim of the three that is a string with something in it. *)
Fixpoint first_name (claims : list (pystr * json)) (keys : list pystr) : option pystr :=
  match keys with
  | [] => None
  | key :: keys' =>
      match dict_get key claims with
      | Some (JStr value) => if bool_decide (strip value = []) then first_name claims keys' else Some (strip value)
      | _ => first_name claims keys'
      end
  end.

Definition _derive_username (claims : list (pystr * json)) : pystr :=
  let base := match first_name claims [py "preferred_username"; py "nickname"; py "name"] with
              | Some b => b
              | None => match dict_get (py "email") claims with
                        | Some (JStr email) =>
                            if bool_decide (64 ∈ email) then default [] (head (split_on 64 email)) else py "user"
                        | _ => py "user"
                        end
              end in
  let cleaned := strip_if is_mark (filter (λ ch, isalnum ch || is_mark ch = true) base) in
  if bool_decide (cleaned = []) then py "user" else cleaned.

(** [base] and [f"{base}-{i + 1}"]; [seed i] is the random salt and secret of attempt [i]. *)
Definition candidate (base : pystr) (i : Z) : pystr :=
  if i =? 0 then base else base ++ 45 :: dump_nat (i + 1).

Fixpoint allocate (fuel : nat) (seed : Z → bytes * pystr) (now : time) (sub base : pystr)
    (email : option pystr) (i : Z) : Relay User :=
  match fuel with
  | O => raise RxOidcError
  | S fuel' =>
      try_except (acc RxAccount (create_external_user hashpw (seed i).1 (seed i).2 now PROVIDER sub
                                   (candidate base i) email))
        (λ e, match e with
              | RxAccount UsernameTakenError =>
                  try_except (acc RxAccount (get_user_by_external_id PROVIDER sub))
                    (λ e', match e' with
                           | RxAccount UserNotFoundError => allocate fuel' seed now sub base email (i + 1)
                           | _ => raise e'
                           end)
              | _ => raise e
              end)
  end.

Definition claimed_email (claims : list (pystr * json)) : option pystr :=
  match dict_get (py "email") claims with Some (JStr e) => Some e | _ => None end.

Definition _resolve_or_create (seed : Z → bytes * pystr) (now : time) (sub : pystr)
    (claims : list (pystr * json)) : Relay User :=
  try_except (acc RxAccount (get_user_by_external_id PROVIDER sub))
    (λ e, match e with
          | RxAccount UserNotFoundError =>
              allocate 50 seed now sub (_derive_username claims) (claimed_email claims) 0
          | _ => raise e
          end).

(** The strings of the [groups] claim with the prefix, each once; Python's set has no
    order. *)
Definition desired_groups (claims : list (pystr * json)) (prefix : pystr) : list pystr :=
  match dict_get (py "groups") claims with
  | Some (JArr l) =>
      remove_dups (omap (λ g, match g with JStr s => if startswith s prefix then Some s else None | _ => None end) l)
  | _ => []
  end.

Definition ensure_group (now : time) (user_id : Z) (name : pystr) : A unit :=
  group ← try_except (get_group_by_name name)
            (λ e, match e with
                  | GroupNotFoundError =>
                      try_except (create_group now name)
                        (λ e', match e' with GroupNameTakenError => get_group_by_name name | _ => raise e' end)
                  | _ => raise e
                  end);
  try_except (add_member (g_id group) USER user_id)
    (λ e, match e with DuplicateMembershipError => mret tt | _ => raise e end).

Definition revoke_group (user_id : Z) (prefix : pystr) (desired : list pystr) (gid : Z) : A unit :=
  group ← get_group_by_id gid;
  if startswith (g_name group) prefix && negb (bool_decide (g_name group ∈ desired)) then
    try_except (remove_member gid USER user_id)
      (λ e, match e with MembershipNotFoundError => mret tt | _ => raise e end)
  else mret tt.

(** [desired] in the order the set is iterated in. *)
Definition sync_names (now : time) (user_id : Z) (prefix : pystr) (desired : list pystr) : A unit :=
  _ ← for_each (ensure_group now user_id) desired;
  gids ← list_parent_group_ids USER user_id;
  for_each (revoke_group user_id prefix desired) gids.

Definition _sync_groups (now : time) (user_id : Z) (claims : list (pystr * json)) (prefix : pystr) : A unit :=
  sync_names now user_id prefix (desired_groups claims prefix).

Inductive oidc_reply :=
| LoginErrorRedirect
| SessionRedirect (next_url token : pystr).

(** [claims] is what [exchange_code] and [fetch_userinfo] give for the code; [None] is
    an [OidcError] or a missing access token. *)
Definition oidc_callback (seed : Z → bytes * pystr) (now : time)
    (error code raw_state cookie_csrf : option pystr)
    (claims_of : pystr → option (list (pystr * json))) : Relay oidc_reply :=
  let given q := match q with Some s => if bool_decide (s = []) then None else Some s | None => None end in
  match given error with
  | Some _ => mret LoginErrorRedirect
  | None =>
      match given code, given raw_state with
      | Some code, Some raw_state =>
          match verify_oauth_state session now raw_state with
          | inl InvalidSessionError => mret LoginErrorRedirect
          | inl e => raise (RxSession e)
          | inr (next_url, csrf) =>
              match given cookie_csrf with
              | None => mret LoginErrorRedirect
              | Some cookie_csrf =>
                  match compare_digest cookie_csrf csrf with
                  | inl _ => raise RxTypeError
                  | inr false => mret LoginErrorRedirect
                  | inr true =>
                      match claims_of code with
                      | None => mret LoginErrorRedirect
                      | Some claims =>
                          match dict_get (py "sub") claims with
                          | Some (JStr sub) =>
                              if bool_decide (sub = []) then mret LoginErrorRedirect
                              else
                                user ← _resolve_or_create seed now sub claims;
                                _ ← (if bool_decide (rc_oidc_group_prefix config = []) then mret tt
                                     else acc RxAccount (_sync_groups now (u_id user) claims
                                                           (rc_oidc_group_prefix config)));
                                token ← lift_res (of_session (issue session now (u_id user) (u_username user)));
                                mret (SessionRedirect next_url token)
                          | _ => mret LoginErrorRedirect
                          end
                      end
                  end
              end
          end
      | _, _ => mret LoginErrorRedirect
      end
  end.

(** [csrf] is the random text; [authorize] builds the provider's URL, [None] is an
    [OidcError]. *)
Definition oidc_login (now : time) (next : option pystr) (csrf : pystr) (authorize : pystr → option pystr)
    : RelayExn + option (pystr * pystr) :=
  signed_state ← of_session (issue_oauth_state session now (_safe_next next) csrf);
  inr (match authorize signed_state with Some url => Some (url, csrf) | None => None end).

End oidc.
End relay.
