(* ===== verification/RelayAuthProps.v ===== *)
(** Properties of the relay's account endpoints: who gets a session, who is an
    administrator, how single sign-on accounts and groups are kept apart from the
    others, and who may answer access requests. *)

From stdpp Require Import strings.
From S2P Require Import Prelude Json Utf8 Session Accounts AccountsProps Registry Identity IdentityProps RelayAuth.

Implicit Types db : AccountDb.
Implicit Types s : relay_state.

(** The account store changes, the registry does not. *)
Definition with_accounts s db : relay_state := {| rl_accounts := db; rl_registry := rl_registry s |}.

Lemma with_accounts_same s : with_accounts s (rl_accounts s) = s.
Proof. by destruct s. Qed.

Section relay.
Context `{T : TimedSerializer} `{P : PyConv} `{!TimedSerializerLaws T}.
Context (hashpw : bytes → bytes → bytes) (checkpw : bytes → bytes → option bool).
Context (config : RelayConfig) (session : RelaySession).

(** ** Sessions *)

(** A session that was issued is accepted for its life time. *)
Lemma issued_identity t now uid name :
  name ≠ [] → scalars name = true → wf_json (JInt uid) = true →
  0 ≤ token_age t now ≤ SESSION_MAX_AGE_SECONDS →
  ∃ token, issue session t uid name = inr token ∧
    get_current_identity session now (Some token) = inr {| si_user_id := uid; si_username := name |}.
Proof.
  intros Hn Hsc Hu Hage. unfold issue. rewrite bool_decide_eq_false_2 by done. eexists. split; [done|].
  unfold get_current_identity, get_optional_identity.
  rewrite bool_decide_eq_false_2 by apply ts_not_empty.
  unfold verify_session_cookie, verify. rewrite loads_issued; [|by apply wf_pair|lia].
  rewrite bool_decide_eq_true_2 by (split; [done|lia]). done.
Qed.

(** What bcrypt says of a password; [None] when [verify_password] raises a [ValueError]: the stored hash
    is empty, the password is no text of Unicode, or bcrypt refuses it. *)
Definition bcrypt_says (password : pystr) (u : User) : option bool :=
  if decide (u_password_hash u = []) then None
  else bs ← utf8_encode password; checkpw bs (u_password_hash u).

(** C14: [login] on every input, with the state unchanged.  An unknown name, an empty or wrong password
    and a deactivated account give the same answer, 401.  A [ValueError] of the password check is
    not caught, so that the answer is 500.  In every other case the answer is the
    session that is issued for the user, with the admin flag. *)
Theorem login_spec now username password s :
  login checkpw config session now username password s
  = (s, match user_named username (rl_accounts s) with
        | None => inl (HTTPException 401)
        | Some u =>
            if decide (password = []) then inl (HTTPException 401)
            else match bcrypt_says password u with
                 | None => inl (RxAccount AccValueError)
                 | Some ok =>
                     if ok && u_is_active u then
                       match issue session now (u_id u) (u_username u) with
                       | inl e => inl (RxSession e)
                       | inr token => inr (token, is_admin_username (u_username u) config)
                       end
                     else inl (HTTPException 401)
                 end
        end).
Proof.
  unfold login, credentials, acc, get_user_by_username, lift_res, raise, bcrypt_says, verify_password.
  unfold mbind, M_bind, mret, M_ret, option_bind; cbv beta iota.
  destruct s as [db r]; cbn [rl_accounts rl_registry].
  destruct (user_named username db) as [u|]; [|done]. cbn [rl_accounts rl_registry].
  case_bool_decide as Hp; [by rewrite decide_True|]. rewrite (decide_False (P := password = [])) by done.
  case_bool_decide as Hh; [by rewrite decide_True|]. rewrite (decide_False (P := u_password_hash u = [])) by done.
  destruct (utf8_encode password) as [bs|]; [|done]. destruct (checkpw bs (u_password_hash u)) as [ok|]; [|done].
  destruct ok, (u_is_active u); cbn [negb orb andb]; try done.
  by destruct (issue session now (u_id u) (u_username u)).
Qed.

(** The answer tells whether a name exists: bcrypt refuses a password over 72 bytes, which is noticed
    only for a user that exists. *)
Theorem long_password_reveals_user now username password bs s :
  (∀ pw h, (72 < length pw)%nat → checkpw pw h = None) →
  utf8_encode password = Some bs → (72 < length bs)%nat →
  (login checkpw config session now username password s).2
  = inl (match user_named username (rl_accounts s) with
         | None => HTTPException 401
         | Some _ => RxAccount AccValueError
         end).
Proof.
  intros Hlong Hbs Hlen. unfold login, credentials, acc, get_user_by_username, lift_res, raise, verify_password.
  unfold mbind, M_bind, mret, M_ret; cbv beta iota. destruct (user_named username (rl_accounts s)) as [u|]; [|done].
  rewrite bool_decide_eq_false_2 by (intros ->; injection Hbs as <-; simpl in Hlen; lia).
  case_bool_decide; [done|]. by rewrite Hbs, Hlong.
Qed.

(** ** Administrators *)

(** bcrypt accepts the password a hash was made from, and hashes are not empty. *)
Hypothesis bcrypt_checks : ∀ pw salt, (length pw ≤ 72)%nat → checkpw pw (hashpw pw salt) = Some true.
Hypothesis bcrypt_not_empty : ∀ pw salt, hashpw pw salt ≠ [].

Lemma signup_new salt now name password email bs s :
  db_ok (rl_accounts s) → strip name = name → name ≠ [] → user_named name (rl_accounts s) = None →
  password ≠ [] → utf8_encode password = Some bs → Z.of_nat (length bs) ≤ 72 →
  let s' := (signup hashpw salt now name password email s).1 in
  (signup hashpw salt now name password email s).2 = inr (users_seq (rl_accounts s) + 1, name) ∧
  rl_registry s' = rl_registry s ∧
  (∀ i u, users (rl_accounts s) !! i = Some u → users (rl_accounts s') !! i = Some u) ∧
  ∃ u, user_named name (rl_accounts s') = Some u ∧ u_id u = users_seq (rl_accounts s) + 1 ∧
       u_username u = name ∧ u_password_hash u = hashpw bs salt ∧ u_is_active u = true.
Proof.
  intros Hok Hst Hn Hno Hpw Hbs Hlen. destruct s as [db r]; cbn [rl_accounts rl_registry] in *.
  assert (hash_password hashpw salt password = inr (hashpw bs salt)) as Hh.
  { unfold hash_password. rewrite bool_decide_eq_false_2, Hbs by done. unfold _BCRYPT_MAX_BYTES.
    by destruct (Z.ltb_spec 72 (Z.of_nat (length bs))); [lia|]. }
  assert (_username_exists name db = false) as Hne.
  { unfold _username_exists. rewrite Hno. by apply bool_decide_eq_false_2; intros []. }
  assert (create_user now name (hashpw bs salt) email db
          = let '(db', u) := insert_user name email (hashpw bs salt) now db in (db', inr u)) as Hc.
  { unfold create_user. rewrite Hst, !bool_decide_eq_false_2 by done. by rewrite Hne. }
  pose proof (create_user_spec now name (hashpw bs salt) email db Hok) as Hspec.
  rewrite Hc in Hspec. unfold insert_user in Hspec.
  destruct Hspec as (_ & _ & _ & _ & Hfree & _ & _ & _ & _ & Hget).
  unfold get_user_by_username in Hget. rewrite Hst in Hget.
  unfold signup, acc. unfold mbind, M_bind, lift_res, mret, M_ret; cbv beta iota.
  rewrite Hh. cbn [rl_accounts]. rewrite Hc. unfold insert_user. cbn.
  split; [done|]. split; [done|]. split.
  - intros i u Hu. rewrite lookup_insert_ne; [done|]. intros <-. cbn in Hfree. congruence.
  - destruct (user_named name (set_users _ _ db)) as [u|]; [|done].
    exists u. by simplify_eq.
Qed.

(** Anybody becomes an administrator.  User names are told apart by case, admin names
    are not: whoever signs up with a name that differs from an administrator's only
    in its letters' case is logged in as an administrator and passes [require_admin]
    for the life of the session, whether or not the administrator has an account. *)
Theorem admin_by_case salt t_signup t_login now name password email bs s :
  db_ok (rl_accounts s) → strip name = name → name ≠ [] → scalars name = true →
  str_lower name ∈ rc_admin_users config → user_named name (rl_accounts s) = None →
  password ≠ [] → utf8_encode password = Some bs → Z.of_nat (length bs) ≤ 72 →
  wf_json (JInt (users_seq (rl_accounts s) + 1)) = true →
  0 ≤ token_age t_login now ≤ SESSION_MAX_AGE_SECONDS →
  let s' := (signup hashpw salt t_signup name password email s).1 in
  (signup hashpw salt t_signup name password email s).2 = inr (users_seq (rl_accounts s) + 1, name) ∧
  ∃ token, login checkpw config session t_login name password s' = (s', inr (token, true)) ∧
    require_admin config session now (Some token)
    = inr {| si_user_id := users_seq (rl_accounts s) + 1; si_username := name |}.
Proof.
  intros Hok Hst Hn Hsc Hadm Hno Hpw Hbs Hlen Hseq Hage. cbv zeta.
  destruct (signup_new salt t_signup name password email bs s Hok Hst Hn Hno Hpw Hbs Hlen)
    as (Hr & Hreg & _ & u & Hu & Hid & Hname & Hhash & Hact).
  split; [done|]. set (s' := (signup hashpw salt t_signup name password email s).1) in *.
  assert (is_admin_username name config = true) as Ha.
  { unfold is_admin_username. rewrite Hst. by apply bool_decide_eq_true_2. }
  destruct (issued_identity t_login now (u_id u) name Hn Hsc ltac:(by rewrite Hid) Hage) as (token & Hi & Hg).
  exists token. split.
  - unfold login, credentials, acc, get_user_by_username, lift_res, raise.
    unfold mbind, M_bind, mret, M_ret; cbv beta iota. rewrite Hu.
    unfold verify_password. rewrite Hhash, !bool_decide_eq_false_2, Hbs by done.
    rewrite bcrypt_checks, Hact by lia. cbn [negb orb]. rewrite Hname, Hi. cbn [of_session]. rewrite Ha.
    by destruct s'.
  - unfold require_admin. rewrite Hg. cbn [mbind sum_bind si_username]. by rewrite Ha, Hid.
Qed.

(** ** Deactivation *)

Lemma deactivated_named id u db :
  db_ok db → users db !! id = Some u →
  user_named (u_username u) (set_user_active id false db).1 = Some (set_active false u).
Proof.
  intros Hok Hu. pose proof (set_user_active_ok id false db Hok) as Hok'.
  unfold set_user_active in Hok' |- *. rewrite Hu in Hok' |- *. cbn [fst] in *.
  apply (user_named_unique _ id (set_active false u) Hok'). apply lookup_insert_eq.
Qed.

(** Deactivating an account stops the password login only.  After [set_user_active]
    the user cannot log in with any password, but a session issued before is accepted
    until it expires, and single sign-on issues a new one. *)
Theorem deactivation_ignored id u s t now token next csrf raw_state code claims_of claims sub linked isalnum seed :
  db_ok (rl_accounts s) → users (rl_accounts s) !! id = Some u →
  wf_json (JInt id) = true → scalars (u_username u) = true →
  issue session t id (u_username u) = inr token → 0 ≤ token_age t now ≤ SESSION_MAX_AGE_SECONDS →
  external_identities (rl_accounts s) !! (PROVIDER, sub) = Some (id, linked) → sub ≠ [] →
  rc_oidc_group_prefix config = [] →
  verify_oauth_state session now raw_state = inr (next, csrf) → raw_state ≠ [] →
  csrf ≠ [] → forallb is_ascii csrf = true →
  code ≠ [] → claims_of code = Some claims → dict_get (py "sub") claims = Some (JStr sub) →
  let s' := with_accounts s (set_user_active id false (rl_accounts s)).1 in
  (∀ password, ∃ e, login checkpw config session now (u_username u) password s' = (s', inl e)) ∧
  get_current_identity session now (Some token) = inr {| si_user_id := id; si_username := u_username u |} ∧
  ∃ token', oidc_callback hashpw config session isalnum seed now None (Some code) (Some raw_state) (Some csrf)
              claims_of s' = (s', inr (SessionRedirect next token')) ∧
    get_current_identity session now (Some token') = inr {| si_user_id := id; si_username := u_username u |}.
Proof.
  intros Hok Hu Hwf Hsc Hiss Hage Hext Hsub Hpre Hst Hrs Hcs Hasc Hcode Hcl Hclaim. cbv zeta.
  destruct (ok_user_key _ Hok _ _ Hu) as (Hid & _ & Hname & _).
  pose proof (deactivated_named id u _ Hok Hu) as Hnamed.
  set (db' := (set_user_active id false (rl_accounts s)).1) in *.
  set (s' := with_accounts s db').
  destruct (issued_identity t now id (u_username u) Hname Hsc Hwf Hage) as (tok & Hi & Hg).
  rewrite Hiss in Hi. injection Hi as <-.
  destruct (issued_identity now now id (u_username u) Hname Hsc Hwf) as (tok' & Hi' & Hg').
  { unfold token_age. rewrite Z.sub_diag. by vm_compute. }
  split; [|split; [done|]].
  - intros password. unfold login, credentials, acc, get_user_by_username, lift_res, raise.
    unfold mbind, M_bind, mret, M_ret; cbv beta iota. cbn [s' with_accounts rl_accounts rl_registry].
    rewrite Hnamed. destruct (verify_password checkpw password (u_password_hash (set_active false u)))
      as [e|ok]; [by destruct e; eexists|]. cbn [set_active u_is_active negb]. rewrite orb_true_r. by eexists.
  - exists tok'. split; [|done]. unfold oidc_callback.
    rewrite (bool_decide_eq_false_2 (code = [])), (bool_decide_eq_false_2 (raw_state = [])), Hst by done.
    rewrite (bool_decide_eq_false_2 (csrf = [])) by done.
    unfold compare_digest. rewrite Hasc, bool_decide_eq_true_2 by done. cbn [andb].
    rewrite Hcl, Hclaim, bool_decide_eq_false_2, Hpre, bool_decide_eq_true_2 by done.
    unfold _resolve_or_create, try_except, acc, get_user_by_external_id.
    unfold mbind, M_bind, mret, M_ret, lift_res; cbv beta iota. cbn [s' with_accounts rl_accounts rl_registry].
    assert (external_identities db' = external_identities (rl_accounts s)) as ->.
    { unfold db', set_user_active. by rewrite Hu. }
    assert (users db' !! id = Some (set_active false u)) as Hu'.
    { unfold db', set_user_active. rewrite Hu. cbn. apply lookup_insert_eq. }
    rewrite Hext. cbn [option_bind fst]. rewrite Hu'. cbn [set_active u_id u_username].
    by rewrite Hid, Hi'.
Qed.

(** ** Single sign-on *)

Section sso.
Context (isalnum : Z → bool).

Lemma create_external_new seed now sub name email db :
  db_ok db → external_identities db !! (PROVIDER, sub) = None →
  match create_external_user hashpw (seed : bytes * pystr).1 seed.2 now PROVIDER sub name email db with
  | (db', inr u) =>
      users db !! u_id u = None ∧ users db' = <[u_id u := u]> (users db) ∧
      external_identities db' = <[(PROVIDER, sub) := (u_id u, now)]> (external_identities db) ∧
      groups db' = groups db ∧ memberships db' = memberships db ∧
      (∀ i v, users db !! i = Some v → u_username v ≠ u_username u)
  | (db', inl _) => db' = db
  end.
Proof.
  intros Hok Hext. unfold create_external_user. case_bool_decide; [done|].
  destruct (bool_decide (PROVIDER = []) || bool_decide (sub = [])); [done|].
  destruct (_username_exists (strip name) db) eqn:E; [done|].
  destruct (hash_password hashpw seed.1 seed.2) as [e|h]; [done|]. unfold insert_user.
  rewrite Hext. cbn. split_and!; try done.
  - destruct (users db !! (users_seq db + 1)) as [v|] eqn:Ev; [|done].
    apply (ok_user_key _ Hok) in Ev as (_ & ? & _). lia.
  - by apply username_exists_false.
Qed.

(** The account after the search for a free name. *)
Lemma allocate_spec fuel seed now sub base email i s :
  db_ok (rl_accounts s) → external_identities (rl_accounts s) !! (PROVIDER, sub) = None →
  match allocate hashpw fuel seed now sub base email i s with
  | (s', inr u) =>
      rl_registry s' = rl_registry s ∧
      users (rl_accounts s) !! u_id u = None ∧
      users (rl_accounts s') = <[u_id u := u]> (users (rl_accounts s)) ∧
      external_identities (rl_accounts s')
      = <[(PROVIDER, sub) := (u_id u, now)]> (external_identities (rl_accounts s)) ∧
      groups (rl_accounts s') = groups (rl_accounts s) ∧
      memberships (rl_accounts s') = memberships (rl_accounts s) ∧
      (∀ j v, users (rl_accounts s) !! j = Some v → u_username v ≠ u_username u)
  | (s', inl _) => s' = s
  end.
Proof.
  intros Hok Hext. revert i. induction fuel as [|fuel IH]; intros i; [done|]. cbn [allocate].
  unfold try_except at 1, acc at 1.
  pose proof (create_external_new (seed i) now sub (candidate base i) email _ Hok Hext) as Hc.
  destruct (create_external_user hashpw (seed i).1 (seed i).2 now PROVIDER sub (candidate base i) email
              (rl_accounts s)) as [db' [e|u]]; [|by split].
  subst db'. destruct e; try (destruct s; done). unfold try_except, acc, get_user_by_external_id.
  cbn [rl_accounts]. rewrite Hext. cbn [mbind option_bind]. destruct s. apply IH.
Qed.

(** C15: Single sign-on never takes over an account.  For a subject that is linked the
    linked account is returned and nothing changes; otherwise a new account with a new
    id and an unused name is created and linked, and no other account, group or
    membership is touched; a failure changes nothing. *)
Theorem sso_never_merges seed now sub claims s :
  db_ok (rl_accounts s) →
  match _resolve_or_create hashpw isalnum seed now sub claims s with
  | (s', inr u) =>
      match external_identities (rl_accounts s) !! (PROVIDER, sub) with
      | Some (i, _) => s' = s ∧ users (rl_accounts s) !! i = Some u
      | None =>
          rl_registry s' = rl_registry s ∧
          users (rl_accounts s) !! u_id u = None ∧
          users (rl_accounts s') = <[u_id u := u]> (users (rl_accounts s)) ∧
          external_identities (rl_accounts s')
          = <[(PROVIDER, sub) := (u_id u, now)]> (external_identities (rl_accounts s)) ∧
          groups (rl_accounts s') = groups (rl_accounts s) ∧
          memberships (rl_accounts s') = memberships (rl_accounts s) ∧
          (∀ j v, users (rl_accounts s) !! j = Some v → u_username v ≠ u_username u)
      end
  | (s', inl _) => s' = s
  end.
Proof.
  intros Hok. unfold _resolve_or_create, try_except at 1, acc at 1, get_user_by_external_id.
  destruct (external_identities (rl_accounts s) !! (PROVIDER, sub)) as [[i t]|] eqn:Ee; cbn [mbind option_bind fst].
  - destruct (ok_external _ Hok _ _ _ Ee) as [u Hu]. rewrite Hu. by destruct s.
  - pose proof (allocate_spec 50 seed now sub (_derive_username isalnum claims) (claimed_email claims) 0 s Hok Ee) as H.
    by destruct s.
Qed.

End sso.

End relay.

(** ** Groups from the identity provider *)

Lemma add_user_member g uid db :
  is_Some (groups db !! g) → is_Some (users db !! uid) →
  try_except (add_member g USER uid) (λ e, match e with DuplicateMembershipError => mret tt | _ => raise e end) db
  = (set_memberships ({[(g, USER, uid)]} ∪ memberships db) db, inr tt).
Proof.
  intros Hg Hu. unfold try_except, add_member, mbind, M_bind.
  pose proof (check_member_spec g USER uid db) as [H1 H2].
  destruct (check_member g USER uid db) as [db' [e|[]]]; cbn [fst snd] in *; subst db'.
  - destruct H2 as [(_ & [E|[E _]])|[(_ & _ & E)|(_ & E & _)]]; try done.
    + rewrite E in Hg. by destruct Hg.
    + rewrite E in Hu. by destruct Hu.
  - unfold insert_member, _membership_exists. case_bool_decide as Hin; [|done].
    unfold mret, M_ret. f_equal. replace ({[(g, USER, uid)]} ∪ memberships db) with (memberships db) by set_solver.
    by destruct db.
Qed.

Lemma add_user_member_ok g uid db :
  db_ok db → is_Some (groups db !! g) → is_Some (users db !! uid) →
  db_ok (set_memberships ({[(g, USER, uid)]} ∪ memberships db) db).
Proof.
  intros Hok Hg Hu. pose proof (add_user_member g uid db Hg Hu) as Ha.
  pose proof (add_member_ok g USER uid db Hok) as Hok'. unfold try_except in Ha.
  destruct (add_member g USER uid db) as [db1 [e|x]]; cbn [fst] in Hok'; [|by simplify_eq].
  destruct e; unfold raise, mret, M_ret in Ha; by simplify_eq.
Qed.

(** One wanted group: it exists afterwards and has the user as a member. *)
Lemma ensure_group_spec now uid name db :
  db_ok db → is_Some (users db !! uid) → strip name = name → name ≠ [] →
  ∃ db' g grp, ensure_group now uid name db = (db', inr ()) ∧ db_ok db' ∧ users db' = users db ∧
    groups db' !! g = Some grp ∧ g_name grp = name ∧
    memberships db' = {[(g, USER, uid)]} ∪ memberships db ∧ groups db ⊆ groups db'.
Proof.
  intros Hok Hu Hst Hn. unfold ensure_group, mbind at 1, M_bind at 1, try_except at 1, get_group_by_name at 1.
  destruct (group_named name db) as [grp|] eqn:Eg.
  - apply group_named_Some in Eg as (g & Hg & Hname).
    destruct (ok_group_key _ Hok _ _ Hg) as (Hid & _). rewrite Hid.
    rewrite add_user_member by (done || by rewrite Hg). eexists _, g, grp. split; [done|].
    split_and!; try done. apply add_user_member_ok; [done|by rewrite Hg|done].
  - assert (_group_name_exists name db = false) as Hne.
    { unfold _group_name_exists. rewrite Eg. by apply bool_decide_eq_false_2; intros []. }
    pose proof (create_group_ok now name db Hok) as Hok1.
    unfold try_except at 1, create_group. rewrite Hst, bool_decide_eq_false_2, Hne by done.
    unfold create_group in Hok1. rewrite Hst, bool_decide_eq_false_2, Hne in Hok1 by done. cbn [fst] in Hok1.
    cbn [g_id]. set (g := groups_seq db + 1) in *. set (grp := {| g_id := g; g_name := name; g_created_at := now |}) in *.
    set (db1 := set_groups (<[g := grp]> (groups db)) g db) in *.
    assert (groups db1 !! g = Some grp) as Hg by apply lookup_insert_eq.
    rewrite (add_user_member g uid db1) by (done || by rewrite Hg).
    eexists _, g, grp. split; [done|]. split_and!; try done.
    + apply add_user_member_ok; [done|by rewrite Hg|done].
    + cbn. apply insert_subseteq. destruct (groups db !! g) as [h|] eqn:Eh; [|done].
      apply (ok_group_key _ Hok) in Eh as (_ & ? & _). unfold g in *. lia.
Qed.

(** The names that are wanted, and what they give the user. *)
Definition granted db (uid : Z) (names : list pystr) (e : Z * SubjectType * Z) : Prop :=
  ∃ g grp, e = (g, USER, uid) ∧ groups db !! g = Some grp ∧ g_name grp ∈ names.

Lemma granted_weaken db db' uid names names' e :
  groups db ⊆ groups db' → (∀ n, n ∈ names → n ∈ names') → granted db uid names e → granted db' uid names' e.
Proof.
  intros Hs Hn (g & grp & -> & Hg & Hin). exists g, grp. split_and!; [done|by eapply lookup_weaken|by apply Hn].
Qed.

Lemma ensure_all_spec now uid names db :
  db_ok db → is_Some (users db !! uid) → Forall (λ n, strip n = n ∧ n ≠ []) names →
  ∃ db', for_each (ensure_group now uid) names db = (db', inr ()) ∧ db_ok db' ∧ users db' = users db ∧
    groups db ⊆ groups db' ∧
    (∀ n, n ∈ names → ∃ g grp, groups db' !! g = Some grp ∧ g_name grp = n) ∧
    (∀ e, e ∈ memberships db' ↔ e ∈ memberships db ∨ granted db' uid names e).
Proof.
  intros Hok Hu Hf. revert db Hok Hu. induction Hf as [|n names [Hst Hn] Hf IH]; intros db Hok Hu.
  { exists db. split_and!; try done; [set_solver|]. intros e. split; [by left|].
    intros [?|(g & grp & _ & _ & Hx)]; [done|set_solver]. }
  cbn [for_each]. unfold mbind, M_bind.
  destruct (ensure_group_spec now uid n db Hok Hu Hst Hn) as (db1 & g & grp & -> & Hok1 & Hu1 & Hg & Hname & Hm & Hs).
  destruct (IH db1 Hok1 ltac:(by rewrite Hu1)) as (db' & Hf' & Hok' & Hu' & Hs' & Hex & Hmem).
  exists db'. split_and!; [done|done|by rewrite Hu'|by etrans| |].
  - intros m [->|Hin]%elem_of_cons; [|by apply Hex]. exists g, grp. split; [by eapply lookup_weaken|done].
  - intros e. rewrite Hmem, Hm, elem_of_union, elem_of_singleton. split.
    + intros [[->|He]|Hgr].
      * right. exists g, grp. split_and!; [done|by eapply lookup_weaken|rewrite Hname; by left].
      * by left.
      * right. apply (granted_weaken db' db' uid names); [done|set_solver|done].
    + intros [He|(g' & grp' & -> & Hg' & Hin)]; [by left; right|].
      apply elem_of_cons in Hin as [Hn'|Hin]; [|right; by exists g', grp'].
      left; left. rewrite (ok_group_name _ Hok' g' g grp' grp); [done|done|by eapply lookup_weaken|congruence].
Qed.

(** The memberships that are taken away. *)
Definition revoked db (uid : Z) (prefix : pystr) (desired : list pystr) (gids : list Z)
    (e : Z * SubjectType * Z) : Prop :=
  ∃ g grp, e = (g, USER, uid) ∧ g ∈ gids ∧ groups db !! g = Some grp ∧
    startswith (g_name grp) prefix = true ∧ g_name grp ∉ desired.

Lemma revoke_group_spec uid prefix desired g db :
  db_ok db → is_Some (groups db !! g) →
  ∃ m, revoke_group uid prefix desired g db = (set_memberships m db, inr ()) ∧
    db_ok (set_memberships m db) ∧
    ∀ e, e ∈ m ↔ e ∈ memberships db ∧ ¬ revoked db uid prefix desired [g] e.
Proof.
  intros Hok [grp Hg]. unfold revoke_group, get_group_by_id, mbind, M_bind. rewrite Hg.
  destruct (startswith (g_name grp) prefix && negb (bool_decide (g_name grp ∈ desired))) eqn:Eb.
  - apply andb_true_iff in Eb as [E1 E2]. apply negb_true_iff, bool_decide_eq_false in E2.
    exists (memberships db ∖ {[(g, USER, uid)]}). split_and!.
    + unfold try_except, remove_member, _membership_exists. case_bool_decide as Hin; [done|].
      unfold mret, M_ret. f_equal. replace (memberships db ∖ _) with (memberships db) by set_solver. by destruct db.
    + apply members_subset_ok; [done|]. set_solver.
    + intros e. rewrite elem_of_difference, elem_of_singleton. split.
      * intros [He Hne]. split; [done|]. intros (g' & grp' & -> & Hin & _). set_solver.
      * intros [He Hne]. split; [done|]. intros ->. apply Hne. exists g, grp. set_solver.
  - exists (memberships db). split_and!; [by destruct db|by destruct db|]. intros e. split; [|by intros [? _]].
    intros He. split; [done|]. intros (g' & grp' & -> & Hin & Hg' & H1 & H2).
    apply list_elem_of_singleton in Hin as ->. rewrite Hg in Hg'. injection Hg' as <-.
    rewrite H1, bool_decide_eq_false_2 in Eb by done. done.
Qed.

Lemma revoke_all_spec uid prefix desired gids db :
  db_ok db → Forall (λ g, is_Some (groups db !! g)) gids →
  ∃ m, for_each (revoke_group uid prefix desired) gids db = (set_memberships m db, inr ()) ∧
    db_ok (set_memberships m db) ∧
    ∀ e, e ∈ m ↔ e ∈ memberships db ∧ ¬ revoked db uid prefix desired gids e.
Proof.
  intros Hok Hf. revert db Hok Hf. induction gids as [|g gids IH]; intros db Hok Hf.
  { exists (memberships db). split_and!; [by destruct db|by destruct db|]. intros e. split; [|by intros [? _]].
    intros He. split; [done|]. intros (g' & grp' & _ & Hin & _). set_solver. }
  apply Forall_cons in Hf as [Hg Hf]. cbn [for_each]. unfold mbind, M_bind.
  destruct (revoke_group_spec uid prefix desired g db Hok Hg) as (m1 & -> & Hok1 & Hm1).
  destruct (IH (set_memberships m1 db) Hok1 Hf) as (m & Hr & Hok2 & Hm). exists m. rewrite Hr.
  split_and!; [by destruct db|by destruct db|]. intros e. rewrite Hm. cbn [set_memberships memberships]. rewrite Hm1.
  unfold revoked. cbn [set_memberships groups]. set_solver.
Qed.

(** After a login the user's direct memberships in the groups of the prefix are
    exactly those of the claim: every claimed group exists and has the user, every
    other group with the prefix does not; memberships of other users, of groups in
    groups, and in groups without the prefix are as before, no user is touched and no
    group is lost.  (For claims without white space around them.) *)
Theorem sync_groups_spec now uid claims prefix db :
  db_ok db → is_Some (users db !! uid) → prefix ≠ [] →
  Forall (λ n, strip n = n) (desired_groups claims prefix) →
  let desired := desired_groups claims prefix in
  ∃ db', _sync_groups now uid claims prefix db = (db', inr ()) ∧ db_ok db' ∧
    users db' = users db ∧ groups db ⊆ groups db' ∧
    (∀ n, n ∈ desired → ∃ g grp, groups db' !! g = Some grp ∧ g_name grp = n) ∧
    (∀ g grp, groups db' !! g = Some grp → startswith (g_name grp) prefix = true →
       ((g, USER, uid) ∈ memberships db' ↔ g_name grp ∈ desired)) ∧
    (∀ g t m, ((t, m) ≠ (USER, uid) ∨ ∀ grp, groups db' !! g = Some grp → startswith (g_name grp) prefix = false) →
       ((g, t, m) ∈ memberships db' ↔ (g, t, m) ∈ memberships db)).
Proof.
  intros Hok Hu Hpre Hst. cbv zeta. unfold _sync_groups, sync_names, mbind, M_bind.
  set (desired := desired_groups claims prefix) in *.
  assert (∀ n, n ∈ desired → startswith n prefix = true) as Hpfx.
  { intros n. unfold desired, desired_groups. destruct (dict_get (py "groups") claims) as [[]|]; try set_solver.
    rewrite elem_of_remove_dups, list_elem_of_omap. intros ([] & _ & E); try done.
    destruct (startswith s prefix) eqn:Es; by simplify_eq. }
  assert (Forall (λ n, strip n = n ∧ n ≠ []) desired) as Hf.
  { rewrite Forall_forall in Hst |- *. intros n Hn. split; [by apply Hst|]. intros ->.
    apply Hpfx in Hn. by destruct prefix. }
  destruct (ensure_all_spec now uid desired db Hok Hu Hf) as (db1 & -> & Hok1 & Hu1 & Hs1 & Hex & Hm1).
  unfold list_parent_group_ids.
  destruct (revoke_all_spec uid prefix desired (parents USER uid db1) db1 Hok1) as (m & -> & Hok2 & Hm).
  { apply Forall_forall. intros g Hg%elem_parents. by apply (ok_member _ Hok1) in Hg as [? _]. }
  eexists. split; [done|]. split; [done|]. cbn [set_memberships users groups memberships].
  split_and!; [done|done|done| |].
  - intros g grp Hg Hp. rewrite Hm, Hm1. split.
    + intros [Hin Hnr]. destruct (decide (g_name grp ∈ desired)) as [|Hnd]; [done|]. destruct Hnr.
      exists g, grp. split_and!; try done. apply elem_parents. by apply Hm1.
    + intros Hd. split; [right; by exists g, grp|]. intros (g' & grp' & [= <-] & _ & Hg' & _ & Hn).
      rewrite Hg in Hg'. by injection Hg' as <-.
  - intros g t m' Hor. rewrite Hm, Hm1. split.
    + intros [[?|(g' & grp & [= -> -> ->] & Hg & Hd)] _]; [done|]. destruct Hor as [|Hor]; [done|].
      apply Hor in Hg. by rewrite (Hpfx _ Hd) in Hg.
    + intros Hin. split; [by left|]. intros (g' & grp & [= -> -> ->] & _ & Hg & Hp & _).
      destruct Hor as [|Hor]; [done|]. apply Hor in Hg. congruence.
Qed.

(** A group claim with white space around it locks the user out: the group is created
    under the trimmed name, and from the second login on neither found nor created. *)
Theorem sso_group_lockout now uid name db :
  db_ok db → strip name ≠ name → is_Some (group_named (strip name) db) →
  ensure_group now uid name db = (db, inl GroupNotFoundError).
Proof.
  intros Hok Hne Hex. unfold ensure_group, mbind, M_bind, try_except at 1, get_group_by_name at 1.
  assert (group_named name db = None) as Hno.
  { destruct (group_named name db) as [g|] eqn:E; [|done]. apply group_named_Some in E as (i & Hi & <-).
    by apply (ok_group_key _ Hok) in Hi as (_ & _ & _ & ?). }
  rewrite Hno. unfold try_except, create_group. case_bool_decide as Hb.
  - exfalso. destruct Hex as [g Hg]. apply group_named_Some in Hg as (i & Hi & Hn).
    apply (ok_group_key _ Hok) in Hi as (_ & _ & Hx & _). congruence.
  - unfold _group_name_exists. rewrite bool_decide_eq_true_2 by done. unfold get_group_by_name. by rewrite Hno.
Qed.

(** The target of the redirect is a path of this site, in the sense of the two slashes;
    a backslash, which browsers read as a slash, is let through. *)
Theorem safe_next_spec raw :
  startswith (_safe_next raw) [slash] = true ∧ startswith (_safe_next raw) [slash; slash] = false ∧
  _safe_next (Some (slash :: backslash :: py "evil.example")) = slash :: backslash :: py "evil.example".
Proof.
  split_and!; [| |done]; unfold _safe_next; destruct raw as [r|]; try done;
    destruct (negb (bool_decide (r = []))), (startswith r [slash]) eqn:E1,
      (startswith r [slash; slash]) eqn:E2; done.
Qed.

(** Only the owner of the mount or an administrator answers an access request; an
    approval grants the requester the role, READ by default, and nothing else. *)
Theorem resolve_request_spec `{T : TimedSerializer} `{P : PyConv} config session now cookie rid action role s i :
  get_current_identity session now cookie = inr i →
  let r := rl_registry s in
  match access_requests r !! rid with
  | None => resolve_request config session now cookie rid action role s = (s, inl (RxRegistry AccessRequestNotFoundError))
  | Some q =>
      match mounts r !! ar_code q with
      | None => resolve_request config session now cookie rid action role s = (s, inl (RxRegistry MountNotFoundError))
      | Some row =>
          if bool_decide (m_owner_user_id row = Some (si_user_id i)) || is_admin_username (si_username i) config then
            let '(s', res) := resolve_request config session now cookie rid action role s in
            let status := match action with APPROVE => APPROVED | DENY => DENIED end in
            res = inr status ∧ rl_accounts s' = rl_accounts s ∧ mounts (rl_registry s') = mounts r ∧
            access_requests (rl_registry s') = <[rid := with_request_status status q]> (access_requests r) ∧
            mount_policy (rl_registry s')
            = match action with
              | APPROVE => <[(ar_code q, USER, ar_user_id q) := default READ role]> (mount_policy r)
              | DENY => mount_policy r
              end
          else resolve_request config session now cookie rid action role s = (s, inl (HTTPException 403))
      end
  end.
Proof.
  intros Hi. destruct s as [db r]. cbv zeta. cbn [rl_registry].
  unfold resolve_request, reg, lift_res, get_access_request, get_policy.
  unfold mbind, M_bind, mret, M_ret, raise; cbv beta iota. rewrite Hi. cbn [rl_registry rl_accounts].
  destruct (access_requests r !! rid) as [q|] eqn:Eq; [|done]. cbn [rl_registry rl_accounts].
  destruct (mounts r !! ar_code q) as [row|] eqn:Em; [|done]. cbn [rl_registry rl_accounts mp_owner_user_id].
  destruct (bool_decide (m_owner_user_id row = Some (si_user_id i)) || is_admin_username (si_username i) config);
    cbn [negb]; [|done].
  destruct action; unfold add_policy_entry, resolve_access_request; cbn [rl_registry rl_accounts];
    rewrite ?Em; cbn [rl_registry rl_accounts set_mount_policy access_requests]; rewrite Eq; done.
Qed.

(** ** Witnesses *)

(** A stand-in for bcrypt. *)
Definition toy_hash (pw salt : bytes) : bytes := Byte.x00 :: pw.
Definition toy_check (pw h : bytes) : option bool :=
  if (72 <? length pw)%nat then None else Some (bool_decide (h = Byte.x00 :: pw)).

Lemma toy_checks pw salt : (length pw ≤ 72)%nat → toy_check pw (toy_hash pw salt) = Some true.
Proof.
  intros Hl. unfold toy_check. destruct (Nat.ltb_spec 72 (length pw)); [lia|]. by rewrite bool_decide_eq_true_2.
Qed.

Definition root_config : RelayConfig := {| rc_admin_users := [py "root"]; rc_oidc_group_prefix := [] |}.
Definition demo_session : RelaySession := {| rs_secret_key := py "k" |}.
Definition empty_relay : relay_state := {| rl_accounts := empty_db; rl_registry := empty_registry |}.

(** [ROOT] signs up and is an administrator a minute later. *)
Lemma admin_by_case_witness :
  let s' := (signup toy_hash [] 0 (py "ROOT") (py "pw") None empty_relay).1 in
  ∃ token, login (H := plain_serializer) (H0 := no_conv) toy_check root_config demo_session 0 (py "ROOT") (py "pw") s'
           = (s', inr (token, true)) ∧
    require_admin (H := plain_serializer) (H0 := no_conv) root_config demo_session (seconds 60) (Some token)
    = inr {| si_user_id := 1; si_username := py "ROOT" |}.
Proof.
  apply (admin_by_case (T := plain_serializer) (P := no_conv) (TimedSerializerLaws0 := plain_laws)
    toy_hash toy_check root_config demo_session toy_checks ltac:(done)
    [] 0 0 (seconds 60) (py "ROOT") (py "pw") None [Byte.x70; Byte.x77] empty_relay empty_db_ok);
    try by vm_compute.
  apply (bool_decide_unpack _). by vm_compute.
Defined.

Definition ann : User :=
  {| u_id := 1; u_username := py "ann"; u_email := None; u_password_hash := Byte.x00 :: [Byte.x70];
     u_created_at := 0; u_is_active := true |}.

(** ann, who came through single sign-on. *)
Definition ann_relay : relay_state :=
  {| rl_accounts := (create_external_user toy_hash [] (py "p") 0 PROVIDER (py "sub1") (py "ann") None empty_db).1;
     rl_registry := empty_registry |}.

Lemma ann_db_ok : db_ok (rl_accounts ann_relay).
Proof. apply create_external_ok, empty_db_ok. Qed.

Lemma sso_never_merges_witness :
  (_resolve_or_create toy_hash (λ _, true) (λ _, ([], py "x")) 5 (py "sub1") [] ann_relay).1 = ann_relay.
Proof.
  pose proof (sso_never_merges toy_hash (λ _, true) (λ _, ([], py "x")) 5 (py "sub1") [] ann_relay ann_db_ok) as H.
  destruct (_resolve_or_create toy_hash (λ _, true) (λ _, ([], py "x")) 5 (py "sub1") [] ann_relay) as [s' [e|u]].
  - exact H.
  - exact (proj1 H).
Defined.

(** The session ann holds, and the state of her next sign-on. *)
Definition ann_token : pystr :=
  ts_dumps (TimedSerializer := plain_serializer) (py "k") _SESSION_SALT 0
    (JObj [(py "uid", JInt 1); (py "username", JStr (py "ann"))]).
Definition ann_state : pystr :=
  ts_dumps (TimedSerializer := plain_serializer) (py "k") _OIDC_STATE_SALT 0
    (JObj [(py "next", JStr (py "/")); (py "csrf", JStr (py "c"))]).
Definition ann_claims : list (pystr * json) := [(py "sub", JStr (py "sub1"))].

Lemma ann_user : users (rl_accounts ann_relay) !! 1 = Some ann.
Proof. by vm_compute. Qed.

Lemma ann_linked : external_identities (rl_accounts ann_relay) !! (PROVIDER, py "sub1") = Some (1, 0).
Proof. by vm_compute. Qed.

Lemma ann_issued : issue (H := plain_serializer) demo_session 0 1 (u_username ann) = inr ann_token.
Proof. by vm_compute. Qed.

Lemma ann_state_ok :
  verify_oauth_state (H := plain_serializer) (H0 := no_conv) demo_session (seconds 60) ann_state
  = inr (py "/", py "c").
Proof. by vm_compute. Qed.

Lemma deactivation_ignored_witness :
  ∃ token', get_current_identity (H := plain_serializer) (H0 := no_conv) demo_session (seconds 60) (Some token')
            = inr {| si_user_id := 1; si_username := u_username ann |}.
Proof.
  assert (0 ≤ token_age 0 (seconds 60) ≤ SESSION_MAX_AGE_SECONDS) as Hage by by vm_compute.
  assert (py "sub1" ≠ []) as Hsub by done. assert (ann_state ≠ []) as Hstate by by vm_compute.
  assert (py "c" ≠ []) as Hc by done. assert (py "code" ≠ []) as Hcode by done.
  assert (dict_get (py "sub") ann_claims = Some (JStr (py "sub1"))) as Hget by by vm_compute.
  pose proof (deactivation_ignored (T := plain_serializer) (P := no_conv) (TimedSerializerLaws0 := plain_laws)
    toy_hash toy_check root_config demo_session 1 ann ann_relay 0 (seconds 60) ann_token (py "/") (py "c") ann_state
    (py "code") (λ _, Some ann_claims) ann_claims (py "sub1") 0 (λ _, true) (λ _, ([], py "x"))
    ann_db_ok ann_user eq_refl eq_refl ann_issued Hage ann_linked Hsub eq_refl ann_state_ok Hstate Hc eq_refl
    Hcode eq_refl Hget) as H.
  exact (match proj2 (proj2 H) with ex_intro _ t Ht => ex_intro _ t (proj2 Ht) end).
Defined.

Lemma sync_groups_spec_witness :
  let claims := [(py "groups", JArr [JStr (py "app:eng")])] in
  ∃ db', _sync_groups 0 1 claims (py "app:") (rl_accounts ann_relay) = (db', inr ()) ∧
    users db' = users (rl_accounts ann_relay).
Proof.
  destruct (sync_groups_spec 0 1 [(py "groups", JArr [JStr (py "app:eng")])] (py "app:") (rl_accounts ann_relay)
    ann_db_ok) as (db' & H1 & _ & H2 & _).
  - apply (bool_decide_unpack _). by vm_compute.
  - done.
  - apply (bool_decide_unpack _). by vm_compute.
  - by exists db'.
Defined.
