(* ===== verification/Async.v ===== *)
(** Coroutines: [async def] functions that share state.

    A coroutine runs until it awaits something and is then resumed at any later time;
    what it does between two awaits is one step that nothing interrupts.  [co S E A] is
    a coroutine over the shared state [S] that raises an [E] or returns an [A].
    [exec] runs it alone; [pool_step] runs the tasks of an event loop, interleaved with
    changes of the environment.

    [guarantee P G c]: every step that [c] takes in a state with [P] is a [G] step. *)

From S2P Require Import Prelude.

Inductive co (S E A : Type) : Type :=
| Done (r : E + A)
| Await (section : S → S * co S E A).

Global Arguments Done {S E A} r.
Global Arguments Await {S E A} section.

(** Induction on what is left of a coroutine after each step. *)
Fixpoint co_rect' {S E A : Type} (Q : co S E A → Prop) (HD : ∀ r, Q (Done r))
    (HA : ∀ f, (∀ s, Q (f s).2) → Q (Await f)) (c : co S E A) : Q c :=
  match c with
  | Done r => HD r
  | Await f => HA f (λ s, co_rect' Q HD HA (f s).2)
  end.

(** ** Combinators *)

Section combinators.
Context {S E : Type}.

(** One uninterrupted step. *)
Definition atomic {A} (m : M S E A) : co S E A := Await (λ s, let '(s', r) := m s in (s', Done r)).

Fixpoint co_bind {A B} (k : A → co S E B) (c : co S E A) : co S E B :=
  match c with
  | Done (inl e) => Done (inl e)
  | Done (inr a) => k a
  | Await f => Await (λ s, let '(s', c') := f s in (s', co_bind k c'))
  end.

(** [try: c except: h] *)
Fixpoint co_try {A} (c : co S E A) (h : E → co S E A) : co S E A :=
  match c with
  | Done (inl e) => h e
  | Done (inr a) => Done (inr a)
  | Await f => Await (λ s, let '(s', c') := f s in (s', co_try c' h))
  end.

End combinators.

Global Instance co_ret S E : MRet (co S E) := λ A a, Done (inr a).
Global Instance co_mbind S E : MBind (co S E) := λ A B k c, co_bind k c.

(** [try: c finally: d]; an error of [d] replaces that of [c]. *)
Definition co_finally {S E A} (c : co S E A) (d : co S E unit) : co S E A :=
  r ← co_try (a ← c; mret (inr a)) (λ e, mret (inl e)); _ ← d; Done r.

Fixpoint co_for_each {S E A} (f : A → co S E unit) (xs : list A) : co S E unit :=
  match xs with
  | [] => mret tt
  | x :: xs' => _ ← f x; co_for_each f xs'
  end.

(** ** Running *)

Fixpoint exec {S E A} (c : co S E A) (s : S) : S * (E + A) :=
  match c with
  | Done r => (s, r)
  | Await f => let '(s', c') := f s in exec c' s'
  end.

(** The task that drops the answer. *)
Definition task {S E A} (c : co S E A) : co S E unit := _ ← c; mret tt.

(** One step of the task at position [i]; a finished task takes none. *)
Definition resume {S E A} (c : co S E A) (s : S) : S * co S E A :=
  match c with Done r => (s, Done r) | Await f => f s end.

Section pool.
Context {S E : Type} (env : S → S → Prop).

Inductive pool_step : S * list (co S E unit) → S * list (co S E unit) → Prop :=
| step_task s cs i c s' c' :
    cs !! i = Some c → resume c s = (s', c') → pool_step (s, cs) (s', <[i := c']> cs)
| step_env s s' cs : env s s' → pool_step (s, cs) (s', cs).

End pool.

(** The tasks at the given positions, one step each: a schedule for examples. *)
Fixpoint run_schedule {S E} (order : list nat) (s : S) (cs : list (co S E unit)) : S * list (co S E unit) :=
  match order with
  | [] => (s, cs)
  | i :: rest =>
      match cs !! i with
      | None => run_schedule rest s cs
      | Some c => let '(s', c') := resume c s in run_schedule rest s' (<[i := c']> cs)
      end
  end.

(** ** Guarantees *)

Fixpoint guarantee {S E A} (P : S → Prop) (G : S → S → Prop) (c : co S E A) : Prop :=
  match c with
  | Done _ => True
  | Await f => ∀ s, P s → let '(s', c') := f s in G s s' ∧ guarantee P G c'
  end.

Section guarantee_rules.
Context {S E : Type} (P : S → Prop) (G : S → S → Prop).
Implicit Types A B : Type.

Lemma guarantee_done {A} (r : E + A) : guarantee P G (Done r).
Proof. done. Qed.

Lemma guarantee_ret {A} (a : A) : guarantee P G (mret a : co S E A).
Proof. done. Qed.

Lemma guarantee_atomic {A} (m : M S E A) : (∀ s, P s → G s (m s).1) → guarantee P G (atomic m).
Proof. intros Hm s Hs. specialize (Hm s Hs). by destruct (m s). Qed.

Lemma guarantee_await {A} (f : S → S * co S E A) :
  (∀ s, P s → G s (f s).1 ∧ guarantee P G (f s).2) → guarantee P G (Await f).
Proof. intros Hf s Hs. specialize (Hf s Hs). by destruct (f s). Qed.

Lemma guarantee_bind {A B} (c : co S E A) (k : A → co S E B) :
  guarantee P G c → (∀ a, guarantee P G (k a)) → guarantee P G (c ≫= k).
Proof.
  intros Hc Hk. revert Hc. induction c as [[e|a]|f IH] using co_rect'; [done|by intros _; apply Hk|].
  intros Hf s Hs. specialize (Hf s Hs). specialize (IH s). destruct (f s) as [s' c'].
  destruct Hf as [HG Hc']. split; [done|]. by apply IH.
Qed.

Lemma guarantee_try {A} (c : co S E A) (h : E → co S E A) :
  guarantee P G c → (∀ e, guarantee P G (h e)) → guarantee P G (co_try c h).
Proof.
  intros Hc Hh. revert Hc. induction c as [[e|a]|f IH] using co_rect'; [by intros _; apply Hh|done|].
  intros Hf s Hs. specialize (Hf s Hs). specialize (IH s). destruct (f s) as [s' c'].
  destruct Hf as [HG Hc']. split; [done|]. by apply IH.
Qed.

Lemma guarantee_for_each {A} (f : A → co S E unit) (xs : list A) :
  (∀ x, guarantee P G (f x)) → guarantee P G (co_for_each f xs).
Proof. intros Hf. induction xs as [|x xs IH]; [done|]. apply guarantee_bind; [apply Hf|done]. Qed.

End guarantee_rules.

#[export] Hint Resolve guarantee_done guarantee_ret guarantee_bind guarantee_try guarantee_for_each : guarantee.

Section guarantee_finally.
Context {S E : Type} (P : S → Prop) (G : S → S → Prop).

Lemma guarantee_finally {A} (c : co S E A) (d : co S E unit) :
  guarantee P G c → guarantee P G d → guarantee P G (co_finally c d).
Proof. intros Hc Hd. apply guarantee_bind; [|by eauto with guarantee]. by apply guarantee_try; eauto with guarantee. Qed.

Lemma guarantee_task {A} (c : co S E A) : guarantee P G c → guarantee P G (task c).
Proof. intros. by apply guarantee_bind. Qed.

(** A step keeps the guarantee. *)
Lemma guarantee_resume {A} (c : co S E A) s s' c' :
  Reflexive G → P s → guarantee P G c → resume c s = (s', c') → G s s' ∧ guarantee P G c'.
Proof.
  intros HR Hs. destruct c as [r|f]; cbn.
  - intros _ [= <- <-]. by split.
  - intros Hf Heq. specialize (Hf s Hs). by rewrite Heq in Hf.
Qed.

End guarantee_finally.

#[export] Hint Resolve guarantee_finally guarantee_task : guarantee.

(** An invariant that every task and the environment keep holds in every state. *)
Section invariant.
Context {S E : Type} (env : S → S → Prop) (I : S → Prop).

Definition keeps (s s' : S) : Prop := I s → I s'.

Theorem pool_invariant (s s' : S) (cs cs' : list (co S E unit)) :
  (∀ s1 s2, env s1 s2 → I s1 → I s2) → I s → Forall (guarantee I keeps) cs →
  rtc (pool_step env) (s, cs) (s', cs') → I s' ∧ Forall (guarantee I keeps) cs'.
Proof.
  intros Henv HI Hcs Hsteps. remember (s, cs) as p eqn:Hp. remember (s', cs') as p' eqn:Hp'.
  revert s cs HI Hcs Hp. induction Hsteps as [p|p q p' Hstep _ IH]; intros s cs HI Hcs ->; [by simplify_eq|].
  inversion Hstep as [s0 cs0 i c s1 c1 Hi Hres|s0 s1 cs0 He]; simplify_eq.
  - destruct (guarantee_resume I keeps c s s1 c1) as [HG Hc]; [by intros ??|done| |done|].
    { by eapply Forall_lookup_1. }
    eapply IH; [done|by apply HG| |done]. by apply Forall_insert.
  - eapply IH; [done|by eapply Henv|done|done].
Qed.

End invariant.

(** ** Running alone *)

Section exec_rules.
Context {S E : Type}.

Lemma exec_resume {A} (c : co S E A) (s : S) : let '(s', c') := resume c s in exec c' s' = exec c s.
Proof. destruct c as [r|f]; cbn; [done|]. by destruct (f s). Qed.

Lemma exec_atomic {A} (m : M S E A) (s : S) : exec (atomic m) s = m s.
Proof. cbn. by destruct (m s). Qed.

Lemma exec_bind {A B} (c : co S E A) (k : A → co S E B) (s : S) :
  exec (c ≫= k) s = match exec c s with (s', inl e) => (s', inl e) | (s', inr a) => exec (k a) s' end.
Proof.
  revert s. induction c as [[e|a]|f IH] using co_rect'; intros s; [done..|]. cbn. specialize (IH s).
  destruct (f s) as [s' c']. apply IH.
Qed.

Lemma exec_try {A} (c : co S E A) (h : E → co S E A) (s : S) :
  exec (co_try c h) s = match exec c s with (s', inl e) => exec (h e) s' | (s', inr a) => (s', inr a) end.
Proof.
  revert s. induction c as [[e|a]|f IH] using co_rect'; intros s; [done..|]. cbn. specialize (IH s).
  destruct (f s) as [s' c']. apply IH.
Qed.

(** Running a task alone is one of the runs of the event loop. *)
Lemma exec_steps env (c : co S E unit) (s : S) :
  rtc (pool_step env) (s, [c]) ((exec c s).1, [Done (exec c s).2]).
Proof.
  revert s. induction c as [r|f IH] using co_rect'; intros s; [done|].
  specialize (IH s). cbn [exec]. destruct (f s) as [s' c'] eqn:Hf. cbn [snd] in IH.
  eapply rtc_l; [|apply IH]. by apply (step_task env s [Await f] 0 (Await f) s' c').
Qed.

End exec_rules.

(** ** Invariants with a ghost state for every task

    [T] is what is known of a task besides its code; [R t c] ties the two, and [J]
    relates the ghost states to the shared state. *)

Section ghost.
Context {S E T : Type} (env : S → S → Prop) (R : T → co S E unit → Prop) (J : S → list T → Prop).

Theorem pool_ghost (s s' : S) (cs cs' : list (co S E unit)) (ts : list T) :
  (∀ s1 s2 ts, env s1 s2 → J s1 ts → J s2 ts) →
  (∀ s1 s2 ts i t c c', J s1 ts → ts !! i = Some t → R t c → resume c s1 = (s2, c') →
     ∃ t', R t' c' ∧ J s2 (<[i := t']> ts)) →
  J s ts → Forall2 R ts cs → rtc (pool_step env) (s, cs) (s', cs') →
  ∃ ts', J s' ts' ∧ Forall2 R ts' cs'.
Proof.
  intros Henv Hstep HJ HR Hsteps. remember (s, cs) as p eqn:Hp. remember (s', cs') as p' eqn:Hp'.
  revert s cs ts HJ HR Hp. induction Hsteps as [p|p q p' Hst _ IH]; intros s cs ts HJ HR ->.
  - simplify_eq. by exists ts.
  - inversion Hst as [s0 cs0 i c s1 c1 Hi Hres|s0 s1 cs0 He]; simplify_eq.
    + destruct (Forall2_lookup_r _ _ _ _ _ HR Hi) as (t & Ht & HRt).
      destruct (Hstep s s1 ts i t c c1) as (t' & HR' & HJ'); [done..|].
      eapply IH; [done|exact HJ'| |done]. by apply Forall2_insert.
    + eapply IH; [done| |exact HR|done]. by eapply Henv.
Qed.

End ghost.

Lemma run_schedule_steps {S E} env order (s : S) (cs : list (co S E unit)) :
  rtc (pool_step env) (s, cs) (run_schedule order s cs).
Proof.
  revert s cs. induction order as [|i order IH]; intros s cs; [done|]. cbn [run_schedule].
  destruct (cs !! i) as [c|] eqn:Hi; [|done]. destruct (resume c s) as [s' c'] eqn:Hres.
  eapply rtc_l; [by eapply step_task|apply IH].
Qed.
