(* ===== verification/Hub.v ===== *)
(** What the connected devices share: the WebSocket hub
    ([src/server/app/services/connection_manager.py], [routers/websocket.py]), the
    clipboard ([clipboard_service.py], [routers/clipboard.py]) and the file requests
    ([file_request_service.py], [routers/file_requests.py]).

    The handlers are coroutines over one shared state.  A step ends at every [await] of
    the store or of a socket, and where a called coroutine returns.  A socket is open
    or closed; [send_json] on a closed one raises.  The upload of
    [fulfill_file_request] is one step here.  Random ids are arguments. *)

From stdpp Require Import strings.
From S2P Require Import Prelude Json Accounts Identity Files StateStore FilesApi Async.

Inductive DeviceType := PHONE | TABLET | DESKTOP.

Inductive ToastType := DEVICE_CONNECTED | DEVICE_DISCONNECTED | REQUEST_CREATED | REQUEST_FULFILLED.

Record DeviceInfo := {
  di_device_id : pystr;
  di_device_name : pystr;
  di_ip_address : pystr;
  di_device_type : DeviceType;
  di_connected_at : time
}.

(** The messages sent to the devices; a toast may carry a device. *)
Inductive toast_extra := NoExtra | ToastInfo (info : DeviceInfo) | ToastDevice (device_id : pystr).

Inductive ws_message :=
| Toast (toast_type : ToastType) (message device_name : pystr) (timestamp : time) (extra : toast_extra)
| DeviceCount (count : Z)
| DeviceList (devices : list DeviceInfo) (your_device_id : pystr)
| Pong
| SnippetCreated (snippet : ClipboardRow)
| SnippetUpdated (snippet : ClipboardRow)
| SnippetDeleted (snippet_id : pystr)
| RequestCreated (request : FileRequestRow)
| RequestFulfilled (request : FileRequestRow)
| RequestDismissed (request_id : pystr).

Record socket := { so_open : bool; so_sent : list ws_message }.

Record hub := {
  hb_now : time;
  hb_fs : gmap (list (list Z)) node;
  hb_store : ServerStateStore;
  hb_active : list (pystr * Z);
  hb_devices : list (pystr * DeviceInfo);
  hb_sockets : gmap Z socket
}.

Inductive HubExn :=
| HubGuard (e : GuardExn)
| HubFs (e : FsExn)
| HubStore (e : StoreExn)
| SnippetNotFoundError
| SnippetValidationError
| HubValueError
| HubKeyError
| HubTypeError
| SqlError
| SendError
| WebSocketDisconnect.

Abbreviation Hub := (M hub HubExn).
Abbreviation HubCo := (co hub HubExn).

Implicit Types s : hub.

Definition with_store s (db : ServerStateStore) : hub :=
  {| hb_now := hb_now s; hb_fs := hb_fs s; hb_store := db; hb_active := hb_active s;
     hb_devices := hb_devices s; hb_sockets := hb_sockets s |}.
Definition hub_with_fs s (t : gmap (list (list Z)) node) : hub :=
  {| hb_now := hb_now s; hb_fs := t; hb_store := hb_store s; hb_active := hb_active s;
     hb_devices := hb_devices s; hb_sockets := hb_sockets s |}.
Definition with_connections s (active : list (pystr * Z)) (devices : list (pystr * DeviceInfo)) : hub :=
  {| hb_now := hb_now s; hb_fs := hb_fs s; hb_store := hb_store s; hb_active := active;
     hb_devices := devices; hb_sockets := hb_sockets s |}.
Definition with_sockets s (socks : gmap Z socket) : hub :=
  {| hb_now := hb_now s; hb_fs := hb_fs s; hb_store := hb_store s; hb_active := hb_active s;
     hb_devices := hb_devices s; hb_sockets := socks |}.

(** Time passes and sockets close. *)
Definition at_time s (t : time) : hub :=
  {| hb_now := t; hb_fs := hb_fs s; hb_store := hb_store s; hb_active := hb_active s;
     hb_devices := hb_devices s; hb_sockets := hb_sockets s |}.

Definition close_socket (w : Z) s : hub :=
  with_sockets s (alter (λ so, {| so_open := false; so_sent := so_sent so |}) w (hb_sockets s)).

Inductive hub_env : hub → hub → Prop :=
| env_time s t : hb_now s ≤ t → hub_env s (at_time s t)
| env_close s w : hub_env s (close_socket w s).

(** Code without an [await], run at the start of the next step of [k]. *)
Definition sync {A B} (m : Hub A) (k : A → HubCo B) : HubCo B :=
  Await (λ s, match m s with
              | (s', inl e) => (s', Done (inl e))
              | (s', inr a) => resume (k a) s'
              end).

(** One call of the store, on a thread of its own. *)
Definition in_store {A} (f : StoreExn → HubExn) (m : time → ServerStateStore → ServerStateStore * (StoreExn + A))
    : HubCo A :=
  atomic (λ s, let '(db, r) := m (hb_now s) (hb_store s) in
               (with_store s db, match r with inl e => inl (f e) | inr a => inr a end)).

(** ** [connection_manager.py] *)

(** [dict.pop(k, None)] *)
Definition dict_pop {A} (k : pystr) (l : list (pystr * A)) : list (pystr * A) := filter (λ kv, kv.1 ≠ k) l.

(** [sub in s] *)
Fixpoint contains (sub s : pystr) : bool :=
  startswith s sub || match s with [] => false | _ :: s' => contains sub s' end.

Definition parse_device_type (user_agent : pystr) : DeviceType :=
  let ua := lower user_agent in
  if contains (py "ipad") ua || contains (py "tablet") ua then TABLET
  else if contains (py "mobile") ua || contains (py "android") ua || contains (py "iphone") ua then PHONE
  else DESKTOP.

(** What [connect] does once the socket is accepted. *)
Definition register (w : Z) (device_id device_name ip_address user_agent : pystr) : Hub unit := λ s,
  let info := {| di_device_id := device_id; di_device_name := device_name; di_ip_address := ip_address;
                 di_device_type := parse_device_type user_agent; di_connected_at := hb_now s |} in
  (with_connections s (dict_set device_id w (hb_active s)) (dict_set device_id info (hb_devices s)), inr tt).

Definition disconnect (device_id : pystr) : Hub unit := λ s,
  (with_connections s (dict_pop device_id (hb_active s)) (dict_pop device_id (hb_devices s)), inr tt).

Definition is_current_connection (device_id : pystr) (w : Z) s : bool :=
  bool_decide (dict_get device_id (hb_active s) = Some w).

Definition send_json (w : Z) (message : ws_message) : Hub unit := λ s,
  match hb_sockets s !! w with
  | Some so =>
      if so_open so then
        (with_sockets s (<[w := {| so_open := true; so_sent := so_sent so ++ [message] |}]> (hb_sockets s)), inr tt)
      else (s, inl SendError)
  | None => (s, inl SendError)
  end.

(** The loop over the connections; the devices whose socket raised are collected. *)
Fixpoint deliver (message : ws_message) (targets : list (pystr * Z)) (dead : list pystr) : HubCo (list pystr) :=
  match targets with
  | [] => mret dead
  | (dev_id, w) :: rest =>
      sent ← co_try (_ ← atomic (send_json w message); mret true) (λ _, mret false);
      deliver message rest (if sent : bool then dead else dead ++ [dev_id])
  end.

Definition broadcast_to (keep : pystr * Z → bool) (message : ws_message) : HubCo unit :=
  sync (gets (λ s, filter (λ kv, keep kv = true) (hb_active s))) (λ targets,
    dead ← deliver message targets [];
    atomic (for_each disconnect dead)).

Definition broadcast (message : ws_message) (exclude_device : pystr) : HubCo unit :=
  broadcast_to (λ kv, negb (bool_decide (kv.1 = exclude_device))) message.

Definition broadcast_all (message : ws_message) : HubCo unit := broadcast_to (λ _, true) message.

Definition send_to (device_id : pystr) (message : ws_message) : Hub unit := λ s,
  match dict_get device_id (hb_active s) with
  | None => (s, inl HubKeyError)
  | Some w => send_json w message s
  end.

Definition device_count s : Z := Z.of_nat (length (hb_active s)).

Definition get_device_name (device_id : pystr) s : HubExn + pystr :=
  match dict_get device_id (hb_devices s) with Some i => inr (di_device_name i) | None => inl HubKeyError end.

Definition get_device_list s : list DeviceInfo := (hb_devices s).*2.

(** ** [clipboard_service.py] *)

Definition MAX_SNIPPETS : Z := 50.
Definition MAX_CONTENT_LENGTH : Z := 10000.

Definition list_snippets : HubCo (list ClipboardRow) :=
  in_store HubStore (λ _ db, (db, inr (list_clipboard_snippets db))).

(** [new_id] is the random id. *)
Definition create_snippet (new_id title : pystr) : HubCo ClipboardRow :=
  count ← in_store HubStore (λ _ db, (db, inr (count_clipboard_snippets db)));
  if MAX_SNIPPETS <=? count then Done (inl SnippetValidationError)
  else in_store HubStore (λ now db,
         let row := {| cb_id := new_id; cb_title := title; cb_content := []; cb_created_at := now;
                       cb_updated_at := now |} in
         let '(db', r) := insert_clipboard_snippet row db in
         (db', match r with inl e => inl e | inr _ => inr row end)).

(** The store's [KeyError] in the service's terms. *)
Definition to_snippet_error (e : StoreExn) : HubExn :=
  match e with StoreKeyError => SnippetNotFoundError | StoreIntegrityError => HubStore e end.

Definition update_snippet (snippet_id content : pystr) : HubCo ClipboardRow :=
  if MAX_CONTENT_LENGTH <? Z.of_nat (length content) then Done (inl SnippetValidationError)
  else in_store to_snippet_error (λ now, update_clipboard_snippet now snippet_id None (Some content)).

Definition update_title (snippet_id title : pystr) : HubCo ClipboardRow :=
  in_store to_snippet_error (λ now, update_clipboard_snippet now snippet_id (Some title) None).

Definition delete_snippet (snippet_id : pystr) : HubCo unit :=
  in_store to_snippet_error (λ _, delete_clipboard_snippet snippet_id).

(** ** [file_request_service.py] *)

Definition list_requests : HubCo (list FileRequestRow) :=
  in_store HubStore (λ _ db, (db, inr (list_file_requests db))).

Definition create_request (request_id description requester_device_id requester_device_name : pystr)
    : HubCo FileRequestRow :=
  if bool_decide (strip description = []) then Done (inl HubValueError)
  else in_store HubStore (λ now db,
         let row := {| fq_id := request_id; fq_description := strip description;
                       fq_requester_device_id := requester_device_id;
                       fq_requester_device_name := requester_device_name; fq_status := PENDING;
                       fq_created_at := now; fq_fulfilled_by_device_name := None;
                       fq_fulfilled_file_name := None; fq_fulfilled_file_path := None;
                       fq_fulfilled_at := None |} in
         let '(db', r) := insert_file_request row db in
         (db', match r with inl e => inl e | inr _ => inr row end)).

Definition fulfill_request (request_id fulfilled_by_device_name file_name file_path : pystr)
    : HubCo FileRequestRow :=
  current ← in_store HubStore (λ _ db, (db, get_file_request request_id db));
  if bool_decide (fq_status current ≠ PENDING) then Done (inl HubValueError)
  else in_store HubStore (λ now,
         update_file_request request_id (Some FULFILLED) (Some fulfilled_by_device_name) (Some file_name)
           (Some file_path) (Some now)).

Definition dismiss_request (request_id caller_device_id : pystr) : HubCo unit :=
  entry ← in_store HubStore (λ _ db, (db, get_file_request request_id db));
  if bool_decide (fq_requester_device_id entry ≠ caller_device_id) then Done (inl HubValueError)
  else in_store HubStore (λ _, store_dismiss request_id).

(** ** The endpoints *)

Section endpoints.
Context `{Hmac}.
Context (base : list (list Z)) (config : ServerConfig) (headers : list (pystr * pystr)).

(** The guards that are the dependencies of a route. *)
Definition depends {A} (g : GuardExn + unit) (c : HubCo A) : HubCo A :=
  match g with inl e => Done (inl (HubGuard e)) | inr _ => c end.

Definition list_snippets_endpoint : HubCo (list ClipboardRow) :=
  depends (require_full_access config headers) list_snippets.

Definition create_snippet_endpoint (new_id title : pystr) : HubCo ClipboardRow :=
  depends (change_guard config headers) (
    snippet ← create_snippet new_id title;
    _ ← broadcast_all (SnippetCreated snippet);
    mret snippet).

Definition update_snippet_title (snippet_id title : pystr) : HubCo ClipboardRow :=
  depends (change_guard config headers) (
    snippet ← update_title snippet_id title;
    _ ← broadcast_all (SnippetUpdated snippet);
    mret snippet).

Definition delete_snippet_endpoint (snippet_id : pystr) : HubCo unit :=
  depends (change_guard config headers) (
    _ ← delete_snippet snippet_id;
    broadcast_all (SnippetDeleted snippet_id)).

Definition list_file_requests_endpoint : HubCo (list FileRequestRow) :=
  depends (require_full_access config headers) list_requests.

Definition create_file_request (request_id description x_device_id x_device_name : pystr)
    : HubCo FileRequestRow :=
  depends (change_guard config headers) (
    request ← create_request request_id description x_device_id x_device_name;
    _ ← broadcast (RequestCreated request) x_device_id;
    _ ← sync (gets hb_now) (λ now,
          broadcast (Toast REQUEST_CREATED (x_device_name ++ py " is requesting: " ++ fq_description request)
                       x_device_name now NoExtra) x_device_id);
    mret request).

Definition upload_step (name : pystr) (content : bytes) : Hub UploadResult := λ s,
  let '(t, r) := upload_file base [] name content None (hb_fs s) in
  (hub_with_fs s t, match r with inl e => inl (HubFs e) | inr a => inr a end).

Definition fulfill_file_request (request_id name : pystr) (content : bytes) (x_device_name : pystr)
    : HubCo FileRequestRow :=
  depends (change_guard config headers) (
    upload_result ← atomic (upload_step name content);
    fulfilled ← fulfill_request request_id x_device_name (ur_name upload_result) (ur_name upload_result);
    _ ← broadcast_all (RequestFulfilled fulfilled);
    _ ← co_try
          (atomic (λ s, send_to (fq_requester_device_id fulfilled)
             (Toast REQUEST_FULFILLED
                (x_device_name ++ py " fulfilled your request with " ++ ur_name upload_result)
                x_device_name (hb_now s) NoExtra) s))
          (λ e, match e with HubKeyError => mret tt | _ => Done (inl e) end);
    mret fulfilled).

Definition dismiss_file_request (request_id x_device_id : pystr) : HubCo unit :=
  depends (change_guard config headers) (
    _ ← dismiss_request request_id x_device_id;
    broadcast_all (RequestDismissed request_id)).

End endpoints.

(** ** [websocket.py] *)

Section websocket.

(** The [session] cookie in a cookie header, and the check of [AuthTokenService]. *)
Context (session_cookie : pystr → option pystr) (validate_token : pystr → bool).

(** How SQLite takes an id of a JSON type other than a string: the text it compares
    equal to, if any, or the error of binding it. *)
Context (sql_id : json → HubExn + option pystr).

Definition ws_authenticated (config : ServerConfig) (headers : list (pystr * pystr)) : bool :=
  match cfg_password_hash config with
  | None => true
  | Some _ =>
      let cookie_header := default [] (dict_get (py "cookie") headers) in
      match (if bool_decide (cookie_header = []) then None else session_cookie cookie_header) with
      | Some token => validate_token token
      | None => false
      end
  end.

(** [len(content)]; a lone surrogate cannot be bound. *)
Definition content_length (content : json) : HubExn + Z :=
  match content with
  | JStr t => inr (Z.of_nat (length t))
  | JArr l => inr (Z.of_nat (length l))
  | JObj l => inr (Z.of_nat (length l))
  | _ => inl HubTypeError
  end.

Definition bind_id (snippet_id : json) : HubExn + option pystr :=
  match snippet_id with
  | JStr t => if scalars t then inr (Some t) else inl SqlError
  | _ => sql_id snippet_id
  end.

(** An update whose content cannot be bound, after the row was looked up. *)
Definition not_bound (key : pystr) : Hub ClipboardRow := λ s,
  (s, inl match tb_clipboard (hb_store s) !! key with Some _ => SqlError | None => SnippetNotFoundError end).

(** [service.update_snippet] on the values of the message. *)
Definition update_snippet_json (snippet_id content : json) : HubCo ClipboardRow :=
  match content_length content with
  | inl e => Done (inl e)
  | inr len =>
      if MAX_CONTENT_LENGTH <? len then Done (inl SnippetValidationError)
      else match bind_id snippet_id with
           | inl e => atomic (raise e)
           | inr None => atomic (raise SnippetNotFoundError)
           | inr (Some key) =>
               match content with
               | JStr t =>
                   if scalars t then
                     in_store to_snippet_error (λ now, update_clipboard_snippet now key None (Some t))
                   else atomic (not_bound key)
               | _ => atomic (not_bound key)
               end
           end
  end.

(** The loop over the messages of the client, then its disconnection; [None] is text
    that is not JSON. *)
Fixpoint ws_loop (config : ServerConfig) (w : Z) (device_id : pystr) (incoming : list (option json)) : HubCo unit :=
  match incoming with
  | [] => atomic (λ s, (close_socket w s, inl WebSocketDisconnect))
  | None :: _ => Done (inl HubValueError)
  | Some (JObj data) :: rest =>
      let is_type t := match dict_get (py "type") data with Some (JStr m) => bool_decide (m = py t) | _ => false end in
      if is_type "ping"%string then _ ← atomic (send_json w Pong); ws_loop config w device_id rest
      else if is_type "snippet_update"%string then
        if cfg_read_only config then ws_loop config w device_id rest
        else
          match dict_get (py "snippet_id") data, dict_get (py "content") data with
          | Some snippet_id, Some content =>
              _ ← co_try (updated ← update_snippet_json snippet_id content;
                          broadcast (SnippetUpdated updated) device_id)
                    (λ e, match e with
                          | SnippetNotFoundError | SnippetValidationError => mret tt
                          | _ => Done (inl e)
                          end);
              ws_loop config w device_id rest
          | _, _ => Done (inl HubKeyError)
          end
      else ws_loop config w device_id rest
  | Some _ :: _ => Done (inl HubTypeError)
  end.

Definition count_all : HubCo unit := sync (gets device_count) (λ n, broadcast_all (DeviceCount n)).

(** From [connect] on.  [register] is called outside of the [try] of the source; it
    raises nothing. *)
Definition ws_session (config : ServerConfig) (w : Z) (device_id device_name ip_address user_agent : pystr)
    (incoming : list (option json)) : HubCo unit :=
  _ ← atomic (λ s, let s' := (register w device_id device_name ip_address user_agent s).1 in
                   send_to device_id (DeviceList (get_device_list s') device_id) s');
  _ ← sync (λ s, (s, match dict_get device_id (hb_devices s) with
                     | None => inl HubKeyError
                     | Some info => inr (Toast DEVICE_CONNECTED (device_name ++ py " connected") device_name
                                           (hb_now s) (ToastInfo info))
                     end))
        (λ toast, broadcast toast device_id);
  _ ← count_all;
  ws_loop config w device_id incoming.

(** The [finally] of the endpoint. *)
Definition ws_teardown (w : Z) (device_id device_name : pystr) : HubCo unit :=
  sync (λ s, if is_current_connection device_id w s then
               ((disconnect device_id s).1,
                inr (Some (Toast DEVICE_DISCONNECTED (device_name ++ py " disconnected") device_name (hb_now s)
                             (ToastDevice device_id))))
             else (s, inr None))
    (λ toast, match toast with
              | None => mret tt
              | Some t => _ ← broadcast_all t; count_all
              end).

Definition websocket_endpoint (config : ServerConfig) (headers : list (pystr * pystr)) (w : Z)
    (device_name device_id ip_address user_agent : pystr) (incoming : list (option json)) : HubCo unit :=
  sync (gets hb_now) (λ now,
    let device_id := if bool_decide (device_id = []) then device_name ++ 45 :: dump_nat (Z.quot now 1000)
                     else device_id in
    if negb (ws_authenticated config headers) then atomic (λ s, (close_socket w s, inr tt))
    else
      _ ← atomic (λ s, (s, inr tt));
      co_finally
        (co_try (ws_session config w device_id device_name ip_address user_agent incoming)
           (λ e, match e with WebSocketDisconnect => mret tt | _ => Done (inl e) end))
        (ws_teardown w device_id device_name)).

End websocket.
