(* ===== verification/HubProps.v ===== *)
(** What the hub, the clipboard and the file requests guarantee, for every interleaving
    of the handlers, and what they do when they run alone. *)

From stdpp Require Import strings.
From S2P Require Import Prelude Json Accounts Identity IdentityProps Files StateStore FilesApi Async Hub.

Implicit Types s : hub.

(** ** Dictionaries *)

Lemma dict_set_fst {A} k (v : A) l :
  (dict_set k v l).*1 = if bool_decide (k ∈ l.*1) then l.*1 else l.*1 ++ [k].
Proof.
  induction l as [|[k' v'] l IH]; cbn; [done|]. destruct (decide (k = k')) as [<-|Hne]; cbn.
  - rewrite bool_decide_eq_true_2; [done|]. set_solver.
  - rewrite IH. repeat case_bool_decide; set_solver.
Qed.

Lemma dict_pop_fst {A} k (l : list (pystr * A)) : (dict_pop k l).*1 = filter (λ k', k' ≠ k) l.*1.
Proof.
  unfold dict_pop. induction l as [|[k' v] l IH]; [done|]. rewrite fmap_cons, !filter_cons. cbn [fst].
  destruct (decide (k' ≠ k)); cbn; congruence.
Qed.

Lemma dict_set_NoDup {A} k (v : A) l : NoDup l.*1 → NoDup (dict_set k v l).*1.
Proof.
  intros Hl. rewrite dict_set_fst. case_bool_decide; [done|]. apply NoDup_app. split; [done|].
  split; [set_solver|apply NoDup_singleton].
Qed.

Lemma dict_pop_NoDup {A} k (l : list (pystr * A)) : NoDup l.*1 → NoDup (dict_pop k l).*1.
Proof. intros. rewrite dict_pop_fst. by apply NoDup_filter. Qed.

Lemma elem_of_dict_pop {A} k (l : list (pystr * A)) kv : kv ∈ dict_pop k l ↔ kv.1 ≠ k ∧ kv ∈ l.
Proof. unfold dict_pop. by rewrite list_elem_of_filter. Qed.

Lemma elem_of_dict_set {A} k (v : A) l kv : kv ∈ dict_set k v l → kv = (k, v) ∨ kv ∈ l.
Proof.
  induction l as [|[k' v'] l IH]; cbn; [set_solver|]. destruct (decide (k = k')) as [<-|]; set_solver.
Qed.

Lemma dict_get_elem {A} k (v : A) l : dict_get k l = Some v → (k, v) ∈ l.
Proof.
  induction l as [|[k' v'] l IH]; cbn; [done|]. destruct (decide (k = k')) as [<-|]; [|set_solver].
  intros [= ->]. set_solver.
Qed.

Lemma dict_get_NoDup {A} k (v : A) l : NoDup l.*1 → (k, v) ∈ l → dict_get k l = Some v.
Proof.
  induction l as [|[k' v'] l IH]; cbn; [set_solver|]. intros [Hk Hl]%NoDup_cons Hin.
  apply elem_of_cons in Hin as [[= -> ->]|Hin]; [by rewrite decide_True|].
  rewrite decide_False; [by apply IH|]. intros ->. apply Hk, list_elem_of_fmap. by exists (k', v).
Qed.

(** ** Well-formed states *)

(** A snippet: its key, the limit of its content, and its times. *)
Definition snippet_ok (now : time) (id : pystr) (row : ClipboardRow) : Prop :=
  cb_id row = id ∧ Z.of_nat (length (cb_content row)) ≤ MAX_CONTENT_LENGTH ∧
  cb_created_at row ≤ cb_updated_at row ≤ now.

(** A request says by whom and with what it was fulfilled exactly when it was. *)
Definition request_ok (now : time) (id : pystr) (row : FileRequestRow) : Prop :=
  fq_id row = id ∧ fq_description row ≠ [] ∧ strip (fq_description row) = fq_description row ∧
  fq_created_at row ≤ now ∧
  match fq_fulfilled_at row with
  | None => fq_status row ≠ FULFILLED ∧ fq_fulfilled_by_device_name row = None ∧
            fq_fulfilled_file_name row = None ∧ fq_fulfilled_file_path row = None
  | Some t => fq_status row ≠ PENDING ∧ is_Some (fq_fulfilled_by_device_name row) ∧
              is_Some (fq_fulfilled_file_name row) ∧ is_Some (fq_fulfilled_file_path row) ∧
              fq_created_at row ≤ t ≤ now
  end.

Definition rows_ok (now : time) (db : ServerStateStore) : Prop :=
  map_Forall (snippet_ok now) (tb_clipboard db) ∧ map_Forall (request_ok now) (tb_requests db).

(** The two dictionaries of the manager have the same devices. *)
Definition connections_ok (active : list (pystr * Z)) (devices : list (pystr * DeviceInfo)) : Prop :=
  NoDup active.*1 ∧ active.*1 = devices.*1 ∧ Forall (λ kv, di_device_id kv.2 = kv.1) devices.

Definition hub_ok s : Prop :=
  rows_ok (hb_now s) (hb_store s) ∧ connections_ok (hb_active s) (hb_devices s).

Lemma rows_ok_time t t' db : t ≤ t' → rows_ok t db → rows_ok t' db.
Proof.
  intros Ht [Hc Hr]. split; [intros i row Hi|intros i row Hi].
  - destruct (Hc i row Hi) as (? & ? & ?). repeat split; [done|done|lia|lia].
  - destruct (Hr i row Hi) as (? & ? & ? & ? & Hf). repeat split; [done|done|done|lia|].
    destruct (fq_fulfilled_at row); [|done]. destruct Hf as (? & ? & ? & ? & ?). repeat split; [done..|lia|lia].
Qed.

Lemma hub_env_ok s s' : hub_env s s' → hub_ok s → hub_ok s'.
Proof.
  intros [s0 t Ht|s0 w] [Hr Hc]; [|done]. split; [|done]. by eapply rows_ok_time.
Qed.

(** ** The store calls of the services keep the rows *)

Definition snippet_count (db : ServerStateStore) : nat := size (tb_clipboard db).

(** What every store call but the insertion of a snippet does. *)
Definition store_change (now : time) (db db' : ServerStateStore) : Prop :=
  (rows_ok now db → rows_ok now db') ∧ (snippet_count db' ≤ snippet_count db)%nat.

Lemma store_change_refl now db : store_change now db db.
Proof. by split. Qed.

Lemma update_clipboard_change now id title content db :
  match content with Some t => Z.of_nat (length t) ≤ MAX_CONTENT_LENGTH | None => True end →
  store_change now db (update_clipboard_snippet now id title content db).1.
Proof.
  intros Hlen. unfold update_clipboard_snippet. destruct (tb_clipboard db !! id) as [row|] eqn:Hrow;
    [|apply store_change_refl]. split; cbn.
  - intros [Hc Hr]. split; [|done]. apply map_Forall_insert_2; [|done].
    destruct (Hc id row Hrow) as (? & ? & ?). repeat split; cbn; [done| |lia|lia]. by destruct content.
  - unfold snippet_count. cbn. by rewrite map_size_insert_Some.
Qed.

Lemma delete_clipboard_change now id db : store_change now db (delete_clipboard_snippet id db).1.
Proof.
  unfold delete_clipboard_snippet. destruct (tb_clipboard db !! id) as [row|] eqn:Hrow;
    [|apply store_change_refl]. split; cbn.
  - intros [Hc Hr]. split; [|done]. by apply map_Forall_delete.
  - unfold snippet_count. cbn. rewrite map_size_delete_Some by done. lia.
Qed.

(** A change of one request that keeps it well-formed. *)
Lemma put_request_change now id row db :
  (rows_ok now db → request_ok now id row) → store_change now db (put_requests (<[id := row]> (tb_requests db)) db).
Proof.
  intros Hrow. split; [|done]. intros Hok. split; [apply Hok|]. apply map_Forall_insert_2; [|apply Hok].
  by apply Hrow.
Qed.

Lemma insert_request_change now row db :
  request_ok now (fq_id row) row → store_change now db (insert_file_request row db).1.
Proof.
  intros Hrow. unfold insert_file_request. destruct (tb_requests db !! fq_id row); [apply store_change_refl|].
  by apply put_request_change.
Qed.

Lemma fulfill_change now id by_name name path db :
  store_change now db
    (update_file_request id (Some FULFILLED) (Some by_name) (Some name) (Some path) (Some now) db).1.
Proof.
  unfold update_file_request. destruct (tb_requests db !! id) as [row|] eqn:Hrow; [|apply store_change_refl].
  apply put_request_change. intros [_ Hr]. destruct (Hr id row Hrow) as (? & ? & ? & ? & _).
  repeat split; cbn; [done..|lia].
Qed.

Lemma dismiss_change now id db : store_change now db (store_dismiss id db).1.
Proof.
  unfold store_dismiss. destruct (tb_requests db !! id) as [row|] eqn:Hrow; [|apply store_change_refl].
  apply put_request_change. intros [_ Hr]. destruct (Hr id row Hrow) as (? & ? & ? & ? & Hf).
  repeat split; cbn; [done..|]. destruct (fq_fulfilled_at row); naive_solver.
Qed.

#[export] Hint Resolve store_change_refl delete_clipboard_change fulfill_change dismiss_change : hub.

(** The condition of a coroutine that branches. *)
Ltac guarantee_if := match goal with |- guarantee _ _ (if ?b then _ else _) => destruct b end.

(** ** The steps of the handlers

    A relation between states that every elementary step satisfies is guaranteed by
    every handler. *)

(** The elementary steps are [G] steps from every state with [P], which they keep. *)
Class HubSteps (P : hub → Prop) (G : hub → hub → Prop) := {
  G_preorder :: PreOrder G;
  G_P : ∀ s s', P s → G s s' → P s';
  G_send : ∀ w m s, P s → G s (send_json w m s).1;
  G_disconnect : ∀ d s, P s → G s (disconnect d s).1;
  G_close : ∀ w s, P s → G s (close_socket w s);
  G_upload : ∀ t s, P s → G s (hub_with_fs s t);
  G_store : ∀ db s, P s → store_change (hb_now s) (hb_store s) db → G s (with_store s db)
}.

Section handlers.
Context (P : hub → Prop) (G : hub → hub → Prop) `{HS : !HubSteps P G}.

Lemma guarantee_sync {A B} (m : Hub A) (k : A → HubCo B) :
  (∀ s, P s → G s (m s).1) → (∀ a, guarantee P G (k a)) → guarantee P G (sync m k).
Proof.
  intros Hm Hk. apply guarantee_await. intros s Hs. specialize (Hm s Hs).
  destruct (m s) as [s1 [e|a]]; [done|]. cbn [fst] in Hm.
  destruct (resume (k a) s1) as [s2 c] eqn:Hres.
  destruct (guarantee_resume P G (k a) s1 s2 c) as [HG Hc]; [apply _|by eapply G_P|done|done|].
  split; [by etrans|done].
Qed.

Lemma guarantee_sync_gets {A B} (f : hub → A) (k : A → HubCo B) :
  (∀ a, guarantee P G (k a)) → guarantee P G (sync (gets f) k).
Proof. apply guarantee_sync. intros. reflexivity. Qed.

Lemma guarantee_in_store {A} f (m : time → ServerStateStore → ServerStateStore * (StoreExn + A)) :
  (∀ now db, store_change now db (m now db).1) → guarantee P G (in_store f m).
Proof.
  intros Hm. apply guarantee_atomic. intros s Hs. specialize (Hm (hb_now s) (hb_store s)).
  destruct (m (hb_now s) (hb_store s)) as [db r]. by apply G_store.
Qed.

Lemma for_each_disconnect ds s : P s → G s (for_each disconnect ds s).1.
Proof.
  revert s. induction ds as [|d ds IH]; intros s Hs; [reflexivity|]. cbn [for_each].
  unfold mbind, M_bind. pose proof (G_disconnect d s Hs) as Hd. destruct (disconnect d s) as [s1 [e|[]]]; [done|].
  cbn [fst] in Hd. etrans; [exact Hd|]. apply IH. by eapply G_P.
Qed.

Lemma guarantee_deliver m targets dead : guarantee P G (deliver m targets dead).
Proof.
  revert dead. induction targets as [|[d w] targets IH]; intros dead; cbn [deliver]; [done|].
  apply guarantee_bind; [|done]. apply guarantee_try; [|done]. apply guarantee_bind; [|done].
  apply guarantee_atomic. intros s. apply G_send.
Qed.

Lemma guarantee_broadcast_to keep m : guarantee P G (broadcast_to keep m).
Proof.
  apply guarantee_sync_gets. intros targets. apply guarantee_bind; [apply guarantee_deliver|].
  intros dead. apply guarantee_atomic. intros s. apply for_each_disconnect.
Qed.

Lemma guarantee_broadcast m x : guarantee P G (broadcast m x).
Proof. apply guarantee_broadcast_to. Qed.

Lemma guarantee_broadcast_all m : guarantee P G (broadcast_all m).
Proof. apply guarantee_broadcast_to. Qed.

Lemma guarantee_count_all : guarantee P G count_all.
Proof. apply guarantee_sync_gets. intros. apply guarantee_broadcast_all. Qed.

(** *** The endpoints *)

Section endpoints.
Context `{Hmac} (base : list (list Z)) (config : ServerConfig) (headers : list (pystr * pystr)).

Lemma guarantee_depends {A} g (c : HubCo A) : guarantee P G c → guarantee P G (depends g c).
Proof. by destruct g. Qed.

Lemma guarantee_update_title id title : guarantee P G (update_snippet_title config headers id title).
Proof.
  apply guarantee_depends, guarantee_bind.
  - apply guarantee_in_store. intros. by apply update_clipboard_change.
  - intros row. apply guarantee_bind; [apply guarantee_broadcast_all|done].
Qed.

Lemma guarantee_delete id : guarantee P G (delete_snippet_endpoint config headers id).
Proof.
  apply guarantee_depends, guarantee_bind; [apply guarantee_in_store; auto with hub|].
  intros _. apply guarantee_broadcast_all.
Qed.

Lemma guarantee_list_snippets : guarantee P G (list_snippets_endpoint config headers).
Proof. apply guarantee_depends, guarantee_in_store. auto with hub. Qed.

Lemma guarantee_list_requests : guarantee P G (list_file_requests_endpoint config headers).
Proof. apply guarantee_depends, guarantee_in_store. auto with hub. Qed.

Lemma guarantee_create_request id desc dev name :
  guarantee P G (create_file_request config headers id desc dev name).
Proof.
  apply guarantee_depends, guarantee_bind.
  - unfold create_request. case_bool_decide as Hd; [done|]. apply guarantee_in_store. intros now db.
    pose proof (insert_request_change now
      {| fq_id := id; fq_description := strip desc; fq_requester_device_id := dev; fq_requester_device_name := name;
         fq_status := PENDING; fq_created_at := now; fq_fulfilled_by_device_name := None;
         fq_fulfilled_file_name := None; fq_fulfilled_file_path := None; fq_fulfilled_at := None |} db) as Hi.
    destruct (insert_file_request _ db) as [db' r]. apply Hi. repeat split; cbn; try done. apply strip_idemp.
  - intros row. apply guarantee_bind; [apply guarantee_broadcast|]. intros _.
    apply guarantee_bind; [|done]. apply guarantee_sync_gets. intros. apply guarantee_broadcast.
Qed.

Lemma send_to_step d m s : P s → G s (send_to d m s).1.
Proof. intros Hs. unfold send_to. destruct (dict_get d (hb_active s)); [by apply G_send|reflexivity]. Qed.

Lemma guarantee_fulfill_request id name n p : guarantee P G (fulfill_request id name n p).
Proof.
  apply guarantee_bind; [apply guarantee_in_store; auto with hub|].
  intros row. case_bool_decide; [done|]. apply guarantee_in_store. auto with hub.
Qed.

Lemma guarantee_fulfill id name content dev :
  guarantee P G (fulfill_file_request base config headers id name content dev).
Proof.
  apply guarantee_depends, guarantee_bind.
  { apply guarantee_atomic. intros s Hs. unfold upload_step. destruct (upload_file _ _ _ _ _ _). by apply G_upload. }
  intros r. apply guarantee_bind; [apply guarantee_fulfill_request|]. intros row.
  apply guarantee_bind; [apply guarantee_broadcast_all|]. intros _. apply guarantee_bind; [|done].
  apply guarantee_try; [|by intros []]. apply guarantee_atomic. intros s Hs. by apply send_to_step.
Qed.

Lemma guarantee_dismiss_request id dev : guarantee P G (dismiss_request id dev).
Proof.
  apply guarantee_bind; [apply guarantee_in_store; auto with hub|].
  intros row. case_bool_decide; [done|]. apply guarantee_in_store. auto with hub.
Qed.

Lemma guarantee_dismiss id dev : guarantee P G (dismiss_file_request config headers id dev).
Proof.
  apply guarantee_depends, guarantee_bind; [apply guarantee_dismiss_request|]. intros _.
  apply guarantee_broadcast_all.
Qed.

End endpoints.

(** *** The WebSocket endpoint *)

Section websocket.
Context (session_cookie : pystr → option pystr) (validate_token : pystr → bool).
Context (sql_id : json → HubExn + option pystr) (config : ServerConfig) (w : Z).

Lemma guarantee_raise {A} e : guarantee P G (atomic (raise e) : HubCo A).
Proof. apply guarantee_atomic. intros. reflexivity. Qed.

Lemma guarantee_not_bound key : guarantee P G (atomic (not_bound key)).
Proof. apply guarantee_atomic. intros. reflexivity. Qed.

Lemma guarantee_update_json id content : guarantee P G (update_snippet_json sql_id id content).
Proof.
  unfold update_snippet_json. destruct (content_length content) as [e|len] eqn:Hlen; [done|].
  destruct (Z.ltb_spec MAX_CONTENT_LENGTH len) as [|Hle]; [done|].
  destruct (bind_id sql_id id) as [e|[key|]]; try apply guarantee_raise.
  destruct content as [| | | |t| |]; try apply guarantee_not_bound.
  destruct (scalars t); [|apply guarantee_not_bound].
  apply guarantee_in_store. intros. apply update_clipboard_change. by injection Hlen as ->.
Qed.

Lemma guarantee_ws_loop d incoming : guarantee P G (ws_loop sql_id config w d incoming).
Proof.
  induction incoming as [|[data|] rest IH]; cbn [ws_loop]; [|destruct data; try done|done].
  - apply guarantee_atomic. intros s Hs. by apply G_close.
  - guarantee_if. { apply guarantee_bind; [|done]. apply guarantee_atomic. intros s. apply G_send. }
    guarantee_if; [|done]. guarantee_if; [done|].
    destruct (dict_get _ _) as [id|]; [|done]. destruct (dict_get _ _) as [content|]; [|done].
    apply guarantee_bind; [|done]. apply guarantee_try; [|by intros []].
    apply guarantee_bind; [apply guarantee_update_json|]. intros. apply guarantee_broadcast.
Qed.

Lemma guarantee_teardown d name : guarantee P G (ws_teardown w d name).
Proof.
  apply guarantee_sync.
  - intros s Hs. destruct (is_current_connection d w s); [by apply G_disconnect|reflexivity].
  - intros [t|]; [|done]. apply guarantee_bind; [apply guarantee_broadcast_all|]. intros _.
    apply guarantee_count_all.
Qed.

(** The registration of the socket is a [G] step. *)
Definition register_ok (d : pystr) : Prop := ∀ name ip ua s, P s → G s (register w d name ip ua s).1.

Lemma guarantee_session d name ip ua incoming :
  register_ok d → guarantee P G (ws_session sql_id config w d name ip ua incoming).
Proof.
  intros Hreg. apply guarantee_bind.
  { apply guarantee_atomic. intros s Hs. cbv zeta. etrans; [by apply Hreg|].
    apply send_to_step. eapply G_P; [done|by apply Hreg]. }
  intros _. apply guarantee_bind.
  { apply guarantee_sync; [intros; reflexivity|]. intros. apply guarantee_broadcast. }
  intros _. apply guarantee_bind; [apply guarantee_count_all|]. intros _. apply guarantee_ws_loop.
Qed.

Lemma guarantee_websocket headers name d ip ua incoming :
  (∀ d, register_ok d) →
  guarantee P G (websocket_endpoint session_cookie validate_token sql_id config headers w name d ip ua incoming).
Proof.
  intros Hreg. apply guarantee_sync_gets. intros now. cbv zeta.
  destruct (negb _). { apply guarantee_atomic. intros s Hs. by apply G_close. }
  apply guarantee_bind; [apply guarantee_atomic; intros; reflexivity|]. intros _.
  apply guarantee_finally; [|apply guarantee_teardown]. apply guarantee_try; [|by intros []].
  apply guarantee_session, Hreg.
Qed.

End websocket.

(** *** The insertion of a snippet *)

Definition new_snippet (now : time) (id title : pystr) : ClipboardRow :=
  {| cb_id := id; cb_title := title; cb_content := []; cb_created_at := now; cb_updated_at := now |}.

Definition insert_step (id title : pystr) : Hub ClipboardRow := λ s,
  let row := new_snippet (hb_now s) id title in
  let '(db, r) := insert_clipboard_snippet row (hb_store s) in
  (with_store s db, match r with inl e => inl (HubStore e) | inr _ => inr row end).

Lemma guarantee_create `{Hmac} config headers id title :
  (∀ s, P s → G s (insert_step id title s).1) →
  guarantee P G (create_snippet_endpoint config headers id title).
Proof.
  intros Hins. apply guarantee_depends, guarantee_bind.
  - apply guarantee_bind; [apply guarantee_in_store; auto with hub|]. intros n.
    destruct (MAX_SNIPPETS <=? n); [done|]. apply guarantee_atomic. intros s Hs. specialize (Hins s Hs). revert Hins.
    unfold insert_step, new_snippet. cbv zeta. by destruct (insert_clipboard_snippet _ (hb_store s)) as [db []].
  - intros row. apply guarantee_bind; [apply guarantee_broadcast_all|done].
Qed.

End handlers.

(** ** The tasks of the event loop *)

(** What is special about a task: it may insert a snippet, or it serves a socket. *)
Inductive task_kind := Plain | Creates | Serves (w : Z).

Section tasks.
Context `{Hmac}.
Context (session_cookie : pystr → option pystr) (validate_token : pystr → bool).
Context (sql_id : json → HubExn + option pystr) (base : list (list Z)) (config : ServerConfig).

(** The handlers, for any request. *)
Inductive hub_task : task_kind → HubCo unit → Prop :=
| task_list_snippets h : hub_task Plain (task (list_snippets_endpoint config h))
| task_create_snippet h id title : hub_task Creates (task (create_snippet_endpoint config h id title))
| task_update_title h id title : hub_task Plain (task (update_snippet_title config h id title))
| task_delete_snippet h id : hub_task Plain (delete_snippet_endpoint config h id)
| task_list_requests h : hub_task Plain (task (list_file_requests_endpoint config h))
| task_create_request h id desc dev name : hub_task Plain (task (create_file_request config h id desc dev name))
| task_fulfill h id name content dev : hub_task Plain (task (fulfill_file_request base config h id name content dev))
| task_dismiss h id dev : hub_task Plain (dismiss_file_request config h id dev)
| task_websocket h w name d ip ua incoming :
    hub_task (Serves w) (websocket_endpoint session_cookie validate_token sql_id config h w name d ip ua incoming).

Lemma handlers_guarantee P G `{!HubSteps P G} k c :
  (k = Creates → ∀ id title s, P s → G s (insert_step id title s).1) →
  (∀ w, k = Serves w → ∀ d, register_ok P G w d) →
  hub_task k c → guarantee P G c.
Proof.
  intros Hins Hreg Htask. revert Hins Hreg. destruct Htask; intros Hins Hreg.
  - by apply guarantee_task, guarantee_list_snippets.
  - apply guarantee_task, guarantee_create; auto.
  - by apply guarantee_task, guarantee_update_title.
  - by apply guarantee_delete.
  - by apply guarantee_task, guarantee_list_requests.
  - by apply guarantee_task, guarantee_create_request.
  - by apply guarantee_task, guarantee_fulfill.
  - by apply guarantee_dismiss.
  - apply guarantee_websocket; auto.
Qed.

(** *** The invariant *)

#[local] Instance keeps_preorder {S} (I : S → Prop) : PreOrder (keeps I).
Proof. split; [by intros s Hs|]. intros s1 s2 s3 H1 H2 Hs. by apply H2, H1. Qed.

Lemma disconnect_ok d s : hub_ok s → hub_ok (disconnect d s).1.
Proof.
  intros [Hr (Hnd & Hdom & Hid)]. split; [done|]. cbn. split_and!.
  - by apply dict_pop_NoDup.
  - by rewrite !dict_pop_fst, Hdom.
  - apply Forall_forall. intros kv [_ Hin]%elem_of_dict_pop. by apply (proj1 (Forall_forall _ _) Hid).
Qed.

Lemma register_hub_ok w d name ip ua s : hub_ok s → hub_ok (register w d name ip ua s).1.
Proof.
  intros [Hr (Hnd & Hdom & Hid)]. split; [done|]. cbn. split_and!.
  - by apply dict_set_NoDup.
  - by rewrite !dict_set_fst, Hdom.
  - apply Forall_forall. intros kv [->|Hin]%elem_of_dict_set; [done|]. by apply (proj1 (Forall_forall _ _) Hid).
Qed.

Lemma send_json_frame w m s :
  hb_now (send_json w m s).1 = hb_now s ∧ hb_store (send_json w m s).1 = hb_store s ∧
  hb_active (send_json w m s).1 = hb_active s ∧ hb_devices (send_json w m s).1 = hb_devices s.
Proof. unfold send_json. destruct (hb_sockets s !! w) as [[[] ?]|]; done. Qed.

Lemma insert_step_ok id title s : hub_ok s → hub_ok (insert_step id title s).1.
Proof.
  intros [Hr Hc]. unfold insert_step, insert_clipboard_snippet. cbv zeta.
  destruct (tb_clipboard (hb_store s) !! _); [done|]. split; [|done]. destruct Hr as [Hcb Hrq].
  split; [|done]. apply map_Forall_insert_2; [|done]. by repeat split.
Qed.

#[local] Instance hub_ok_steps : HubSteps hub_ok (keeps hub_ok).
Proof.
  split; [apply _|..].
  - intros s1 s2 H1 Hkeep. by apply Hkeep.
  - intros w m s0 _ Hs0. unfold hub_ok. by destruct (send_json_frame w m s0) as (-> & -> & -> & ->).
  - intros d s0 _ Hs0. by apply disconnect_ok.
  - by intros w s0 _ Hs0.
  - by intros t s0 _ Hs0.
  - intros db s0 _ [Hch _] [Hr Hc]. split; [by apply Hch|done].
Qed.

Lemma task_hub_ok k c : hub_task k c → guarantee hub_ok (keeps hub_ok) c.
Proof.
  apply (handlers_guarantee hub_ok (keeps hub_ok) k c).
  - intros _ id title s0 _ Hs0. by apply insert_step_ok.
  - intros w _ d name ip ua s0 _ Hs0. by apply register_hub_ok.
Qed.

(** C16: In every state that the handlers reach, in whatever order their steps come, the
    connected sockets and the known devices have the same ids, each once, and each
    device its own; snippets are within their length; and a request names a fulfiller,
    a file and a time exactly when it was fulfilled, with times that are in order. *)
Theorem hub_invariant s s' cs cs' :
  Forall (λ c, ∃ k, hub_task k c) cs → hub_ok s →
  rtc (pool_step hub_env) (s, cs) (s', cs') → hub_ok s'.
Proof.
  intros Hcs Hok Hsteps. eapply (pool_invariant hub_env hub_ok); [apply hub_env_ok|done| |done].
  eapply Forall_impl; [exact Hcs|]. intros c [k Hk]. by eapply task_hub_ok.
Qed.

(** *** The limit of the clipboard *)

Definition snippets s : nat := snippet_count (hb_store s).
Definition shrinks s s' : Prop := (snippets s' ≤ snippets s)%nat.

#[local] Instance shrinks_steps : HubSteps (λ _, True) shrinks.
Proof.
  split; [split; unfold shrinks; [intros s|intros s1 s2 s3]; lia|..]; try done; try (intros; apply le_n).
  - intros w m s _. unfold shrinks, snippets. by destruct (send_json_frame w m s) as (_ & -> & _).
  - intros db s _ [_ Hs]. exact Hs.
Qed.

(** A coroutine that inserts at most one snippet at a time, with a ticket it got when
    there were less than fifty; [b]: it has a ticket. *)
Fixpoint creating {A} (b : bool) (c : HubCo A) : Prop :=
  match c with
  | Done _ => True
  | Await f => ∀ s, let '(s', c') := f s in
      (shrinks s s' ∧ ∃ b', creating b' c' ∧ (b' = true → b = true ∨ (snippets s < 50)%nat)) ∨
      (b = true ∧ (snippets s' ≤ S (snippets s))%nat ∧ creating false c')
  end.

Lemma shrinking_creating {A} b (c : HubCo A) : guarantee (λ _, True) shrinks c → creating b c.
Proof.
  induction c as [r|f IH] using co_rect'; [done|]. intros Hf s. specialize (Hf s I). specialize (IH s).
  destruct (f s) as [s' c']. destruct Hf as [Hs Hc]. left. split; [done|]. exists b. auto.
Qed.

Lemma creating_bind {A B} b (c : HubCo A) (k : A → HubCo B) :
  creating b c → (∀ a, guarantee (λ _, True) shrinks (k a)) → creating b (c ≫= k).
Proof.
  intros Hc Hk. revert b Hc.
  induction c as [[e|a]|f IH] using co_rect'; intros b Hc; [done|by apply shrinking_creating, Hk|].
  intros s. specialize (Hc s). specialize (IH s). destruct (f s) as [s' c'].
  destruct Hc as [[Hs (b' & Hb & Hlt)]|(-> & Hs & Hb)]; [left|right]; split_and?; auto.
  exists b'. auto.
Qed.

Lemma create_creating id title : creating false (create_snippet id title).
Proof.
  intros s. cbn. left. split; [apply le_n|]. unfold count_clipboard_snippets, MAX_SNIPPETS.
  destruct (Z.leb_spec 50 (Z.of_nat (size (tb_clipboard (hb_store s))))) as [|Hlt].
  { exists false. by split. }
  exists true. split; [|right; unfold snippets, snippet_count; cbn; lia].
  clear s Hlt. intros s. cbn. unfold insert_clipboard_snippet. cbn.
  destruct (tb_clipboard (hb_store s) !! id) as [row|] eqn:Hrow; right; split_and!; try done.
  - cbn. unfold snippets, snippet_count. cbn. lia.
  - unfold snippets, snippet_count. cbn. rewrite map_size_insert_None by done. lia.
Qed.

Lemma plain_shrinks k c : hub_task k c → k ≠ Creates → guarantee (λ _, True) shrinks c.
Proof.
  intros Hk Hne. apply (handlers_guarantee (λ _, True) shrinks k c); [done| |done].
  intros w _ d name ip ua s _. apply le_n.
Qed.

Lemma creates_creating c : hub_task Creates c → creating false c.
Proof.
  intros Hc. inversion Hc as [|h id title Heq| | | | | | |]; subst.
  unfold task, create_snippet_endpoint, depends. destruct (change_guard config h); [done|].
  apply creating_bind; [|done]. apply creating_bind; [apply create_creating|].
  intros row. apply guarantee_bind; [|done]. apply guarantee_broadcast_all. apply _.
Qed.

(** The ghost state of a task: whether it may create, and whether it has a ticket. *)
Definition cap_task (t : bool * bool) (c : HubCo unit) : Prop :=
  if t.1 then creating t.2 c else t.2 = false ∧ guarantee (λ _, True) shrinks c.

Definition count_true (l : list bool) : nat := length (filter (λ b, b = true) l).

Definition cap_ok (n0 : nat) (fl : list bool) s (ts : list (bool * bool)) : Prop :=
  ts.*1 = fl ∧ Forall (λ t, t.2 = true → t.1 = true) ts ∧
  (snippets s + count_true ts.*2 ≤ Nat.max n0 (49 + count_true fl))%nat.

Lemma count_true_le ts :
  Forall (λ t : bool * bool, t.2 = true → t.1 = true) ts → (count_true ts.*2 ≤ count_true ts.*1)%nat.
Proof.
  unfold count_true. induction 1 as [|[b1 b2] ts Ht _ IH]; [done|]. cbn in Ht. rewrite !fmap_cons, !filter_cons. cbn [fst snd].
  destruct (decide (b2 = true)), (decide (b1 = true)); cbn [length]; naive_solver lia.
Qed.

Lemma count_true_insert (i : nat) (l : list bool) (b b' : bool) :
  l !! i = Some b →
  (count_true (<[i := b']> l) + (if b then 1 else 0) = count_true l + (if b' then 1 else 0))%nat.
Proof.
  unfold count_true. revert i. induction l as [|b0 l IH]; intros [|i] Hi; [done..| |].
  - injection Hi as ->. change (<[0%nat := b']> (b :: l)) with (b' :: l). rewrite !filter_cons.
    destruct b, b', (decide (true = true)), (decide (false = true)); cbn [length]; done || lia.
  - change (<[S i := b']> (b0 :: l)) with (b0 :: <[i := b']> l). rewrite !filter_cons. specialize (IH i Hi).
    destruct (decide (b0 = true)); cbn [length]; lia.
Qed.

Lemma cap_update n0 fl s s' ts (i : nat) (f b b' : bool) :
  cap_ok n0 fl s ts → ts !! i = Some (f, b) → (b' = true → f = true) →
  (snippets s' + (if b' then 1 else 0) ≤ snippets s + (if b then 1 else 0) ∨ snippets s' ≤ 49)%nat →
  cap_ok n0 fl s' (<[i := (f, b')]> ts).
Proof.
  intros (Hfl & Htk & Hle) Hi Hf Hs.
  assert ((<[i := (f, b')]> ts).*1 = fl) as Hfl'.
  { rewrite list_fmap_insert, <-Hfl. apply list_insert_id. by rewrite list_lookup_fmap, Hi. }
  assert (Forall (λ t, t.2 = true → t.1 = true) (<[i := (f, b')]> ts)) as Htk' by by apply Forall_insert.
  split; [done|]. split; [done|]. pose proof (count_true_le _ Htk') as Hc. rewrite Hfl' in Hc.
  destruct Hs as [Hs|Hs]; [|lia]. rewrite list_fmap_insert in *. cbn [snd] in *.
  pose proof (count_true_insert i ts.*2 b b') as Hcount. rewrite list_lookup_fmap, Hi in Hcount.
  specialize (Hcount eq_refl). lia.
Qed.

Lemma cap_step n0 fl s s' ts i t c c' :
  cap_ok n0 fl s ts → ts !! i = Some t → cap_task t c → resume c s = (s', c') →
  ∃ t', cap_task t' c' ∧ cap_ok n0 fl s' (<[i := t']> ts).
Proof.
  intros Hok Hi Ht Hres. destruct t as [[] b]; unfold cap_task in Ht; cbn [fst snd] in Ht.
  - destruct c as [r|f]; cbn in Hres.
    { injection Hres as <- <-. exists (true, b). split; [done|]. eapply cap_update; [done..|]. left. lia. }
    specialize (Ht s). rewrite Hres in Ht. destruct Ht as [[Hs (b' & Hc & Hb)]|(-> & Hs & Hc)].
    + exists (true, b'). split; [done|]. eapply cap_update; [done..|]. unfold shrinks in Hs.
      destruct b'; [|left; destruct b; lia]. destruct (Hb eq_refl) as [->|Hlt]; [left|right]; lia.
    + exists (true, false). split; [done|]. eapply cap_update; [done..|]. left. lia.
  - destruct Ht as [-> Hg].
    destruct (guarantee_resume (λ _, True) shrinks c s s' c') as [Hs Hc]; [apply shrinks_steps|done..|].
    exists (false, false). split; [done|]. eapply cap_update; [done..|]. left. unfold shrinks in Hs. lia.
Qed.

(** The flags of the tasks that create. *)
Definition is_creates (k : task_kind) : bool := match k with Creates => true | _ => false end.

Lemma cap_tasks ks cs :
  Forall2 hub_task ks cs → Forall2 cap_task ((λ k, (is_creates k, false)) <$> ks) cs.
Proof.
  intros Hks. apply Forall2_fmap_l. eapply Forall2_impl; [exact Hks|]. intros [] c Hk; unfold cap_task; cbn.
  - split; [done|]. by eapply plain_shrinks.
  - by apply creates_creating.
  - split; [done|]. by eapply plain_shrinks.
Qed.

(** The limit of the clipboard under concurrency.  Each request checks the number of
    snippets and inserts in two steps, so [n] requests that create run past the limit
    of fifty by at most [n - 1] snippets, whatever else happens in between. *)
Theorem clipboard_cap s s' ks cs cs' :
  Forall2 hub_task ks cs → rtc (pool_step hub_env) (s, cs) (s', cs') →
  (snippets s' ≤ Nat.max (snippets s) (49 + count_true (is_creates <$> ks)))%nat.
Proof.
  intros Hks Hsteps.
  destruct (pool_ghost hub_env cap_task (cap_ok (snippets s) (is_creates <$> ks)) s s' cs cs'
              ((λ k, (is_creates k, false)) <$> ks)) as (ts & (_ & _ & Hle) & _).
  - intros s1 s2 ts [s0 t _|s0 w]; exact id.
  - intros. by eapply cap_step.
  - split; [by rewrite <-list_fmap_compose|]. split; [by apply Forall_fmap, Forall_true|].
    assert (count_true ((λ k, (is_creates k, false)) <$> ks).*2 = 0%nat) as ->; [|lia].
    rewrite <-list_fmap_compose. clear. unfold count_true. induction ks; [done|]. by rewrite fmap_cons, filter_cons.
  - by apply cap_tasks.
  - done.
  - lia.
Qed.

(** *** No socket stays registered *)

(** Where a socket may be registered: nowhere, or under one device id. *)
Definition only_under (w : Z) (st : option pystr) s : Prop := ∀ d, (d, w) ∈ hb_active s → st = Some d.

Definition no_new (w : Z) s s' : Prop := ∀ d, (d, w) ∈ hb_active s' → (d, w) ∈ hb_active s.

Lemma only_under_no_new w st s s' : no_new w s s' → only_under w st s → only_under w st s'.
Proof. intros Hn Ho d Hd. by apply Ho, Hn. Qed.

Lemma no_new_steps w : HubSteps (λ _, True) (no_new w).
Proof.
  split; [split; [by intros s d|intros s1 s2 s3 H1 H2 d Hd; by apply H1, H2]|..]; try done.
  - intros w0 m s _ d. by destruct (send_json_frame w0 m s) as (_ & _ & -> & _).
  - intros d s _ d' [_ Hin]%elem_of_dict_pop. exact Hin.
  - by intros w0 s _ d.
  - by intros t s _ d.
  - by intros db s _ _ d.
Qed.

Lemma no_new_keeps w st s s' : no_new w s s' → keeps (only_under w st) s s'.
Proof. intros Hn Ho. by eapply only_under_no_new. Qed.

Lemma only_steps w d : HubSteps (λ _, True) (keeps (only_under w (Some d))).
Proof.
  destruct (no_new_steps w) as [_ _ Hsend Hdisc Hclose Hup Hst]. split; [apply _|done|..].
  - intros w0 m s _. by apply no_new_keeps, Hsend.
  - intros d0 s _. by apply no_new_keeps, Hdisc.
  - intros w0 s _. by apply no_new_keeps, Hclose.
  - intros t s _. by apply no_new_keeps, Hup.
  - intros db s _ Hdb. by apply no_new_keeps, Hst.
Qed.

(** A coroutine that has unregistered the socket when it ends; nobody else registers it. *)
Fixpoint releases {A} (w : Z) (st : option pystr) (c : HubCo A) : Prop :=
  match c with
  | Done _ => st = None
  | Await f => ∀ s, hub_ok s → only_under w st s →
      let '(s', c') := f s in ∃ st', only_under w st' s' ∧ releases w st' c'
  end.

Lemma releases_weaken {A} w d (c : HubCo A) : releases w (Some d) c → releases w None c.
Proof.
  destruct c as [r|f]; [done|]. intros Hf s Hok Hs. apply Hf; [done|]. intros d' Hd'. by discriminate (Hs d' Hd').
Qed.

Lemma no_new_releases {A} w (c : HubCo A) : guarantee (λ _, True) (no_new w) c → releases w None c.
Proof.
  induction c as [r|f IH] using co_rect'; [done|]. intros Hf s _ Hs. specialize (Hf s I). specialize (IH s).
  destruct (f s) as [s' c']. destruct Hf as [Hn Hc]. exists None. split; [by eapply only_under_no_new|auto].
Qed.

Lemma releases_then {A} w st (c : HubCo unit) (r : HubExn + A) :
  releases w st c → releases w st (c ≫= λ _, Done r).
Proof.
  revert st. induction c as [[e|a]|f IH] using co_rect'; intros st Hc; [done..|].
  intros s Hok Hs. specialize (Hc s Hok Hs). specialize (IH s). destruct (f s) as [s' c'].
  destruct Hc as (st' & Ho & Hr). exists st'. auto.
Qed.

Lemma releases_finally {A} w d (c : HubCo A) e :
  guarantee (λ _, True) (keeps (only_under w (Some d))) c → releases w (Some d) e →
  releases w (Some d) (co_finally c e).
Proof.
  intros Hc He. induction c as [[x|a]|f IH] using co_rect'; [by apply (releases_then w (Some d) e)..|].
  intros s Hok Hs. specialize (Hc s I). specialize (IH s). destruct (f s) as [s' c'].
  destruct Hc as [Hk Hc]. exists (Some d). split; [by apply Hk|]. by apply IH.
Qed.

(** The steps of a [sync] coroutine after its first code. *)
Lemma releases_teardown w d name : releases w (Some d) (ws_teardown w d name).
Proof.
  intros s [_ (Hnd & _)] Hs. unfold ws_teardown, sync, is_current_connection. case_bool_decide as Hcur.
  - set (k := λ t : ws_message, _ ← broadcast_all t; count_all).
    cbn [disconnect fst]. set (s1 := with_connections s _ _).
    assert (only_under w None s1) as Hs1.
    { intros d' [Hne Hin]%elem_of_dict_pop. apply Hs in Hin as [= ->]. done. }
    set (t := Toast _ _ _ _ _). change (let '(s', c') := resume (k t) s1 in ∃ st', only_under w st' s' ∧ releases w st' c').
    assert (guarantee (λ _, True) (no_new w) (k t)) as Hk.
    { pose proof (no_new_steps w). apply guarantee_bind; [by apply guarantee_broadcast_all|].
      intros _. by apply guarantee_count_all. }
    destruct (resume (k t) s1) as [s2 c] eqn:Hres.
    destruct (guarantee_resume (λ _, True) (no_new w) (k t) s1 s2 c) as [Hn Hc]; [apply no_new_steps|done..|].
    exists None. split; [by eapply only_under_no_new|by apply no_new_releases].
  - exists None. split; [|done]. intros d' Hin. destruct Hcur. pose proof (Hs d' Hin) as [= ->].
    by apply dict_get_NoDup.
Qed.

Lemma register_only w d : register_ok (λ _, True) (keeps (only_under w (Some d))) w d.
Proof.
  intros name ip ua s _ Ho d' [Heq|Hin]%elem_of_dict_set; [by injection Heq as ->|by apply Ho].
Qed.

Lemma websocket_releases h w name d ip ua incoming :
  releases w None (websocket_endpoint session_cookie validate_token sql_id config h w name d ip ua incoming).
Proof.
  intros s Hok Hs. unfold websocket_endpoint, sync, gets. cbv zeta beta iota.
  set (d' := if bool_decide (d = []) then _ else d).
  destruct (negb (ws_authenticated session_cookie validate_token config h)).
  - exists None. split; [|done]. exact Hs.
  - exists None. split; [exact Hs|]. apply (releases_weaken w d'). cbn [co_bind].
    apply releases_finally; [|apply releases_teardown]. pose proof (only_steps w d').
    apply guarantee_try; [|by intros []]. apply guarantee_session; [apply _|apply register_only].
Qed.

(** The ghost state of a task: its kind and where its socket may be registered. *)
Definition socket_task (t : task_kind * option pystr) (c : HubCo unit) : Prop :=
  guarantee hub_ok (keeps hub_ok) c ∧
  (∀ w, t.1 ≠ Serves w → guarantee (λ _, True) (no_new w) c) ∧
  (∀ w, t.1 = Serves w → releases w t.2 c).

Definition sockets_ok s (ts : list (task_kind * option pystr)) : Prop :=
  hub_ok s ∧
  (∀ i j w st st', ts !! i = Some (Serves w, st) → ts !! j = Some (Serves w, st') → i = j) ∧
  (∀ i w st, ts !! i = Some (Serves w, st) → only_under w st s) ∧
  (∀ d w, (d, w) ∈ hb_active s → ∃ (i : nat) st, ts !! i = Some (Serves w, st)).

Lemma insert_step_active id title s : hb_active (insert_step id title s).1 = hb_active s.
Proof. unfold insert_step. cbv zeta. by destruct (insert_clipboard_snippet _ _). Qed.

Lemma task_sockets k c : hub_task k c → socket_task (k, None) c.
Proof.
  intros Hk. split; [by eapply task_hub_ok|]. cbn [fst snd]. split.
  - intros w Hne. pose proof (no_new_steps w). eapply handlers_guarantee; [apply _|..|exact Hk].
    + intros _ id title s _ d. by rewrite insert_step_active.
    + intros w' Hw' d name ip ua s _ d' [Heq|Hin]%elem_of_dict_set; [|done]. injection Heq as -> ->. done.
  - intros w ->. inversion Hk; subst. apply websocket_releases.
Qed.

(** One task moves and knows where its own socket is; the other sockets stay where they
    were. *)
Lemma sockets_move s s' ts (i : nat) k st st' :
  sockets_ok s ts → ts !! i = Some (k, st) → hub_ok s' →
  (∀ w, k ≠ Serves w → no_new w s s') → (∀ w, k = Serves w → only_under w st' s') →
  sockets_ok s' (<[i := (k, st')]> ts).
Proof.
  intros (_ & Huniq & Honly & Hreg) Hi Hok' Hnew Hown. split; [done|].
  assert (∀ j w st0, <[i := (k, st')]> ts !! j = Some (Serves w, st0) →
    (j = i ∧ k = Serves w ∧ st0 = st') ∨ (j ≠ i ∧ ts !! j = Some (Serves w, st0))) as Hat.
  { intros j w st0 Hj. destruct (decide (j = i)) as [->|Hne].
    - rewrite list_lookup_insert_eq in Hj by (by eapply lookup_lt_Some). left. naive_solver.
    - rewrite list_lookup_insert_ne in Hj by done. by right. }
  split_and!.
  - intros j1 j2 w st1 st2 [(-> & -> & ->)|[? H1]]%Hat [(-> & Hk & ->)|[? H2]]%Hat; subst; eauto.
  - intros j w st0 [(-> & -> & ->)|[Hne Hj]]%Hat; [by apply Hown|].
    eapply only_under_no_new; [|by eapply Honly]. apply Hnew. intros ->. destruct Hne. by eapply Huniq.
  - intros d w Hin. destruct k as [| |w0]; [| |destruct (decide (w = w0)) as [->|Hne]].
    3: { exists i, st'. apply list_lookup_insert_eq. by eapply lookup_lt_Some. }
    all: destruct (Hreg d w) as (j & st0 & Hj); [eapply Hnew; [|done]; naive_solver|];
      exists j, st0; rewrite list_lookup_insert_ne; [done|]; intros ->; naive_solver.
Qed.

Lemma sockets_step s s' ts i t c c' :
  sockets_ok s ts → ts !! i = Some t → socket_task t c → resume c s = (s', c') →
  ∃ st', socket_task (t.1, st') c' ∧ sockets_ok s' (<[i := (t.1, st')]> ts).
Proof.
  intros Hts Hi (Hk & Hnew & Hrel) Hres. destruct t as [k st]. cbn [fst snd] in *.
  destruct (guarantee_resume hub_ok (keeps hub_ok) c s s' c') as [Hok' Hk']; [apply _|apply Hts|done..|].
  specialize (Hok' (proj1 Hts)).
  assert (∀ w, k ≠ Serves w → no_new w s s' ∧ guarantee (λ _, True) (no_new w) c') as Hnew'.
  { intros w Hw. by apply (guarantee_resume (λ _, True) (no_new w) c); [apply no_new_steps|..|apply Hnew|]. }
  assert (∃ st', ∀ w, k = Serves w → only_under w st' s' ∧ releases w st' c') as [st' Hst'].
  { destruct k as [| |w]; [by exists None..|]. specialize (Hrel w eq_refl).
    pose proof (proj1 (proj2 (proj2 Hts)) i w st Hi) as Ho. destruct c as [r|f]; cbn in Hres.
    - injection Hres as <- <-. exists st. intros w' [= <-]. done.
    - specialize (Hrel s (proj1 Hts) Ho). rewrite Hres in Hrel. destruct Hrel as (st' & ? & ?).
      exists st'. by intros w' [= <-]. }
  exists st'. split.
  - split; [done|]. split; [naive_solver|]. intros w Hw. by apply Hst'.
  - eapply sockets_move; [done..| |]; naive_solver.
Qed.

(** No connection is leaked.  A socket is registered only while the endpoint that
    serves it is still running, under one device id; when all the endpoints have ended,
    whatever they raised, nobody is registered. *)
Theorem no_leaked_socket s s' ks cs cs' d w :
  Forall2 hub_task ks cs → (∀ i j w, ks !! i = Some (Serves w) → ks !! j = Some (Serves w) → i = j) →
  hub_ok s → hb_active s = [] → rtc (pool_step hub_env) (s, cs) (s', cs') →
  (d, w) ∈ hb_active s' →
  (∃ i c, ks !! i = Some (Serves w) ∧ cs' !! i = Some c ∧ ∀ r, c ≠ Done r) ∧
  ∀ d', (d', w) ∈ hb_active s' → d' = d.
Proof.
  intros Hks Huniq Hok Hempty Hsteps Hin.
  destruct (pool_ghost hub_env socket_task (λ s ts, sockets_ok s ts ∧ ts.*1 = ks) s s' cs cs' ((λ k, (k, None)) <$> ks))
    as (ts & [(_ & _ & Honly & Hreg) Hfst] & Hts); [| | | |done|].
  - intros s1 s2 ts He [(Hok1 & H1) Hf]. split; [|done]. split; [by eapply hub_env_ok|]. by destruct He.
  - intros s1 s2 ts i t c c' [Hts Hf] Hi Ht Hres. destruct (sockets_step s1 s2 ts i t c c') as (st' & Ht' & Hts'); [done..|].
    exists (t.1, st'). split; [done|]. split; [done|]. rewrite list_fmap_insert, <-Hf. apply list_insert_id.
    by rewrite list_lookup_fmap, Hi.
  - split; [|by rewrite <-list_fmap_compose, list_fmap_id]. split; [done|].
    assert (∀ i w st, ((λ k, (k, None : option pystr)) <$> ks) !! i = Some (Serves w, st) → ks !! i = Some (Serves w)) as Hl.
    { intros i w0 st. rewrite list_lookup_fmap. destruct (ks !! i); naive_solver. }
    unfold only_under. rewrite Hempty. split_and!; [|set_solver..]. intros i j w0 st st' H1 H2. eauto.
  - apply Forall2_fmap_l. eapply Forall2_impl; [exact Hks|]. intros k c. apply task_sockets.
  - destruct (Hreg d w Hin) as (i & st & Hi). pose proof (Honly i w st Hi) as Ho.
    pose proof (Ho d Hin) as ->. split; [|intros d' Hd'; by injection (Ho d' Hd')].
    destruct (Forall2_lookup_l _ _ _ _ _ Hts Hi) as (c & Hc & _ & _ & Hrel). exists i, c. split_and!; [|done|].
    + by rewrite <-Hfst, list_lookup_fmap, Hi.
    + intros r ->. by discriminate (Hrel w eq_refl).
Qed.

End tasks.

(** ** A broadcast that runs alone *)

Definition open_at s (w : Z) : bool := match hb_sockets s !! w with Some so => so_open so | None => false end.

Definition receive_msg (m : ws_message) (so : socket) : socket :=
  if so_open so then {| so_open := true; so_sent := so_sent so ++ [m] |} else so.

Lemma with_sockets_id s : with_sockets s (hb_sockets s) = s.
Proof. by destruct s. Qed.

Lemma send_json_spec w m s :
  send_json w m s
  = (with_sockets s (alter (receive_msg m) w (hb_sockets s)), if open_at s w then inr tt else inl SendError).
Proof.
  unfold send_json, open_at. destruct (hb_sockets s !! w) as [[[] sent]|] eqn:Hw.
  - f_equal. f_equal. apply map_eq. intros w'. destruct (decide (w' = w)) as [->|].
    + by rewrite lookup_insert_eq, lookup_alter_eq, Hw.
    + by rewrite lookup_insert_ne, lookup_alter_ne.
  - f_equal. rewrite alter_id; [by rewrite with_sockets_id|]. intros so. rewrite Hw. by intros [= <-].
  - f_equal. rewrite alter_id; [by rewrite with_sockets_id|]. intros so. by rewrite Hw.
Qed.

Definition closed_devices s (targets : list (pystr * Z)) : list pystr :=
  (filter (λ kv, open_at s kv.2 = false) targets).*1.

Definition sent_sockets (m : ws_message) (targets : list (pystr * Z)) (socks : gmap Z socket) : gmap Z socket :=
  foldl (λ socks kv, alter (receive_msg m) kv.2 socks) socks targets.

Lemma open_at_receive m w s w' : open_at (with_sockets s (alter (receive_msg m) w (hb_sockets s))) w' = open_at s w'.
Proof.
  unfold open_at. cbn. destruct (decide (w' = w)) as [->|]; [|by rewrite lookup_alter_ne].
  rewrite lookup_alter_eq. destruct (hb_sockets s !! w) as [[[] ?]|]; done.
Qed.

Lemma exec_deliver m targets dead s :
  exec (deliver m targets dead) s
  = (with_sockets s (sent_sockets m targets (hb_sockets s)), inr (dead ++ closed_devices s targets)).
Proof.
  revert dead s. induction targets as [|[d w] targets IH]; intros dead s; cbn [deliver].
  { cbn. by rewrite app_nil_r, with_sockets_id. }
  rewrite exec_bind, exec_try, exec_bind, exec_atomic, send_json_spec.
  assert (∀ s1, (∀ w', open_at s1 w' = open_at s w') → closed_devices s1 targets = closed_devices s targets) as Hcl.
  { intros s1 Hs1. unfold closed_devices. f_equal. apply list_filter_iff. intros kv. by rewrite Hs1. }
  destruct (open_at s w) eqn:Hop; cbn [exec mret co_ret]; rewrite IH, (Hcl _ (open_at_receive m w s));
    f_equal; f_equal; unfold closed_devices; rewrite filter_cons; cbn [snd]; rewrite Hop.
  - done.
  - rewrite <-app_assoc. done.
Qed.

Lemma pop_filter {A} d ds (l : list (pystr * A)) :
  filter (λ kv, kv.1 ∉ ds) (dict_pop d l) = filter (λ kv, kv.1 ∉ d :: ds) l.
Proof.
  unfold dict_pop. rewrite list_filter_filter. apply list_filter_iff. intros kv. rewrite not_elem_of_cons. tauto.
Qed.

Lemma filter_not_nil {A} (l : list (pystr * A)) : filter (λ kv, kv.1 ∉ []) l = l.
Proof. induction l as [|kv l IH]; [done|]. rewrite filter_cons_True by set_solver. by rewrite IH. Qed.

Lemma exec_disconnects ds s :
  for_each disconnect ds s
  = (with_connections s (filter (λ kv, kv.1 ∉ ds) (hb_active s)) (filter (λ kv, kv.1 ∉ ds) (hb_devices s)), inr tt).
Proof.
  revert s. induction ds as [|d ds IH]; intros s; cbn [for_each].
  - rewrite !filter_not_nil. by destruct s.
  - unfold mbind, M_bind, disconnect at 1. rewrite IH. cbn. by rewrite !pop_filter.
Qed.

Lemma sent_sockets_lookup m targets socks w :
  NoDup targets.*2 →
  sent_sockets m targets socks !! w = (if bool_decide (w ∈ targets.*2) then receive_msg m <$> socks !! w else socks !! w).
Proof.
  unfold sent_sockets. revert socks. induction targets as [|[d w0] targets IH]; intros socks; [done|].
  intros [Hw0 Hnd]%NoDup_cons. cbn [foldl snd]. rewrite IH by done. rewrite fmap_cons. cbn [snd].
  destruct (decide (w = w0)) as [->|Hne].
  - rewrite bool_decide_eq_false_2 by done. rewrite bool_decide_eq_true_2 by set_solver. apply lookup_alter_eq.
  - rewrite lookup_alter_ne by done. repeat case_bool_decide; set_solver.
Qed.

Lemma exec_sync {A B} (m : Hub A) (k : A → HubCo B) s :
  exec (sync m k) s = match m s with (s', inl e) => (s', inl e) | (s', inr a) => exec (k a) s' end.
Proof.
  unfold sync. cbn [exec]. destruct (m s) as [s' [e|a]]; [done|]. pose proof (exec_resume (k a) s') as H.
  by destruct (resume (k a) s').
Qed.

Lemma exec_broadcast keep m s :
  let targets := filter (λ kv, keep kv = true) (hb_active s) in
  let dead := closed_devices s targets in
  exec (broadcast_to keep m) s
  = (with_connections (with_sockets s (sent_sockets m targets (hb_sockets s)))
       (filter (λ kv, kv.1 ∉ dead) (hb_active s)) (filter (λ kv, kv.1 ∉ dead) (hb_devices s)), inr tt).
Proof.
  cbv zeta. unfold broadcast_to. rewrite exec_sync. unfold gets. rewrite exec_bind, exec_deliver, exec_atomic.
  by rewrite exec_disconnects.
Qed.

Lemma fst_filter {A} (ds : list pystr) (l : list (pystr * A)) :
  (filter (λ kv, kv.1 ∉ ds) l).*1 = filter (λ k, k ∉ ds) l.*1.
Proof.
  induction l as [|[k v] l IH]; [done|]. rewrite fmap_cons, !filter_cons. cbn [fst].
  destruct (decide (k ∉ ds)); cbn; congruence.
Qed.

(** A broadcast that is not interrupted delivers the message, once, to exactly the
    open sockets it is meant for, removes exactly the devices whose socket was closed,
    and raises nothing. *)
Theorem broadcast_spec keep m s :
  NoDup (hb_active s).*1 → NoDup (hb_active s).*2 →
  let '(s', r) := exec (broadcast_to keep m) s in
  r = inr tt ∧ hb_now s' = hb_now s ∧ hb_fs s' = hb_fs s ∧ hb_store s' = hb_store s ∧
  (∀ d w, (d, w) ∈ hb_active s' ↔ (d, w) ∈ hb_active s ∧ (keep (d, w) = true → open_at s w = true)) ∧
  (∀ w so, hb_sockets s !! w = Some so → ∃ so', hb_sockets s' !! w = Some so' ∧ so_open so' = so_open so ∧
     so_sent so' = if so_open so && existsb (λ kv, bool_decide (kv.2 = w) && keep kv) (hb_active s)
                   then so_sent so ++ [m] else so_sent so) ∧
  (connections_ok (hb_active s) (hb_devices s) → connections_ok (hb_active s') (hb_devices s')).
Proof.
  intros Hk Hw. rewrite exec_broadcast. cbn.
  set (targets := filter (λ kv, keep kv = true) (hb_active s)). set (dead := closed_devices s targets).
  split_and!; try done.
  - intros d w. rewrite list_elem_of_filter. cbn [fst].
    assert ((d, w) ∈ hb_active s → d ∉ dead ↔ (keep (d, w) = true → open_at s w = true)) as Hd; [|naive_solver].
    intros Hin. unfold dead, closed_devices. rewrite list_elem_of_fmap. setoid_rewrite list_elem_of_filter.
    unfold targets. setoid_rewrite list_elem_of_filter. split.
    + intros Hno Hkeep. apply not_false_iff_true. intros Hop. apply Hno. by exists (d, w).
    + intros Hop ([d' w'] & -> & Hcl & Hkeep & Hin'). cbn in *.
      assert (w' = w) as ->. { apply dict_get_NoDup in Hin, Hin'; [|done..]. congruence. }
      rewrite Hop in Hcl by done. done.
  - intros w so Hso. rewrite sent_sockets_lookup, Hso by by apply NoDup_fmap_filter.
    assert (bool_decide (w ∈ targets.*2) = existsb (λ kv, bool_decide (kv.2 = w) && keep kv) (hb_active s)) as ->.
    { apply eq_iff_eq_true. rewrite bool_decide_eq_true, existsb_exists, list_elem_of_fmap.
      unfold targets. setoid_rewrite list_elem_of_filter. setoid_rewrite list_elem_of_In. split.
      - intros (kv & -> & Hkeep & Hin). exists kv. by rewrite bool_decide_eq_true_2, Hkeep.
      - intros (kv & Hin & [Heq%bool_decide_eq_true Hkeep]%andb_prop). by exists kv. }
    destruct (existsb _ _); [|rewrite andb_false_r; by exists so]. rewrite andb_true_r.
    exists (receive_msg m so). unfold receive_msg. by destruct so as [[] sent].
  - intros (_ & Hdom & Hid). split; [by apply NoDup_fmap_filter|]. split; [by rewrite !fst_filter, Hdom|].
    apply Forall_forall. intros kv [_ Hin]%list_elem_of_filter. by apply (proj1 (Forall_forall _ _) Hid).
Qed.

(** ** Witnesses

    The device ["d"] has a tab whose socket 1 is gone; ["e"] is connected with socket 3;
    socket 2 is new. *)

Definition open_sockets : gmap Z socket :=
  <[1 := {| so_open := false; so_sent := [] |}]>
    (<[2 := {| so_open := true; so_sent := [] |}]> {[3 := {| so_open := true; so_sent := [] |}]}).

Definition some_device (d : pystr) : DeviceInfo :=
  {| di_device_id := d; di_device_name := d; di_ip_address := []; di_device_type := DESKTOP; di_connected_at := 0 |}.

Definition two_tabs : hub :=
  {| hb_now := 0; hb_fs := ∅; hb_store := empty_store;
     hb_active := [(py "d", 1); (py "e", 3)];
     hb_devices := [(py "d", some_device (py "d")); (py "e", some_device (py "e"))];
     hb_sockets := open_sockets |}.

Definition open_config : ServerConfig :=
  {| cfg_password_hash := None; cfg_read_only := false; cfg_receive := false; cfg_mount_code := None;
     cfg_identity_secret := None |}.

Definition demo_task := hub_task (H := hex_mac) (λ _, None) (λ _, false) (λ _, inr None) [] open_config.

(** The new tab of ["d"], and a request that creates a snippet. *)
Definition demo_tab : HubCo unit :=
  websocket_endpoint (λ _, None) (λ _, false) (λ _, inr None) open_config [] 2 (py "d") (py "d") [] [] [].
Definition demo_create (id : pystr) : HubCo unit :=
  task (create_snippet_endpoint (H := hex_mac) open_config [] id (py "t")).

Lemma demo_tab_task : demo_task (Serves 2) demo_tab.
Proof. apply task_websocket. Qed.
Lemma demo_create_task id : demo_task Creates (demo_create id).
Proof. apply task_create_snippet. Qed.

Lemma two_tabs_ok : hub_ok two_tabs.
Proof.
  split; [split; apply map_Forall_empty|]. split; [|split; [done|]].
  - apply (bool_decide_unpack _). by vm_compute.
  - by repeat constructor.
Qed.

(** The state before anybody is connected. *)
Definition no_tabs : hub :=
  {| hb_now := 0; hb_fs := ∅; hb_store := empty_store; hb_active := []; hb_devices := [];
     hb_sockets := open_sockets |}.

Lemma no_tabs_ok : hub_ok no_tabs.
Proof. split; [split; apply map_Forall_empty|]. split; [apply NoDup_nil_2|]. split; [done|apply Forall_nil_2]. Qed.

Lemma hub_invariant_witness :
  hub_ok (run_schedule [0; 1; 0; 1; 1]%nat two_tabs [demo_create (py "x"); demo_tab]).1.
Proof.
  assert (Forall (λ c, ∃ k, demo_task k c) [demo_create (py "x"); demo_tab]) as Hcs.
  { repeat constructor; eexists; [apply demo_create_task|apply demo_tab_task]. }
  pose proof (run_schedule_steps hub_env [0; 1; 0; 1; 1]%nat two_tabs [demo_create (py "x"); demo_tab]) as Hsteps.
  destruct (run_schedule [0; 1; 0; 1; 1]%nat two_tabs [demo_create (py "x"); demo_tab]) as [s' cs'].
  exact (hub_invariant (H := hex_mac) (λ _, None) (λ _, false) (λ _, inr None) [] open_config two_tabs s'
           [demo_create (py "x"); demo_tab] cs' Hcs two_tabs_ok Hsteps).
Defined.

Lemma clipboard_cap_witness :
  (snippets (run_schedule [0; 1; 0; 1]%nat two_tabs [demo_create (py "x"); demo_create (py "y")]).1 ≤ 51)%nat.
Proof.
  assert (Forall2 demo_task [Creates; Creates] [demo_create (py "x"); demo_create (py "y")]) as Hks.
  { repeat constructor; apply demo_create_task. }
  pose proof (run_schedule_steps hub_env [0; 1; 0; 1]%nat two_tabs [demo_create (py "x"); demo_create (py "y")]) as Hsteps.
  destruct (run_schedule [0; 1; 0; 1]%nat two_tabs [demo_create (py "x"); demo_create (py "y")]) as [s' cs'].
  exact (clipboard_cap (H := hex_mac) (λ _, None) (λ _, false) (λ _, inr None) [] open_config two_tabs s'
           [Creates; Creates] [demo_create (py "x"); demo_create (py "y")] cs' Hks Hsteps).
Defined.

(** The tab has registered under ["d"]. *)
Lemma demo_tab_registered : (py "d", 2) ∈ hb_active (run_schedule [0; 0]%nat no_tabs [demo_tab]).1.
Proof. apply (bool_decide_unpack _). by vm_compute. Qed.

Lemma no_leaked_socket_witness :
  ∃ (i : nat) c, (run_schedule [0; 0]%nat no_tabs [demo_tab]).2 !! i = Some c ∧ ∀ r, c ≠ Done r.
Proof.
  assert (Forall2 demo_task [Serves 2] [demo_tab]) as Hks by (repeat constructor; apply demo_tab_task).
  assert (∀ (i j : nat) w, [Serves 2] !! i = Some (Serves w) → [Serves 2] !! j = Some (Serves w) → i = j) as Hu.
  { by intros [|i] [|j] w. }
  pose proof (run_schedule_steps hub_env [0; 0]%nat no_tabs [demo_tab]) as Hsteps.
  pose proof demo_tab_registered as Hin. destruct (run_schedule [0; 0]%nat no_tabs [demo_tab]) as [s' cs'].
  destruct (no_leaked_socket (H := hex_mac) (λ _, None) (λ _, false) (λ _, inr None) [] open_config no_tabs s'
    [Serves 2] [demo_tab] cs' (py "d") 2 Hks Hu no_tabs_ok eq_refl Hsteps Hin) as [(i & c & _ & Hc & Hr) _].
  by exists i, c.
Defined.

Lemma broadcast_spec_witness : (exec (broadcast_all Pong) two_tabs).2 = inr tt.
Proof.
  assert (NoDup (hb_active two_tabs).*1) as H1 by (apply (bool_decide_unpack _); by vm_compute).
  assert (NoDup (hb_active two_tabs).*2) as H2 by (apply (bool_decide_unpack _); by vm_compute).
  pose proof (broadcast_spec (λ _, true) Pong two_tabs H1 H2) as H. fold (broadcast_all Pong) in H.
  destruct (exec (broadcast_all Pong) two_tabs) as [s' r]. exact (proj1 H).
Defined.
