(* ===== verification/CollabProps.v ===== *)
(** The file requests one call at a time, and what goes wrong when calls meet: requests
    that come back, snippets past the limit, new tabs that are evicted; and how the
    WebSocket endpoint differs from the HTTP endpoints. *)

From stdpp Require Import strings sorting.
From S2P Require Import Prelude Json Accounts Identity Files StateStore FilesApi Async Hub HubProps.

Implicit Types s : hub.

(** ** The life of a file request *)

Lemma exec_in_store {A} f (m : time → ServerStateStore → ServerStateStore * (StoreExn + A)) s :
  exec (in_store f m) s
  = let '(db, r) := m (hb_now s) (hb_store s) in
    (with_store s db, match r with inl e => inl (f e) | inr a => inr a end).
Proof. unfold in_store. by rewrite exec_atomic. Qed.

Lemma with_store_id s : with_store s (hb_store s) = s.
Proof. by destruct s. Qed.

(** The row after its request was fulfilled. *)
Definition fulfilled_row (by_name name path : pystr) (t : time) (row : FileRequestRow) : FileRequestRow :=
  {| fq_id := fq_id row; fq_description := fq_description row;
     fq_requester_device_id := fq_requester_device_id row;
     fq_requester_device_name := fq_requester_device_name row; fq_status := FULFILLED;
     fq_created_at := fq_created_at row; fq_fulfilled_by_device_name := Some by_name;
     fq_fulfilled_file_name := Some name; fq_fulfilled_file_path := Some path; fq_fulfilled_at := Some t |}.

Definition put_request s (id : pystr) (row : FileRequestRow) : hub :=
  with_store s (put_requests (<[id := row]> (tb_requests (hb_store s))) (hb_store s)).

Lemma elem_of_requests row db : row ∈ list_file_requests db ↔
  fq_status row ≠ DISMISSED ∧ ∃ id, tb_requests db !! id = Some row.
Proof.
  unfold list_file_requests, rows. rewrite (merge_sort_Permutation fq_ge), list_elem_of_filter, list_elem_of_fmap.
  split; intros [Hs Hin]; (split; [done|]).
  - destruct Hin as ([id r] & -> & Hin). exists id. by apply elem_of_map_to_list.
  - destruct Hin as [id Hid]. exists (id, row). split; [done|]. by apply elem_of_map_to_list.
Qed.

(** Calls that are not interleaved take a request from pending to fulfilled to
    dismissed.  Fulfilling needs a pending request and records who, what and when;
    dismissing needs the requester's device; every refused call leaves the state as it
    was; and the list shows exactly the requests that are not dismissed. *)
Theorem request_machine s id dev by_name name path :
  exec (fulfill_request id by_name name path) s
  = match tb_requests (hb_store s) !! id with
    | None => (s, inl (HubStore StoreKeyError))
    | Some row =>
        if bool_decide (fq_status row = PENDING) then
          let row' := fulfilled_row by_name name path (hb_now s) row in (put_request s id row', inr row')
        else (s, inl HubValueError)
    end ∧
  exec (dismiss_request id dev) s
  = match tb_requests (hb_store s) !! id with
    | None => (s, inl (HubStore StoreKeyError))
    | Some row =>
        if bool_decide (fq_requester_device_id row = dev) then (put_request s id (dismissed row), inr tt)
        else (s, inl HubValueError)
    end ∧
  ∃ l, exec list_requests s = (s, inr l) ∧
    ∀ row, row ∈ l ↔ fq_status row ≠ DISMISSED ∧ ∃ id, tb_requests (hb_store s) !! id = Some row.
Proof.
  split; [|split].
  - unfold fulfill_request. rewrite exec_bind, exec_in_store. unfold get_file_request.
    destruct (tb_requests (hb_store s) !! id) as [row|] eqn:Hrow; cbn; rewrite with_store_id; [|done].
    case_bool_decide as Hp; case_bool_decide; try done. rewrite exec_in_store. unfold update_file_request.
    by rewrite Hrow.
  - unfold dismiss_request. rewrite exec_bind, exec_in_store. unfold get_file_request.
    destruct (tb_requests (hb_store s) !! id) as [row|] eqn:Hrow; cbn; rewrite with_store_id; [|done].
    case_bool_decide as Hp; case_bool_decide; try done. rewrite exec_in_store. unfold store_dismiss.
    by rewrite Hrow.
  - exists (list_file_requests (hb_store s)). split.
    + unfold list_requests. rewrite exec_in_store. by rewrite with_store_id.
    + intros row. apply elem_of_requests.
Qed.

(** The first step of the two services, on a request that they accept. *)
Lemma fulfill_looked id row by_name name path s :
  tb_requests (hb_store s) !! id = Some row → fq_status row = PENDING →
  resume (task (fulfill_request id by_name name path)) s
  = (s, task (in_store HubStore (λ now, update_file_request id (Some FULFILLED) (Some by_name) (Some name)
                                          (Some path) (Some now)))).
Proof.
  intros Hrow Hp. unfold task, fulfill_request, in_store, atomic, mbind, co_mbind.
  cbn [co_bind resume]. unfold get_file_request. rewrite Hrow. cbn [co_bind]. rewrite with_store_id, Hp.
  done.
Qed.

Lemma dismiss_looked id row s :
  tb_requests (hb_store s) !! id = Some row →
  resume (task (dismiss_request id (fq_requester_device_id row))) s
  = (s, task (in_store HubStore (λ _, store_dismiss id))).
Proof.
  intros Hrow. unfold task, dismiss_request, in_store, atomic, mbind, co_mbind.
  cbn [co_bind resume]. unfold get_file_request. rewrite Hrow. cbn [co_bind]. rewrite with_store_id.
  rewrite bool_decide_eq_false_2; [done|]. by intros [].
Qed.

(** A request that its requester dismissed is shown again: a device that fulfils it looked
    at the row before and writes it afterwards. *)
Theorem dismissed_request_returns s id row by_name name path :
  tb_requests (hb_store s) !! id = Some row → fq_status row = PENDING →
  let dev := fq_requester_device_id row in
  let tasks := [task (fulfill_request id by_name name path); task (dismiss_request id dev)] in
  let '(s1, cs1) := run_schedule [0; 1; 1]%nat s tasks in
  let '(s2, cs2) := run_schedule [0]%nat s1 cs1 in
  tb_requests (hb_store s1) !! id = Some (dismissed row) ∧ cs1 !! 1%nat = Some (Done (inr tt)) ∧
  ∃ row', tb_requests (hb_store s2) !! id = Some row' ∧ fq_status row' = FULFILLED ∧
    row' ∈ list_file_requests (hb_store s2).
Proof.
  intros Hrow Hp. cbv zeta. cbn [run_schedule lookup list_lookup].
  rewrite (fulfill_looked id row) by done. cbn [run_schedule lookup list_lookup insert list_insert].
  rewrite dismiss_looked by done. cbn [run_schedule lookup list_lookup insert list_insert].
  unfold task at 1, in_store, atomic, mbind, co_mbind. cbn [co_bind resume]. unfold store_dismiss. rewrite Hrow.
  cbn [co_bind resume lookup list_lookup]. unfold task, in_store, atomic, mbind, co_mbind. cbn [co_bind resume].
  unfold update_file_request. cbn [hb_store with_store tb_requests put_requests]. rewrite lookup_insert_eq.
  cbn [hb_store with_store tb_requests put_requests]. split; [done|]. split; [done|].
  eexists. split; [apply lookup_insert_eq|]. split; [done|]. apply elem_of_requests. split; [done|].
  exists id. apply lookup_insert_eq.
Qed.

(** ** More snippets than the limit *)

Lemma create_counted id title s :
  (snippets s < 50)%nat →
  resume (task (create_snippet id title)) s
  = (s, task (in_store HubStore (λ now db,
         let row := {| cb_id := id; cb_title := title; cb_content := []; cb_created_at := now;
                       cb_updated_at := now |} in
         let '(db', r) := insert_clipboard_snippet row db in
         (db', match r with inl e => inl e | inr _ => inr row end)))).
Proof.
  intros Hlt. unfold task, create_snippet, in_store, atomic, mbind, co_mbind. cbn [co_bind resume].
  rewrite with_store_id. unfold count_clipboard_snippets, MAX_SNIPPETS. unfold snippets, snippet_count in Hlt.
  destruct (Z.leb_spec 50 (Z.of_nat (size (tb_clipboard (hb_store s))))); [lia|done].
Qed.

(** The bound of [clipboard_cap] is reached: with 49 snippets, two requests that both count
    before either inserts make 51. *)
Theorem clipboard_cap_reached s id1 id2 title1 title2 :
  snippets s = 49%nat → tb_clipboard (hb_store s) !! id1 = None → tb_clipboard (hb_store s) !! id2 = None → id1 ≠ id2 →
  snippets (run_schedule [0; 1; 0; 1]%nat s
              [task (create_snippet id1 title1); task (create_snippet id2 title2)]).1 = 51%nat.
Proof.
  intros Hn H1 H2 Hne. cbn [run_schedule lookup list_lookup].
  rewrite create_counted by lia. cbn [run_schedule lookup list_lookup insert list_insert].
  rewrite create_counted by lia. cbn [run_schedule lookup list_lookup insert list_insert].
  unfold task, in_store, atomic, mbind, co_mbind. cbn [co_bind resume].
  unfold insert_clipboard_snippet at 1. cbn [cb_id]. rewrite H1. cbn [co_bind resume lookup list_lookup].
  unfold insert_clipboard_snippet. cbn [cb_id hb_store with_store tb_clipboard put_clipboard].
  rewrite lookup_insert_ne, H2 by done. cbn [fst]. unfold snippets, snippet_count in *. cbn.
  rewrite !map_size_insert_None; [lia|done|]. by rewrite lookup_insert_ne.
Qed.

(** ** The WebSocket endpoint and the guards *)

(** A message that updates a snippet. *)
Definition update_message (id content : pystr) : option json :=
  Some (JObj [(py "type", JStr (py "snippet_update")); (py "snippet_id", JStr id); (py "content", JStr content)]).

Section roles.
Context `{Hmac} (sql_id : json → HubExn + option pystr).

(** What the loop does with such a message. *)
Definition on_update (w : Z) (config : ServerConfig) (d id content : pystr) : HubCo unit :=
  _ ← co_try (updated ← update_snippet_json sql_id (JStr id) (JStr content); broadcast (SnippetUpdated updated) d)
        (λ e, match e with SnippetNotFoundError | SnippetValidationError => mret tt | _ => Done (inl e) end);
  ws_loop sql_id config w d [].

Lemma ws_loop_update config w d id content :
  cfg_read_only config = false →
  ws_loop sql_id config w d [update_message id content] = on_update w config d id content.
Proof.
  intros Hro. transitivity (if cfg_read_only config then ws_loop sql_id config w d [] else on_update w config d id content);
    [done|by rewrite Hro].
Qed.

(** The loop of the endpoint writes the content of a snippet for every connected client.
    It looks at the mode of the server only: a user whom the relay admits as READ or
    RECEIVE, and whom the HTTP endpoints refuse, changes snippets here. *)
Theorem websocket_ignores_roles config headers w d id title content row e s :
  change_guard config headers = inl e → cfg_read_only config = false →
  tb_clipboard (hb_store s) !! id = Some row → scalars id = true → scalars content = true →
  Z.of_nat (length content) ≤ MAX_CONTENT_LENGTH →
  exec (update_snippet_title config headers id title) s = (s, inl (HubGuard e)) ∧
  ∃ row', tb_clipboard (hb_store (exec (ws_loop sql_id config w d [update_message id content]) s).1) !! id = Some row' ∧
    cb_content row' = content.
Proof.
  intros Hguard Hro Hrow Hid Hsc Hlen. split.
  { unfold update_snippet_title, depends. by rewrite Hguard. }
  rewrite ws_loop_update by done. unfold on_update. rewrite exec_bind, exec_try, exec_bind.
  unfold update_snippet_json, bind_id. cbn [content_length]. rewrite Hid, Hsc.
  destruct (Z.ltb_spec MAX_CONTENT_LENGTH (Z.of_nat (length content))); [lia|].
  rewrite exec_in_store. unfold update_clipboard_snippet. rewrite Hrow. unfold broadcast. rewrite exec_broadcast.
  cbn. eexists. split; [apply lookup_insert_eq|done].
Qed.

(** The password gate lets a user pass whom the relay vouches for; the WebSocket endpoint
    asks for the cookie all the same. *)
Theorem websocket_ignores_bypass session_cookie validate_token config path items h :
  cfg_password_hash config = Some h → is_auth_bypassed config (lower_dict items) = inr true →
  dict_get (py "cookie") items = None →
  auth_middleware session_cookie validate_token config path items = inr PassThrough ∧
  ws_authenticated session_cookie validate_token config items = false.
Proof.
  intros Hpw Hby Hco. split.
  - unfold auth_middleware. destruct (negb _); [done|]. destruct (existsb _ _); [done|]. by rewrite Hby.
  - unfold ws_authenticated. by rewrite Hpw, Hco.
Qed.

(** The upload of a device that fulfils an unknown or finished request stays in the
    shared folder, although the call fails. *)
Theorem fulfill_leaves_file base config headers id name content dev t r s :
  change_guard config headers = inr tt →
  (∀ row, tb_requests (hb_store s) !! id = Some row → fq_status row ≠ PENDING) →
  upload_file base [] name content None (hb_fs s) = (t, inr r) →
  ∃ e, exec (fulfill_file_request base config headers id name content dev) s = (hub_with_fs s t, inl e).
Proof.
  intros Hg Hreq Hup. unfold fulfill_file_request, depends. rewrite Hg, exec_bind, exec_atomic.
  unfold upload_step. rewrite Hup, exec_bind. unfold fulfill_request. rewrite exec_bind, exec_in_store.
  unfold get_file_request. cbn [hb_store hub_with_fs hb_now].
  destruct (tb_requests (hb_store s) !! id) as [row|] eqn:Hrow; [|by eexists].
  rewrite bool_decide_eq_true_2 by by apply Hreq. by eexists.
Qed.

End roles.

(** ** A new tab that is evicted

    While a broadcast runs in [two_tabs], the user opens the device again with socket 2. *)

(** The broadcast finds the old socket closed, the new tab registers under the same id,
    and the broadcast then removes the id: the new socket is open and served, and no
    longer registered.  [is_current_connection] guards the teardown of an endpoint
    against this, not the broadcasts. *)
Theorem broadcast_evicts_newer :
  let tab := websocket_endpoint (λ _, None) (λ _, false) (λ _, inr None) open_config [] 2 (py "d") (py "d") [] [] [] in
  let '(s1, cs1) := run_schedule [0; 1; 1]%nat two_tabs [broadcast_all Pong; tab] in
  let '(s2, cs2) := run_schedule [0; 0]%nat s1 cs1 in
  dict_get (py "d") (hb_active s1) = Some 2 ∧ open_at s2 2 = true ∧
  dict_get (py "d") (hb_active s2) = None ∧
  match cs2 !! 1%nat with Some (Await _) => True | _ => False end.
Proof. by vm_compute. Qed.
