(* ===== verification/ServerAuth.v ===== *)
(** The password of the server ([src/server/app/services/auth_service.py],
    [routers/auth.py]) with the gate of [Identity], and the share target
    ([routers/share_target.py]).

    [URLSafeTimedSerializer.loads] without a maximal age is a parameter, the class
    [UntimedSerializer], with what itsdangerous documents of it as its laws. *)

From stdpp Require Import strings.
From S2P Require Import Prelude Json Session Accounts Identity Files StateStore FilesApi FilesProps FilesApiProps IdentityProps.

Class UntimedSerializer (T : TimedSerializer) := {
  us_loads : pystr → pystr → pystr → LoadError + json;
  us_signed : ∀ key salt t v, wf_json v = true → us_loads key salt (ts_dumps key salt t v) = inr v;
  us_key : ∀ key key' salt t v, key ≠ key' → us_loads key' salt (ts_dumps key salt t v) = inl BadSignature
}.

(** The default salt of itsdangerous. *)
Definition DEFAULT_SALT : pystr := py "itsdangerous".

Section auth.
Context {T : TimedSerializer} `{U : !UntimedSerializer T}.
Context (checkpw : bytes → bytes → option bool).

(** An [AuthTokenService] is its secret key. *)
Definition create_token (secret_key : pystr) (now : time) : pystr :=
  ts_dumps secret_key DEFAULT_SALT now (JObj [(py "authenticated", JBool true)]).

Definition validate_token (secret_key token : pystr) : bool :=
  match us_loads secret_key DEFAULT_SALT token with
  | inr _ => true
  | inl BadSignature => false
  | inl SignatureExpired => false
  end.

(** The answers of [login]; the cookie has a value and a path. *)
Inductive LoginReply :=
| LoginOk (token cookie_path : pystr)
| LoginStatus (code : Z)
| LoginValueError.

Definition cookie_path (config : ServerConfig) : pystr :=
  match cfg_mount_code config with Some code => py "/m/" ++ code ++ py "/" | None => py "/" end.

Definition login (config : ServerConfig) (secret_key : pystr) (now : time) (password : pystr) : LoginReply :=
  match cfg_password_hash config with
  | None => LoginStatus 400
  | Some password_hash =>
      if bool_decide (password = []) then LoginStatus 401
      else match verify_password checkpw password password_hash with
           | inl _ => LoginValueError
           | inr false => LoginStatus 401
           | inr true => LoginOk (create_token secret_key now) (cookie_path config)
           end
  end.

(** [set_cookie] with an empty value and no life time. *)
Definition logout (config : ServerConfig) : pystr * pystr * Z := ([], cookie_path config, 0).

End auth.

(** ** The share target *)

Section share_target.
Context `{Hmac} (base : list (list Z)) (config : ServerConfig) (headers : list (pystr * pystr)).

Definition share_upload (files : list (pystr * bytes)) (st : api_state) : api_state * (ApiExn + unit) :=
  match require_write_access config headers with
  | inl e => (st, inl (ApiGuard e))
  | inr _ =>
      if bool_decide (files = []) then (st, inl ApiValueError)
      else let '(t, r) := upload_each base [] (Some RENAME) files [] (st_fs st) in
           (with_fs st t, _ ← of_fs r; inr tt)
  end.

End share_target.

(** ** The gate after a login *)

Section gate.
Context {T : TimedSerializer} `{U : !UntimedSerializer T} `{Hmac} (checkpw : bytes → bytes → option bool).
Context (session_cookie : pystr → option pystr).

Lemma created_valid key now : validate_token key (create_token key now) = true.
Proof. unfold validate_token, create_token. by rewrite us_signed. Qed.

Lemma created_other key key' now : key ≠ key' → validate_token key' (create_token key now) = false.
Proof. intros. unfold validate_token, create_token. by rewrite us_key. Qed.

(** C17: The password of a server.  Exactly the right password gets a cookie, for the path
    of the mount; a request with that cookie passes the gate at any later time, since
    the token has no end; and after a restart, with a new secret, it is refused unless
    its path is not guarded or the relay vouches for the user. *)
Theorem password_gate config key t password h items path :
  cfg_password_hash config = Some h →
  (∀ token p, login checkpw config key t password = LoginOk token p ↔
     verify_password checkpw password h = inr true ∧ token = create_token key t ∧ p = cookie_path config) ∧
  (∀ p token b, login checkpw config key t password = LoginOk token p →
     let cookie := default [] (dict_get (py "cookie") (reverse items)) in
     cookie ≠ [] → session_cookie cookie = Some token → is_auth_bypassed config (lower_dict items) = inr b →
     auth_middleware session_cookie (validate_token key) config path items = inr PassThrough ∧
     ∀ key', key ≠ key' →
       auth_middleware session_cookie (validate_token key') config path items
       = inr (if negb (startswith path GUARDED_PREFIX) || existsb (startswith path) EXEMPT_API_PREFIXES || b
              then PassThrough else Unauthorized401)).
Proof.
  intros Hpw. assert (∀ token p, login checkpw config key t password = LoginOk token p ↔
     verify_password checkpw password h = inr true ∧ token = create_token key t ∧ p = cookie_path config) as Hlogin.
  { intros token p. unfold login. rewrite Hpw. case_bool_decide as Hp.
    - subst. split; [done|]. intros [Hv _]. unfold verify_password in Hv. done.
    - destruct (verify_password checkpw password h) as [e|[]]; naive_solver. }
  split; [done|]. intros p token b (_ & -> & _)%Hlogin. cbv zeta. intros Hck Htok Hby.
  unfold auth_middleware. rewrite Hby, (bool_decide_eq_false_2 _ Hck), Htok. cbn [mbind sum_bind].
  split; [|intros key' Hne]; rewrite ?created_valid, ?(created_other key key') by done;
    destruct (startswith path GUARDED_PREFIX), (existsb (startswith path) EXEMPT_API_PREFIXES), b; done.
Qed.

End gate.

(** What comes in through the share target is never the upload of a RECEIVE user: the
    owners are not recorded, so the user neither sees nor reads the file. *)
Theorem share_upload_unowned `{Hmac} base config headers u files st path k :
  acts_as config headers u RECEIVE → _norm path = inr k → tb_owners (st_db st) !! k ≠ Some u →
  let st' := (share_upload base config headers files st).1 in
  st_db st' = st_db st ∧ download_single_file base config headers path st' = inl (ApiFs FileNotFoundError).
Proof.
  intros Ha Hk Ho. cbv zeta. assert (st_db (share_upload base config headers files st).1 = st_db st) as Hdb.
  { unfold share_upload. destruct (require_write_access config headers); [done|]. case_bool_decide; [done|].
    by destruct (upload_each _ _ _ _ _ _). }
  split; [done|]. rewrite (receive_download base config headers u path _ k) by done.
  rewrite Hdb. by rewrite decide_False.
Qed.

(** ** Witness *)

Definition plain_untimed_loads (key salt token : pystr) : LoadError + json :=
  if startswith token (plain_prefix key salt) then
    match drop (length (plain_prefix key salt)) token with
    | _ :: body => match loads body with inr v => inr v | inl _ => inl BadSignature end
    | [] => inl BadSignature
    end
  else inl BadSignature.

Lemma plain_key_other key key' salt rest :
  key ≠ key' → startswith (plain_prefix key salt ++ rest) (plain_prefix key' salt) = false.
Proof.
  intros Hne. apply not_true_iff_false. intros [k Hk]%startswith_spec. apply Hne.
  unfold plain_prefix in Hk. rewrite <-!app_comm_cons in Hk. injection Hk as Hl Hk.
  rewrite <-!(assoc_L (++)) in Hk. apply app_inj_1 in Hk as [? _]; [done|lia].
Qed.

Definition plain_untimed : UntimedSerializer plain_serializer.
Proof.
  refine {| us_loads := plain_untimed_loads |}; intros; cbn [ts_dumps plain_serializer]; unfold plain_untimed_loads.
  - rewrite startswith_app, drop_app_length. by rewrite loads_dumps.
  - by rewrite plain_key_other.
Defined.

Definition locked_config : ServerConfig :=
  {| cfg_password_hash := Some [Byte.x70]; cfg_read_only := false; cfg_receive := false;
     cfg_mount_code := None; cfg_identity_secret := None |}.

Definition locked_token : pystr := create_token (T := plain_serializer) (py "k") 0.

Lemma password_gate_witness :
  auth_middleware (H := hex_mac) (λ c, Some c) (validate_token (U := plain_untimed) (py "k")) locked_config
    (py "/api/files") [(py "cookie", locked_token)] = inr PassThrough.
Proof.
  assert (login (T := plain_serializer) (λ pw h, Some (bool_decide (pw = h))) locked_config (py "k") 0 (py "p")
          = LoginOk locked_token (cookie_path locked_config)) as Hlogin by by vm_compute.
  assert (default [] (dict_get (py "cookie") (reverse [(py "cookie", locked_token)])) = locked_token) as Hc by by vm_compute.
  assert (locked_token ≠ []) as Hne by by vm_compute.
  assert (is_auth_bypassed (H := hex_mac) locked_config (lower_dict [(py "cookie", locked_token)]) = inr false) as Hb
    by by vm_compute.
  pose proof (password_gate (U := plain_untimed) (H := hex_mac) (λ pw h, Some (bool_decide (pw = h))) (λ c, Some c) locked_config
    (py "k") 0 (py "p") [Byte.x70] [(py "cookie", locked_token)] (py "/api/files") eq_refl) as [_ H].
  rewrite Hc in H. exact (proj1 (H _ _ false Hlogin Hne eq_refl Hb)).
Defined.
