(* ===== verification/Storage.v ===== *)
(** What the relay stores itself: the files of its users
    ([src/relay/app/services/user_storage.py], [routers/user_storage.py]) and the life
    times of uploaded files ([services/file_ttl_db.py], [services/file_ttl_sweep.py],
    the second half of [upload_files] and [get_files] of the server).

    The user's directory and the drop box are directories of the file system of
    [Files].  A request is one step here.  The content length is the number in the
    header, 0 without one. *)

From stdpp Require Import strings.
From S2P Require Import Prelude Json Session Accounts Registry Identity Files StateStore FilesApi RelayAuth.

(** ** [user_storage.py] *)

Inductive StorageExn :=
| StRelay (e : RelayExn)
| StAccount (e : AccountExn)
| StFs (e : FsExn)
| StValueError.

Abbreviation Sto := (M (gmap (list (list Z)) node) StorageExn).

(** [path.mkdir(parents=True, exist_ok=True)] below [done]: a directory is made where the
    path to it leads, a dangling link is in the way. *)
Fixpoint mkdirs (t : fs) (done rest : path) : FsExn + fs :=
  match rest with
  | [] => inr t
  | c :: rest' =>
      let p := done ++ [c] in
      match stat t p with
      | Some FDir => mkdirs t p rest'
      | Some _ => inl (match rest' with [] => FileExistsError | _ => NotADirectoryError end)
      | None =>
          match resolve MAX_LINKS t [] done with
          | None => inl SymlinkLoop
          | Some q =>
              match t !! (q ++ [c]) with
              | Some _ => inl FileExistsError
              | None => mkdirs (<[q ++ [c] := FDir]> t) p rest'
              end
          end
      end
  end.

Definition user_path (data_dir : path) (user_id : Z) : path := data_dir ++ [py "users"; dump_nat user_id].

Definition user_dir (data_dir : path) (user_id : Z) : Sto (list (list Z)) := λ t,
  if user_id <=? 0 then (t, inl StValueError)
  else match mkdirs t [] (user_path data_dir user_id) with
       | inl e => (t, inl (StFs e))
       | inr t' => (t', inr (user_path data_dir user_id))
       end.

(** [os.walk]: the entries of real directories; [stat] follows the links among them. *)
Definition size_at (t : fs) (k : path) : Z :=
  match stat t k with Some (FFile c) => Z.of_nat (length c) | _ => 0 end.

Definition usage_below (t : fs) (root : path) : Z :=
  foldr Z.add 0 (size_at t <$> filter (λ k, root `prefix_of` k) (map_to_list t).*1).

Definition usage_bytes (data_dir : path) (user_id : Z) : Sto Z := λ t,
  match user_dir data_dir user_id t with
  | (t', inl e) => (t', inl e)
  | (t', inr root) =>
      (t', inr match resolve MAX_LINKS t' [] root with Some r => usage_below t' r | None => 0 end)
  end.

Definition quota_bytes (default_quota_bytes : Z) (user_id : Z) (db : AccountDb) : StorageExn + Z :=
  match (get_user_quota user_id db).2 with
  | inl QuotaNotSetError => inr default_quota_bytes
  | inl e => inl (StAccount e)
  | inr q => inr q
  end.

Definition remaining_bytes (data_dir : path) (default_quota_bytes : Z) (user_id : Z) (db : AccountDb) : Sto Z :=
  quota ← lift_res (quota_bytes default_quota_bytes user_id db);
  usage ← usage_bytes data_dir user_id;
  mret (Z.max 0 (quota - usage)).

(** ** The endpoints under [/me] *)

(** A call of the file service. *)
Definition on_fs {A} (f : gmap (list (list Z)) node → gmap (list (list Z)) node * (StorageExn + A)) : Sto A := f.

(** An answer, or a JSON error with its status. *)
Inductive storage_reply (A : Type) := Reply (a : A) | ErrorJson (status : Z).
Global Arguments Reply {A} a.
Global Arguments ErrorJson {A} status.

Section endpoints.
Context `{TimedSerializer} `{PyConv}.
Context (session : RelaySession) (data_dir : list (list Z)) (default_user_quota_bytes : Z).
Context (now : time) (cookie : option pystr) (db : AccountDb).

Definition identified : Sto SessionIdentity :=
  lift_res match get_current_identity session now cookie with inl e => inl (StRelay e) | inr i => inr i end.

Definition get_quota : Sto (Z * Z) :=
  identity ← identified;
  usage ← usage_bytes data_dir (si_user_id identity);
  quota ← lift_res (quota_bytes default_user_quota_bytes (si_user_id identity) db);
  mret (usage, quota).

Definition list_files (path : pystr) : Sto (storage_reply (list FileEntry)) :=
  identity ← identified;
  base ← user_dir data_dir (si_user_id identity);
  on_fs (λ t, (t, match list_directory base path t with
                  | inr listing => inr (Reply listing)
                  | inl PathTraversalError => inr (ErrorJson 403)
                  | inl FileNotFoundError => inr (ErrorJson 404)
                  | inl e => inl (StFs e)
                  end)).

(** The errors of [upload_file] that become answers. *)
Definition upload_error {A} (e : FsExn) : StorageExn + storage_reply A :=
  match e with
  | PathTraversalError => inr (ErrorJson 403)
  | InvalidFileNameError => inr (ErrorJson 400)
  | FileConflictError _ => inr (ErrorJson 409)
  | _ => inl (StFs e)
  end.

Definition upload (files : list (pystr * bytes)) (path : pystr) (conflict_resolution : option ConflictResolution)
    (declared : Z) : Sto (storage_reply (list UploadResult)) :=
  identity ← identified;
  base ← user_dir data_dir (si_user_id identity);
  quota ← lift_res (quota_bytes default_user_quota_bytes (si_user_id identity) db);
  current ← usage_bytes data_dir (si_user_id identity);
  if negb (declared =? 0) && (quota <? current + declared) then mret (ErrorJson 413)
  else on_fs (λ t,
    match upload_each base path conflict_resolution files [] t with
    | (t1, inl e) => (t1, upload_error e)
    | (t1, inr results) =>
        match usage_bytes data_dir (si_user_id identity) t1 with
        | (t2, inl e) => (t2, inl e)
        | (t2, inr usage) =>
            if quota <? usage then
              match delete_paths base (rel_key path <$> (ur_name <$> results)) [] t2 with
              | (t3, inl e) => (t3, inl (StFs e))
              | (t3, inr _) => (t3, inr (ErrorJson 413))
              end
            else (t2, inr (Reply results))
        end
    end).

(** A NUL in the path is a [ValueError]; [InvalidFileRequestError] is none. *)
Definition download (path : pystr) : Sto (storage_reply (list (list Z))) :=
  identity ← identified;
  base ← user_dir data_dir (si_user_id identity);
  on_fs (λ t, (t, match download_file base path t with
                  | inr fp => inr (Reply fp)
                  | inl PathTraversalError => inr (ErrorJson 403)
                  | inl FileNotFoundError | inl FsValueError => inr (ErrorJson 404)
                  | inl e => inl (StFs e)
                  end)).

Definition delete_ (paths : list pystr) : Sto (storage_reply (list pystr)) :=
  identity ← identified;
  base ← user_dir data_dir (si_user_id identity);
  on_fs (λ t, match delete_paths base paths [] t with
              | (t', inr deleted) => (t', inr (Reply deleted))
              | (t', inl PathTraversalError) => (t', inr (ErrorJson 403))
              | (t', inl FileNotFoundError) => (t', inr (ErrorJson 404))
              | (t', inl e) => (t', inl (StFs e))
              end).

End endpoints.

(** ** [file_ttl_db.py]

    A table of the time of expiry and of creation, for a mount and a path. *)

Record FileTtlDb := { ft_rows : gmap (list Z * list Z) (Z * Z) }.

Definition record_file_ttl (now : time) (mount_code file_path : pystr) (ttl_seconds : Z) (db : FileTtlDb) : FileTtlDb :=
  {| ft_rows := <[(mount_code, file_path) := (now + seconds ttl_seconds, now)]> (ft_rows db) |}.

(** The [SELECT] of the expired records. *)
Definition get_expired (now : time) (db : FileTtlDb) : list (pystr * pystr * time) :=
  omap (λ kv, if kv.2.1 <=? now then Some (kv.1, kv.2.1) else None) (map_to_list (ft_rows db)).

Definition get_expired_for_mount (now : time) (mount_code : pystr) (db : FileTtlDb) : list (pystr * time) :=
  omap (λ kv, if bool_decide (kv.1.1 = mount_code) && (kv.2.1 <=? now) then Some (kv.1.2, kv.2.1) else None)
    (map_to_list (ft_rows db)).

Definition delete_record (mount_code file_path : pystr) (db : FileTtlDb) : FileTtlDb :=
  {| ft_rows := delete (mount_code, file_path) (ft_rows db) |}.

Definition get_ttl_for_mount (mount_code : pystr) (db : FileTtlDb) : list (pystr * time) :=
  omap (λ kv, if bool_decide (kv.1.1 = mount_code) then Some (kv.1.2, kv.2.1) else None)
    (map_to_list (ft_rows db)).

Definition delete_expired_for_mount (now : time) (mount_code : pystr) (db : FileTtlDb) : FileTtlDb * list pystr :=
  ({| ft_rows := filter (λ kv, ¬ (kv.1.1 = mount_code ∧ kv.2.1 ≤ now)) (ft_rows db) |},
   (get_expired_for_mount now mount_code db).*1).

(** ** [file_ttl_sweep.py] *)

Definition dropbox_dir (data_dir : path) : path := data_dir ++ [py "dropbox"].

(** [data_dir / "dropbox" / file_path.lstrip("/")]: pathlib drops empty components and
    dots. *)
Definition full_path (data_dir : path) (file_path : pystr) : path :=
  dropbox_dir data_dir ++ filter (λ c, is_dot c = false) (split_on slash (lstrip_slash file_path)).

(** [os.remove(p)]: links on the way are followed, the last name is not; [None] is an
    [OSError]. *)
Definition os_remove (t : fs) (p : path) : option fs :=
  match last p with
  | None => None
  | Some c =>
      if is_dotdot c then None
      else match resolve MAX_LINKS t [] (removelast p) with
           | None => None
           | Some d => match t !! (d ++ [c]) with
                       | None => None
                       | Some FDir => None
                       | Some _ => Some (delete (d ++ [c]) t)
                       end
           end
  end.

Record ttl_state := { ts_fs : gmap (list (list Z)) node; ts_ttl : FileTtlDb }.

(** The loop over the expired records; it collects the deleted files. *)
Fixpoint sweep_each (data_dir : path) (dropbox_code : pystr) (expired : list (pystr * pystr * time))
    (deleted : list pystr) (st : ttl_state) : ttl_state * list pystr :=
  match expired with
  | [] => (st, deleted)
  | (mount_code, file_path, _) :: expired' =>
      let full := full_path data_dir file_path in
      let '(t, deleted') :=
        if bool_decide (mount_code = dropbox_code) && exists_ (ts_fs st) full then
          match os_remove (ts_fs st) full with
          | Some t => (t, deleted ++ [file_path])
          | None => (ts_fs st, deleted)
          end
        else (ts_fs st, deleted) in
      sweep_each data_dir dropbox_code expired' deleted'
        {| ts_fs := t; ts_ttl := delete_record mount_code file_path (ts_ttl st) |}
  end.

Definition file_ttl_sweep_once (now : time) (data_dir : path) (dropbox_code : pystr) (st : ttl_state)
    : ttl_state * list pystr :=
  sweep_each data_dir dropbox_code (get_expired now (ts_ttl st)) [] st.

(** ** The life times in the files API

    [ttl] is the parameter of the upload, [provider] the table of the host, if any. *)

Section ttl_api.
Context `{Hmac} (base : list (list Z)) (config : ServerConfig) (headers : list (pystr * pystr)).

Definition record_ttls (now : time) (mount_code dir : pystr) (ttl : Z) (results : list UploadResult) (db : FileTtlDb)
    : FileTtlDb :=
  foldl (λ db r, if bool_decide (ur_name r = []) then db
                 else record_file_ttl now mount_code (rel_key dir (ur_name r)) ttl db) db results.

Definition upload_with_ttl (now : time) (files : list (pystr * bytes)) (dir : pystr)
    (conflict_resolution : option ConflictResolution) (ttl : option Z) (st : api_state) (provider : option FileTtlDb)
    : api_state * option FileTtlDb * (ApiExn + list UploadResult) :=
  match upload_files base config headers files dir conflict_resolution st with
  | (st', inl e) => (st', provider, inl e)
  | (st', inr results) =>
      let effective_ttl := default 86400 ttl in
      let provider' :=
        if 0 <? effective_ttl then
          match cfg_mount_code config, provider with
          | Some mount_code, Some db => Some (record_ttls now mount_code dir effective_ttl results db)
          | _, _ => provider
          end
        else provider in
      (st', provider', inr results)
  end.

(** The time of expiry that a listing shows with an entry. *)
Definition expires_at (dir : pystr) (provider : option FileTtlDb) (e : FileEntry) : option time :=
  match cfg_mount_code config, provider with
  | Some mount_code, Some db => fst <$> ft_rows db !! (mount_code, rel_key dir (fe_name e))
  | _, _ => None
  end.

Definition get_files_with_ttl (dir : pystr) (st : api_state) (provider : option FileTtlDb)
    : ApiExn + list (FileEntry * option time) :=
  match get_files base config headers dir st with
  | inl e => inl e
  | inr es => inr ((λ e, (e, expires_at dir provider e)) <$> es)
  end.

End ttl_api.
