(* ===== verification/StorageProps.v ===== *)
(** What the relay's own storage guarantees: quotas, separate users, and files that
    expire when they should; and where it does not. *)

From stdpp Require Import strings.
From S2P Require Import Prelude Json Session Accounts Registry Identity Files FilesProps StateStore FilesApi FilesApiProps RelayAuth Storage.

Implicit Types t : gmap (list (list Z)) node.

(** ** The sweep of expired files *)

Lemma filter_clean (names : list pystr) :
  Forall plain_name names → filter (λ c, is_dot c = false) names = names.
Proof.
  induction 1 as [|c names [[Hc _] _] _ IH]; [done|]. rewrite filter_cons_True by done. by rewrite IH.
Qed.

Lemma full_path_plain data_dir names :
  names ≠ [] → Forall plain_name names → full_path data_dir (join_slash names) = dropbox_dir data_dir ++ names.
Proof.
  intros Hne Hn. unfold full_path. rewrite lstrip_slash_nop by by apply join_slash_head.
  rewrite split_join; [by rewrite filter_clean|done|]. eapply Forall_impl; [exact Hn|]. by intros c (_ & ? & _).
Qed.

(** [os.remove] of a path below a folder without links. *)
Lemma os_remove_real base t (names : list pystr) :
  share_ok base t → names ≠ [] → Forall plain_name names →
  os_remove t (base ++ names)
  = match t !! (base ++ names) with
    | Some FDir | None => None
    | Some _ => Some (delete (base ++ names) t)
    end.
Proof.
  intros Hs Hne Hn. destruct (exists_last Hne) as (s & c & ->).
  apply Forall_app in Hn as [Hns Hc]. apply Forall_cons in Hc as [Hc _]. rewrite (assoc_L (++)).
  unfold os_remove. rewrite last_snoc, removelast_last. destruct Hc as [[_ Hdd] _]. rewrite Hdd.
  rewrite (resolve_self MAX_LINKS t [] (base ++ s)); [|cbn [app]; by apply share_link_free|].
  - cbn [app]. by destruct (t !! ((base ++ s) ++ [c])) as [[]|].
  - apply Forall_app. split; [apply (share_base _ _ Hs)|]. eapply Forall_impl; [exact Hns|]. by intros ? [? _].
Qed.

Lemma exists_real base t (names : list pystr) :
  share_ok base t → Forall plain_name names → exists_ t (base ++ names) = bool_decide (is_Some (t !! (base ++ names))).
Proof.
  intros Hs Hn. unfold exists_. rewrite stat_real; [done|by apply share_link_free|].
  apply Forall_app. split; [apply (share_base _ _ Hs)|]. eapply Forall_impl; [exact Hn|]. by intros ? [? _].
Qed.

(** The records of the drop box name files by their path. *)
Definition records_plain (code : pystr) (recs : list (pystr * pystr * time)) : Prop :=
  Forall (λ r, r.1.1 = code → ∃ names, names ≠ [] ∧ Forall plain_name names ∧ r.1.2 = join_slash names) recs.

Definition due (data_dir : list (list Z)) (code : pystr) (recs : list (pystr * pystr * time)) (k : list (list Z)) : Prop :=
  Exists (λ r, r.1.1 = code ∧ full_path data_dir r.1.2 = k) recs.

#[local] Instance due_dec data_dir code recs k : Decision (due data_dir code recs k).
Proof. unfold due. apply _. Defined.

(** What is left of a node after the sweep. *)
Definition swept (data_dir : list (list Z)) (code : pystr) (recs : list (pystr * pystr * time)) t (k : list (list Z)) : option node :=
  match t !! k with
  | Some (FFile c) => if decide (due data_dir code recs k) then None else Some (FFile c)
  | o => o
  end.

(** One record of the sweep. *)
Lemma sweep_file data_dir code t (mount p : pystr) (e : time) :
  share_ok (dropbox_dir data_dir) t → records_plain code [(mount, p, e)] →
  let full := full_path data_dir p in
  let t' := if bool_decide (mount = code) && exists_ t full then default t (os_remove t full) else t in
  keeps (dropbox_dir data_dir) t t' ∧ (∀ k, t' !! k = swept data_dir code [(mount, p, e)] t k) ∧
  (t' = t ∨ mount = code ∧ ∃ c, t !! full = Some (FFile c)).
Proof.
  intros Hs Hr. cbv zeta. apply Forall_cons in Hr as [Hr _]. cbn [fst snd] in Hr.
  assert (∀ k, due data_dir code [(mount, p, e)] k ↔ mount = code ∧ full_path data_dir p = k) as Hdue.
  { intros k. unfold due. rewrite Exists_cons, Exists_nil. naive_solver. }
  assert (∀ k, (∀ c, t !! k = Some (FFile c) → ¬ (mount = code ∧ full_path data_dir p = k)) →
     t !! k = swept data_dir code [(mount, p, e)] t k) as Hid.
  { intros k Hk. unfold swept. destruct (t !! k) as [[]|]; try done. rewrite decide_False; [done|].
    rewrite Hdue. by eapply Hk. }
  case_bool_decide as Hm; cbn [andb]; last first.
  { split; [by apply keeps_refl|]. split; [|by left]. intros k. apply Hid. naive_solver. }
  destruct (Hr Hm) as (names & Hne & Hn & ->). rewrite full_path_plain in * by done.
  rewrite (exists_real (dropbox_dir data_dir)), os_remove_real by done.
  set (q := dropbox_dir data_dir ++ names) in *.
  destruct (t !! q) as [[c| |tg]|] eqn:Hq; cbn.
  - assert (dropbox_dir data_dir `prefix_of` q) as Hpre by by apply prefix_app_r.
    split; [apply share_delete; [done..|congruence]|]. split; [|eauto]. intros k. unfold swept.
    destruct (decide (k = q)) as [->|Hk].
    + rewrite lookup_delete_eq, Hq. rewrite decide_True; [done|]. by rewrite Hdue.
    + rewrite lookup_delete_ne by done. destruct (t !! k) as [[]|]; try done.
      rewrite decide_False; [done|]. rewrite Hdue. naive_solver.
  - split; [by apply keeps_refl|]. split; [|by left]. intros k. apply Hid. naive_solver.
  - exfalso. by apply (share_links _ _ Hs q tg); [apply prefix_app_r|].
  - split; [by apply keeps_refl|]. split; [|by left]. intros k. apply Hid. naive_solver.
Qed.

Lemma swept_cons data_dir code r recs t t' k :
  (∀ k, t' !! k = swept data_dir code [r] t k) →
  swept data_dir code recs t' k = swept data_dir code (r :: recs) t k.
Proof.
  intros Ht'. unfold swept. rewrite Ht'. unfold swept. destruct (t !! k) as [[c| |]|]; try done.
  assert (due data_dir code (r :: recs) k ↔ due data_dir code [r] k ∨ due data_dir code recs k) as Hd.
  { unfold due. rewrite !Exists_cons, Exists_nil. naive_solver. }
  destruct (decide (due data_dir code [r] k)) as [H1|H1], (decide (due data_dir code recs k)) as [H2|H2],
    (decide (due data_dir code (r :: recs) k)) as [H3|H3]; naive_solver.
Qed.

Lemma sweep_each_spec data_dir code recs deleted st :
  share_ok (dropbox_dir data_dir) (ts_fs st) → records_plain code recs →
  let '(st', deleted') := sweep_each data_dir code recs deleted st in
  keeps (dropbox_dir data_dir) (ts_fs st) (ts_fs st') ∧
  (∀ k, ts_fs st' !! k = swept data_dir code recs (ts_fs st) k) ∧
  ft_rows (ts_ttl st') = filter (λ kv, kv.1 ∉ recs.*1) (ft_rows (ts_ttl st)).
Proof.
  revert deleted st. induction recs as [|[[mount p] e] recs IH]; intros deleted st Hs Hr.
  { cbn. split; [by apply keeps_refl|]. split.
    - intros k. unfold swept. by destruct (ts_fs st !! k) as [[]|].
    - symmetry. apply map_filter_id. intros i x _. cbn. set_solver. }
  apply Forall_cons in Hr as [Hr Hrs]. cbn [sweep_each]. cbv zeta.
  destruct (sweep_file data_dir code (ts_fs st) mount p e) as (Hk & Hsw & _); [done|by apply Forall_cons_2; [|apply Forall_nil_2]|].
  set (full := full_path data_dir p) in *.
  assert (∃ d', (if bool_decide (mount = code) && exists_ (ts_fs st) full then
            match os_remove (ts_fs st) full with Some t => (t, deleted ++ [p]) | None => (ts_fs st, deleted) end
          else (ts_fs st, deleted)) = (if bool_decide (mount = code) && exists_ (ts_fs st) full
            then default (ts_fs st) (os_remove (ts_fs st) full) else ts_fs st, d')) as [d' ->].
  { destruct (bool_decide (mount = code) && exists_ (ts_fs st) full); [|by eexists].
    destruct (os_remove (ts_fs st) full); by eexists. }
  set (t' := if bool_decide (mount = code) && _ then _ else _) in *.
  specialize (IH d' {| ts_fs := t'; ts_ttl := delete_record mount p (ts_ttl st) |} (proj2 Hk) Hrs).
  destruct (sweep_each _ _ _ _ _) as [st' deleted']. cbn [ts_fs ts_ttl delete_record ft_rows] in IH.
  destruct IH as (Hk' & Hsw' & Hrows). split_and!.
  - destruct Hk as [H1 _], Hk' as [H2 H3]. split; [by etrans|done].
  - intros k. rewrite Hsw'. by apply swept_cons.
  - rewrite Hrows. apply map_eq. intros i. apply option_eq. intros x.
    rewrite !map_lookup_filter_Some, lookup_delete_Some. cbn. set_solver.
Qed.

Lemma elem_of_expired now db m p e :
  (m, p, e) ∈ get_expired now db ↔ ∃ made, ft_rows db !! (m, p) = Some (e, made) ∧ e ≤ now.
Proof.
  unfold get_expired. rewrite list_elem_of_omap. split.
  - intros ([[m' p'] [e' made]] & Hin & Hx). cbn in Hx. destruct (Z.leb_spec e' now); [|done].
    injection Hx as -> -> ->. exists made. split; [by apply elem_of_map_to_list|done].
  - intros (made & Hl & Hle). exists ((m, p), (e, made)). split; [by apply elem_of_map_to_list|]. cbn.
    destruct (Z.leb_spec e now); [done|lia].
Qed.

(** A sweep at time [now] removes exactly the files of the drop box whose recorded
    time has come, and the records of that time; it touches no other file, no
    directory, and nothing outside the drop box. *)
Theorem ttl_sweep_spec now data_dir code st :
  share_ok (dropbox_dir data_dir) (ts_fs st) →
  (∀ p v, ft_rows (ts_ttl st) !! (code, p) = Some v →
     ∃ names, names ≠ [] ∧ Forall plain_name names ∧ p = join_slash names) →
  let '(st', _) := file_ttl_sweep_once now data_dir code st in
  keeps (dropbox_dir data_dir) (ts_fs st) (ts_fs st') ∧
  ft_rows (ts_ttl st') = filter (λ kv, now < kv.2.1) (ft_rows (ts_ttl st)) ∧
  ∀ k, ts_fs st' !! k ≠ ts_fs st !! k ↔
    ∃ c names e made, ts_fs st !! k = Some (FFile c) ∧ k = dropbox_dir data_dir ++ names ∧
      ft_rows (ts_ttl st) !! (code, join_slash names) = Some (e, made) ∧ e ≤ now ∧
      names ≠ [] ∧ Forall plain_name names.
Proof.
  intros Hs Hp. unfold file_ttl_sweep_once. set (recs := get_expired now (ts_ttl st)).
  assert (records_plain code recs) as Hr.
  { apply Forall_forall. intros [[m p] e] (made & Hl & _)%elem_of_expired. cbn. intros ->. by eapply Hp. }
  pose proof (sweep_each_spec data_dir code recs [] st Hs Hr) as H.
  destruct (sweep_each data_dir code recs [] st) as [st' deleted]. destruct H as (Hk & Hsw & Hrows).
  split; [done|]. split.
  - rewrite Hrows. apply map_filter_ext. intros [m p] [e made] Hl. cbn.
    rewrite list_elem_of_fmap. split.
    + intros Hno. apply Z.nle_gt. intros Hle. apply Hno. exists (m, p, e). split; [done|].
      apply elem_of_expired. eauto.
    + intros Hlt ([[m' p'] e'] & [= -> ->] & (made1 & Hl' & Hle)%elem_of_expired). rewrite Hl in Hl'. naive_solver lia.
  - intros k. rewrite Hsw. unfold swept. split.
    + destruct (ts_fs st !! k) as [[c| |]|]; try done. destruct (decide (due data_dir code recs k)) as [Hd|]; [|done].
      intros _. unfold due in Hd. apply Exists_exists in Hd as ([[m p] e] & Hin & Hm & Hf). cbn in Hm, Hf. subst m.
      apply elem_of_expired in Hin as (made & Hl & Hle). destruct (Hp _ _ Hl) as (names & Hne & Hn & ->).
      rewrite full_path_plain in Hf by done. naive_solver.
    + intros (c & names & e & made & Hc & -> & Hl & Hle & Hne & Hn). rewrite Hc. rewrite decide_True; [done|].
      apply Exists_exists. exists (code, join_slash names, e). split; [apply elem_of_expired; eauto|].
      split; [done|]. by apply full_path_plain.
Qed.

(** ** Files that are meant to stay *)

Lemma upload_each_keeps base dir cr files results t :
  share_ok base t → keeps base t (upload_each base dir cr files results t).1.
Proof.
  revert results t. induction files as [|[name content] files IH]; intros results t Hs; [by apply keeps_refl|].
  cbn [upload_each]. pose proof (upload_keeps base t dir name content cr Hs) as Hk.
  destruct (upload_file base dir name content cr t) as [t' [e|r]]; [done|]. cbn [fst] in Hk.
  destruct Hk as [H1 H2], (IH (results ++ [r]) t' H2) as [H3 H4]. split; [by etrans|done].
Qed.

Lemma upload_files_keeps `{Hmac} base config headers files dir cr st :
  share_ok base (st_fs st) → keeps base (st_fs st) (st_fs (upload_files base config headers files dir cr st).1).
Proof.
  intros Hs. unfold upload_files. destruct (require_write_access config headers); [by apply keeps_refl|].
  pose proof (upload_each_keeps base dir cr files [] (st_fs st) Hs) as Hk.
  destruct (upload_each base dir cr files [] (st_fs st)) as [t [e|rs]]; [done|].
  destruct (trusted_user config headers) as [e|[who|]]; [done| |done]. by destruct (record_each dir who rs (st_db st)).
Qed.

(** A file uploaded without a life time (0) is deleted when the time of an earlier file of
    its name has come: the upload leaves the old record. *)
Theorem permanent_file_expires `{Hmac} config headers now later data_dir code name files cr st db e made :
  let base := dropbox_dir data_dir in
  share_ok base (st_fs st) → plain_name name →
  (∀ p v, ft_rows db !! (code, p) = Some v → ∃ names, names ≠ [] ∧ Forall plain_name names ∧ p = join_slash names) →
  ft_rows db !! (code, name) = Some (e, made) → e ≤ later →
  let '(st', provider, _) := upload_with_ttl base config headers now files [] cr (Some 0) st (Some db) in
  provider = Some db ∧
  ∀ c, ts_fs (file_ttl_sweep_once later data_dir code {| ts_fs := st_fs st'; ts_ttl := db |}).1 !! (base ++ [name])
       ≠ Some (FFile c).
Proof.
  cbv zeta. intros Hs Hn Hp Hrec Hle. unfold upload_with_ttl.
  destruct (upload_files_keeps (dropbox_dir data_dir) config headers files [] cr st Hs) as [_ Hs'].
  destruct (upload_files _ config headers files [] cr st) as [st' res]. cbn [fst] in Hs'.
  assert (∀ c, ts_fs (file_ttl_sweep_once later data_dir code {| ts_fs := st_fs st'; ts_ttl := db |}).1
            !! (dropbox_dir data_dir ++ [name]) ≠ Some (FFile c)) as Hgone; [|by destruct res].
  intros c. unfold file_ttl_sweep_once. cbn [ts_ttl]. set (recs := get_expired later db).
  assert (records_plain code recs) as Hr.
  { apply Forall_forall. intros [[m p] e'] (made' & Hl & _)%elem_of_expired. cbn. intros ->. by eapply Hp. }
  pose proof (sweep_each_spec data_dir code recs [] {| ts_fs := st_fs st'; ts_ttl := db |} Hs' Hr) as Hsp.
  destruct (sweep_each _ _ _ _ _) as [st2 deleted]. destruct Hsp as (_ & Hsw & _). cbn [fst ts_fs] in *.
  rewrite Hsw. unfold swept. destruct (st_fs st' !! _) as [[]|]; try done. rewrite decide_True; [done|].
  apply Exists_exists. exists (code, name, e). split; [apply elem_of_expired; eauto|]. split; [done|]. cbn.
  by apply (full_path_plain data_dir [name]); [|apply Forall_cons_2].
Qed.

(** ** The storage of a user *)

Lemma tree_prefix_dir t p q : tree_ok t → is_Some (t !! p) → q `prefix_of` p → q ≠ p → t !! q = Some FDir.
Proof.
  intros Ht Hp [s ->] Hne. destruct s as [|c s]; [by rewrite app_nil_r in Hne|].
  clear Hne. revert Hp. induction s as [|x s IH] using rev_ind; intros Hp; [by apply (Ht q c)|].
  apply IH. rewrite app_comm_cons, (assoc_L (++)) in Hp. rewrite (Ht _ _ Hp). by eexists.
Qed.

(** The directory of the user is there. *)
Lemma mkdirs_there base t pre rest :
  share_ok base t → pre ++ rest = base → mkdirs t pre rest = inr t.
Proof.
  intros Hs. revert pre. induction rest as [|c rest IH]; intros pre Heq; [done|]. cbn [mkdirs].
  assert (pre ++ [c] `prefix_of` base) as Hpre by (exists rest; by rewrite <-Heq, <-(assoc_L (++))).
  assert (t !! (pre ++ [c]) = Some FDir) as Hd.
  { destruct (decide (pre ++ [c] = base)) as [->|Hne]; [apply Hs|].
    apply (tree_prefix_dir t base); [apply Hs| |done|done]. rewrite (share_dir _ _ Hs). by eexists. }
  rewrite stat_real, Hd.
  - apply IH. by rewrite <-(assoc_L (++)).
  - eapply link_free_prefix; [apply (share_base _ _ Hs)|done].
  - destruct Hpre as [s Hpre]. pose proof (base_clean _ _ (share_base _ _ Hs)) as Hc. rewrite Hpre in Hc.
    by apply Forall_app in Hc as [? _].
Qed.

(** A listing is of a directory in the folder. *)
Lemma listing_inside base t rel es :
  share_ok base t → (∀ k, is_Some (t !! k) → Forall clean k) → list_directory base rel t = inr es →
  ∃ d, base `prefix_of` d ∧ resolve_safe_path base rel t = inr d ∧ t !! d = Some FDir ∧
    NoDup (fe_name <$> es) ∧ (∀ n, n ∈ fe_name <$> es ↔ is_Some (t !! (d ++ [n]))) ∧ Forall (describes t d) es.
Proof.
  intros Hs Hcl Hl. destruct (resolve_safe_path base rel t) as [e|d] eqn:Hr.
  { unfold list_directory in Hl. by rewrite Hr in Hl. }
  pose proof (list_directory_spec base t rel d Hs Hcl Hr) as Hd.
  destruct (safe_path_inside _ _ _ _ (share_base _ _ Hs) Hr) as (Hp & _).
  destruct (t !! d) as [[]|] eqn:Ed; [congruence| |congruence|congruence].
  destruct Hd as (es' & Hes & Hrest). rewrite Hl in Hes. injection Hes as <-. eauto 10.
Qed.

(** A download is of a file in the folder. *)
Lemma download_real_file base t rel p :
  share_ok base t → download_file base rel t = inr p → base `prefix_of` p ∧ ∃ c, t !! p = Some (FFile c).
Proof.
  intros Hs Hd. pose proof (share_base _ _ Hs) as Hb. destruct (download_file_inside _ _ _ _ Hb Hd) as [Hp Hnd].
  split; [done|]. unfold download_file in Hd. destruct (resolve_safe_path base rel t) as [|r] eqn:Hr; [done|].
  cbn [mbind sum_bind] in Hd. destruct (is_dir t r); [done|]. injection Hd as ->.
  destruct (decide (rel = [])) as [->|Hne].
  - unfold resolve_safe_path in Hr. rewrite (base_resolves t base Hb) in Hr. injection Hr as <-.
    by rewrite (share_dir _ _ Hs) in Hnd.
  - destruct (safe_path_inside _ _ _ _ Hb Hr) as (_ & _ & _ & Hsome). destruct (Hsome Hne) as [[c| |tg] Hn]; [eauto|done|].
    exfalso. by eapply (share_links _ _ Hs).
Qed.

Section storage.
Context `{T : TimedSerializer} `{P : PyConv}.
Context (session : RelaySession) (data_dir : list (list Z)) (default_quota : Z) (now : time) (cookie : option pystr).
Context (db : AccountDb) (i : SessionIdentity) (quota : Z).
Context (Hid : get_current_identity session now cookie = inr i) (Hpos : 0 < si_user_id i).
Context (Hquota : quota_bytes default_quota (si_user_id i) db = inr quota).

Local Definition base : list (list Z) := user_path data_dir (si_user_id i).

Lemma identified_is t : identified session now cookie t = (t, inr i).
Proof. unfold identified. by rewrite Hid. Qed.

Lemma user_dir_there t : share_ok base t → user_dir data_dir (si_user_id i) t = (t, inr base).
Proof.
  intros Hs. unfold user_dir. destruct (Z.leb_spec (si_user_id i) 0); [lia|].
  by rewrite (mkdirs_there base t []).
Qed.

Lemma usage_there t : share_ok base t → usage_bytes data_dir (si_user_id i) t = (t, inr (usage_below t base)).
Proof.
  intros Hs. unfold usage_bytes. rewrite user_dir_there by done.
  rewrite (resolve_self MAX_LINKS t [] base); [done|apply (share_base _ _ Hs)..].
Qed.

(** The upload after the check of the declared length. *)
Definition store_checked (files : list (pystr * bytes)) (dir : pystr) (cr : option ConflictResolution) t
    : gmap (list (list Z)) node * (StorageExn + storage_reply (list UploadResult)) :=
  match upload_each base dir cr files [] t with
  | (t1, inl e) => (t1, upload_error e)
  | (t1, inr results) =>
      if quota <? usage_below t1 base then
        match delete_paths base (rel_key dir <$> (ur_name <$> results)) [] t1 with
        | (t2, inl e) => (t2, inl (StFs e))
        | (t2, inr _) => (t2, inr (ErrorJson 413))
        end
      else (t1, inr (Reply results))
  end.

(** The upload, once the directory is there. *)
Lemma upload_there files dir cr declared t :
  share_ok base t →
  upload session data_dir default_quota now cookie db files dir cr declared t
  = if negb (declared =? 0) && (quota <? usage_below t base + declared) then (t, inr (ErrorJson 413))
    else store_checked files dir cr t.
Proof.
  intros Hs. unfold upload. unfold mbind, M_bind, mret, M_ret, lift_res; cbv beta iota.
  rewrite identified_is, user_dir_there by done. rewrite Hquota, usage_there by done.
  destruct (negb (declared =? 0) && (quota <? usage_below t base + declared)); [done|]. unfold on_fs, store_checked.
  pose proof (upload_each_keeps base dir cr files [] t Hs) as [_ Hs1].
  destruct (upload_each base dir cr files [] t) as [t1 [e|rs]]; [done|]. by rewrite usage_there.
Qed.

(** What follows once the declared length is accepted. *)
Lemma upload_accepted files dir cr t :
  share_ok base t →
  let '(t', r) := store_checked files dir cr t in
  same_outside base t t' ∧ ∀ results, r = inr (Reply results) → usage_below t' base ≤ quota.
Proof.
  intros Hs. unfold store_checked. pose proof (upload_each_keeps base dir cr files [] t Hs) as [Ho Hs1].
  destruct (upload_each base dir cr files [] t) as [t1 [e|rs]]; cbn [fst] in Ho, Hs1.
  { split; [done|]. by destruct e. }
  destruct (Z.ltb_spec quota (usage_below t1 base)); [|by split].
  destruct (delete_paths_outside base t1 (rel_key dir <$> (ur_name <$> rs)) []) as (_ & Ho' & _); [apply Hs1..|].
  destruct (delete_paths _ _ _ _) as [t2 [e|?]]; (split; [by etrans|done]).
Qed.

(** C19: The storage of a user is within the quota and apart from all other files.  An
    upload that is answered with its results leaves the user within the quota; one
    whose declared length does not fit changes nothing; uploads and deletions, whatever they
    answer, change nothing outside the user's directory.  A listing changes nothing and has exactly the
    entries of a directory inside the user's, each as it is; a download is a file inside it.  The
    quota and what is left of it are those of the user and of the files in that directory. *)
Theorem storage_confined t files dir cr declared paths path :
  share_ok base t →
  (let '(t', r) := upload session data_dir default_quota now cookie db files dir cr declared t in
   same_outside base t t' ∧
   (∀ results, r = inr (Reply results) → usage_below t' base ≤ quota) ∧
   (declared ≠ 0 → quota < usage_below t base + declared → t' = t ∧ r = inr (ErrorJson 413))) ∧
  same_outside base t (delete_ session data_dir now cookie paths t).1 ∧
  (let '(t', r) := list_files session data_dir now cookie path t in
   t' = t ∧ ((∀ k, is_Some (t !! k) → Forall clean k) → ∀ es, r = inr (Reply es) →
     ∃ d, base `prefix_of` d ∧ resolve_safe_path base path t = inr d ∧ t !! d = Some FDir ∧
       NoDup (fe_name <$> es) ∧ (∀ n, n ∈ fe_name <$> es ↔ is_Some (t !! (d ++ [n]))) ∧ Forall (describes t d) es)) ∧
  (let '(t', r) := download session data_dir now cookie path t in
   t' = t ∧ ∀ p, r = inr (Reply p) → base `prefix_of` p ∧ ∃ c, t !! p = Some (FFile c)) ∧
  get_quota session data_dir default_quota now cookie db t = (t, inr (usage_below t base, quota)) ∧
  remaining_bytes data_dir default_quota (si_user_id i) db t = (t, inr (Z.max 0 (quota - usage_below t base))).
Proof.
  intros Hs. pose proof (share_base _ _ Hs) as Hb. split_and!.
  - rewrite upload_there by done. pose proof (upload_accepted files dir cr t Hs) as Hacc.
    destruct (Z.eqb_spec declared 0) as [->|Hne]; cbn [negb andb].
    { destruct (store_checked files dir cr t). by destruct Hacc. }
    destruct (Z.ltb_spec quota (usage_below t base + declared)); [done|].
    destruct (store_checked files dir cr t). destruct Hacc. split_and!; [done..|lia].
  - unfold delete_, on_fs, mbind, M_bind; cbv beta iota. rewrite identified_is, user_dir_there by done.
    destruct (delete_paths_outside base t paths []) as (_ & Ho & _); [apply Hs..|].
    by destruct (delete_paths base paths [] t) as [t' [[]|]].
  - unfold list_files, on_fs, mbind, M_bind; cbv beta iota. rewrite identified_is, user_dir_there by done.
    split; [done|]. intros Hcl es He. apply listing_inside; [done..|].
    destruct (list_directory base path t) as [[]|]; by simplify_eq.
  - unfold download, on_fs, mbind, M_bind; cbv beta iota. rewrite identified_is, user_dir_there by done.
    split; [done|]. intros p. destruct (download_file base path t) as [e|q] eqn:Ed; [by destruct e|].
    intros [= <-]. by eapply download_real_file.
  - unfold get_quota, mbind, M_bind, mret, M_ret, lift_res; cbv beta iota.
    by rewrite identified_is, usage_there, Hquota by done.
  - unfold remaining_bytes, mbind, M_bind, mret, M_ret, lift_res; cbv beta iota. by rewrite Hquota, usage_there.
Qed.

(** ** Where the quota does not hold, and what it destroys *)

(** An upload that skips an existing file is rolled back by deleting that file, when the
    user is over the quota already (which an administrator may lower). *)
Theorem rollback_deletes_skipped name content c t :
  share_ok base t → validate_upload_filename name = inr name → plain_name name →
  t !! (base ++ [name]) = Some (FFile c) → quota < usage_below t base →
  upload session data_dir default_quota now cookie db [(name, content)] [] (Some SKIP) 0 t
  = (delete (base ++ [name]) t, inr (ErrorJson 413)).
Proof.
  intros Hs Hv Hn Hf Hover. pose proof (share_base _ _ Hs) as Hb. rewrite upload_there by done. cbn [negb andb Z.eqb]. unfold store_checked. cbn [upload_each].
  assert (resolve_safe_path base [] t = inr base) as Hroot.
  { unfold resolve_safe_path. by rewrite (base_resolves _ _ Hb). }
  rewrite (upload_skip base t [] base name content c); [|done..|by apply (share_no_links base)|done|done].
  destruct (Z.ltb_spec quota (usage_below t base)); [|lia]. cbn [app fmap list_fmap ur_name].
  change (rel_key [] name) with name. cbn [delete_paths].
  assert (resolve_safe_path base name t = inr (base ++ [name])) as ->.
  { apply (resolve_names t base [name]); try done; [by apply Forall_cons_2|by apply share_link_free]. }
  rewrite Hf. unfold is_dir. rewrite stat_real, Hf; [done|by apply share_link_free|].
  apply Forall_app. split; [apply Hb|]. apply Forall_cons_2; [apply Hn|done].
Qed.

(** A later file with a refused name ends the upload before the quota is checked again:
    the earlier files stay, whatever their size. *)
Theorem quota_bypassed name content t :
  share_ok base t → validate_upload_filename name = inr name → t !! (base ++ [name]) = None →
  upload session data_dir default_quota now cookie db [(name, content); ([], [])] [] None 0 t
  = (<[base ++ [name] := FFile content]> t, inr (ErrorJson 400)).
Proof.
  intros Hs Hv Hno. pose proof (share_base _ _ Hs) as Hb. rewrite upload_there by done. cbn [negb andb Z.eqb]. unfold store_checked. cbn [upload_each].
  assert (∀ t', share_ok base t' → resolve_safe_path base [] t' = inr base) as Hroot.
  { intros t' Hs'. unfold resolve_safe_path. by rewrite (base_resolves _ _ (share_base _ _ Hs')). }
  pose proof (upload_keeps base t [] name content None Hs) as Hk.
  assert (t !! base = Some FDir) as Hdir by apply Hs.
  assert (no_links_in t base) as Hnl by by apply (share_no_links base).
  rewrite (upload_fresh base t [] base name content None) in * by auto.
  destruct Hk as [_ Hk]. cbn [fst] in Hk. unfold upload_file. rewrite Hroot by done. done.
Qed.

End storage.

(** ** Witnesses *)

Definition relay_data : list (list Z) := [py "data"].

(** The drop box with two files, and the directory of user 1. *)
Definition relay_tree : gmap (list (list Z)) node :=
  list_to_map
    [([], FDir); (relay_data, FDir); (relay_data ++ [py "dropbox"], FDir);
     (relay_data ++ [py "dropbox"; py "a"], FFile [Byte.x01]); (relay_data ++ [py "dropbox"; py "b"], FFile [Byte.x02]);
     (relay_data ++ [py "users"], FDir); (relay_data ++ [py "users"; py "1"], FDir)].

Lemma relay_check : tree_check relay_tree = true.
Proof. by vm_compute. Qed.

Lemma dropbox_share : share_ok (dropbox_dir relay_data) relay_tree.
Proof. apply tree_check_ok; [apply relay_check|by apply clean_check|by vm_compute]. Qed.

Lemma user_share : share_ok (user_path relay_data 1) relay_tree.
Proof. apply tree_check_ok; [apply relay_check|by apply clean_check|by vm_compute]. Qed.

(** The file [a] expires at time 5, [b] at time 50. *)
Definition relay_ttl : FileTtlDb := {| ft_rows := <[(py "c", py "a") := (5, 0)]> {[(py "c", py "b") := (50, 0)]} |}.

Lemma relay_ttl_plain p v :
  ft_rows relay_ttl !! (py "c", p) = Some v → ∃ names, names ≠ [] ∧ Forall plain_name names ∧ p = join_slash names.
Proof.
  intros Hp. assert (p = py "a" ∨ p = py "b") as [-> | ->].
  { unfold relay_ttl in Hp. cbn [ft_rows] in Hp.
    apply lookup_insert_Some in Hp as [[[= <-] _]|[_ Hp]]; [by left|].
    apply lookup_singleton_Some in Hp as [[= <-] _]. by right. }
  - exists [py "a"]. split; [done|]. split; [|done]. apply (bool_decide_unpack _). by vm_compute.
  - exists [py "b"]. split; [done|]. split; [|done]. apply (bool_decide_unpack _). by vm_compute.
Qed.

Lemma ttl_sweep_spec_witness :
  ft_rows (ts_ttl (file_ttl_sweep_once 10 relay_data (py "c") {| ts_fs := relay_tree; ts_ttl := relay_ttl |}).1)
  = filter (λ kv, 10 < kv.2.1) (ft_rows relay_ttl).
Proof.
  pose proof (ttl_sweep_spec 10 relay_data (py "c") {| ts_fs := relay_tree; ts_ttl := relay_ttl |}
    dropbox_share relay_ttl_plain) as H.
  destruct (file_ttl_sweep_once 10 relay_data (py "c") {| ts_fs := relay_tree; ts_ttl := relay_ttl |}) as [st' deleted].
  exact (proj1 (proj2 H)).
Defined.

Definition user_token : pystr :=
  ts_dumps (TimedSerializer := plain_serializer) (py "k") _SESSION_SALT 0
    (JObj [(py "uid", JInt 1); (py "username", JStr (py "ann"))]).

Lemma user_token_ok :
  get_current_identity (H := plain_serializer) (H0 := no_conv) {| rs_secret_key := py "k" |} 0 (Some user_token)
  = inr {| si_user_id := 1; si_username := py "ann" |}.
Proof. by vm_compute. Qed.

(** Ann stores a file, and finds it in her listing. *)
Definition ann_tree : gmap (list (list Z)) node :=
  <[user_path relay_data 1 ++ [py "n.txt"] := FFile [Byte.x01; Byte.x02]]> relay_tree.

Lemma ann_share : share_ok (user_path relay_data 1) ann_tree.
Proof. apply tree_check_ok; [by vm_compute|by apply clean_check|by vm_compute]. Qed.

Lemma storage_confined_witness :
  let ses := {| rs_secret_key := py "k" |} in
  let base := user_path relay_data 1 in
  let '(t', r) := upload (H := plain_serializer) (H0 := no_conv) ses relay_data 100 0 (Some user_token) empty_db
                    [(py "m.txt", [Byte.x07])] [] None 1 ann_tree in
  (same_outside base ann_tree t' ∧ usage_below t' base ≤ 100) ∧
  (∃ es d, (list_files (H := plain_serializer) (H0 := no_conv) ses relay_data 0 (Some user_token) [] ann_tree).2
           = inr (Reply es) ∧ base `prefix_of` d ∧ Forall (describes ann_tree d) es ∧ length es = 1%nat) ∧
  (∃ p, (download (H := plain_serializer) (H0 := no_conv) ses relay_data 0 (Some user_token) (py "n.txt") ann_tree).2
        = inr (Reply p) ∧ base `prefix_of` p) ∧
  remaining_bytes relay_data 100 1 empty_db ann_tree = (ann_tree, inr (Z.max 0 (100 - usage_below ann_tree base))).
Proof.
  cbv zeta. pose (H := λ path, storage_confined (T := plain_serializer) (P := no_conv) {| rs_secret_key := py "k" |} relay_data 100 0
    (Some user_token) empty_db {| si_user_id := 1; si_username := py "ann" |} 100 user_token_ok eq_refl eq_refl
    ann_tree [(py "m.txt", [Byte.x07])] [] None 1 [] path ann_share).
  destruct (H []) as (Hup & _ & Hls & _ & _ & Hrem). destruct (H (py "n.txt")) as (_ & _ & _ & Hdl & _). clear H.
  assert (∀ k, is_Some (ann_tree !! k) → Forall clean k) as Hcl.
  { assert (Forall (λ kv : list (list Z) * node, Forall clean kv.1) (map_to_list ann_tree)) as Hall
      by (apply (bool_decide_unpack _); vm_compute; exact I).
    intros k [n Hn]. rewrite Forall_forall in Hall. apply (Hall (k, n)). by apply elem_of_map_to_list. }
  assert ((upload (H := plain_serializer) (H0 := no_conv) {| rs_secret_key := py "k" |} relay_data 100 0 (Some user_token)
    empty_db [(py "m.txt", [Byte.x07])] [] None 1 ann_tree).2 = inr (Reply [uploaded (py "m.txt") [Byte.x07]])) as Eu
    by (vm_compute; reflexivity).
  assert ((list_files (H := plain_serializer) (H0 := no_conv) {| rs_secret_key := py "k" |} relay_data 0 (Some user_token) []
    ann_tree).2 = inr (Reply [{| fe_name := py "n.txt"; fe_type := FILE; fe_size := Some 2 |}])) as El
    by (vm_compute; reflexivity).
  assert ((download (H := plain_serializer) (H0 := no_conv) {| rs_secret_key := py "k" |} relay_data 0 (Some user_token)
    (py "n.txt") ann_tree).2 = inr (Reply (user_path relay_data 1 ++ [py "n.txt"]))) as Ed by (vm_compute; reflexivity).
  destruct (upload _ _ _ _ _ _ _ _ _ _ ann_tree) as [t' r]. destruct (list_files _ _ _ _ [] ann_tree) as [tl rl].
  destruct (download _ _ _ _ (py "n.txt") ann_tree) as [td rd]. cbn [snd] in *.
  split; [|split; [|split; [|exact Hrem]]].
  - exact (conj (proj1 Hup) (proj1 (proj2 Hup) _ Eu)).
  - destruct (proj2 Hls Hcl _ El) as (d & Hp & _ & _ & _ & _ & Hf). eexists _, d.
    split; [exact El|]. split; [exact Hp|]. split; [exact Hf|reflexivity].
  - eexists. split; [exact Ed|]. exact (proj1 (proj2 Hdl _ Ed)).
Defined.
