(* ===== verification/Agent.v ===== *)
(** The agent, [src/agent/connection.py], [src/agent/auth.py], [src/agent/cli.py] and
    [src/shared/backoff.py]: the owner it is started for, the handshake it sends, the
    handlers of OPEN frames, one connection ([connect_and_serve]) and the loop that
    reconnects ([run_agent_loop]); and the control messages about expired files, which
    the relay answers in [src/relay/app/routers/agent_ws.py].

    What the network, the user and the relay answer during one connection is a value
    of [Env]; a run of the loop is a list of them.  Delays are exact rationals: the
    rounding of floats is left out, the overflow of the conversion from [int] is not. *)

From Stdlib Require Import QArith Qminmax.
From stdpp Require Import strings.
From S2P Require Import Prelude Frames Json Metadata Tunnel Accounts Session Identity AgentWs Files Storage.

Local Open Scope Z_scope.

(** ** Back-off, [compute_backoff] *)

Inductive BackoffExn := BackoffValueError | OverflowError.

(** [random.uniform(a, b)], for the value [u] of [random.random()] *)
Definition uniform (u a b : Q) : Q := (a + (b - a) * u)%Q.

(** [base * (2 ** (attempt - 1))] converts the power to a float, which overflows from
    [2 ** 1024] on. *)
Definition compute_backoff (u : Q) (attempt : Z) (base cap jitter_factor : Q) : BackoffExn + Q :=
  if attempt <? 1 then inl BackoffValueError
  else if Qle_bool base 0 then inl BackoffValueError
  else if negb (Qle_bool base cap) then inl BackoffValueError
  else if negb (Qle_bool 0 jitter_factor && Qle_bool jitter_factor 1) then inl BackoffValueError
  else if 1024 <=? attempt - 1 then inl OverflowError
  else
    let exp_delay := Qmin (base * inject_Z (2 ^ (attempt - 1))) cap in
    let jitter := (uniform u (- jitter_factor) jitter_factor * exp_delay)%Q in
    inr (Qmax 0 (exp_delay + jitter)).

(** ** The owner of a mount, [auth.py] and [cli.py] *)

Record AgentAllowEntry := {
  ae_subject_type : SubjectType;
  ae_subject_ref : pystr;
  ae_role : Role
}.

Record AgentOwner := {
  ow_username : pystr;
  ow_password : pystr;
  ow_access_mode : AccessMode;
  ow_allowlist : list AgentAllowEntry
}.

Definition subject_type_value (t : SubjectType) : pystr :=
  match t with USER => py "user" | GROUP => py "group" end.

Definition access_mode_value (m : AccessMode) : pystr :=
  match m with OPEN_MODE => py "open" | RESTRICTED => py "restricted" | LEGACY => py "legacy" end.

(** [s.partition(c)] and [s.rpartition(c)]: [None] when there is no [c]. *)
Fixpoint partition (c : Z) (s : pystr) : option (pystr * pystr) :=
  match s with
  | [] => None
  | x :: s' => if x =? c then Some ([], s') else '(a, b) ← partition c s'; Some (x :: a, b)
  end.

Definition rpartition (c : Z) (s : pystr) : option (pystr * pystr) :=
  '(a, b) ← partition c (reverse s); Some (reverse b, reverse a).

Inductive AllowError := AllowShape | AllowReference | AllowType | AllowRole.

Definition parse_allow_entry (spec : pystr) : AllowError + AgentAllowEntry :=
  match partition colon spec with
  | None => inl AllowShape
  | Some (type_str, rest) =>
      match rpartition colon rest with
      | None => inl AllowShape
      | Some (ref, role_str) =>
          let ref := strip ref in
          if bool_decide (ref = []) then inl AllowReference
          else
            match subject_type_of (JStr (strip type_str)) with
            | None => inl AllowType
            | Some t =>
                match role_of (JStr (strip role_str)) with
                | None => inl AllowRole
                | Some r => inr {| ae_subject_type := t; ae_subject_ref := ref; ae_role := r |}
                end
            end
      end
  end.

(** [sys.exit(1)] of [_build_owner], and the [ValueError] of [AccessMode]. *)
Inductive OwnerError :=
| RestrictedNeedsLogin
| PasswordRequired
| UnknownAccessMode
| BadAllow (e : AllowError).

Fixpoint parse_allow_entries (specs : list pystr) : AllowError + list AgentAllowEntry :=
  match specs with
  | [] => inr []
  | spec :: specs' => e ← parse_allow_entry spec; es ← parse_allow_entries specs'; inr (e :: es)
  end.

(** [_build_owner]; [password] is what the terminal or the standard input gives. *)
Definition _build_owner (login access_mode : option pystr) (allow : list pystr) (password : pystr)
    : OwnerError + option AgentOwner :=
  match login with
  | None =>
      if bool_decide (access_mode = Some (access_mode_value RESTRICTED)) then inl RestrictedNeedsLogin
      else inr None
  | Some login =>
      if bool_decide (password = []) then inl PasswordRequired
      else
        match (match access_mode with Some m => access_mode_of (JStr m) | None => Some RESTRICTED end) with
        | None => inl UnknownAccessMode
        | Some mode =>
            match parse_allow_entries allow with
            | inl e => inl (BadAllow e)
            | inr allowlist =>
                inr (Some {| ow_username := login; ow_password := password;
                             ow_access_mode := mode; ow_allowlist := allowlist |})
            end
        end
  end.

(** ** Exceptions *)

Inductive AuthFailure := Unreachable | Rejected | AuthStatus (status : Z) | NoToken.

Inductive Failure :=
| FConn (e : ConnExn)
| FJson (e : jexn)
| FAttributeError
| FValueError
| FKeyError
| FTypeError
| FApp.

(** What leaves [connect_and_serve]: the two exceptions of the agent, the two that are
    no [Exception], and any other. *)
Inductive AgentExn :=
| AgentExpiredError
| AgentAuthError (e : AuthFailure)
| KeyboardInterrupt
| CancelledError
| Failed (e : Failure).

(** ** The owner's token, [fetch_agent_token] *)

(** The answer of the relay to the POST: an [httpx.HTTPError], or status and text. *)
Inductive HttpAnswer := HttpError | HttpResponse (status : Z) (text : pystr).

Section agent.
Context `{PyConv} {W : Type} `{!WebSocketProtocol W}.

Abbreviation conn := (TunnelConnection W).
Abbreviation C A := (M conn ConnExn A).

Definition fetch_agent_token (resp : HttpAnswer) : Agent.AgentExn + json :=
  match resp with
  | HttpError => inl (AgentAuthError Unreachable)
  | HttpResponse status text =>
      if status =? 401 then inl (AgentAuthError Rejected)
      else if negb (status =? 200) then inl (AgentAuthError (AuthStatus status))
      else
        match loads text with
        | inl e => inl (Failed (FJson e))
        | inr (JObj data) =>
            let token := get_or (py "token") JNull data in
            if truthy token then inr token else inl (AgentAuthError NoToken)
        | inr _ => inl (Failed FAttributeError)
        end
  end.

(** ** The handshake *)

Definition allow_json (e : AgentAllowEntry) : json :=
  JObj [(py "subject_type", JStr (subject_type_value (ae_subject_type e)));
        (py "subject_ref", JStr (ae_subject_ref e));
        (py "role", JStr (role_value (ae_role e)))].

Definition agent_auth_message (identity_secret : pystr) (token : json) (has_password : bool)
    (owner : option AgentOwner) : list (pystr * json) :=
  [(py "type", JStr (py "agent_auth"));
   (py "protocol_version", JInt PROTOCOL_VERSION);
   (py "identity_secret", JStr identity_secret);
   (py "token", token);
   (py "access_mode",
     JStr (access_mode_value (match owner with Some o => ow_access_mode o | None => OPEN_MODE end)));
   (py "has_password", JBool has_password);
   (py "allowlist",
     JArr (allow_json <$> match owner with Some o => ow_allowlist o | None => [] end))].

(** ** Handlers of OPEN frames *)

(** [_reject_open]: best effort. *)
Definition _reject_open (request_id : UUID) : C unit :=
  try_except
    (_ ← send_data request_id (Z_byte <$> dumps (JObj [(py "status", JInt 400); (py "headers", JObj [])]));
     send_close request_id)
    (λ _, mret tt).

(** [on_open]; the task it starts is the reader of the stream ([EStartBody]). *)
Definition on_open (request_id : UUID) (payload : bytes) : C unit :=
  match request_from_payload payload with
  | inl e => if is_MetadataError e then _reject_open request_id else raise (Tun e)
  | inr _ => _ ← open_stream request_id; mret tt
  end.

Definition on_ws_open (request_id : UUID) (payload : bytes) : C unit :=
  match ws_open_from_payload payload with
  | inl e => if is_MetadataError e then send_ws_close request_id else raise (Tun e)
  | inr _ => _ ← open_stream request_id; mret tt
  end.

(** A reader of the agent that has ended, and the end of [drain]: [gather] returns
    when every handler has ended. *)
Definition handler_ended (p : Phase) : bool :=
  match p with Finished | Orphaned | Gone => true | _ => false end.

Definition drained (w : World (W := W)) : bool :=
  forallb (λ kv : nat * (UUID * Phase), handler_ended kv.2.2) (map_to_list (w_readers w)).

(** ** One connection *)

(** How the receive loop ends. *)
Inductive LoopExit := LoopOver | LoopRaised (e : ConnExn) | LoopCancelled | LoopInterrupted.

(** What happens during one connection.  [en_drains] says that the handlers end;
    [en_ttl_fired] that the TTL countdown, when there is one, has run out. *)
Record Env := {
  en_connect : option ConnExn;
  en_secret : pystr;
  en_auth : HttpAnswer;
  en_control : ConnExn + pystr;
  en_app : bool;
  en_loop : LoopExit;
  en_drains : bool;
  en_ttl_fired : bool
}.

(** [https] to [wss] and [http] to [ws], without trailing slashes. *)
Definition ws_base (relay_url : pystr) : pystr :=
  let base := rstrip_if (λ c, c =? slash) relay_url in
  if startswith base (py "https://") then py "wss://" ++ drop 8 base
  else if startswith base (py "http://") then py "ws://" ++ drop 7 base
  else base.

(** The preferred code is [None] ([JNull]) or what the relay assigned. *)
Definition ws_url (relay_url : pystr) (preferred_code : json) : pystr :=
  let url := ws_base relay_url ++ py "/agent/ws" in
  match preferred_code with JNull => url | code => url ++ py "?code=" ++ to_str code end.

(** [except (ConnectionError, ConnectionClosed, EOFError, OSError)] *)
Definition swallowed (e : ConnExn) : bool :=
  match e with ConnectionError | OSError | OtherTransport => true | _ => false end.

(** An error of the connection as an error of the caller. *)
Definition raising {E A} (f : ConnExn → E) (m : C A) : M conn E A := λ c,
  let '(c', r) := m c in (c', match r with inl e => inl (f e) | inr a => inr a end).

(** The code of the [mount_registered] message. *)
Definition assigned_code (control : json) : Agent.AgentExn + json :=
  match control with
  | JObj msg =>
      if negb (type_is (py "mount_registered") msg) then inl (Failed FValueError)
      else match dict_get (py "code") msg with Some code => inr code | None => inl (Failed FKeyError) end
  | _ => inl (Failed FAttributeError)
  end.

(** Up to the assigned code. *)
Definition register (has_password : bool) (owner : option AgentOwner) (env : Env)
    : M conn Agent.AgentExn json :=
  token ← lift_res (match owner with None => inr JNull | Some _ => fetch_agent_token (en_auth env) end);
  _ ← raising (λ e, Failed (FConn e)) (send_control (agent_auth_message (en_secret env) token has_password owner));
  control ← lift_res (match en_control env with
                      | inl e => inl (Failed (FConn e))
                      | inr text => match receive_control text with
                                    | inl e => inl (Failed (FConn e))
                                    | inr j => inr j
                                    end
                      end);
  lift_res (assigned_code control).

(** [connect_and_serve] on the new socket [ws]: the connection it leaves, and the
    result; [None] when it never returns. *)
Definition connect_and_serve (has_password has_ttl : bool) (owner : option AgentOwner) (ws : W) (env : Env)
    : conn * option (Agent.AgentExn + json) :=
  match en_connect env with
  | Some e => (init_connection ws, Some (inl (Failed (FConn e))))
  | None =>
      match register has_password owner env (init_connection ws) with
      | (c, inl e) => (c, Some (inl e))
      | (c, inr code) =>
          if en_app env then (c, Some (inl (Failed FApp)))
          else if negb (en_drains env) then (c, None)
          else
            let c := close c in
            (c, Some match en_loop env with
                     | LoopCancelled => inl CancelledError
                     | LoopInterrupted => inl KeyboardInterrupt
                     | LoopRaised e =>
                         if negb (swallowed e) then inl (Failed (FConn e))
                         else if has_ttl && en_ttl_fired env then inl AgentExpiredError
                         else inr code
                     | LoopOver => if has_ttl && en_ttl_fired env then inl AgentExpiredError else inr code
                     end)
      end
  end.

(** ** The reconnect loop *)

Inductive LoopEvent := Connect (url : pystr) | Slept (delay : Q).

Inductive LoopEnd :=
| MountExpired
| OwnerRefused (e : AuthFailure)
| Interrupted
| Cancelled
| Crashed (e : BackoffExn)
| Hung.

Inductive LoopStatus :=
| Retrying (attempt : Z) (last_code : json)
| Ended (e : LoopEnd).

Section loop.
Context (relay_url : pystr) (has_password has_ttl : bool) (owner : option AgentOwner) (ws : W).

Definition outcome (env : Env) : option (Agent.AgentExn + json) :=
  (connect_and_serve has_password has_ttl owner ws env).2.

(** [run_agent_loop], while the world does what [script] says; the rationals are the
    random numbers of the back-off. *)
Fixpoint run_agent_loop (attempt : Z) (last_code : json) (script : list (Env * Q))
    : list LoopEvent * LoopStatus :=
  match script with
  | [] => ([], Retrying attempt last_code)
  | (env, u) :: script' =>
      let connect := Connect (ws_url relay_url last_code) in
      match outcome env with
      | Some (inr code) =>
          let '(evs, s) := run_agent_loop 0 code script' in (connect :: evs, s)
      | Some (inl AgentExpiredError) => ([connect], Ended MountExpired)
      | Some (inl (AgentAuthError e)) => ([connect], Ended (OwnerRefused e))
      | Some (inl KeyboardInterrupt) => ([connect], Ended Interrupted)
      | Some (inl CancelledError) => ([connect], Ended Cancelled)
      | Some (inl (Failed _)) =>
          let attempt := attempt + 1 in
          match compute_backoff u attempt 1 60 (1 # 2) with
          | inl e => ([connect], Ended (Crashed e))
          | inr delay =>
              let '(evs, s) := run_agent_loop attempt last_code script' in
              (connect :: Slept delay :: evs, s)
          end
      | None => ([connect], Ended Hung)
      end
  end.
End loop.

(** ** Expired files *)

Definition has_path (item : json) : Failure + unit :=
  match item with
  | JObj l => match dict_get (py "path") l with Some _ => inr tt | None => inl FKeyError end
  | _ => inl FTypeError
  end.

Fixpoint print_paths (items : list json) : Failure + unit :=
  match items with [] => inr tt | x :: xs => _ ← has_path x; print_paths xs end.

(** [_handle_expired_files]; [answer] is the line the user types. *)
Definition _handle_expired_files (answer : pystr) (message : list (pystr * json)) : M conn Failure unit :=
  let expired_list := get_or (py "files") (JArr []) message in
  if negb (truthy expired_list) then mret tt
  else
    items ← lift_res (match iterate expired_list with Some l => inr l | None => inl FTypeError end);
    _ ← lift_res (print_paths items);
    let type := if bool_decide (lower (strip answer) = py "y")
                then py "delete_expired_files" else py "keep_expired_files" in
    raising FConn (send_control [(py "type", JStr type); (py "code", get_or (py "code") (JStr []) message)]).

(** The handler of control messages the agent sets. *)
Definition agent_control (answer : pystr) (message : list (pystr * json)) : M conn Failure unit :=
  if type_is (py "expired_files") message then _handle_expired_files answer message else mret tt.

End agent.

(** The prompt the relay sends to an agent that took over its mount ([num] writes a
    time stamp), when there is something to ask. *)
Definition expired_files_message (num : time → json) (code : pystr) (expired : list (pystr * time))
    : option (list (pystr * json)) :=
  match expired with
  | [] => None
  | _ => Some [(py "type", JStr (py "expired_files")); (py "code", JStr code);
               (py "files", JArr ((λ f, JObj [(py "path", JStr f.1); (py "expired_at", num f.2)]) <$> expired))]
  end.

(** A value as parameter of an SQL comparison with a text column: [inr None] is NULL. *)
Definition sql_text `{PyConv} (v : json) : Failure + option pystr :=
  match v with
  | JStr s => inr (Some s)
  | JNull => inr None
  | JBool b => inr (Some (if b then py "1" else py "0"))
  | JInt z => if (- 2 ^ 63 <=? z) && (z <? 2 ^ 63) then inr (Some (dump_int z)) else inl FValueError
  | JFloat _ => inr (Some (str_of_value v))
  | JArr _ | JObj _ => inl FValueError
  end.

(** [_handle_agent_control_for_mount] of the relay. *)
Definition _handle_agent_control_for_mount `{PyConv} (now : time) (msg : list (pystr * json)) (mount_code : pystr)
    (file_ttl_db : option FileTtlDb) : option FileTtlDb * (Failure + unit) :=
  if type_is (py "delete_expired_files") msg || type_is (py "keep_expired_files") msg then
    match file_ttl_db with
    | None => (None, inr tt)
    | Some db =>
        match sql_text (get_or (py "code") (JStr mount_code) msg) with
        | inl e => (Some db, inl e)
        | inr None => (Some db, inr tt)
        | inr (Some code) => (Some (delete_expired_for_mount now code db).1, inr tt)
        end
    end
  else (file_ttl_db, inr tt).
