(* ===== verification/AgentProps.v ===== *)
(** What the agent guarantees: its reconnect loop, the handshake as the relay reads it,
    and the streams its handlers open; and where it gets stuck. *)

From Stdlib Require Import QArith Qminmax Lqa.
From stdpp Require Import strings.
From S2P Require Import Prelude Frames Json Metadata Tunnel TunnelProps Accounts AccountsProps Registry Session Access Identity Proxy ProxyProps AgentWs Files Storage Agent.

Local Open Scope Z_scope.

(** ** Back-off *)

(** The delay without jitter after [n] failures. *)
Definition nominal_delay (n : Z) : Q := Qmin (inject_Z (2 ^ (n - 1))) 60.

Lemma nominal_pos n : 1 ≤ n → (1 <= nominal_delay n)%Q.
Proof.
  intros Hn. apply Q.min_glb; [|by vm_compute].
  change 1%Q with (inject_Z 1). rewrite <- Zle_Qle. pose proof (Z.pow_pos_nonneg 2 (n - 1)). lia.
Qed.

(** A delay between half and one and a half of the nominal one; or an overflow. *)
Lemma backoff_spec u n :
  1 ≤ n → (0 <= u <= 1)%Q →
  match compute_backoff u n 1 60 (1 # 2) with
  | inr d => n ≤ 1024 ∧ ((1 # 2) * nominal_delay n <= d <= (3 # 2) * nominal_delay n)%Q
  | inl e => 1024 < n ∧ e = OverflowError
  end.
Proof.
  intros Hn [Hu0 Hu1]. unfold compute_backoff. destruct (Z.ltb_spec n 1); [lia|].
  change (Qle_bool 1 0) with false. change (Qle_bool 1 60) with true.
  change (Qle_bool 0 (1 # 2) && Qle_bool (1 # 2) 1) with true. cbn [negb].
  destruct (Z.leb_spec 1024 (n - 1)); [by split; [lia|]|]. split; [lia|].
  assert (Qmin (1 * inject_Z (2 ^ (n - 1))) 60 == nominal_delay n)%Q as He.
  { unfold nominal_delay. by rewrite Qmult_1_l. }
  set (e := nominal_delay n) in *. pose proof (nominal_pos n Hn) as Hp. fold e in Hp.
  set (x := Qmin _ _) in *. unfold uniform.
  assert (0 <= x + (- (1 # 2) + ((1 # 2) - - (1 # 2)) * u) * x)%Q as Hnn by nra.
  rewrite (Q.max_r _ _ Hnn). split; nra.
Qed.

(** ** The reconnect loop *)

Section loop.
Context `{PyConv} {W : Type} `{!WebSocketProtocol W}.
Context (relay_url : pystr) (has_password has_ttl : bool) (owner : option AgentOwner) (ws : W).

Abbreviation result := (option (Agent.AgentExn + json)).
Abbreviation outcome := (outcome has_password has_ttl owner ws).
Abbreviation run := (run_agent_loop relay_url has_password has_ttl owner ws).
Abbreviation outcomes script := (outcome <$> script.*1).

(** The connections after which the loop goes on. *)
Definition retried (o : result) : bool :=
  match o with Some (inr _) | Some (inl (Failed _)) => true | _ => false end.

(** The failures in a row after each connection, [n] before the first. *)
Fixpoint rows (n : Z) (outs : list result) : list Z :=
  match outs with
  | [] => []
  | o :: outs' => let n' := match o with Some (inr _) => 0 | _ => n + 1 end in n' :: rows n' outs'
  end.

Definition failures_in_row (n : Z) (outs : list result) : Z := default n (last (rows n outs)).

(** The code the relay assigned last, [code] before the first connection. *)
Definition last_assigned (code : json) (outs : list result) : json :=
  fold_left (λ c o, match o with Some (inr c') => c' | _ => c end) outs code.

Definition random_numbers (script : list (Env * Q)) : Prop := Forall (λ x, (0 <= x.2 <= 1)%Q) script.

(** The loop goes through connections that end or fail, as long as there are no more
    than 1024 failures in a row. *)
Lemma run_retrying pre : ∀ n code,
  0 ≤ n → random_numbers pre → Forall (λ o, retried o = true) (outcomes pre) →
  Forall (λ k, k ≤ 1024) (rows n (outcomes pre)) →
  ∃ evs, run n code pre = (evs, Retrying (failures_in_row n (outcomes pre)) (last_assigned code (outcomes pre))).
Proof.
  induction pre as [|[env u] pre IH]; intros n code Hn Hu Hr Hk; [by exists []|].
  apply Forall_cons in Hu as [Hu Hus]. cbn in Hr, Hk. apply Forall_cons in Hr as [Hr Hrs].
  apply Forall_cons in Hk as [Hk Hks]. cbn [run_agent_loop fmap list_fmap fst].
  unfold failures_in_row, last_assigned. cbn [rows fold_left]. rewrite last_cons.
  destruct (outcome env) as [[[| | | |f]|c]|]; try done; cbn [rows] in *.
  - pose proof (backoff_spec u (n + 1) ltac:(lia) Hu) as Hb.
    destruct (compute_backoff _ _ _ _ _) as [e|d]; [lia|].
    destruct (IH (n + 1) code ltac:(lia) Hus Hrs Hks) as [evs ->]. eexists. f_equal. f_equal.
    unfold failures_in_row. by destruct (last (rows _ _)).
  - destruct (IH 0 c ltac:(lia) Hus Hrs Hks) as [evs ->]. eexists. f_equal. f_equal.
    unfold failures_in_row. by destruct (last (rows _ _)).
Qed.

Lemma run_app pre post : ∀ n code evs n' code',
  run n code pre = (evs, Retrying n' code') →
  run n code (pre ++ post) = (evs ++ (run n' code' post).1, (run n' code' post).2).
Proof.
  induction pre as [|[env u] pre IH]; intros n code evs n' code'; cbn [run_agent_loop app].
  { intros [= <- <- <-]. by destruct (run n code post). }
  destruct (outcome env) as [[[| | | |f]|c]|]; try done.
  - destruct (compute_backoff _ _ _ _ _) as [e|d]; [done|].
    destruct (run (n + 1) code pre) as [evs1 s1] eqn:E. intros [= <- ->]. by rewrite (IH _ _ _ _ _ E).
  - destruct (run 0 c pre) as [evs1 s1] eqn:E. intros [= <- ->]. by rewrite (IH _ _ _ _ _ E).
Qed.

Lemma failures_nonneg outs : ∀ n, 0 ≤ n → 0 ≤ failures_in_row n outs.
Proof.
  unfold failures_in_row.
  induction outs as [|o outs IH]; intros n Hn; [done|]. cbn [rows]. rewrite last_cons.
  specialize (IH (match o with Some (inr _) => 0 | _ => n + 1 end)).
  destruct (last (rows _ _)); cbn in *; [apply IH|]; destruct o as [[|]|]; lia.
Qed.

(** C26: The loop of the agent.  After any history of connections that ended or failed,
    with at most 1024 failures in a row, the next connection asks for the code that the
    relay assigned last.  When it ends normally, the loop connects again at once, with
    the new code and the count of failures at zero.  When it fails, the loop sleeps for
    the nominal delay (doubling from one second to a minute), give or take half of it,
    and connects again, except after the 1025th failure in a row, where the computation
    of the delay overflows and the agent ends.  The expiry of the mount, a refused owner
    and an interrupt end the loop. *)
Theorem agent_loop_spec pre env u post :
  random_numbers (pre ++ [(env, u)]) → Forall (λ o, retried o = true) (outcomes pre) →
  Forall (λ k, k ≤ 1024) (rows 0 (outcomes pre)) →
  let n := failures_in_row 0 (outcomes pre) in
  let code := last_assigned JNull (outcomes pre) in
  ∃ evs, run 0 JNull pre = (evs, Retrying n code) ∧
  let tried := evs ++ [Connect (ws_url relay_url code)] in
  let '(all, s) := run 0 JNull (pre ++ (env, u) :: post) in
  match outcome env with
  | Some (inr code') => all = tried ++ (run 0 code' post).1 ∧ s = (run 0 code' post).2
  | Some (inl (Failed _)) =>
      if n <? 1024 then
        ∃ delay, ((1 # 2) * nominal_delay (n + 1) <= delay <= (3 # 2) * nominal_delay (n + 1))%Q ∧
          all = tried ++ Slept delay :: (run (n + 1) code post).1 ∧ s = (run (n + 1) code post).2
      else all = tried ∧ s = Ended (Crashed OverflowError)
  | Some (inl AgentExpiredError) => all = tried ∧ s = Ended MountExpired
  | Some (inl (AgentAuthError e)) => all = tried ∧ s = Ended (OwnerRefused e)
  | Some (inl KeyboardInterrupt) => all = tried ∧ s = Ended Interrupted
  | Some (inl CancelledError) => all = tried ∧ s = Ended Cancelled
  | None => all = tried ∧ s = Ended Hung
  end.
Proof.
  intros [Hu Hu1]%Forall_app Hr Hk n code. apply Forall_cons in Hu1 as [Hu1 _]. cbn in Hu1.
  destruct (run_retrying pre 0 JNull ltac:(done) Hu Hr Hk) as [evs Hrun].
  exists evs. split; [done|]. cbv zeta. rewrite (run_app _ ((env, u) :: post) _ _ _ _ _ Hrun).
  fold n code. cbn [run_agent_loop]. assert (0 ≤ n) by by apply failures_nonneg.
  destruct (outcome env) as [[[| | | |f]|c]|]; try done.
  - pose proof (backoff_spec u (n + 1) ltac:(lia) Hu1) as Hb.
    destruct (compute_backoff _ _ _ _ _) as [e|d].
    + destruct (Z.ltb_spec n 1024); [lia|]. by destruct Hb as [_ ->].
    + destruct (Z.ltb_spec n 1024); [|lia]. exists d. destruct Hb as [_ Hb]. split; [done|].
      destruct (run (n + 1) code post). by rewrite <- app_assoc.
  - destruct (run 0 c post). by rewrite <- app_assoc.
Qed.
End loop.

(** ** The streams of the agent *)

Section streams.
Context {W : Type} `{!WebSocketProtocol W}.

Abbreviation conn := (TunnelConnection W).
Abbreviation on_open := (Some (on_open (W := W))).
Abbreviation on_ws_open := (Some (on_ws_open (W := W))).

Implicit Types c : conn.
Implicit Types w : World (W := W).

#[local] Instance same_streams_preorder : PreOrder (same_streams (W := W)).
Proof. split; [exact same_streams_refl|exact same_trans]. Qed.

Lemma send_close_same rid c : same_streams c (send_close rid c).1.
Proof. apply tun_send_same. intros. apply on_ws_same. Qed.

Lemma send_ws_close_same rid c : same_streams c (send_ws_close rid c).1.
Proof. apply tun_send_same. intros. apply on_ws_same. Qed.

Lemma reject_open_same rid c : same_streams c (_reject_open rid c).1.
Proof.
  revert c. change (preserves same_streams (_reject_open (W := W) rid)).
  apply preserves_try; [apply _| |auto with preserve typeclass_instances].
  apply preserves_bind; [apply _| |intros _]; intros c; [apply send_data_same|apply send_close_same].
Qed.

Lemma open_then_ret rid c :
  same_streams (open_stream rid c).1 ((open_stream rid ≫= λ _, mret tt : M conn ConnExn unit) c).1.
Proof. unfold mbind, M_bind. by destruct (open_stream rid c) as [c' [e|r]]. Qed.

(** The handlers of the agent send, or open the one stream of the frame: everything
    that is proved of a connection holds for the agent's. *)
Lemma on_open_ok : handler_ok on_open.
Proof.
  intros f [= <-] rid p c. unfold Agent.on_open. destruct (request_from_payload p) as [e|m].
  - left. destruct (is_MetadataError e); [apply reject_open_same|done].
  - right. apply open_then_ret.
Qed.

Lemma on_ws_open_ok : handler_ok on_ws_open.
Proof.
  intros f [= <-] rid p c. unfold Agent.on_ws_open. destruct (ws_open_from_payload p) as [e|m].
  - left. destruct (is_MetadataError e); [apply send_ws_close_same|done].
  - right. apply open_then_ret.
Qed.

Abbreviation reach := (Tunnel.reach on_open on_ws_open true).
Abbreviation step := (Tunnel.step on_open on_ws_open true).
Abbreviation run := (Tunnel.run on_open on_ws_open true).

(** A handler in the body of a request whose end has not arrived, after the end of the
    receive loop. *)
Definition starving (r : nat) (rid : UUID) w : Prop :=
  (∃ e, w_loop w = LoopEnded e) ∧ w_readers w !! r = Some (rid, Body) ∧ [] ∉ queue_of r (w_conn w).

(** After its end the receive loop puts nothing in a queue. *)
Lemma trans_ended w w' o e r :
  trans w w' o → w_loop w = LoopEnded e → w_loop w' = LoopEnded e ∧ enqueued r o = [].
Proof.
  intros Ht Hl. destruct Ht; try congruence;
    try (match goal with H : loop_quiet _ _ |- _ => destruct H as [H|(? & _)]; [|congruence] end);
    try (match goal with H : forallb TunnelProps.quiet _ = true |- _ => destruct (quiet_nil r _ H) as (He & _) end);
    try (split; [congruence|by rewrite ?He]).
  split; [congruence|]. destruct (tear_down_obs_nil r (w_conn w)) as (E & _). by rewrite enqueued_app, He, E.
Qed.

(** Only the empty chunk and its cancellation end a handler in the body. *)
Lemma body_step r rid e w w' o :
  e ≠ EAbandon r → [] ∉ queue_of r (w_conn w) → w_readers w !! r = Some (rid, Body) →
  step e w = Some (w', o) → w_readers w' !! r = Some (rid, Body).
Proof.
  intros Hne Hq Hr. destruct e as [| |m| | | |r'|r'|r'|r'| |r'|r'|r'| | | | |]; cbn [Tunnel.step];
    try (destruct (decide (r' = r)) as [->|Hr'];
         [rewrite ?Hr; try done
         |destruct (w_readers w !! r') as [[rid' []]|]; unfold take_item, end_reader;
          repeat case_match; intros; simplify_eq/=; by rewrite ?lookup_insert_ne by done]);
    try (repeat case_match; intros; simplify_eq/=; rewrite ?lookup_insert_ne by congruence; done).
  - destruct (w_loop w); [|done..]. intros [= Hs]. revert Hs. unfold step_recv.
    destruct (receive_step _ _ _ _ _) as [c [?|[[]| | |]]]; by intros [= <- _].
  - destruct (queue_of r (w_conn w)) as [|[|b p] q] eqn:E; [done|..].
    { by destruct Hq; left. }
    unfold take_item. rewrite E. intros [= <- _]. cbn. by rewrite lookup_insert_eq.
Qed.

Lemma starving_run r rid es : ∀ w w' o,
  EAbandon r ∉ es → starving r rid w → world_ok w → run es w = Some (w', o) → starving r rid w'.
Proof.
  induction es as [|e es IH]; intros w w' o Hes Hs Hw; simpl; [by intros [= <- _]|].
  apply not_elem_of_cons in Hes as [Hne Hes].
  destruct (step e w) as [[w1 o1]|] eqn:E; [simpl|done].
  destruct (run es w1) as [[w2 o2]|] eqn:F; [simpl|done]. intros [= <- _].
  destruct Hs as ([x Hl] & Hr & Hq).
  pose proof (step_trans _ _ _ on_open_ok on_ws_open_ok _ _ _ _ E) as Ht.
  destruct (trans_ended _ _ _ _ r Ht Hl) as [Hl1 He].
  pose proof (trans_fifo _ _ _ r Ht Hw) as Hf. rewrite He, app_nil_r in Hf.
  apply (IH w1 w2 o2); [done| |by eapply trans_ok|done].
  split_and!; [by exists x|by eapply body_step|].
  intros Hin. apply Hq. rewrite Hf. apply elem_of_app. by right.
Qed.

Lemma drained_none w r rid p :
  w_readers w !! r = Some (rid, p) → handler_ended p = false → drained w = false.
Proof.
  intros Hr Hp. apply not_true_iff_false. unfold drained. rewrite forallb_forall. intros Ha.
  specialize (Ha (r, (rid, p))). cbn in Ha. rewrite Hp in Ha.
  by assert (false = true) by (apply Ha, list_elem_of_In, elem_of_map_to_list, Hr).
Qed.

(** C27: A connection that is lost in the middle of an upload stops the agent for good.
    The handler waits for the rest of the body; the receive loop, which alone could
    bring it, has ended; closing the connection wakes readers of other streams but not
    this one.  Unless the handler is cancelled, which [drain] does only on shutdown, no
    schedule of the remaining tasks lets [drain] return, so that [connect_and_serve] does
    not either and the agent never reconnects. *)
Theorem drain_hangs ws w tr r rid es w' o :
  reach ws w tr → starving r rid w → EAbandon r ∉ es → run es w = Some (w', o) →
  w_readers w' !! r = Some (rid, Body) ∧ drained w' = false.
Proof.
  intros Hreach Hs Hes Hrun. destruct (reach_ok _ _ _ on_open_ok on_ws_open_ok _ _ _ Hreach) as [Hw _].
  destruct (starving_run _ _ _ _ _ _ Hes Hs Hw Hrun) as (_ & Hr & _). split; [done|].
  by eapply drained_none.
Qed.
End streams.

(** ** The handshake *)

Section handshake.
Context `{TimedSerializer} `{PyConv} {S : Type} `{AccountStore S}.
Context {W : Type} `{!WebSocketProtocol W}.

Implicit Types owner : option AgentOwner.

Definition allowed owner : list AgentAllowEntry := match owner with Some o => ow_allowlist o | None => [] end.

Lemma allow_json_wf e : scalars (ae_subject_ref e) = true → wf_json (allow_json e) = true.
Proof. intros Hs. destruct e as [t ref r]. cbn in *. rewrite Hs. by destruct t, r. Qed.

Lemma agent_auth_wf secret token has_password owner :
  scalars secret = true → wf_json token = true →
  Forall (λ e, scalars (ae_subject_ref e) = true) (allowed owner) →
  wf_json (JObj (agent_auth_message secret token has_password owner)) = true.
Proof.
  intros Hs Ht Ha. unfold agent_auth_message. fold (allowed owner).
  assert (forallb wf_json (allow_json <$> allowed owner) = true) as Hl.
  { apply forallb_forall. intros j (e & -> & He)%list_elem_of_In%list_elem_of_fmap.
    rewrite Forall_forall in Ha. by apply allow_json_wf, Ha. }
  cbn [wf_json]. rewrite andb_true_iff. split; [|by apply bool_decide_eq_true_2; vm_compute; repeat constructor; set_solver].
  cbn [forallb wf_json]. rewrite Hs, Ht, Hl.
  by destruct (match owner with Some o => ow_access_mode o | None => OPEN_MODE end).
Qed.

Lemma access_mode_back m : access_mode_of (JStr (access_mode_value m)) = Some m.
Proof. by destruct m. Qed.

Lemma parse_entry_back e :
  parse_entry (allow_json e) = Some (ae_subject_type e, ae_subject_ref e, ae_role e).
Proof. by destruct e as [[] ref []]. Qed.

(** An entry of the relay's policy, for a declared one. *)
Definition resolves (st : S) (e : AgentAllowEntry) (pe : PolicyEntry) : Prop :=
  lookup_subject st (ae_subject_type e) (ae_subject_ref e) = inr (Some (pe_subject_id pe)) ∧
  pe_subject_type pe = ae_subject_type e ∧ pe_role pe = ae_role e.

Lemma read_allowlist_back st es pes : Forall2 (resolves st) es pes → ∀ acc,
  read_allowlist st (allow_json <$> es) acc = inr (inr (acc ++ pes)).
Proof.
  induction 1 as [|e pe es pes (Hl & Ht & Hr) _ IH]; intros acc; cbn [fmap list_fmap read_allowlist].
  { by rewrite app_nil_r. }
  rewrite parse_entry_back, Hl. cbn [mbind sum_bind]. rewrite <- Ht, <- Hr.
  change (list_fmap _ _ allow_json es) with (allow_json <$> es). rewrite IH. destruct pe. cbn. by rewrite <- app_assoc.
Qed.

Lemma resolve_allowlist_back st es pes :
  Forall2 (resolves st) es pes →
  resolve_allowlist (Some st) (JArr (allow_json <$> es)) = inr (inr pes).
Proof.
  intros Hf. unfold resolve_allowlist.
  destruct (truthy (JArr (allow_json <$> es))) eqn:E; [apply (read_allowlist_back _ _ _ Hf [])|].
  by destruct Hf.
Qed.

(** What the relay makes of the message, field by field. *)
Lemma read_message session store now secret token has_password owner :
  scalars secret = true → wf_json token = true →
  Forall (λ e, scalars (ae_subject_ref e) = true) (allowed owner) →
  _read_agent_auth session store now
    (Some (dumps (JObj (agent_auth_message secret token has_password owner)))) =
  (o ← (if truthy token then
          o ← token_owner session store now token;
          inr (match o with Some x => inr (Some x) | None => inl InvalidOwnerToken end)
        else inr (inr None)) : AgentWs.AgentExn + (AuthError + option (Z * pystr));
   match o with
   | inl e => inr (Refused (Some e))
   | inr o =>
       let mode := match owner with Some o => ow_access_mode o | None => OPEN_MODE end in
       if bool_decide (mode = RESTRICTED ∧ o = None) then inr (Refused (Some RestrictedRequiresLogin))
       else
         entries ← resolve_allowlist store (JArr (allow_json <$> allowed owner));
         inr match entries with
         | inl e => Refused (Some e)
         | inr es => AuthOk {| aa_owner_user_id := fst <$> o; aa_owner_username := snd <$> o;
                               aa_access_mode := mode; aa_has_password := has_password;
                               aa_entries := es; aa_identity_secret := secret_of (JStr secret) |}
         end
   end).
Proof.
  intros Hs Ht Ha. unfold _read_agent_auth, receive_control.
  rewrite loads_dumps by by apply agent_auth_wf.
  set (msg := agent_auth_message _ _ _ _).
  change (dict_get (py "type") msg) with (Some (JStr (py "agent_auth"))). cbv beta iota.
  change (negb (type_is (py "agent_auth") msg)) with false.
  change (negb (eq_int (get_or (py "protocol_version") JNull msg) PROTOCOL_VERSION)) with false.
  change (get_or (py "access_mode") (JStr (py "open")) msg)
    with (JStr (access_mode_value (match owner with Some o => ow_access_mode o | None => OPEN_MODE end))).
  by rewrite access_mode_back.
Qed.

(** The relay reads the handshake as the agent means it.  The message goes out as
    one text frame; from an agent without owner the relay takes an open mount without
    allowlist, and from an agent whose owner has a valid token it takes the owner, the
    access mode and every declared entry, with the ids of its users and groups, in
    order; in both cases whether there is a password, and the secret that signs the
    identity headers. *)
Theorem agent_auth_roundtrip session store now secret has_password ses st (owner : AgentOwner) tok uid u name pes :
  scalars secret = true → secret ≠ [] →
  Forall (λ e, scalars (ae_subject_ref e) = true) (ow_allowlist owner) → scalars tok = true → tok ≠ [] →
  verify_agent_owner_token ses now tok = inr uid → (store_get_user_by_id uid st).2 = inr u → u_username u = name →
  Forall2 (resolves st) (ow_allowlist owner) pes →
  (∀ (c : TunnelConnection W) token (own : option AgentOwner),
     let msg := agent_auth_message secret token has_password own in
     send_control msg c = on_ws (ws_send_text (dumps (JObj msg))) c) ∧
  _read_agent_auth session store now
    (Some (dumps (JObj (agent_auth_message secret JNull has_password None)))) =
  inr (AuthOk {| aa_owner_user_id := None; aa_owner_username := None; aa_access_mode := OPEN_MODE;
                 aa_has_password := has_password; aa_entries := []; aa_identity_secret := Some secret |}) ∧
  _read_agent_auth (Some ses) (Some st) now
    (Some (dumps (JObj (agent_auth_message secret (JStr tok) has_password (Some owner))))) =
  inr (AuthOk {| aa_owner_user_id := Some uid; aa_owner_username := Some name;
                 aa_access_mode := ow_access_mode owner; aa_has_password := has_password;
                 aa_entries := pes; aa_identity_secret := Some secret |}).
Proof.
  intros Hs Hne Ha Ht Htne Hv Hu <- Hf.
  assert (secret_of (JStr secret) = Some secret) as Hsec by by destruct secret.
  split_and!; [done|..]; rewrite read_message by done.
  - cbn [truthy]. cbn [mbind sum_bind allowed fmap list_fmap]. cbv zeta. rewrite bool_decide_eq_false_2 by by intros [].
    by rewrite Hsec.
  - assert (truthy (JStr tok) = true) as -> by by destruct tok.
    unfold token_owner. rewrite Hv, Hu. cbn [mbind sum_bind]. cbv zeta.
    rewrite bool_decide_eq_false_2 by by intros []. cbn [allowed].
    rewrite (resolve_allowlist_back _ _ _ Hf), Hsec. done.
Qed.
End handshake.

(** ** The [--allow] option *)

Lemma partition_spec c s a b : partition c s = Some (a, b) ↔ s = a ++ c :: b ∧ c ∉ a.
Proof.
  revert a b. induction s as [|x s IH]; intros a b; cbn [partition].
  { split; [done|]. by intros [?%(f_equal length) _]; rewrite length_app in *; cbn in *; lia. }
  destruct (Z.eqb_spec x c) as [->|Hne].
  - split; [intros [= <- <-]; split; [done|apply not_elem_of_nil]|].
    intros [Hs Ha]. destruct a as [|y a]; simplify_eq/=; [done|]. set_solver.
  - split.
    + destruct (partition c s) as [[a' b']|] eqn:E; [|done]. cbn. intros [= <- <-].
      destruct (proj1 (IH a' b') eq_refl) as [-> Ha]. split; [done|]. set_solver.
    + intros [Hs Ha]. destruct a as [|y a]; simplify_eq/=.
      rewrite (proj2 (IH a b)) by set_solver. done.
Qed.

Lemma rpartition_spec c s a b : rpartition c s = Some (a, b) ↔ s = a ++ c :: b ∧ c ∉ b.
Proof.
  unfold rpartition. split.
  - destruct (partition c (reverse s)) as [[x y]|] eqn:E; [|done]. cbn. intros [= <- <-].
    apply partition_spec in E as [E Hx]. apply (f_equal reverse) in E.
    rewrite reverse_involutive, reverse_app, reverse_cons, <- app_assoc in E.
    split; [done|]. by rewrite elem_of_reverse.
  - intros [-> Hb]. assert (partition c (reverse (a ++ c :: b)) = Some (reverse b, reverse a)) as ->.
    { apply partition_spec. rewrite reverse_app, reverse_cons, <- app_assoc. split; [done|].
      by rewrite elem_of_reverse. }
    cbn. by rewrite !reverse_involutive.
Qed.

Lemma subject_type_spec s t : subject_type_of (JStr s) = Some t ↔ s = subject_type_value t.
Proof.
  cbn. split; [repeat case_bool_decide; naive_solver|]. intros ->. by destruct t.
Qed.

Lemma role_of_spec s r : role_of (JStr s) = Some r ↔ s = role_value r.
Proof.
  cbn. split; [repeat case_bool_decide; naive_solver|]. intros ->. by destruct r.
Qed.

(** An [--allow] value is accepted exactly when it is a type, a reference and a role
    with colons between them, up to spaces around each; the reference is not empty and
    may contain colons itself. *)
Theorem parse_allow_entry_spec spec e :
  parse_allow_entry spec = inr e ↔
  ∃ a b d, spec = a ++ colon :: b ++ colon :: d ∧ colon ∉ a ∧ colon ∉ d ∧
    strip a = subject_type_value (ae_subject_type e) ∧ strip b = ae_subject_ref e ∧ strip b ≠ [] ∧
    strip d = role_value (ae_role e).
Proof.
  unfold parse_allow_entry. split.
  - destruct (partition colon spec) as [[a rest]|] eqn:E1; [|done]. apply partition_spec in E1 as [-> Ha].
    destruct (rpartition colon rest) as [[b d]|] eqn:E2; [|done]. apply rpartition_spec in E2 as [-> Hd].
    case_bool_decide as Hb; [done|].
    destruct (subject_type_of _) as [t|] eqn:Et; [|done]. apply subject_type_spec in Et.
    destruct (role_of _) as [r|] eqn:Er; [|done]. apply role_of_spec in Er.
    intros [= <-]. by exists a, b, d.
  - intros (a & b & d & -> & Ha & Hd & Ht & Hb & Hne & Hr).
    rewrite (proj2 (partition_spec _ _ _ _) (conj eq_refl Ha)), (proj2 (rpartition_spec _ _ _ _) (conj eq_refl Hd)).
    rewrite bool_decide_eq_false_2 by done.
    rewrite (proj2 (subject_type_spec _ _) Ht), (proj2 (role_of_spec _ _) Hr), Hb. by destruct e.
Qed.

(** ** Expired files *)

Section expired.
Context `{PyConv} {W : Type} `{!WebSocketProtocol W}.

Lemma print_paths_prompt num (expired : list (pystr * time)) :
  print_paths ((λ f, JObj [(py "path", JStr f.1); (py "expired_at", num f.2)]) <$> expired) = inr tt.
Proof. by induction expired. Qed.

(** Whatever the user answers to the prompt, the effect is the same: the relay forgets
    the expired records of the mount.  Nobody deletes a file. *)
Theorem expired_answer_ignored num code expired msg answer now mount db (c : TunnelConnection W) :
  expired_files_message num code expired = Some msg →
  ∃ reply,
    agent_control answer msg c = raising FConn (send_control reply) c ∧
    _handle_agent_control_for_mount now reply mount (Some db)
    = (Some (delete_expired_for_mount now code db).1, inr tt).
Proof.
  unfold expired_files_message. destruct expired as [|f fs]; [done|]. intros [= <-].
  set (type := if bool_decide (lower (strip answer) = py "y")
               then py "delete_expired_files" else py "keep_expired_files").
  exists [(py "type", JStr type); (py "code", JStr code)]. split.
  - unfold agent_control, _handle_expired_files, mbind, M_bind, lift_res; cbv beta iota.
    match goal with |- context [get_or (py "files") ?d ?m] =>
      change (get_or (py "files") d m) with
        (JArr ((λ f, JObj [(py "path", JStr f.1); (py "expired_at", num f.2)]) <$> f :: fs)) end.
    cbn [iterate]. rewrite print_paths_prompt. done.
  - unfold _handle_agent_control_for_mount, type. by destruct (bool_decide _).
Qed.

(** The code of the message is taken from the message: any agent makes the relay forget
    the expired records of any mount, the drop box included, so that the sweep never
    deletes those files. *)
Theorem foreign_records_cleared now mount other db :
  let msg := [(py "type", JStr (py "keep_expired_files")); (py "code", JStr other)] in
  ∃ db', _handle_agent_control_for_mount now msg mount (Some db) = (Some db', inr tt) ∧
    get_expired_for_mount now other db' = [].
Proof.
  eexists. split; [done|]. apply elem_of_nil_inv. intros [p e].
  unfold get_expired_for_mount. rewrite list_elem_of_omap. intros ([[m q] [x made]] & Hin & Hx).
  apply elem_of_map_to_list in Hin. cbn in Hin. apply map_lookup_filter_Some in Hin as [_ Hno]. cbn in *.
  destruct (bool_decide (m = other)) eqn:E1; [|done]. destruct (Z.leb_spec x now); [|done].
  apply bool_decide_eq_true in E1. by destruct Hno.
Qed.
End expired.

(** ** Witnesses *)

Definition ex_env (auth : HttpAnswer) (loop : LoopExit) : Env :=
  {| en_connect := None; en_secret := py "s3"; en_auth := auth;
     en_control := inr (dumps (JObj [(py "type", JStr (py "mount_registered")); (py "code", JStr (py "abc"))]));
     en_app := false; en_loop := loop; en_drains := true; en_ttl_fired := false |}.

Definition ex_down : Env :=
  {| en_connect := Some OSError; en_secret := py "s3"; en_auth := HttpError; en_control := inl OtherTransport;
     en_app := false; en_loop := LoopOver; en_drains := true; en_ttl_fired := false |}.

Definition ex_relay : pystr := py "https://relay.example".

(** A connection that ends, one that fails, and an interrupt during the third: the
    second and third ask for the assigned code, with a sleep between them. *)
Lemma agent_loop_spec_witness :
  ∃ delay, run_agent_loop (H := no_conv) ex_relay false false None fresh_ws 0 JNull
    [(ex_env HttpError LoopOver, 0%Q); (ex_down, 0%Q); (ex_env HttpError LoopInterrupted, 0%Q)] =
  ([Connect (py "wss://relay.example/agent/ws"); Connect (py "wss://relay.example/agent/ws?code=abc"); Slept delay;
    Connect (py "wss://relay.example/agent/ws?code=abc")], Ended Interrupted) ∧ ((1 # 2) <= delay <= (3 # 2))%Q.
Proof.
  pose (pre := [(ex_env HttpError LoopOver, 0%Q)]).
  pose (post := [(ex_env HttpError LoopInterrupted, 0%Q)]).
  assert (random_numbers (pre ++ [(ex_down, 0%Q)])) as H1.
  { repeat (apply Forall_cons_2; [cbn; split; discriminate|]). apply Forall_nil_2. }
  assert (Forall (λ o, retried o = true) (outcome (H := no_conv) false false None fresh_ws <$> pre.*1)) as H2.
  { repeat (apply Forall_cons_2; [vm_compute; reflexivity|]). apply Forall_nil_2. }
  assert (Forall (λ k, k ≤ 1024) (rows 0 (outcome (H := no_conv) false false None fresh_ws <$> pre.*1))) as H3.
  { repeat (apply Forall_cons_2; [vm_compute; discriminate|]). apply Forall_nil_2. }
  destruct (agent_loop_spec (H := no_conv) ex_relay false false None fresh_ws pre ex_down 0%Q post H1 H2 H3) as (evs & Hp & Hall).
  destruct (run_agent_loop (H := no_conv) ex_relay false false None fresh_ws 0 JNull (pre ++ (ex_down, 0%Q) :: post)) as [all s] eqn:E.
  vm_compute in Hp. injection Hp as <-. vm_compute in Hall. destruct Hall as (delay & Hd & -> & ->).
  exists delay. split; [|exact Hd]. etrans; [exact E|]. vm_compute. reflexivity.
Defined.

(** An upload of which one chunk arrived before the socket was closed. *)
Definition ex_lost : list event :=
  [ERecv (frame_in OPEN 7 (match request_to_payload example_request with inr p => p | inl _ => [] end));
   EStartBody 7; ERecv (frame_in DATA 7 [Z_byte 1]); ERecv InDisconnect].

Definition ex_lost_run : World (W := LogWs) * list obs :=
  default (init_world fresh_ws, []) (Tunnel.run (Some on_open) (Some on_ws_open) true ex_lost (init_world fresh_ws)).

(** The handler takes the chunk, the connection is closed, and the handler waits on. *)
Lemma drain_hangs_witness :
  starving 0 7 ex_lost_run.1 ∧
  ∃ w' o, Tunnel.run (Some on_open) (Some on_ws_open) true [EBody 0; EClose] ex_lost_run.1 = Some (w', o)
          ∧ _closed (w_conn w') = true ∧ drained w' = false.
Proof.
  assert (starving 0 7 ex_lost_run.1) as Hs.
  { split; [exists None; vm_compute; reflexivity|]. split; [vm_compute; reflexivity|].
    assert (queue_of 0 (w_conn ex_lost_run.1) = [[Z_byte 1]]) as -> by (vm_compute; reflexivity).
    intros Hin. apply list_elem_of_singleton in Hin. discriminate Hin. }
  split; [exact Hs|].
  destruct (Tunnel.run (Some on_open) (Some on_ws_open) true [EBody 0; EClose] ex_lost_run.1)
    as [[w' o]|] eqn:E; [|vm_compute in E; discriminate E].
  exists w', o. split; [reflexivity|]. split.
  { vm_compute in E. injection E as <- <-. vm_compute. reflexivity. }
  refine (proj2 (drain_hangs fresh_ws ex_lost_run.1 ex_lost_run.2 0 7 [EBody 0; EClose] w' o _ Hs _ E)).
  - unfold ex_lost_run. destruct (Tunnel.run (Some on_open) (Some on_ws_open) true ex_lost (init_world fresh_ws))
      as [[w1 o1]|] eqn:F; [|vm_compute in F; discriminate F].
    exact (reach_run (Some on_open) (Some on_ws_open) true fresh_ws ex_lost (init_world fresh_ws) w1 [] o1
             (reach_init _ _ _ _) F).
  - intros Hin. repeat (apply elem_of_cons in Hin as [Hin|Hin]; [discriminate Hin|]). by apply elem_of_nil in Hin.
Defined.

(** An owner with one allowed user, and the token the relay gave him. *)
Definition ex_owner : AgentOwner :=
  {| ow_username := py "ann"; ow_password := py "pw"; ow_access_mode := RESTRICTED;
     ow_allowlist := [{| ae_subject_type := USER; ae_subject_ref := py "ann"; ae_role := WRITE |}] |}.

Lemma agent_auth_roundtrip_witness :
  let ses := {| rs_secret_key := py "k" |} in
  let tok := issue_agent_owner_token (H := plain_serializer) ses 0 1 in
  _read_agent_auth (H := plain_serializer) (H0 := no_conv) (Some ses) (Some demo_db) 0
    (Some (dumps (JObj (agent_auth_message (py "s3") (JStr tok) true (Some ex_owner))))) =
  inr (AuthOk {| aa_owner_user_id := Some 1; aa_owner_username := Some (py "ann");
                 aa_access_mode := RESTRICTED; aa_has_password := true;
                 aa_entries := [{| pe_subject_type := USER; pe_subject_id := 1; pe_role := WRITE |}];
                 aa_identity_secret := Some (py "s3") |}).
Proof.
  cbv zeta. pose (ses := {| rs_secret_key := py "k" |}).
  destruct (store_get_user_by_id 1 demo_db).2 as [e|u] eqn:Eu; [vm_compute in Eu; discriminate Eu|].
  refine (proj2 (proj2 (agent_auth_roundtrip (H := plain_serializer) (H0 := no_conv) (W := LogWs) None None 0 (py "s3") true
    ses demo_db ex_owner (issue_agent_owner_token (H := plain_serializer) ses 0 1) 1 u (py "ann")
    [{| pe_subject_type := USER; pe_subject_id := 1; pe_role := WRITE |}] _ _ _ _ _ _ Eu _ _)));
    try (vm_compute; reflexivity); try (vm_compute; discriminate).
  - apply Forall_cons_2; [vm_compute; reflexivity|apply Forall_nil_2].
  - vm_compute in Eu. injection Eu as <-. vm_compute. reflexivity.
  - apply Forall2_cons_2; [|apply Forall2_nil_2]. split; [vm_compute; reflexivity|]. split; reflexivity.
Defined.
