(* ===== verification/Html.v ===== *)
(** The rewriting of asset paths in proxied pages,
    [src/relay/app/services/html_rewriter.py].

    The regular expressions are written out as functions.  The codecs of Python are a
    parameter.  A mount prefix with a backslash, which [re.sub] would read as an escape
    of its template, is outside of the model. *)

From stdpp Require Import strings.
From S2P Require Import Prelude Utf8.

Definition HTML_REWRITE_MAX_BYTES : Z := 5 * 1024 * 1024.

Definition quote_mark (c : Z) : bool := (c =? 34) || (c =? 39).

(** [(?:src|href)=], in front of [s] *)
Definition attribute (s : pystr) : option pystr :=
  if startswith s (py "src=") then Some (py "src=")
  else if startswith s (py "href=") then Some (py "href=") else None.

(** A match of [_ASSET_PATH_RE] in front of [s]: its group, and what follows. *)
Definition asset_head (s : pystr) : option (pystr * pystr) :=
  name ← attribute s;
  match drop (length name) s with
  | q :: c :: rest =>
      if quote_mark q && (c =? slash) && negb (startswith rest (py "m/"))
      then Some (name ++ [q], rest) else None
  | _ => None
  end.

(** [re.sub]: at each position the match is replaced, and its characters skipped; or
    one character is copied. *)
Fixpoint sub_assets (mount_prefix : pystr) (skip : nat) (s : pystr) : pystr :=
  match s with
  | [] => []
  | c :: s' =>
      match skip with
      | S n => sub_assets mount_prefix n s'
      | O =>
          match asset_head s with
          | Some (group, _) => group ++ mount_prefix ++ [slash] ++ sub_assets mount_prefix (length group) s'
          | None => c :: sub_assets mount_prefix 0 s'
          end
      end
  end.

Definition rewrite_html_asset_paths (html mount_prefix : pystr) : pystr := sub_assets mount_prefix 0 html.

(** ** The charset *)

(** Equal under [re.IGNORECASE], for a letter [p] of the pattern; the long s counts as
    an s. *)
Definition same_letter (p c : Z) : bool := (lower_char c =? p) || (p =? 115) && (c =? 383).

Fixpoint starts_ignoring_case (s p : pystr) {struct p} : option pystr :=
  match p, s with
  | [], _ => Some s
  | x :: p', c :: s' => if same_letter x c then starts_ignoring_case s' p' else None
  | _ :: _, [] => None
  end.

Fixpoint until_delimiter (s : pystr) : pystr :=
  match s with
  | [] => []
  | c :: s' => if is_space c || (c =? 59) then [] else c :: until_delimiter s'
  end.

(** The search for [charset=([^\s;]+)]: the group of the first match. *)
Fixpoint search_charset (s : pystr) : option pystr :=
  match s with
  | [] => None
  | _ :: s' =>
      match starts_ignoring_case s (py "charset=") with
      | Some rest =>
          match until_delimiter rest with [] => search_charset s' | group => Some group end
      | None => search_charset s'
      end
  end.

Definition charset_from_content_type (content_type : pystr) : pystr :=
  match search_charset content_type with
  | None => py "utf-8"
  | Some group => lower (strip_if quote_mark group)
  end.

(** ** The body *)

Inductive CodecExn := UnicodeDecodeError | LookupError | OtherCodecError.

(** [body.decode(charset)] and [text.encode(charset)] *)
Class Codecs := {
  codec_decode : pystr → bytes → CodecExn + pystr;
  codec_encode : pystr → pystr → CodecExn + bytes
}.

Definition rewrite_html_body `{Codecs} (body : bytes) (content_type mount_prefix : pystr) : CodecExn + bytes :=
  if HTML_REWRITE_MAX_BYTES <? Z.of_nat (length body) then inr body
  else
    let charset := charset_from_content_type content_type in
    match codec_decode charset body with
    | inl UnicodeDecodeError | inl LookupError => inr body
    | inl e => inl e
    | inr text => codec_encode charset (rewrite_html_asset_paths text mount_prefix)
    end.

(** ** What the rewriting does *)

Lemma attribute_inv s name :
  attribute s = Some name → (name = py "src=" ∨ name = py "href=") ∧ name `prefix_of` s.
Proof.
  unfold attribute. intros Hs.
  destruct (startswith s (py "src=")) eqn:E1; [injection Hs as <-; split; [by left|by apply startswith_spec]|].
  destruct (startswith s (py "href=")) eqn:E2; [injection Hs as <-; split; [by right|by apply startswith_spec]|done].
Qed.

Lemma asset_head_spec s group rest :
  asset_head s = Some (group, rest) ↔
  ∃ name q, (name = py "src=" ∨ name = py "href=") ∧ quote_mark q = true ∧ group = name ++ [q] ∧
    s = name ++ q :: slash :: rest ∧ ¬ py "m/" `prefix_of` rest.
Proof.
  unfold asset_head. split.
  - destruct (attribute s) as [name|] eqn:E; [|done]. apply attribute_inv in E as [Hn [t ->]].
    cbn [mbind option_bind]. rewrite drop_app_length. destruct t as [|q [|c t]]; [done..|].
    destruct (quote_mark q) eqn:Hq; [|done]. destruct (Z.eqb_spec c slash) as [->|]; [|done]. cbn [andb].
    destruct (startswith t (py "m/")) eqn:Hm; [done|]. cbn [negb]. intros [= <- <-].
    exists name, q. split_and!; try done. rewrite <- startswith_spec. congruence.
  - intros (name & q & Hn & Hq & -> & -> & Hm). rewrite <- startswith_spec in Hm.
    assert (attribute (name ++ q :: slash :: rest) = Some name) as -> by by destruct Hn as [->| ->].
    cbn [mbind option_bind]. rewrite drop_app_length, Hq, Z.eqb_refl. cbn [andb].
    by destruct (startswith rest (py "m/")).
Qed.

(** No absolute path of an attribute outside of [/m/] anywhere. *)
Definition settled (s : pystr) : Prop := ∀ t, t `suffix_of` s → asset_head t = None.

Lemma settled_cons c s : asset_head (c :: s) = None → settled s → settled (c :: s).
Proof.
  intros Hc Hs t [[|x k] Hk]; cbn in Hk; [by subst|]. injection Hk as -> Hk. apply Hs. by exists k.
Qed.

(** The first character of a match. *)
Lemma asset_head_first c s : c ≠ 115 → c ≠ 104 → asset_head (c :: s) = None.
Proof.
  intros H1 H2. destruct (asset_head (c :: s)) as [[g rest]|] eqn:E; [|done].
  apply asset_head_spec in E as (name & q & [->| ->] & _ & _ & Hs & _); injection Hs as Hc _; by subst.
Qed.

Section rewriting.
Context (code : pystr) (Hcode : Forall (λ c, quote_mark c = false) code).

Abbreviation mount_prefix := (py "/m/" ++ code).
Abbreviation sub := (sub_assets mount_prefix).

Lemma sub_skip n s : sub n s = sub 0 (drop n s).
Proof. revert n. induction s as [|c s IH]; intros [|n]; try done. cbn. by rewrite IH. Qed.

(** The two steps of the scan. *)
Lemma sub_match name q rest :
  name = py "src=" ∨ name = py "href=" → quote_mark q = true → ¬ py "m/" `prefix_of` rest →
  sub 0 (name ++ q :: slash :: rest) = name ++ q :: mount_prefix ++ slash :: sub 0 rest.
Proof.
  intros Hn Hq Hm.
  assert (asset_head (name ++ q :: slash :: rest) = Some (name ++ [q], rest)) as Hh
    by (apply asset_head_spec; by exists name, q).
  assert (∃ c s, name ++ q :: slash :: rest = c :: s ∧ drop (length (name ++ [q])) s = rest) as (c & s & Hs & Hd).
  { by destruct Hn as [->| ->]; eexists _, _. }
  rewrite Hs in *. cbn [sub_assets]. rewrite Hh, sub_skip, Hd. by rewrite <- !app_assoc.
Qed.

Lemma sub_copy c s : asset_head (c :: s) = None → sub 0 (c :: s) = c :: sub 0 s.
Proof. cbn [sub_assets]. by intros ->. Qed.

(** Characters other than the first of a match are copied. *)
Lemma sub_inv c s t : sub 0 s = c :: t → c ≠ 115 → c ≠ 104 → ∃ s', s = c :: s' ∧ t = sub 0 s'.
Proof.
  intros Hs H1 H2. destruct s as [|d s]; [done|].
  destruct (asset_head (d :: s)) as [[g rest]|] eqn:E.
  - apply asset_head_spec in E as (name & q & Hn & Hq & _ & Hd & Hm). rewrite Hd, sub_match in Hs by done.
    by destruct Hn as [->| ->]; injection Hs as <- _.
  - rewrite sub_copy in Hs by done. injection Hs as -> <-. by exists s.
Qed.

(** The result copies what [s] has, up to the characters that start a match. *)
Lemma sub_prefix p s t :
  Forall (λ c, c ≠ 115 ∧ c ≠ 104) p → sub 0 s = p ++ t → ∃ s', s = p ++ s' ∧ t = sub 0 s'.
Proof.
  intros Hp. revert s. induction Hp as [|c p [H1 H2] _ IH]; intros s Hs; [by exists s|].
  destruct (sub_inv _ _ _ Hs H1 H2) as (s' & -> & Ht). destruct (IH s' (eq_sym Ht)) as (s2 & -> & ->).
  by exists s2.
Qed.

Lemma sub_m rest : py "m/" `prefix_of` rest → py "m/" `prefix_of` sub 0 rest.
Proof.
  intros [t ->]. change (py "m/" ++ t) with (109 :: 47 :: t).
  rewrite sub_copy by by apply asset_head_first. rewrite sub_copy by by apply asset_head_first. by eexists.
Qed.

(** A copied character starts no match in the result either. *)
Lemma copied_settled c s : asset_head (c :: s) = None → asset_head (c :: sub 0 s) = None.
Proof.
  intros Hn. destruct (asset_head (c :: sub 0 s)) as [[g rest]|] eqn:E; [exfalso|done].
  apply asset_head_spec in E as (name & q & Hname & Hq & _ & Hs & Hm).
  assert (q ≠ 115 ∧ q ≠ 104) as Hqs by (split; intros ->; done).
  assert (∃ d p, name ++ [q; slash] = d :: p ∧ Forall (λ c, c ≠ 115 ∧ c ≠ 104) p) as (d & p & Hp & Hall).
  { destruct Hname as [->| ->]; eexists _, _; (split; [reflexivity|]); repeat constructor; try done; apply Hqs. }
  change (q :: slash :: rest) with ([q; slash] ++ rest) in Hs.
  rewrite app_assoc, Hp in Hs. injection Hs as -> Hs. destruct (sub_prefix _ _ _ Hall Hs) as (rest' & -> & ->).
  assert (asset_head (name ++ q :: slash :: rest') = Some (name ++ [q], rest')) as Hh.
  { apply asset_head_spec. exists name, q. split_and!; try done. intros Hm'. by apply Hm, sub_m. }
  change (d :: p ++ rest') with ((d :: p) ++ rest') in Hn. rewrite <- Hp, <- app_assoc in Hn.
  cbn [app] in Hn. congruence.
Qed.

(** Nothing starts in a text without quotation marks that a slash ends. *)
Lemma inserted_settled u t :
  Forall (λ c, quote_mark c = false) u → settled t → settled (u ++ slash :: t).
Proof.
  intros Hu Ht. induction Hu as [|c u Hc Hu IH]; [apply settled_cons; [by apply asset_head_first|done]|].
  apply settled_cons; [|done].
  destruct (asset_head (c :: u ++ slash :: t)) as [[g rest]|] eqn:E; [exfalso|done].
  apply asset_head_spec in E as (name & q & Hname & Hq & _ & Hs & _).
  assert (Forall (λ c, quote_mark c = false) (c :: u)) as Hcu by by constructor.
  change (c :: u ++ slash :: t) with ((c :: u) ++ slash :: t) in Hs.
  apply app_eq_inv in Hs as [(k & Hk & Hr)|(k & Hn & Hk)].
  - destruct k as [|x k]; injection Hr as -> _; [done|].
    rewrite Hk in Hcu. apply Forall_app in Hcu as [_ Hx]. apply Forall_cons in Hx as [Hx _]. congruence.
  - destruct k as [|x k]; injection Hk as <- _; [done|].
    assert (slash ∈ name) as Hin by (rewrite Hn; set_solver).
    destruct Hname as [->| ->]; apply list_elem_of_In in Hin; vm_compute in Hin; naive_solver.
Qed.

Lemma sub_settled s : settled (sub 0 s).
Proof.
  induction s as [s IH] using (induction_ltof1 _ length). unfold ltof in IH.
  destruct s as [|c s]; [by intros t ->%suffix_nil_inv|].
  destruct (asset_head (c :: s)) as [[g rest]|] eqn:E.
  - apply asset_head_spec in E as (name & q & Hname & Hq & _ & Hs & Hm). rewrite Hs, sub_match by done.
    assert (settled (mount_prefix ++ slash :: sub 0 rest)) as Hin.
    { apply inserted_settled; [apply Forall_app; split; [by repeat constructor|done]|].
      apply IH. rewrite Hs, length_app. cbn. lia. }
    assert (settled (q :: mount_prefix ++ slash :: sub 0 rest)) as Hq'.
    { apply settled_cons; [|done]. apply asset_head_first; intros ->; done. }
    assert (asset_head (name ++ q :: mount_prefix ++ slash :: sub 0 rest) = None) as Hfst.
    { destruct (asset_head _) as [[g' rest']|] eqn:E; [exfalso|done].
      apply asset_head_spec in E as (name' & q' & Hname' & _ & _ & Hs' & Hm').
      destruct Hname as [->| ->], Hname' as [->| ->]; try discriminate Hs'; injection Hs' as _ <-;
        apply Hm'; by eexists. }
    destruct Hname as [->| ->]; (apply settled_cons; [exact Hfst|]);
      repeat (apply settled_cons; [by apply asset_head_first|]); done.
  - rewrite sub_copy by done. apply settled_cons; [by apply copied_settled|apply IH; cbn; lia].
Qed.


Lemma settled_fixed s : settled s → sub 0 s = s.
Proof.
  induction s as [|c s IH]; intros Hs; [done|]. rewrite sub_copy by by apply Hs.
  f_equal. apply IH. intros t Ht. apply Hs. by apply suffix_cons_r.
Qed.

Lemma sub_sublist s : s `sublist_of` sub 0 s.
Proof.
  induction s as [s IH] using (induction_ltof1 _ length). unfold ltof in IH.
  destruct s as [|c s]; [done|].
  destruct (asset_head (c :: s)) as [[g rest]|] eqn:E.
  - apply asset_head_spec in E as (name & q & Hname & Hq & _ & Hs & Hm). rewrite Hs, sub_match by done.
    apply sublist_app; [done|]. apply sublist_skip. apply sublist_inserts_l, sublist_skip, IH.
    rewrite Hs, length_app. cbn. lia.
  - rewrite sub_copy by done. apply sublist_skip, IH. cbn. lia.
Qed.

(** The rewriting of a page.  Every match of the pattern gets the prefix of the
    mount between the quotation mark and the slash, and the scan goes on behind it; any
    other character is copied.  In the result no [src] or [href] names an absolute path
    outside of [/m/], so that rewriting a page again changes nothing, and a page without
    such paths is not changed at all; nothing of the page is lost. *)
Theorem html_rewrite_spec html :
  let out := rewrite_html_asset_paths html mount_prefix in
  (∀ name q rest, name = py "src=" ∨ name = py "href=" → quote_mark q = true → ¬ py "m/" `prefix_of` rest →
     html = name ++ q :: slash :: rest →
     out = name ++ q :: mount_prefix ++ slash :: rewrite_html_asset_paths rest mount_prefix) ∧
  (∀ c rest, asset_head html = None → html = c :: rest → out = c :: rewrite_html_asset_paths rest mount_prefix) ∧
  settled out ∧
  rewrite_html_asset_paths out mount_prefix = out ∧
  (settled html → out = html) ∧
  html `sublist_of` out.
Proof.
  unfold rewrite_html_asset_paths. cbv zeta. split_and!.
  - intros name q rest Hn Hq Hm ->. by apply sub_match.
  - intros c rest Hh ->. by apply sub_copy.
  - apply sub_settled.
  - apply settled_fixed, sub_settled.
  - apply settled_fixed.
  - apply sub_sublist.
Qed.
End rewriting.

Lemma html_rewrite_spec_witness :
  let page := py "<img src='/a.png'><a href='/m/x'>" in
  rewrite_html_asset_paths page (py "/m/abc") = py "<img src='/m/abc/a.png'><a href='/m/x'>" ∧
  settled (rewrite_html_asset_paths page (py "/m/abc")).
Proof.
  cbv zeta. split; [vm_compute; reflexivity|].
  assert (Forall (λ c, quote_mark c = false) (py "abc")) as Hc.
  { repeat (apply Forall_cons_2; [vm_compute; reflexivity|]). apply Forall_nil_2. }
  exact (proj1 (proj2 (proj2 (html_rewrite_spec (py "abc") Hc (py "<img src='/a.png'><a href='/m/x'>"))))).
Defined.

(** ** Pages in UTF-8 *)

Class Utf8Codec (K : Codecs) := {
  utf8_codec_decode : ∀ b, codec_decode (py "utf-8") b =
    match utf8_decode b with Some s => inr s | None => inl UnicodeDecodeError end;
  utf8_codec_encode : ∀ s, codec_encode (py "utf-8") s =
    match utf8_encode s with Some b => inr b | None => inl OtherCodecError end
}.

Definition encodes (s : pystr) : Prop := Forall (λ c, is_Some (utf8_char c)) s.

Lemma encodes_spec s : encodes s ↔ is_Some (utf8_encode s).
Proof.
  unfold encodes. induction s as [|c s IH]; cbn; [by split; [|constructor]|]. rewrite Forall_cons, IH.
  destruct (utf8_char c); cbn; [|naive_solver]. destruct (utf8_encode s); naive_solver.
Qed.

Lemma sub_encodes p s : ∀ n, encodes p → encodes s → encodes (sub_assets p n s).
Proof.
  intros n Hp. revert n. unfold encodes in *. induction s as [|c s IH]; intros n Hs; [by destruct n|].
  apply Forall_cons in Hs as [Hc Hs]. cbn [sub_assets]. destruct n as [|n]; [|by apply IH].
  destruct (asset_head (c :: s)) as [[g rest]|] eqn:E; [|constructor; [done|by apply IH]].
  apply asset_head_spec in E as (name & q & _ & _ & -> & Hcs & _).
  assert (Forall (λ c, is_Some (utf8_char c)) (c :: s)) as Hall by by constructor.
  rewrite Hcs in Hall. apply Forall_app in Hall as [Hn [Hq _]%Forall_cons].
  rewrite !Forall_app. split_and!; try done; [by repeat constructor|by repeat constructor|by apply IH].
Qed.

(** A page in UTF-8 is always answered, rewritten or, when its bytes are no UTF-8 or too
    many, as it is. *)
Lemma rewrite_utf8 `{K : Codecs} `{!Utf8Codec K} body content_type prefix :
  charset_from_content_type content_type = py "utf-8" → encodes prefix →
  ∃ out, rewrite_html_body body content_type prefix = inr out ∧
    (out = body ∨ ∃ html, utf8_decode body = Some html ∧
                   utf8_decode out = Some (rewrite_html_asset_paths html prefix)).
Proof.
  intros Hc Hp. unfold rewrite_html_body. rewrite Hc, utf8_codec_decode. cbv zeta.
  destruct (_ <? _); [eauto|]. destruct (utf8_decode body) as [html|] eqn:E; [|eauto].
  assert (encodes (rewrite_html_asset_paths html prefix)) as [out Hout]%encodes_spec.
  { apply sub_encodes; [done|]. apply encodes_spec. apply utf8_encode_decode in E. by eexists. }
  rewrite utf8_codec_encode, Hout. exists out. split; [done|]. right. exists html.
  split; [done|]. by apply utf8_decode_encode.
Qed.
