(* ===== verification/Response.v ===== *)
(** The answer to a request through the tunnel: the second half of
    [handle_open_frame] of [src/agent/proxy.py], which sends the response of the local
    application, and the second half of [proxy_request] of
    [src/relay/app/routers/mount_proxy.py], which answers the browser.

    The payloads the relay reads off its stream, until the stream is closed, are an
    argument: that they are those the agent sent, in order, is proved of [Tunnel]. *)

From stdpp Require Import strings.
From S2P Require Import Prelude Utf8 Frames Json Metadata Tunnel Session Identity AgentWs Files Agent Html.

(** ** The agent *)

(** The response of the local application: [lr_chunks] is what [aiter_bytes] yields;
    when [lr_raises], the application raises after them. *)
Record LocalResponse := {
  lr_status : Z;
  lr_headers : list (pystr * pystr);
  lr_chunks : list bytes;
  lr_raises : bool
}.

(** [None]: the application raises before its response starts. *)
Abbreviation local_answer := (option LocalResponse) (only parsing).

Definition response_meta (r : LocalResponse) : json :=
  JObj [(py "status", JInt (lr_status r)); (py "headers", json_headers (lr_headers r))].

Section agent.
Context {W : Type} `{!WebSocketProtocol W}.

Abbreviation A X := (M (TunnelConnection W) Failure X).

Definition send_local (request_id : UUID) (payload : bytes) : A unit := raising FConn (send_data request_id payload).

(** [handle_open_frame] once the body of the request is there. *)
Definition answer (request_id : UUID) (resp : local_answer) : A unit :=
  try_except
    (match resp with
     | None => raise FApp
     | Some r =>
         _ ← send_local request_id (Z_byte <$> dumps (response_meta r));
         _ ← for_each (send_local request_id) (filter (λ c, c ≠ []) (lr_chunks r));
         if lr_raises r then raise FApp else raising FConn (send_close request_id)
     end)
    (λ e, match e with FConn (Tun StreamNotFoundError) => mret tt | e => raise e end).

End agent.

(** ** The relay *)

Inductive ResponseExn :=
| RJson (e : jexn)
| RUnicodeDecodeError
| RAttributeError
| RCodec (e : CodecExn).

(** What the browser gets: one body ([Response]), or chunks ([StreamingResponse]). *)
Inductive BrowserResponse :=
| Whole (status : json) (headers : list (pystr * json)) (media_type : pystr) (body : bytes)
| Stream (status : json) (headers : list (pystr * json)) (media_type : pystr) (chunks : list bytes) (cancelled : bool).

(** [json.loads] of the first payload.  Texts in UTF-16 and UTF-32, which [json.loads]
    detects too, are outside of the model. *)
Definition loads_payload (raw : bytes) : ResponseExn + json :=
  match utf8_decode raw with
  | None => inl RUnicodeDecodeError
  | Some text => match loads text with inl e => inl (RJson e) | inr j => inr j end
  end.

Definition kept_header (kv : pystr * json) : bool := bool_decide (lower kv.1 ∉ HOP_BY_HOP).

(** [headers.pop(key, ...)] *)
Definition dict_pop {A} (key : pystr) (l : list (pystr * A)) : list (pystr * A) :=
  filter (λ kv, kv.1 ≠ key) l.

(** The generator of a streamed body; [gone i] says that the browser has disconnected
    when the [i]-th chunk arrives, upon which a CANCEL frame is sent. *)
Fixpoint stream_generator (gone : nat → bool) (i : nat) (chunks : list bytes) : list bytes * bool :=
  match chunks with
  | [] => ([], false)
  | c :: cs => if gone i then ([], true) else let '(ys, b) := stream_generator gone (S i) cs in (c :: ys, b)
  end.

(** The buffering of a page: the parts, whether they exceed the cap, and the rest. *)
Fixpoint buffer_html (buffered : Z) (chunks : list bytes) : list bytes * bool * list bytes :=
  match chunks with
  | [] => ([], false, [])
  | c :: cs =>
      let buffered := buffered + Z.of_nat (length c) in
      if HTML_REWRITE_MAX_BYTES <? buffered then ([c], true, cs)
      else let '(parts, over, rest) := buffer_html buffered cs in (c :: parts, over, rest)
  end.

Section relay.
Context `{Codecs}.

Definition proxy_response (code : pystr) (gone : nat → bool) (first_chunk : bytes) (chunks : list bytes)
    : ResponseExn + BrowserResponse :=
  meta ← loads_payload first_chunk;
  match meta with
  | JObj response_meta =>
      let status := get_or (py "status") (JInt 200) response_meta in
      match get_or (py "headers") (JObj []) response_meta with
      | JObj raw =>
          let headers := filter (λ kv, kept_header kv = true) raw in
          match get_or (py "content-type") (JStr (py "application/octet-stream")) headers with
          | JStr content_type =>
              let headers := dict_pop (py "content-type") headers in
              if startswith content_type (py "text/html") then
                let '(parts, over_cap, rest) := buffer_html 0 chunks in
                if over_cap then
                  let '(ys, cancelled) := stream_generator gone 0 rest in
                  inr (Stream status headers content_type (parts ++ ys) cancelled)
                else
                  match rewrite_html_body (concat parts) content_type (py "/m/" ++ code) with
                  | inl e => inl (RCodec e)
                  | inr body => inr (Whole status (dict_pop (py "content-length") headers) content_type body)
                  end
              else
                let '(ys, cancelled) := stream_generator gone 0 chunks in
                inr (Stream status headers content_type ys cancelled)
          | _ => inl RAttributeError
          end
      | _ => inl RAttributeError
      end
  | _ => inl RAttributeError
  end.

(** The answer of an in-process mount: [resp] has all of its body. *)
Definition local_response (code : pystr) (resp : LocalResponse) : ResponseExn + BrowserResponse :=
  let content_type := default (py "application/octet-stream") (dict_get (py "content-type") (lr_headers resp)) in
  let headers := filter (λ kv, kept_header kv = true) (header_item <$> lr_headers resp) in
  let content := concat (lr_chunks resp) in
  if startswith content_type (py "text/html") then
    match rewrite_html_body content content_type (py "/m/" ++ code) with
    | inl e => inl (RCodec e)
    | inr body => inr (Whole (JInt (lr_status resp))
                         (filter (λ kv, lower kv.1 ≠ py "content-length") headers) content_type body)
    end
  else inr (Whole (JInt (lr_status resp)) headers content_type content).

End relay.
