(* ===== verification/ResponseProps.v ===== *)
(** A response arrives at the browser as the local application gave it; and what the
    relay does when it does not come. *)

From stdpp Require Import strings.
From S2P Require Import Prelude Utf8 Frames Json Metadata Tunnel TunnelProps Session Identity Proxy ProxyProps AgentWs Files Agent Html Response.

(** ** What arrives *)

Lemma dict_get_filter {X} (P : pystr * X → Prop) `{∀ kv, Decision (P kv)} k (l : list (pystr * X)) :
  (∀ v, P (k, v)) → dict_get k (filter P l) = dict_get k l.
Proof.
  intros HP. induction l as [|[k' v] l IH]; [done|]. rewrite filter_cons. cbn [dict_get].
  destruct (decide (P (k', v))) as [|Hn]; cbn [dict_get]; [by rewrite IH|].
  rewrite IH. by destruct (decide (k = k')) as [->|]; [destruct Hn|].
Qed.

Lemma dict_get_items k (h : list (pystr * pystr)) : dict_get k (header_item <$> h) = JStr <$> dict_get k h.
Proof. induction h as [|[k' v] h IH]; [done|]. cbn. by destruct (decide (k = k')). Qed.

Lemma buffer_html_spec chunks : ∀ b, b ≤ HTML_REWRITE_MAX_BYTES →
  let '(parts, over, rest) := buffer_html b chunks in
  parts ++ rest = chunks ∧
  if over : bool then HTML_REWRITE_MAX_BYTES < b + Z.of_nat (length (concat parts))
  else rest = [] ∧ b + Z.of_nat (length (concat parts)) ≤ HTML_REWRITE_MAX_BYTES.
Proof.
  induction chunks as [|c cs IH]; intros b Hb; cbn [buffer_html].
  { split; [done|]. split; [done|]. cbn [concat length]. lia. }
  destruct (Z.ltb_spec HTML_REWRITE_MAX_BYTES (b + Z.of_nat (length c))).
  { split; [done|]. cbn [concat]. by rewrite app_nil_r. }
  specialize (IH (b + Z.of_nat (length c)) ltac:(lia)).
  destruct (buffer_html _ cs) as [[parts over] rest]. destruct IH as [<- IH]. split; [done|].
  cbn [concat]. rewrite length_app, Nat2Z.inj_add. destruct over; [lia|]. split; [apply IH|]. lia.
Qed.

Lemma stream_all chunks : ∀ i, stream_generator (λ _, false) i chunks = (chunks, false).
Proof. induction chunks as [|c cs IH]; intros i; [done|]. cbn. by rewrite IH. Qed.

Lemma concat_nonempty (l : list bytes) : concat (filter (λ c, c ≠ []) l) = concat l.
Proof.
  induction l as [|c l IH]; [done|]. rewrite filter_cons. cbn [concat].
  destruct (decide (c ≠ [])) as [|Hn]; cbn [concat]; [by rewrite IH|].
  by destruct c; [|destruct Hn].
Qed.

(** The relay's answer, for the response of the application. *)
Section arrives.
Context `{Codecs}.

Definition media_type (r : LocalResponse) : pystr :=
  default (py "application/octet-stream") (dict_get (py "content-type") (lr_headers r)).

Definition passed_headers (r : LocalResponse) : list (pystr * json) :=
  dict_pop (py "content-type") (filter (λ kv, kept_header kv = true) (header_item <$> lr_headers r)).

Definition answers (code : pystr) (r : LocalResponse) (resp : ResponseExn + BrowserResponse) : Prop :=
  let body := concat (lr_chunks r) in
  let page := startswith (media_type r) (py "text/html") in
  let fits := Z.of_nat (length body) ≤ HTML_REWRITE_MAX_BYTES in
  let rewritten := rewrite_html_body body (media_type r) (py "/m/" ++ code) in
  match resp with
  | inr (Stream status headers media chunks cancelled) =>
      status = JInt (lr_status r) ∧ headers = passed_headers r ∧ media = media_type r ∧
      concat chunks = body ∧ cancelled = false ∧ (page = true → ¬ fits)
  | inr (Whole status headers media b) =>
      status = JInt (lr_status r) ∧ headers = dict_pop (py "content-length") (passed_headers r) ∧
      media = media_type r ∧ rewritten = inr b ∧ page = true ∧ fits
  | inl e => ∃ x, e = RCodec x ∧ rewritten = inl x ∧ page = true ∧ fits
  end.

Lemma loads_meta r :
  wf_json (response_meta r) = true →
  loads_payload (Z_byte <$> dumps (response_meta r)) = inr (response_meta r).
Proof.
  intros Hw. unfold loads_payload.
  rewrite (utf8_decode_encode (dumps (response_meta r))).
  - by rewrite loads_dumps.
  - by apply utf8_encode_ascii, dumps_ascii.
Qed.

Lemma proxy_response_spec code r chunks :
  wf_json (response_meta r) = true → concat chunks = concat (lr_chunks r) →
  answers code r (proxy_response code (λ _, false) (Z_byte <$> dumps (response_meta r)) chunks).
Proof.
  intros Hw Hc. unfold proxy_response. rewrite loads_meta by done. cbn [mbind sum_bind response_meta].
  change (get_or (py "status") (JInt 200) [(py "status", JInt (lr_status r)); (py "headers", json_headers (lr_headers r))])
    with (JInt (lr_status r)).
  change (get_or (py "headers") (JObj []) [(py "status", JInt (lr_status r)); (py "headers", json_headers (lr_headers r))])
    with (JObj (header_item <$> lr_headers r)).
  cbv zeta iota. unfold get_or. rewrite dict_get_filter by by intros. rewrite dict_get_items.
  assert (default (JStr (py "application/octet-stream")) (JStr <$> dict_get (py "content-type") (lr_headers r))
          = JStr (media_type r)) as ->.
  { unfold media_type. by destruct (dict_get (py "content-type") (lr_headers r)). }
  fold (passed_headers r). unfold answers. destruct (startswith (media_type r) (py "text/html")) eqn:Ep.
  - pose proof (buffer_html_spec chunks 0 ltac:(done)) as Hb.
    destruct (buffer_html 0 chunks) as [[parts over] rest]. destruct Hb as [<- Hb]. rewrite concat_app in Hc.
    destruct over.
    + rewrite stream_all. split_and!; try done; [by rewrite concat_app|]. intros _.
      rewrite <- Hc, length_app. lia.
    + destruct Hb as [-> Hb]. cbn [concat] in Hc. rewrite app_nil_r in Hc. rewrite Hc in *.
      destruct (rewrite_html_body _ _ _) as [e|b]; [by exists e|done].
  - rewrite stream_all. done.
Qed.
End arrives.

(** ** The frames of a response *)

Lemma sent_sent fs gs x : sent gs (sent fs x) = sent (fs ++ gs) x.
Proof. unfold sent, set_ws. cbn. by rewrite fmap_app, (assoc_L (++)). Qed.

Lemma sent_error fs x : lw_error (_ws (sent fs x)) = None.
Proof. done. Qed.

Lemma send_close_log rid x :
  lw_error (_ws x) = None → uuid_ok rid →
  ∃ f, deserialize_frame f = inr (CLOSE, rid, []) ∧ send_close rid x = (sent [f] x, inr tt).
Proof.
  intros Hx Hu. destruct (frame_fits CLOSE rid [] Hu) as (f & Hf & Hd & _); [done|].
  exists f. split; [done|]. unfold send_close, tun. rewrite Hf.
  unfold mbind, M_bind, mret, M_ret, on_ws. cbv beta iota. simpl. unfold lw_send. by rewrite Hx.
Qed.

Definition fits_frame (p : bytes) : Prop := Z.of_nat (length p) ≤ MAX_PAYLOAD_BYTES.

Lemma send_locals rid ps : ∀ x,
  lw_error (_ws x) = None → uuid_ok rid → Forall fits_frame ps →
  ∃ fs, Forall2 (λ f p, deserialize_frame f = inr (DATA, rid, p)) fs ps ∧
        for_each (send_local rid) ps x = (sent fs x, inr tt).
Proof.
  induction ps as [|p ps IH]; intros x Hx Hu Hps.
  { exists []. split; [constructor|]. cbn. unfold sent, set_ws. rewrite app_nil_r. destruct x as [[]]. cbn in *. by rewrite Hx. }
  apply Forall_cons in Hps as [Hp Hps].
  destruct (send_data_log rid p x Hx Hu Hp) as (f & Hd & Hs).
  destruct (IH (sent [f] x) (sent_error _ _) Hu Hps) as (fs & Hfs & Hrun).
  exists (f :: fs). split; [by constructor|]. cbn [for_each]. unfold mbind, M_bind, send_local at 1, raising.
  rewrite Hs. cbv beta iota. by rewrite Hrun, sent_sent.
Qed.

(** C25: A response through the tunnel.  On a working WebSocket the agent sends the
    status and headers and then the body in DATA frames of the stream, none of them
    empty and none larger than a frame, and a CLOSE frame.  From those payloads the
    relay gives the browser the same status and content type, the headers but for the
    hop-by-hop ones, and the same body: as a stream; or, when it is a page of at most five
    megabytes, in one piece with its asset paths rewritten and without the old length.
    Only the codec of such a page can make it fail. *)
Theorem response_roundtrip `{Codecs} rid r code (x : TunnelConnection LogWs) :
  lw_error (_ws x) = None → uuid_ok rid → lr_raises r = false → wf_json (response_meta r) = true →
  fits_frame (Z_byte <$> dumps (response_meta r)) → Forall fits_frame (lr_chunks r) →
  ∃ frames close meta payloads,
    answer rid (Some r) x = (sent (frames ++ [close]) x, inr tt) ∧
    Forall2 (λ f p, deserialize_frame f = inr (DATA, rid, p)) frames (meta :: payloads) ∧
    deserialize_frame close = inr (CLOSE, rid, []) ∧ [] ∉ payloads ∧
    answers code r (proxy_response code (λ _, false) meta payloads).
Proof.
  intros Hx Hu Hr Hw Hm Hc. set (meta := Z_byte <$> dumps (response_meta r)) in *.
  set (payloads := filter (λ c, c ≠ []) (lr_chunks r)).
  destruct (send_data_log rid meta x Hx Hu Hm) as (f & Hd & Hs).
  destruct (send_locals rid payloads (sent [f] x) (sent_error _ _) Hu) as (fs & Hfs & Hrun).
  { apply Forall_forall. intros p [_ Hp]%list_elem_of_filter. rewrite Forall_forall in Hc. by apply Hc. }
  destruct (send_close_log rid (sent fs (sent [f] x)) (sent_error _ _) Hu) as (g & Hg & Hclose).
  exists (f :: fs), g, meta, payloads. split_and!; [|by constructor|done| |].
  - unfold answer, try_except, mbind, M_bind, send_local at 1, raising. fold meta payloads. rewrite Hs. cbv beta iota.
    rewrite Hrun. cbv beta iota. rewrite Hr, Hclose. cbv beta iota. by rewrite !sent_sent.
  - unfold payloads. rewrite list_elem_of_filter. naive_solver.
  - apply proxy_response_spec; [done|]. apply concat_nonempty.
Qed.

(** An application that raises in the middle of its response: the agent sends no CLOSE
    frame, and the relay, which has no other way to notice, waits for the rest. *)
Theorem app_error_sends_no_close rid r (x : TunnelConnection LogWs) :
  lw_error (_ws x) = None → uuid_ok rid → lr_raises r = true →
  fits_frame (Z_byte <$> dumps (response_meta r)) → Forall fits_frame (lr_chunks r) →
  ∃ frames payloads,
    answer rid (Some r) x = (sent frames x, inl FApp) ∧
    Forall2 (λ f p, deserialize_frame f = inr (DATA, rid, p)) frames payloads.
Proof.
  intros Hx Hu Hr Hm Hc. set (meta := Z_byte <$> dumps (response_meta r)) in *.
  set (payloads := filter (λ c, c ≠ []) (lr_chunks r)).
  destruct (send_data_log rid meta x Hx Hu Hm) as (f & Hd & Hs).
  destruct (send_locals rid payloads (sent [f] x) (sent_error _ _) Hu) as (fs & Hfs & Hrun).
  { apply Forall_forall. intros p [_ Hp]%list_elem_of_filter. rewrite Forall_forall in Hc. by apply Hc. }
  exists (f :: fs), (meta :: payloads). split; [|by constructor].
  unfold answer, try_except, mbind, M_bind, send_local at 1, raising. fold meta payloads. rewrite Hs. cbv beta iota.
  rewrite Hrun. cbv beta iota. rewrite Hr. cbv beta iota. by rewrite sent_sent.
Qed.

(** ** Witnesses *)

(** The codec UTF-8 alone. *)
Definition utf8_codecs : Codecs := {|
  codec_decode charset b :=
    if bool_decide (charset = py "utf-8") then
      match utf8_decode b with Some s => inr s | None => inl UnicodeDecodeError end
    else inl LookupError;
  codec_encode charset s :=
    match utf8_encode s with Some b => inr b | None => inl OtherCodecError end |}.

Global Instance utf8_codecs_laws : Utf8Codec utf8_codecs.
Proof. by split. Qed.

Definition ex_page : LocalResponse :=
  {| lr_status := 200; lr_headers := [(py "content-type", py "text/html"); (py "connection", py "close"); (py "etag", py "1")];
     lr_chunks := [Z_byte <$> py "<img src='/"; []; Z_byte <$> py "a.png'>"]; lr_raises := false |}.

Lemma response_roundtrip_witness :
  ∃ frames close meta payloads,
    answer 7 (Some ex_page) (init_connection fresh_ws) = (sent (frames ++ [close]) (init_connection fresh_ws), inr tt) ∧
    Forall2 (λ f p, deserialize_frame f = inr (DATA, 7, p)) frames (meta :: payloads) ∧
    answers (H := utf8_codecs) (py "abc") ex_page
      (inr (Whole (JInt 200) [(py "etag", JStr (py "1"))] (py "text/html") (Z_byte <$> py "<img src='/m/abc/a.png'>"))).
Proof.
  assert (fits_frame (Z_byte <$> dumps (response_meta ex_page))) as Hm by (vm_compute; discriminate).
  assert (Forall fits_frame (lr_chunks ex_page)) as Hc.
  { repeat (apply Forall_cons_2; [vm_compute; discriminate|]). apply Forall_nil_2. }
  destruct (response_roundtrip (H := utf8_codecs) 7 ex_page (py "abc") (init_connection fresh_ws))
    as (frames & close & meta & payloads & Ha & Hf & _ & _ & _);
    [reflexivity|unfold uuid_ok; lia|reflexivity|vm_compute; reflexivity|exact Hm|exact Hc|].
  exists frames, close, meta, payloads. split; [exact Ha|]. split; [exact Hf|].
  repeat split; try reflexivity; vm_compute; first [reflexivity|discriminate].
Defined.
