(* ===== verification/Spa.v ===== *)
(** The pages of the web client: [spa_catch_all] of [src/server/app/main.py], the shell
    of [src/shared/spa.py] and the account pages of the relay
    ([src/relay/app/routers/pages.py]), on the file system of [Files].

    A route [/{path:path}] hands over what follows the first slash of the URL's path,
    decoded. *)

From stdpp Require Import strings.
From S2P Require Import Prelude Json Identity IdentityProps Files FilesProps FilesApiProps StorageProps.

(** [base / s]: an absolute [s] replaces [base]; empty components and dots are dropped,
    the others kept as they are. *)
Definition path_join (base : path) (s : pystr) : path :=
  let names := filter (λ c, is_dot c = false) (split_on slash s) in
  if startswith s [slash] then names else base ++ names.

(** What [p.is_file()] finds; a NUL in a name makes it false. *)
Definition file_at (t : fs) (p : path) : option bytes :=
  if bool_decide (Exists (λ c, 0 ∈ c) p) then None
  else match stat t p with Some (FFile c) => Some c | _ => None end.

Inductive Page :=
| PageFile (content : bytes)
| Placeholder.

Definition spa_shell_response (index_html : path) (t : fs) : Page :=
  match file_at t index_html with Some c => PageFile c | None => Placeholder end.

Definition index_of (client_dist : path) : path := client_dist ++ [py "index.html"].

Definition spa_catch_all (client_dist : path) (p : pystr) (t : fs) : Page :=
  match file_at t (path_join client_dist p) with
  | Some c => PageFile c
  | None => spa_shell_response (index_of client_dist) t
  end.

(** The account pages of the relay. *)
Definition _shell (repo_root : path) (t : fs) : Page :=
  spa_shell_response (index_of (repo_root ++ [py "client"; py "dist"])) t.

(** ** What is served *)

Lemma file_at_real t p c :
  link_free t p → Forall plain_name p → t !! p = Some (FFile c) → file_at t p = Some c.
Proof.
  intros Hl Hp Hf. unfold file_at. rewrite bool_decide_eq_false_2.
  - rewrite stat_real; [by rewrite Hf|done|]. eapply Forall_impl; [exact Hp|]. by intros x [? _].
  - rewrite Exists_exists. intros (x & Hx & H0). rewrite Forall_forall in Hp. by destruct (Hp x Hx) as (_ & _ & ?).
Qed.

Lemma path_join_plain base names :
  names ≠ [] → Forall plain_name names → path_join base (join_slash names) = base ++ names.
Proof.
  intros Hne Hn. unfold path_join. destruct (join_slash_head names Hne Hn) as [_ Hs].
  rewrite split_join; [|done|by eapply Forall_impl; [exact Hn|intros c (_ & ? & _)]].
  rewrite filter_clean by done. by destruct (startswith (join_slash names) [slash]).
Qed.

Lemma path_join_absolute base names :
  names ≠ [] → Forall plain_name names → path_join base (slash :: join_slash names) = names.
Proof.
  intros Hne Hn. unfold path_join. cbn [startswith split_on]. rewrite Z.eqb_refl. cbn [andb].
  rewrite split_join; [|done|by eapply Forall_impl; [exact Hn|intros c (_ & ? & _)]].
  rewrite filter_cons_False by done. by apply filter_clean.
Qed.

(** C18: The catch-all route serves the files of the client bundle by their names and the
    shell of the client for every other name in it; and it serves every other file of
    the machine too: for a URL with two slashes in front, [path] is absolute and
    replaces the directory of the bundle.  The password gate, which guards [/api/] only,
    lets such a request pass, whatever the configuration of the server. *)
Theorem spa_reads_any_file `{Hmac} session_cookie validate_token config items client_dist t p c names :
  p ≠ [] → Forall plain_name p → link_free t p → t !! p = Some (FFile c) →
  names ≠ [] → Forall plain_name names → base_ok t client_dist → link_free t (client_dist ++ names) →
  Forall plain_name client_dist →
  auth_middleware session_cookie validate_token config (slash :: slash :: join_slash p) items = inr PassThrough ∧
  spa_catch_all client_dist (slash :: join_slash p) t = PageFile c ∧
  spa_catch_all client_dist (join_slash names) t =
    match t !! (client_dist ++ names) with
    | Some (FFile b) => PageFile b
    | _ => spa_shell_response (index_of client_dist) t
    end.
Proof.
  intros Hne Hp Hl Hf Hnn Hn Hb Hln Hc. split_and!.
  - done.
  - unfold spa_catch_all. by rewrite path_join_absolute, (file_at_real t p c).
  - unfold spa_catch_all. rewrite path_join_plain by done.
    assert (Forall plain_name (client_dist ++ names)) as Hall by by apply Forall_app.
    destruct (t !! (client_dist ++ names)) as [[b| |l]|] eqn:E; [by rewrite (file_at_real t _ b)|..].
    all: unfold file_at; destruct (bool_decide _); [done|]; rewrite stat_real, E;
      [done|done|eapply Forall_impl; [exact Hall|by intros x [? _]]].
Qed.

(** ** Witness *)

Definition ex_machine : fs :=
  <[[] := FDir]> (<[[py "etc"] := FDir]> (<[[py "etc"; py "passwd"] := FFile (Z_byte <$> py "root")]>
  (<[[py "dist"] := FDir]> {[ [py "dist"; py "index.html"] := FFile (Z_byte <$> py "<html>") ]}))).

Lemma spa_reads_any_file_witness :
  spa_catch_all [py "dist"] (py "/etc/passwd") ex_machine = PageFile (Z_byte <$> py "root") ∧
  spa_catch_all [py "dist"] (py "login") ex_machine = PageFile (Z_byte <$> py "<html>").
Proof.
  assert (∀ p, link_free ex_machine p) as Hl.
  { intros p q target _ Hq. unfold ex_machine in Hq.
    repeat (apply lookup_insert_Some in Hq as [[_ Hq]|[_ Hq]]; [discriminate Hq|]).
    apply lookup_singleton_Some in Hq as [_ Hq]. discriminate Hq. }
  assert (Forall plain_name [py "etc"; py "passwd"]) as Hp by (apply (bool_decide_unpack _); vm_compute; exact I).
  assert (Forall plain_name [py "login"]) as Hn by (apply (bool_decide_unpack _); vm_compute; exact I).
  assert (Forall plain_name [py "dist"]) as Hd by (apply (bool_decide_unpack _); vm_compute; exact I).
  assert (base_ok ex_machine [py "dist"]) as Hb.
  { split; [apply Hl|]. apply Forall_cons_2; [split; vm_compute; reflexivity|apply Forall_nil_2]. }
  pose proof (spa_reads_any_file (H := hex_mac) (λ _, None) (λ _, false)
    {| cfg_password_hash := Some []; cfg_read_only := true; cfg_receive := true; cfg_mount_code := None; cfg_identity_secret := None |}
    [] [py "dist"] ex_machine [py "etc"; py "passwd"] (Z_byte <$> py "root") [py "login"]) as H.
  destruct H as (_ & H1 & H2);
    [discriminate|exact Hp|apply Hl|vm_compute; reflexivity|discriminate|exact Hn|exact Hb|apply Hl|exact Hd|].
  split; [exact H1|]. etrans; [exact H2|]. vm_compute. reflexivity.
Defined.
