(* ===== verification/Bridge.v ===== *)
(** WebSockets through the tunnel: [proxy_websocket] of
    [src/relay/app/routers/mount_proxy.py] and [handle_ws_open_frame] of
    [src/agent/proxy.py].

    The relay's handler up to the open stream is a call on the connections, as in
    [Proxy].  The bridge itself is a transition system.  It has two sides, the relay's
    with the browser and the agent's with the local application, and two directions.
    On each side one task pumps the messages of its peer into the tunnel and one takes
    payloads off the stream; the first of the two to end cancels the other, sends
    WS_CLOSE (or fails to, which is only logged) and removes the stream.  Between the
    sides the tunnel is a queue in each direction ([TunnelProps.tunnel_fifo]), which can
    be cut, and the connection at either side can be torn down at any time. *)

From stdpp Require Import strings.
From S2P Require Import Prelude Utf8 Frames Json Metadata Tunnel Accounts Registry Session Access Identity Proxy.

(** ** Opening *)

Inductive WsReply :=
| WsForwardLocal (headers : list (pystr * pystr))
| WsClose (code : Z)
| WsBridge (conn : nat) (ws_id : UUID).

(** The headers given to an in-process mount: those of the relay's visitor, [X-WFS-*]
    included. *)
Definition local_ws_headers (items : list (pystr * pystr)) : list (pystr * pystr) :=
  fold_left (λ h '(k, v), if bool_decide (lower k ∈ HOP_BY_HOP) || bool_decide (lower k = py "host")
                          then h else dict_set k v h) items [].

Section opening.
Context {W : Type} `{!WebSocketProtocol W} {S : Type} `{AccountStore S} `{Hmac}.

Abbreviation P A := (M (gmap nat (TunnelConnection W)) ProxyExn A).

(** [open_stream] and the [try] around sending WS_OPEN. *)
Definition open_bridge (c : nat) (ws_id : UUID) (metadata : WsOpenMetadata) : P WsReply :=
  on_conn c (open_stream ws_id) ≫= λ _,
  try_except
    (on_conn c (send_ws_open ws_id metadata) ≫= λ _, mret (WsBridge c ws_id))
    (λ e, match e with
          | PConn (Tun MetadataTooLargeError) | PConn (Tun TunnelSendError) =>
              drop_stream c ws_id ≫= λ _, mret (WsClose 1011)
          | e => raise e
          end).

Definition proxy_websocket (local_mounts : gset pystr) (registry : Registry) (account_store : option S)
    (identity : option SessionIdentity) (ws_id : UUID) (code : pystr) (r : Request) : P WsReply :=
  if bool_decide (code ∈ local_mounts) then mret (WsForwardLocal (local_ws_headers (rq_headers r)))
  else
    match authorize registry account_store code identity with
    | inl (AuthenticationRequiredError _) | inl (AccessDeniedError _ _) => mret (WsClose 1008)
    | inl (StoreError e) => raise (PStore e)
    | inr decision =>
        closed ← gets conn_closed;
        match (get_connection closed code registry).2 with
        | inl MountNotFoundError | inl MountOfflineError | inl MountExpiredError => mret (WsClose 1011)
        | inl e => raise (PRegistry e)
        | inr c =>
            match forward_headers (rq_headers r) (injected decision) (get_identity_secret code registry) with
            | inl e => raise (PIdentity e)
            | inr headers =>
                open_bridge c ws_id
                  {| wm_path := slash :: rq_path r; wm_query := rq_query r; wm_headers := headers |}
            end
        end
    end.

End opening.

(** ** The agent's handler around the bridge *)

Section agent.
Context {W : Type} `{!WebSocketProtocol W}.

(** [handle_ws_open_frame] but for the bridge: when the local application refuses the
    WebSocket ([connects] is false), the inner [finally] is not reached. *)
Definition handle_ws_open_frame (ws_id : UUID) (connects : bool) : M (TunnelConnection W) ConnExn unit :=
  _ ← (if connects then modify (remove_stream ws_id) else mret tt);
  try_except (send_ws_close ws_id) (λ _, mret tt).

End agent.

(** ** Messages *)

Inductive WsMsg := WText (text : pystr) | WBytes (data : bytes).

(** What a peer sends; pings and the like are neither. *)
Inductive FromPeer := Said (m : WsMsg) | Ignored_.

Definition message_of (x : FromPeer) : option WsMsg := match x with Said m => Some m | Ignored_ => None end.

(** A message as the payload of a WS_DATA frame: encoding and [serialize_frame]. *)
Definition payload_of (m : WsMsg) : TunnelExn + bytes :=
  p ← match m with WText s => encode_text_message s | WBytes b => inr (encode_binary_message b) end;
  if MAX_PAYLOAD_BYTES <? Z.of_nat (length p) then inl FrameTooLargeError else inr p.

(** [decode_ws_message], and [data.decode("utf-8")] of a text. *)
Definition message_in (p : bytes) : TunnelExn + WsMsg :=
  '(kind, data) ← decode_ws_message p;
  match kind with
  | TEXT => match utf8_decode data with Some s => inr (WText s) | None => inl ValueError end
  | BINARY => inr (WBytes data)
  end.

(** ** The bridge *)

Inductive Cause := PeerLeft | StreamOver | Failed_.

#[export] Instance Cause_eq_dec : EqDecision Cause.
Proof. solve_decision. Defined.

(** How the stream at the end of a direction came to be closed: by the WS_CLOSE of the
    other side, or by [_tear_down] of the connection there. *)
Inductive Over := ByClose | ByTearDown.

#[export] Instance Over_eq_dec : EqDecision Over.
Proof. solve_decision. Defined.

(** One direction: what the peer at its source has sent and how much of it is pumped;
    the payloads on the wire and the WS_CLOSE behind them; whether the wire is cut, and
    whether the WS_CLOSE could not be sent; the queue of the stream at the other side,
    whether that stream is closed, and what the peer there has received. *)
Record Dir := {
  d_said : list FromPeer;
  d_left : bool;
  d_pos : nat;
  d_flight : list bytes;
  d_close : bool;
  d_cut : bool;
  d_mute : bool;
  d_queue : list bytes;
  d_over : option Over;
  d_got : list WsMsg
}.

(** [None]: the side runs. *)
Record Bridge := { b_up : Dir; b_down : Dir; b_relay : option Cause; b_agent : option Cause }.

Inductive Way := Up | Down.

#[export] Instance Way_eq_dec : EqDecision Way.
Proof. solve_decision. Defined.

Definition dir (w : Way) (b : Bridge) : Dir := match w with Up => b_up b | Down => b_down b end.

Definition set_dir (w : Way) (d : Dir) (b : Bridge) : Bridge :=
  match w with
  | Up => {| b_up := d; b_down := b_down b; b_relay := b_relay b; b_agent := b_agent b |}
  | Down => {| b_up := b_up b; b_down := d; b_relay := b_relay b; b_agent := b_agent b |}
  end.

Definition back (w : Way) : Way := match w with Up => Down | Down => Up end.

(** The side at the source of a direction: the relay for [Up], the agent for [Down]. *)
Definition side (w : Way) (b : Bridge) : option Cause := match w with Up => b_relay b | Down => b_agent b end.

Definition set_side (w : Way) (x : Cause) (b : Bridge) : Bridge :=
  match w with
  | Up => {| b_up := b_up b; b_down := b_down b; b_relay := Some x; b_agent := b_agent b |}
  | Down => {| b_up := b_up b; b_down := b_down b; b_relay := b_relay b; b_agent := Some x |}
  end.

Definition fresh_dir : Dir :=
  {| d_said := []; d_left := false; d_pos := 0; d_flight := []; d_close := false; d_cut := false;
     d_mute := false; d_queue := []; d_over := None; d_got := [] |}.

Definition fresh_bridge : Bridge :=
  {| b_up := fresh_dir; b_down := fresh_dir; b_relay := None; b_agent := None |}.

(** Changes of a direction. *)
Definition say (x : FromPeer) (d : Dir) : Dir :=
  {| d_said := d_said d ++ [x]; d_left := d_left d; d_pos := d_pos d; d_flight := d_flight d;
     d_close := d_close d; d_cut := d_cut d; d_mute := d_mute d; d_queue := d_queue d;
     d_over := d_over d; d_got := d_got d |}.

Definition leave (d : Dir) : Dir :=
  {| d_said := d_said d; d_left := true; d_pos := d_pos d; d_flight := d_flight d;
     d_close := d_close d; d_cut := d_cut d; d_mute := d_mute d; d_queue := d_queue d;
     d_over := d_over d; d_got := d_got d |}.

(** What is sent on a wire that is cut does not arrive. *)
Definition pumped (ps : list bytes) (d : Dir) : Dir :=
  {| d_said := d_said d; d_left := d_left d; d_pos := S (d_pos d);
     d_flight := d_flight d ++ (if d_cut d then [] else ps);
     d_close := d_close d; d_cut := d_cut d; d_mute := d_mute d; d_queue := d_queue d;
     d_over := d_over d; d_got := d_got d |}.

(** [send_ws_close] with the [except] around it: [sent] is false when it raised. *)
Definition send_close_frame (sent : bool) (d : Dir) : Dir :=
  {| d_said := d_said d; d_left := d_left d; d_pos := d_pos d; d_flight := d_flight d;
     d_close := sent && negb (d_cut d); d_cut := d_cut d; d_mute := negb sent; d_queue := d_queue d;
     d_over := d_over d; d_got := d_got d |}.

Definition drop_queue (d : Dir) : Dir :=
  {| d_said := d_said d; d_left := d_left d; d_pos := d_pos d; d_flight := d_flight d;
     d_close := d_close d; d_cut := d_cut d; d_mute := d_mute d; d_queue := [];
     d_over := d_over d; d_got := d_got d |}.

(** The WebSocket of the tunnel breaks: the frames on their way are lost. *)
Definition cut (d : Dir) : Dir :=
  {| d_said := d_said d; d_left := d_left d; d_pos := d_pos d; d_flight := [];
     d_close := false; d_cut := true; d_mute := d_mute d; d_queue := d_queue d;
     d_over := d_over d; d_got := d_got d |}.

(** The stream at the end of the direction is closed. *)
Definition over (o : Over) (d : Dir) : Dir :=
  {| d_said := d_said d; d_left := d_left d; d_pos := d_pos d; d_flight := d_flight d;
     d_close := d_close d; d_cut := d_cut d; d_mute := d_mute d; d_queue := d_queue d;
     d_over := match d_over d with None => Some o | x => x end; d_got := d_got d |}.

(** A frame leaves the wire; [arrives] is false when there is no stream for it. *)
Definition arrive (arrives : bool) (p : bytes) (ps : list bytes) (d : Dir) : Dir :=
  {| d_said := d_said d; d_left := d_left d; d_pos := d_pos d; d_flight := ps;
     d_close := d_close d; d_cut := d_cut d; d_mute := d_mute d;
     d_queue := if arrives then d_queue d ++ [p] else d_queue d;
     d_over := d_over d; d_got := d_got d |}.

Definition close_arrives (d : Dir) : Dir :=
  {| d_said := d_said d; d_left := d_left d; d_pos := d_pos d; d_flight := [];
     d_close := false; d_cut := d_cut d; d_mute := d_mute d; d_queue := d_queue d;
     d_over := d_over d; d_got := d_got d |}.

Definition taken (m : WsMsg) (ps : list bytes) (d : Dir) : Dir :=
  {| d_said := d_said d; d_left := d_left d; d_pos := d_pos d; d_flight := d_flight d;
     d_close := d_close d; d_cut := d_cut d; d_mute := d_mute d; d_queue := ps;
     d_over := d_over d; d_got := d_got d ++ [m] |}.

(** The end of a side: WS_CLOSE goes out, unless sending it raises, and the stream is
    removed. *)
Definition end_side (w : Way) (x : Cause) (sent : bool) (b : Bridge) : Bridge :=
  let b := set_side w x b in
  let b := set_dir w (send_close_frame sent (dir w b)) b in
  set_dir (back w) (drop_queue (dir (back w) b)) b.

(** In the events in which a side can end, [sent] tells whether its WS_CLOSE got out. *)
Inductive BridgeEvent :=
| BSay (w : Way) (x : FromPeer)
| BLeave (w : Way)
| BPump (w : Way) (sent : bool)
| BDeliver (w : Way)
| BTake (w : Way) (sent : bool)
| BFail (w : Way) (sent : bool)
| BCut (w : Way)
| BTearDown (w : Way).

#[export] Instance WsMsg_eq_dec : EqDecision WsMsg.
Proof. solve_decision. Defined.

#[export] Instance FromPeer_eq_dec : EqDecision FromPeer.
Proof. solve_decision. Defined.

#[export] Instance BridgeEvent_eq_dec : EqDecision BridgeEvent.
Proof. solve_decision. Defined.

(** One step.  A peer speaks or leaves; the pump at the source of a direction takes the
    next message ([browser_to_agent], [local_to_relay]); the tunnel delivers a frame, for
    which there is a stream while the side there runs and its connection is not torn
    down; the task at the other side takes a payload ([agent_to_browser],
    [relay_to_local]), and ends when the stream is closed and its queue empty; a send on
    a side fails; the wire of a direction is cut; the connection at the end of a
    direction is torn down ([_tear_down] closes its streams and forgets them). *)
Definition bridge_step (e : BridgeEvent) (b : Bridge) : option Bridge :=
  match e with
  | BSay w x => if d_left (dir w b) then None else Some (set_dir w (say x (dir w b)) b)
  | BLeave w => Some (set_dir w (leave (dir w b)) b)
  | BPump w sent =>
      let d := dir w b in
      match side w b with
      | Some _ => None
      | None =>
          match d_said d !! d_pos d with
          | Some Ignored_ => Some (set_dir w (pumped [] d) b)
          | Some (Said m) =>
              match payload_of m with
              | inr p => Some (set_dir w (pumped [p] d) b)
              | inl _ => Some (end_side w Failed_ sent b)
              end
          | None => if d_left d then Some (end_side w PeerLeft sent b) else None
          end
      end
  | BDeliver w =>
      let d := dir w b in
      let registered := bool_decide (side (back w) b = None) && bool_decide (d_over d = None) in
      match d_flight d with
      | p :: ps => Some (set_dir w (arrive registered p ps d) b)
      | [] =>
          if d_close d then
            Some (set_dir w (if registered then over ByClose (close_arrives d) else close_arrives d) b)
          else None
      end
  | BTake w sent =>
      let d := dir w b in
      match side (back w) b with
      | Some _ => None
      | None =>
          match d_queue d with
          | p :: ps =>
              match message_in p with
              | inr m => Some (set_dir w (taken m ps d) b)
              | inl _ => Some (end_side (back w) Failed_ sent b)
              end
          | [] => match d_over d with Some _ => Some (end_side (back w) StreamOver sent b) | None => None end
          end
      end
  | BFail w sent => match side w b with None => Some (end_side w Failed_ sent b) | Some _ => None end
  | BCut w => Some (set_dir w (cut (dir w b)) b)
  | BTearDown w =>
      match side (back w) b with
      | None => Some (set_dir w (over ByTearDown (dir w b)) b)
      | Some _ => Some b
      end
  end.

Fixpoint bridge_run (es : list BridgeEvent) (b : Bridge) : option Bridge :=
  match es with [] => Some b | e :: es' => b' ← bridge_step e b; bridge_run es' b' end.

(** The bridges that a schedule reaches from a fresh one. *)
Inductive bridged : Bridge → Prop :=
| bridged_init : bridged fresh_bridge
| bridged_step e b b' : bridged b → bridge_step e b = Some b' → bridged b'.

(** ** The bridge to an in-process mount

    [bridge_websocket] of [src/relay/app/services/local_mount.py]: the browser and the
    local application, with nothing in between.  The first of the two tasks to end
    cancels the other. *)

Definition local_ws_url (code path query : pystr) : pystr :=
  let url := py "ws://" ++ code ++ slash :: path in
  match query with [] => url | q => url ++ 63 :: q end.

Record LocalDir := { ld_said : list FromPeer; ld_left : bool; ld_pos : nat; ld_got : list WsMsg }.

Record LocalBridge := { lb_up : LocalDir; lb_down : LocalDir; lb_ended : option (Way * Cause) }.

Definition fresh_local_dir : LocalDir := {| ld_said := []; ld_left := false; ld_pos := 0; ld_got := [] |}.

Definition fresh_local : LocalBridge := {| lb_up := fresh_local_dir; lb_down := fresh_local_dir; lb_ended := None |}.

Definition local_dir (w : Way) (b : LocalBridge) : LocalDir := match w with Up => lb_up b | Down => lb_down b end.

Definition set_local (w : Way) (d : LocalDir) (b : LocalBridge) : LocalBridge :=
  match w with
  | Up => {| lb_up := d; lb_down := lb_down b; lb_ended := lb_ended b |}
  | Down => {| lb_up := lb_up b; lb_down := d; lb_ended := lb_ended b |}
  end.

Definition end_local (w : Way) (x : Cause) (b : LocalBridge) : LocalBridge :=
  {| lb_up := lb_up b; lb_down := lb_down b; lb_ended := Some (w, x) |}.

Inductive LocalEvent := LSay (w : Way) (x : FromPeer) | LLeave (w : Way) | LMove (w : Way) | LFail (w : Way).

(** [LMove]: one turn of [browser_to_local] or [local_to_browser]. *)
Definition local_step (e : LocalEvent) (b : LocalBridge) : option LocalBridge :=
  match e with
  | LSay w x =>
      let d := local_dir w b in
      if ld_left d then None
      else Some (set_local w {| ld_said := ld_said d ++ [x]; ld_left := false; ld_pos := ld_pos d; ld_got := ld_got d |} b)
  | LLeave w =>
      let d := local_dir w b in
      Some (set_local w {| ld_said := ld_said d; ld_left := true; ld_pos := ld_pos d; ld_got := ld_got d |} b)
  | LMove w =>
      let d := local_dir w b in
      match lb_ended b with
      | Some _ => None
      | None =>
          match ld_said d !! ld_pos d with
          | Some x =>
              Some (set_local w {| ld_said := ld_said d; ld_left := ld_left d; ld_pos := S (ld_pos d);
                                   ld_got := ld_got d ++ option_list (message_of x) |} b)
          | None => if ld_left d then Some (end_local w PeerLeft b) else None
          end
      end
  | LFail w => match lb_ended b with Some _ => None | None => Some (end_local w Failed_ b) end
  end.

Inductive local_bridged : LocalBridge → Prop :=
| local_init : local_bridged fresh_local
| local_next e b b' : local_bridged b → local_step e b = Some b' → local_bridged b'.
