(* ===== verification/BridgeProps.v ===== *)
(** What the bridges of WebSockets guarantee: order, completeness, and their end; who is
    let in; and the streams that refused WebSockets leave behind. *)

From stdpp Require Import strings.
From S2P Require Import Prelude Utf8 Frames Json Metadata Tunnel TunnelProps Accounts AccountsProps.
From S2P Require Import Registry RegistryProps Session Access Identity IdentityProps Proxy ProxyProps AgentWs Agent AgentProps Bridge.

(** ** One direction *)
















(** ** Both directions *)











Lemma dir_same w d b : dir w (set_dir w d b) = d.
Proof. by destruct w. Qed.

(** ** The end of a side *)

(** The stream at the end of the direction is closed, or the WS_CLOSE is on its way. *)
Definition told (d : Dir) : Prop := d_over d ≠ None ∨ d_close d = true.

(** The turns after which the reader at the end of a direction has ended. *)
Definition work (d : Dir) : nat :=
  (length (d_queue d) + match d_over d with None => 2 * length (d_flight d) + 2 | Some _ => 1 end)%nat.






























(** When the WS_CLOSE is lost, the other side waits: with nothing on the wire or in its
    queue neither the tunnel nor its reader has a step, whatever its peer says, until its
    connection is torn down. *)
Lemma untold_waits b w sent :
  ¬ told (dir w b) → d_flight (dir w b) = [] → d_queue (dir w b) = [] →
  bridge_step (BDeliver w) b = None ∧ bridge_step (BTake w sent) b = None ∧
  ∀ b', bridge_step (BTearDown w) b = Some b' → side (back w) b = None →
    told (dir w b') ∧ work (dir w b') = 1%nat.
Proof.
  intros Ht Hf Hq. unfold told in Ht. cbn [bridge_step]. rewrite Hf, Hq.
  destruct (d_over (dir w b)) eqn:Eo; [destruct Ht; by left|]. destruct (d_close (dir w b)); [destruct Ht; by right|].
  split; [done|]. split; [by destruct (side (back w) b)|]. intros b' E Hd. rewrite Hd in E. injection E as <-.
  rewrite dir_same. unfold told, work. cbn. rewrite Eo, Hq. split; [by left|done].
Qed.

(** ** Who is let in *)

Section opening.
Context {W : Type} `{!WebSocketProtocol W} {S : Type} `{AccountStore S} `{Hmac}.
Implicit Types cs : gmap nat (TunnelConnection W).



(** The streams that the connections have registered. *)
Definition streams_at cs (k : nat) : option (gmap UUID nat) := _streams <$> cs !! k.


(** The streams of connection [c] after the handler: with the new one when the bridge
    runs, as before when it is refused; an error that is not caught leaves the new stream
    if it was raised while WS_OPEN was sent. *)
Definition opened (c : nat) (u : UUID) (cs cs' : gmap nat (TunnelConnection W)) : Prop :=
  ∃ ss ref, streams_at cs c = Some ss ∧ ss !! u = None ∧ (size ss < MAX_STREAMS)%nat ∧
            streams_at cs' c = Some (<[u := ref]> ss).


End opening.


(** An error of the transport other than the three that [_guarded_send] wraps (such as the
    [WebSocketDisconnect] of a send to an agent that is gone) is raised out of the handler,
    and the stream stays. *)
Example ws_open_leak :
  let ws := {| lw_sent := []; lw_error := Some OtherTransport; lw_open := true |} in
  let '(cs', res) := open_bridge 0 7 {| wm_path := py "/ws"; wm_query := []; wm_headers := [] |} {[0%nat := init_connection ws]} in
  res = inl (PConn OtherTransport) ∧ opened 0 7 {[0%nat := init_connection ws]} cs'.
Proof. split; [vm_compute; reflexivity|]. exists ∅, 0%nat. split_and!; vm_compute; try reflexivity. lia. Qed.

(** ** Refused WebSockets *)

Section refused.
Context {W : Type} `{!WebSocketProtocol W}.

(** A WS_OPEN arrives at the agent, the local application refuses the WebSocket, and the
    relay's side of the bridge, ended by the agent's WS_CLOSE, answers with its own. *)
Definition refused (x : UUID * bytes) : M (TunnelConnection W) ConnExn unit :=
  on_ws_open x.1 x.2 ≫= λ _, handle_ws_open_frame x.1 false ≫= λ _,
  _dispatch_frame WS_CLOSE x.1 [] ≫= λ _, mret tt.

Lemma refused_keeps u p c m :
  ws_open_from_payload p = inr m → (size (_streams c) < MAX_STREAMS)%nat → _streams c !! u = None →
  ∃ c' ref, refused (u, p) c = (c', inr tt) ∧ _streams c' = <[u := ref]> (_streams c).
Proof.
  intros Hm Hsz Hu. unfold refused, on_ws_open. cbn [fst snd]. rewrite Hm.
  unfold handle_ws_open_frame, mbind, M_bind, mret, M_ret.
  pose proof (open_stream_result u c) as Ho. unfold open_stream in *.
  destruct (Nat.leb_spec MAX_STREAMS (size (_streams c))); [lia|]. rewrite Hu in *.
  destruct Ho as (_ & Hs & _). set (c1 := {| _ws := _ws c |}) in *.
  unfold try_except. pose proof (send_ws_close_same u c1) as (_ & _ & Hs2 & _).
  destruct (send_ws_close u c1) as [c2 r2]. cbn [fst] in Hs2.
  assert (∃ c3, _dispatch_frame WS_CLOSE u [] c2 = (c3, inr (Signalled (next_ref c))) ∧ _streams c3 = _streams c2) as (c3 & E & Hs3).
  { unfold _dispatch_frame, close_stream, get_stream, try_except, mbind, M_bind, modify, mret, M_ret.
    rewrite Hs2, Hs, lookup_insert_eq. by eexists. }
  exists c3, (next_ref c). destruct r2 as [e|[]]; rewrite E; (split; [done|]); by rewrite Hs3, Hs2, Hs.
Qed.

Lemma refusals_keep xs : ∀ c,
  NoDup xs.*1 → Forall (λ x, ∃ m, ws_open_from_payload x.2 = inr m) xs →
  (∀ u, u ∈ xs.*1 → _streams c !! u = None) → (size (_streams c) + length xs ≤ MAX_STREAMS)%nat →
  ∃ c', for_each refused xs c = (c', inr tt) ∧ size (_streams c') = (size (_streams c) + length xs)%nat.
Proof.
  induction xs as [|[u p] xs IH]; intros c Hnd Hf Hfresh Hsz.
  { exists c. cbn in *. split; [done|lia]. }
  apply Forall_cons in Hf as [[m Hm] Hf]. cbn in Hnd. apply NoDup_cons in Hnd as [Hu Hnd]. cbn [length] in Hsz.
  assert (_streams c !! u = None) as Hn by (apply Hfresh; left).
  destruct (refused_keeps u p c m Hm) as (c1 & ref & E & Hs); [lia|done|].
  cbn [for_each]. unfold mbind, M_bind. rewrite E.
  destruct (IH c1) as (c2 & E2 & H2); [done|done| | |].
  - intros v Hv. rewrite Hs, lookup_insert_ne by (by intros ->). apply Hfresh. by right.
  - rewrite Hs, map_size_insert_None by done. lia.
  - exists c2. split; [done|]. rewrite H2, Hs, map_size_insert_None by done. cbn [length]. lia.
Qed.

End refused.

(** Every WebSocket the local application refuses, for whatever path, costs the agent
    one stream for good: its handler removes the stream only once the WebSocket is
    accepted, and the WS_CLOSE of the relay only signals it.  After [MAX_STREAMS] of them
    the next request or WebSocket of anybody raises [StreamLimitError] in the receive
    loop, and the tunnel of the mount ends with it. *)
Theorem refused_websockets_exhaust {W : Type} `{!WebSocketProtocol W} (c : TunnelConnection W)
    (xs : list (UUID * bytes)) :
  _streams c = ∅ → length xs = MAX_STREAMS → NoDup xs.*1 →
  Forall (λ x, ∃ m, ws_open_from_payload x.2 = inr m) xs →
  ∃ c', for_each refused xs c = (c', inr tt) ∧
    (∀ u p m, request_from_payload p = inr m → on_open u p c' = (c', inl (Tun StreamLimitError))) ∧
    (∀ u p m, ws_open_from_payload p = inr m → on_ws_open u p c' = (c', inl (Tun StreamLimitError))) ∧
    swallowed (Tun StreamLimitError) = false.
Proof.
  intros Hc Hlen Hnd Hf. destruct (refusals_keep xs c) as (c' & E & Hsz); [done|done| | |].
  - intros u _. by rewrite Hc.
  - rewrite Hc, map_size_empty. lia.
  - assert (∀ u, open_stream u c' = (c', inl (Tun StreamLimitError))) as Hfull.
    { intros u. unfold open_stream. destruct (Nat.leb_spec MAX_STREAMS (size (_streams c'))); [done|].
      rewrite Hsz, Hc, map_size_empty in *. lia. }
    exists c'. split_and!; [done| | |done]; intros u p m Hm.
    + unfold on_open. rewrite Hm. unfold mbind, M_bind. by rewrite Hfull.
    + unfold on_ws_open. rewrite Hm. unfold mbind, M_bind. by rewrite Hfull.
Qed.

(** A hundred WebSockets to a path the local application does not serve. *)
Definition demo_ws_open : bytes :=
  match ws_open_to_payload {| wm_path := py "/nowhere"; wm_query := []; wm_headers := [] |} with
  | inr p => p | inl _ => [] end.

Definition demo_refusals : list (UUID * bytes) := (λ n, (Z.of_nat n, demo_ws_open)) <$> seq 0 MAX_STREAMS.

Lemma refused_websockets_exhaust_witness :
  ∃ c', for_each refused demo_refusals (init_connection fresh_ws) = (c', inr tt) ∧
    on_ws_open 100 demo_ws_open c' = (c', inl (Tun StreamLimitError)).
Proof.
  assert (ws_open_from_payload demo_ws_open = inr {| wm_path := py "/nowhere"; wm_query := []; wm_headers := [] |}) as Hm
    by (vm_compute; reflexivity).
  assert (NoDup demo_refusals.*1) as Hnd by (apply (bool_decide_unpack _); vm_compute; exact I).
  assert (Forall (λ x, ∃ m, ws_open_from_payload x.2 = inr m) demo_refusals) as Hf.
  { apply Forall_fmap, Forall_true. intros n. eexists. exact Hm. }
  destruct (refused_websockets_exhaust (init_connection fresh_ws) demo_refusals eq_refl eq_refl Hnd Hf)
    as (c' & H1 & _ & H2 & _).
  exists c'. split; [exact H1|]. eapply H2. exact Hm.
Defined.

(** ** In-process mounts *)

Definition local_ok (w : Way) (b : LocalBridge) : Prop :=
  let d := local_dir w b in
  (ld_pos d ≤ length (ld_said d))%nat ∧ ld_got d = omap message_of (take (ld_pos d) (ld_said d)) ∧
  (lb_ended b = Some (w, PeerLeft) → ld_left d = true ∧ ld_pos d = length (ld_said d)).

Lemma set_local_ok w w' d b :
  local_dir w' (set_local w d b) = (if decide (w' = w) then d else local_dir w' b) ∧
  lb_ended (set_local w d b) = lb_ended b.
Proof. by destruct w, w'. Qed.

Lemma local_step_ok e b b' : (∀ w, local_ok w b) → local_step e b = Some b' → ∀ w, local_ok w b'.
Proof.
  intros Hb. destruct e as [w x|w|w|w]; cbn [local_step].
  - destruct (ld_left (local_dir w b)) eqn:El; [done|]. intros [= <-] w'. unfold local_ok.
    destruct (set_local_ok w w' {| ld_said := ld_said (local_dir w b) ++ [x]; ld_left := false;
      ld_pos := ld_pos (local_dir w b); ld_got := ld_got (local_dir w b) |} b) as [-> ->].
    case_decide as Hw; [subst w'|apply Hb]. destruct (Hb w) as (H1 & H2 & H3). cbn. rewrite length_app, take_app_le by done.
    split_and!; [cbn; lia|done|]. intros He. destruct (H3 He). congruence.
  - intros [= <-] w'. unfold local_ok.
    destruct (set_local_ok w w' {| ld_said := ld_said (local_dir w b); ld_left := true;
      ld_pos := ld_pos (local_dir w b); ld_got := ld_got (local_dir w b) |} b) as [-> ->].
    case_decide as Hw; [subst w'|apply Hb]. destruct (Hb w) as (H1 & H2 & H3). cbn. split_and!; try done.
    intros He. by destruct (H3 He).
  - destruct (lb_ended b) as [|] eqn:Ee; [done|]. destruct (ld_said (local_dir w b) !! ld_pos (local_dir w b)) as [x|] eqn:Ex.
    + intros [= <-] w'. unfold local_ok.
      destruct (set_local_ok w w' {| ld_said := ld_said (local_dir w b); ld_left := ld_left (local_dir w b);
        ld_pos := S (ld_pos (local_dir w b)); ld_got := ld_got (local_dir w b) ++ option_list (message_of x) |} b) as [-> ->].
      case_decide as Hw; [subst w'|apply Hb]. destruct (Hb w) as (H1 & H2 & H3). cbn. rewrite Ee.
      split_and!; [apply lookup_lt_Some in Ex; lia| |done].
      rewrite (take_S_r _ _ x) by done. rewrite omap_app, H2. by destruct x.
    + destruct (ld_left (local_dir w b)) eqn:El; [|done]. intros [= <-] w'. destruct (Hb w') as (H1 & H2 & _).
      unfold local_ok. assert (local_dir w' (end_local w PeerLeft b) = local_dir w' b) as -> by by destruct w'.
      split_and!; [done|done|]. cbn. intros [= ->]. split; [done|]. apply lookup_ge_None in Ex. lia.
  - destruct (lb_ended b); [done|]. intros [= <-] w'. destruct (Hb w') as (H1 & H2 & _).
    unfold local_ok. assert (local_dir w' (end_local w Failed_ b) = local_dir w' b) as -> by by destruct w'.
    by split_and!.
Qed.

(** The bridge to an in-process mount delivers in order, and everything when it ends
    because a peer has left, which is the peer's whole speech. *)
Theorem local_bridge_delivers b w :
  local_bridged b →
  ld_got (local_dir w b) `prefix_of` omap message_of (ld_said (local_dir w b)) ∧
  (lb_ended b = Some (w, PeerLeft) → ld_got (local_dir w b) = omap message_of (ld_said (local_dir w b))).
Proof.
  intros Hb. assert (∀ w, local_ok w b) as Hok.
  { induction Hb as [|e b b' _ IH Hs]; [|by eapply local_step_ok]. by intros []. }
  destruct (Hok w) as (H1 & H2 & H3). split.
  - rewrite H2. rewrite <- (take_drop (ld_pos (local_dir w b)) (ld_said (local_dir w b))) at 2.
    rewrite omap_app. by apply prefix_app_r.
  - intros He. destruct (H3 He) as [_ Hp]. by rewrite H2, Hp, take_ge.
Qed.
