(* ===== verification/Config.v ===== *)
(** The configuration of the relay: [src/relay/app/config.py], from the YAML file and the
    environment.

    The reader of YAML is a library: what it returns is an argument, a value of JSON.
    Python does not check the annotations of the fields, so a field that is passed on as
    it was read keeps whatever value it has. *)

From stdpp Require Import strings.
From S2P Require Import Prelude Json Files FilesProps Session AgentWs.

Inductive RelayEnv := DEVELOPMENT | PRODUCTION.

#[export] Instance RelayEnv_eq_dec : EqDecision RelayEnv.
Proof. solve_decision. Defined.

Inductive ConfigExn := CfgValueError | CfgTypeError | CfgAttributeError | CfgKeyError.

#[export] Instance ConfigExn_eq_dec : EqDecision ConfigExn.
Proof. solve_decision. Defined.

(** [RelayEnv(v)] *)
Definition relay_env (v : json) : ConfigExn + RelayEnv :=
  match v with
  | JStr s => if bool_decide (s = py "development") then inr DEVELOPMENT
              else if bool_decide (s = py "production") then inr PRODUCTION else inl CfgValueError
  | _ => inl CfgValueError
  end.

Record RelayConfig := {
  rc_env : RelayEnv;
  rc_allowed_origins : json;
  rc_mount_reg_rate : json;
  rc_proxy_request_rate : json;
  rc_max_ttl_seconds : Z;
  rc_max_mounts_per_ip : Z;
  rc_ttl_sweep_interval_seconds : Z;
  rc_warning_before_seconds : Z;
  rc_db_path : json;
  rc_data_dir : json;
  rc_dropbox_code : json;
  rc_session_secret : json;
  rc_admin_users : list pystr;
  rc_accounts_db_path : json;
  rc_default_user_quota_bytes : Z;
  rc_auth_signup_rate : json;
  rc_auth_login_rate : json;
  rc_auth_agent_token_rate : json;
  rc_public_url : option pystr;
  rc_oidc_issuer : option pystr;
  rc_oidc_client_id : option pystr;
  rc_oidc_client_secret : option pystr;
  rc_oidc_redirect_path : pystr;
  rc_oidc_scopes : pystr;
  rc_oidc_group_prefix : option pystr
}.

(** [bool] of an optional string *)
Definition given (s : option pystr) : bool :=
  match s with Some (_ :: _) => true | _ => false end.

Definition oidc_enabled (c : RelayConfig) : bool :=
  given (rc_oidc_issuer c) && given (rc_oidc_client_id c) && given (rc_oidc_client_secret c)
  && given (rc_public_url c).

Definition rstrip_slash (s : pystr) : pystr := rstrip_if (λ c, c =? slash) s.

Definition oidc_redirect_uri (c : RelayConfig) : option pystr :=
  match rc_public_url c with
  | Some ((_ :: _) as u) => Some (rstrip_slash u ++ rc_oidc_redirect_path c)
  | _ => None
  end.

(** [str(Path(s).parent / name)] *)
Definition posix_root (s : pystr) : pystr :=
  if startswith s (py "//") && negb (startswith s (py "///")) then py "//"
  else if startswith s [slash] then [slash] else [].

Definition sibling (s name : pystr) : pystr :=
  let parts := filter (λ c, is_dot c = false) (split_on slash s) in
  posix_root s ++ join_slash (take (pred (length parts)) parts ++ [name]).

(** [v.get(k, d)], [v.strip()] and [v.rstrip("/")], iteration, and [v[0]] of a value
    that is true *)
Definition jget (v : json) (k : pystr) (d : json) : ConfigExn + json :=
  match v with JObj l => inr (default d (dict_get k l)) | _ => inl CfgAttributeError end.

Definition jstrip (v : json) : ConfigExn + pystr :=
  match v with JStr s => inr (strip s) | _ => inl CfgAttributeError end.

Definition jiter (v : json) : ConfigExn + list json :=
  match v with
  | JArr l => inr l
  | JStr s => inr ((λ c, JStr [c]) <$> s)
  | JObj l => inr ((λ kv, JStr kv.1) <$> l)
  | _ => inl CfgTypeError
  end.

Definition jfirst (v : json) : ConfigExn + json :=
  match v with
  | JArr (x :: _) => inr x
  | JStr (c :: _) => inr (JStr [c])
  | JObj _ => inl CfgKeyError
  | _ => inl CfgTypeError
  end.

(** The words between the commas, stripped, without the empty ones *)
Definition comma_words (s : pystr) : list pystr :=
  filter (λ w, w ≠ []) (strip <$> split_on 44 s).

Section load.
Context `{PyConv}.

(** [os.environ] *)
Context (environ : gmap pystr pystr).

(** [os.environ.get(name, v)] *)
Definition env_or (name : pystr) (v : json) : json :=
  match environ !! name with Some s => JStr s | None => v end.

(** [os.environ.get(name, "").strip() or None] *)
Definition env_opt (name : pystr) : option pystr :=
  match strip (default [] (environ !! name)) with [] => None | s => Some s end.

(** [v or d] *)
Definition or_else (v d : json) : json := if truthy v then v else d.

(** [int(os.environ.get(name, str(v)))] *)
Definition env_int (name : pystr) (v : json) : ConfigExn + Z :=
  match int_of_str (match environ !! name with Some s => s | None => to_str v end) with
  | Some z => inr z
  | None => inl CfgValueError
  end.

Definition load_allowed_origins (raw : json) : ConfigExn + json :=
  match environ !! py "RELAY_ALLOWED_ORIGINS" with
  | Some s => inr (JArr (JStr <$> comma_words s))
  | None => jget raw (py "allowed_origins") (JArr [])
  end.

Definition load_public_url (raw allowed_origins : json) : ConfigExn + option pystr :=
  u ← jget raw (py "public_url") JNull;
  u ← jstrip (env_or (py "RELAY_PUBLIC_URL") (or_else u (JStr [])));
  u ← (if bool_decide (u = []) && truthy allowed_origins then jfirst allowed_origins else inr (JStr u));
  match u with
  | JStr u => inr (match rstrip_slash u with [] => None | u => Some u end)
  | _ => inl CfgAttributeError
  end.

Definition load_admin_users (raw : json) : ConfigExn + list pystr :=
  match environ !! py "RELAY_ADMIN_USERS" with
  | Some s => inr (str_lower <$> comma_words s)
  | None =>
      v ← jget raw (py "admin_users") (JArr []);
      us ← jiter v;
      inr (str_lower <$> filter (λ w, w ≠ []) ((λ u, strip (to_str u)) <$> (us : list json)))
  end.

Definition load_accounts_db_path (raw db_path : json) : ConfigExn + json :=
  default_accounts_db ←
    match db_path with
    | JStr s => inr (JStr (if bool_decide (s = py ":memory:") then s else sibling s (py "accounts.db")))
    | _ => inl CfgTypeError
    end;
  v ← jget raw (py "accounts_db_path") JNull;
  inr (env_or (py "RELAY_ACCOUNTS_DB_PATH") (or_else v default_accounts_db)).

(** [token] is what [secrets.token_urlsafe(32)] returns. *)
Definition load_session_secret (token : pystr) (raw : json) : ConfigExn + json :=
  v ← jget raw (py "session_secret") JNull;
  let s := env_or (py "RELAY_SESSION_SECRET") (or_else v (JStr [])) in
  inr (if truthy s then s else JStr token).

Definition load_config (token : pystr) (raw : json) : ConfigExn + RelayConfig :=
  rate_limits ← jget raw (py "rate_limits") (JObj []);
  ttl ← jget raw (py "ttl") (JObj []);
  v ← jget raw (py "env") (JStr (py "development"));
  env ← relay_env (env_or (py "RELAY_ENV") v);
  allowed_origins ← load_allowed_origins raw;
  public_url ← load_public_url raw allowed_origins;
  v ← jget rate_limits (py "mount_registration") (JStr (py "5/hour"));
  let mount_reg_rate := env_or (py "RELAY_MOUNT_REG_RATE") v in
  v ← jget rate_limits (py "proxy_requests") (JStr (py "300/minute"));
  let proxy_request_rate := env_or (py "RELAY_PROXY_REQUEST_RATE") v in
  v ← jget ttl (py "max_seconds") (JInt 86400);
  max_ttl_seconds ← env_int (py "RELAY_MAX_TTL_SECONDS") v;
  v ← jget rate_limits (py "max_mounts_per_ip") (JInt 5);
  max_mounts_per_ip ← env_int (py "RELAY_MAX_MOUNTS_PER_IP") v;
  v ← jget ttl (py "sweep_interval_seconds") (JInt 45);
  ttl_sweep_interval_seconds ← env_int (py "RELAY_TTL_SWEEP_INTERVAL") v;
  v ← jget ttl (py "warning_before_seconds") (JInt 300);
  warning_before_seconds ← env_int (py "RELAY_WARNING_BEFORE_SECONDS") v;
  v ← jget raw (py "db_path") (JStr (py "/tmp/mounts.db"));
  let db_path := env_or (py "RELAY_DB_PATH") v in
  v ← jget raw (py "data_dir") (JStr (py "/data/"));
  let data_dir := env_or (py "RELAY_DATA_DIR") v in
  v ← jget raw (py "dropbox_code") (JStr (py "dropbox"));
  let dropbox_code := env_or (py "RELAY_DROPBOX_CODE") v in
  session_secret ← load_session_secret token raw;
  admin_users ← load_admin_users raw;
  accounts_db_path ← load_accounts_db_path raw db_path;
  v ← jget raw (py "default_user_quota_bytes") (JInt 1073741824);
  default_user_quota_bytes ← env_int (py "RELAY_DEFAULT_USER_QUOTA_BYTES") v;
  v ← jget rate_limits (py "auth_signup") (JStr (py "5/hour"));
  let auth_signup_rate := env_or (py "RELAY_AUTH_SIGNUP_RATE") v in
  v ← jget rate_limits (py "auth_login") (JStr (py "10/minute"));
  let auth_login_rate := env_or (py "RELAY_AUTH_LOGIN_RATE") v in
  v ← jget rate_limits (py "auth_agent_token") (JStr (py "10/minute"));
  let auth_agent_token_rate := env_or (py "RELAY_AUTH_AGENT_TOKEN_RATE") v in
  if bool_decide (env = PRODUCTION) && negb (truthy allowed_origins) then inl CfgValueError
  else inr
    {| rc_env := env; rc_allowed_origins := allowed_origins; rc_mount_reg_rate := mount_reg_rate;
       rc_proxy_request_rate := proxy_request_rate; rc_max_ttl_seconds := max_ttl_seconds;
       rc_max_mounts_per_ip := max_mounts_per_ip; rc_ttl_sweep_interval_seconds := ttl_sweep_interval_seconds;
       rc_warning_before_seconds := warning_before_seconds; rc_db_path := db_path; rc_data_dir := data_dir;
       rc_dropbox_code := dropbox_code; rc_session_secret := session_secret; rc_admin_users := admin_users;
       rc_accounts_db_path := accounts_db_path; rc_default_user_quota_bytes := default_user_quota_bytes;
       rc_auth_signup_rate := auth_signup_rate; rc_auth_login_rate := auth_login_rate;
       rc_auth_agent_token_rate := auth_agent_token_rate; rc_public_url := public_url;
       rc_oidc_issuer := env_opt (py "RELAY_OIDC_ISSUER");
       rc_oidc_client_id := env_opt (py "RELAY_OIDC_CLIENT_ID");
       rc_oidc_client_secret := env_opt (py "RELAY_OIDC_CLIENT_SECRET");
       rc_oidc_redirect_path := default (py "/auth/oidc/callback") (env_opt (py "RELAY_OIDC_REDIRECT_PATH"));
       rc_oidc_scopes := default (py "openid profile email") (env_opt (py "RELAY_OIDC_SCOPES"));
       rc_oidc_group_prefix := env_opt (py "RELAY_OIDC_GROUP_PREFIX") |}.

End load.
