(* ===== verification/ConfigProps.v ===== *)
(** What a loaded configuration guarantees, and what it does not: the session secret of
    the shipped file in production. *)

From stdpp Require Import strings.
From S2P Require Import Prelude Json Files FilesProps Session AgentWs IdentityProps RelayAuth Proxy Config.

(** ** Lemmas *)

Lemma rstrip_slash_last u : ∀ s, rstrip_slash u = s ++ [slash] → False.
Proof.
  intros s E. unfold rstrip_slash, rstrip_if in E.
  apply (f_equal reverse) in E. rewrite reverse_involutive, reverse_app in E.
  cbn in E. by apply lstrip_if_head in E.
Qed.

Lemma rstrip_slash_idemp u : rstrip_slash (rstrip_slash u) = rstrip_slash u.
Proof. unfold rstrip_slash, rstrip_if. by rewrite reverse_involutive, lstrip_if_idemp. Qed.

(** The bind of results. *)
Lemma bind_inr {E A B} (m : E + A) (f : A → E + B) b :
  m ≫= f = inr b → ∃ a, m = inr a ∧ f a = inr b.
Proof. destruct m as [e|a]; [done|]. intros H. by exists a. Qed.

Ltac step_in H :=
  match type of H with (_ ≫= _) = inr _ => apply bind_inr in H as (? & ? & H); cbv zeta in H end.

Section load.
Context `{PyConv}.
Context (environ : gmap pystr pystr).

Lemma load_admin_users_ok raw us :
  load_admin_users environ raw = inr us → Forall (λ u, u ≠ [] ∧ ∃ w, u = str_lower w) us.
Proof.
  assert (∀ ws : list pystr, Forall (λ u, u ≠ [] ∧ ∃ w, u = str_lower w) (str_lower <$> filter (λ w, w ≠ []) ws)) as Hall.
  { intros ws. apply Forall_fmap, Forall_forall. intros w Hw. apply list_elem_of_filter in Hw as [Hw _].
    cbn. split; [by apply str_lower_nonempty|by eexists]. }
  unfold load_admin_users, comma_words. destruct (environ !! _); [by intros [= <-]|].
  intros E. step_in E. step_in E. by injection E as <-.
Qed.

Lemma load_public_url_ok raw origins u :
  load_public_url environ raw origins = inr (Some u) → u ≠ [] ∧ rstrip_slash u = u ∧ ∀ s, u ≠ s ++ [slash].
Proof.
  unfold load_public_url. intros E. step_in E. step_in E. step_in E.
  destruct x1 as [| | | |s| |]; try done. destruct (rstrip_slash s) as [|c t] eqn:Er; [done|].
  injection E as <-. split_and!; [done|by rewrite <- Er, rstrip_slash_idemp|].
  intros s' Hs. rewrite Hs in Er. by eapply rstrip_slash_last.
Qed.

Lemma load_session_secret_ok token raw s :
  token ≠ [] → load_session_secret environ token raw = inr s → truthy s = true.
Proof.
  intros Ht. unfold load_session_secret. intros E. step_in E. injection E as <-.
  destruct (truthy (env_or _ _ _)) eqn:Et; [done|]. cbn. by rewrite bool_decide_eq_false_2.
Qed.

End load.

(** The variables that are taken over as they are. *)
Definition string_settings (c : Config.RelayConfig) : list (pystr * json) :=
  [(py "RELAY_MOUNT_REG_RATE", rc_mount_reg_rate c); (py "RELAY_PROXY_REQUEST_RATE", rc_proxy_request_rate c);
   (py "RELAY_DB_PATH", rc_db_path c); (py "RELAY_DATA_DIR", rc_data_dir c);
   (py "RELAY_DROPBOX_CODE", rc_dropbox_code c); (py "RELAY_ACCOUNTS_DB_PATH", rc_accounts_db_path c);
   (py "RELAY_AUTH_SIGNUP_RATE", rc_auth_signup_rate c); (py "RELAY_AUTH_LOGIN_RATE", rc_auth_login_rate c);
   (py "RELAY_AUTH_AGENT_TOKEN_RATE", rc_auth_agent_token_rate c)].

Definition int_settings (c : Config.RelayConfig) : list (pystr * Z) :=
  [(py "RELAY_MAX_TTL_SECONDS", rc_max_ttl_seconds c); (py "RELAY_MAX_MOUNTS_PER_IP", rc_max_mounts_per_ip c);
   (py "RELAY_TTL_SWEEP_INTERVAL", rc_ttl_sweep_interval_seconds c);
   (py "RELAY_WARNING_BEFORE_SECONDS", rc_warning_before_seconds c);
   (py "RELAY_DEFAULT_USER_QUOTA_BYTES", rc_default_user_quota_bytes c)].

(** ** Properties *)

Lemma env_int_set `{PyConv} environ name v z s :
  env_int environ name v = inr z → environ !! name = Some s → int_of_str s = Some z.
Proof. unfold env_int. intros E Hs. rewrite Hs in E. destruct (int_of_str s); [|done]. by injection E as ->. Qed.

(** A configuration that loads is one the relay can run with: in production the
    list of origins is not empty; there is always a session secret, so that the signer
    of sessions is built; the public address has no slash at its end, so that single
    sign-on, which is on only when issuer, client, secret and address are all given,
    has the redirect address [public_url] followed by the path; administrators are
    non-empty lower-case names, as the comparison with them needs.  Every variable of
    the environment that is set overrides the file, as it is or as a number. *)
Theorem load_config_sound `{PyConv} environ token raw c :
  token ≠ [] → load_config environ token raw = inr c →
  (rc_env c = PRODUCTION → truthy (rc_allowed_origins c) = true) ∧
  truthy (rc_session_secret c) = true ∧
  (∀ u, rc_public_url c = Some u → u ≠ [] ∧ ∀ s, u ≠ s ++ [slash]) ∧
  Forall (λ u, u ≠ [] ∧ ∃ w, u = str_lower w) (Config.rc_admin_users c) ∧
  (oidc_enabled c = true → ∃ u, rc_public_url c = Some u ∧ oidc_redirect_uri c = Some (u ++ rc_oidc_redirect_path c)) ∧
  Forall (λ '(name, v), ∀ s, environ !! name = Some s → v = JStr s) (string_settings c) ∧
  Forall (λ '(name, z), ∀ s, environ !! name = Some s → int_of_str s = Some z) (int_settings c).
Proof.
  intros Ht E. unfold load_config in E. repeat step_in E.
  destruct (bool_decide (x2 = PRODUCTION) && negb (truthy x3)) eqn:Eo; [done|]. injection E as <-.
  unfold string_settings, int_settings, oidc_enabled, oidc_redirect_uri. cbn -[rstrip_slash py].
  repeat match goal with H : load_public_url _ _ _ = inr ?u |- _ =>
    assert (∀ v, u = Some v → v ≠ [] ∧ rstrip_slash v = v ∧ ∀ s, v ≠ s ++ [slash]) as Hu
      by (intros v ->; by eapply load_public_url_ok); clear H end.
  split_and!.
  - intros ->. rewrite bool_decide_eq_true_2 in Eo by done. cbn in Eo. by apply negb_false_iff.
  - by eapply load_session_secret_ok.
  - intros u Hx. by destruct (Hu u Hx) as (? & _ & ?).
  - by eapply load_admin_users_ok.
  - intros Hen. apply andb_true_iff in Hen as [_ Hp].
    destruct x4 as [[|k u]|]; [done| |done]. exists (k :: u). split; [done|].
    by destruct (Hu (k :: u) eq_refl) as (_ & -> & _).
  - match goal with H : load_accounts_db_path _ _ _ = inr _ |- _ =>
      unfold load_accounts_db_path in H; repeat step_in H; injection H as <- end.
    repeat (apply Forall_cons_2; [intros s Hs; unfold env_or; by rewrite Hs|]). by apply Forall_nil.
  - repeat (apply Forall_cons_2; [intros s Hs; by eapply env_int_set|]). by apply Forall_nil.
Qed.

(** ** The shipped configuration *)

(** [src/relay/config.yaml] *)
Definition dev_secret : pystr := py "dev-insecure-relay-session-secret".

Definition shipped : json :=
  JObj [(py "env", JStr (py "development")); (py "allowed_origins", JArr []); (py "public_url", JStr []);
        (py "db_path", JStr (py "/tmp/mounts.db")); (py "data_dir", JStr (py "/tmp/relay-data"));
        (py "dropbox_code", JStr (py "dropbox")); (py "session_secret", JStr dev_secret);
        (py "admin_users", JArr []); (py "accounts_db_path", JStr []);
        (py "default_user_quota_bytes", JInt 1073741824);
        (py "rate_limits", JObj
           [(py "mount_registration", JStr (py "5/hour")); (py "proxy_requests", JStr (py "300/minute"));
            (py "max_mounts_per_ip", JInt 5); (py "auth_signup", JStr (py "5/hour"));
            (py "auth_login", JStr (py "10/minute")); (py "auth_agent_token", JStr (py "10/minute"))]);
        (py "ttl", JObj
           [(py "max_seconds", JInt 86400); (py "sweep_interval_seconds", JInt 45);
            (py "warning_before_seconds", JInt 300)])].

(** With the configuration file of the repository the relay never makes a random
    session secret: when RELAY_SESSION_SECRET is not set, in production too, sessions
    are signed with the secret that is printed in the repository, and no check refuses
    it.  Anybody signs a session for any user with it, which the relay accepts. *)
Theorem shipped_secret_signs `{TimedSerializerLaws} `{PyConv} environ token c :
  environ !! py "RELAY_SESSION_SECRET" = None → load_config environ token shipped = inr c →
  rc_session_secret c = JStr dev_secret ∧
  ∃ self, init_session dev_secret = inr self ∧
    ∀ now uid name, wf_json (JInt uid) = true → scalars name = true → name ≠ [] → token_age now now = 0 →
      ∃ forged, issue self now uid name = inr forged ∧
        verify_session_cookie self now forged = inr {| si_user_id := uid; si_username := name |}.
Proof.
  intros Hs E. split.
  - unfold load_config in E. repeat step_in E. destruct (_ && _); [done|]. injection E as <-.
    match goal with H : load_session_secret _ _ _ = inr _ |- _ =>
      unfold load_session_secret in H; repeat step_in H; injection H as <- end. cbn [rc_session_secret].
    match goal with H : jget _ (py "session_secret") _ = inr _ |- _ => injection H as <- end.
    unfold env_or. by rewrite Hs.
  - exists {| rs_secret_key := dev_secret |}. split; [done|]. intros now uid name Hu Hn Hne Ha.
    unfold issue. rewrite bool_decide_eq_false_2 by done. eexists. split; [done|].
    unfold verify_session_cookie, verify, _loads_or_raise. cbn [rs_secret_key].
    rewrite bool_decide_eq_false_2 by apply ts_not_empty. rewrite ts_fresh.
    + done.
    + by apply wf_pair.
    + rewrite Ha. unfold SESSION_MAX_AGE_SECONDS. lia.
Qed.

(** ** Witnesses *)

(** [int] and [str] on the decimal numbers. *)
Definition decimal_conv : PyConv :=
  {| py_lower := cyrillic_lower; int_of_str := py_int; int_of_float _ := None;
     str_of_value v := match v with JInt z => dump_int z | _ => [] end;
     float_true _ := true; float_eq _ _ := false |}.

Definition demo_environ : gmap pystr pystr :=
  <[py "RELAY_ENV" := py "production"]>
    {[ py "RELAY_ALLOWED_ORIGINS" := py "https://files.example/, https://b.example" ]}.

Definition demo_config : Config.RelayConfig :=
  match load_config (H := decimal_conv) demo_environ (py "random") shipped with
  | inr c => c
  | inl _ => {| rc_env := DEVELOPMENT; rc_allowed_origins := JNull; rc_mount_reg_rate := JNull;
                rc_proxy_request_rate := JNull; rc_max_ttl_seconds := 0; rc_max_mounts_per_ip := 0;
                rc_ttl_sweep_interval_seconds := 0; rc_warning_before_seconds := 0; rc_db_path := JNull;
                rc_data_dir := JNull; rc_dropbox_code := JNull; rc_session_secret := JNull; rc_admin_users := [];
                rc_accounts_db_path := JNull; rc_default_user_quota_bytes := 0; rc_auth_signup_rate := JNull;
                rc_auth_login_rate := JNull; rc_auth_agent_token_rate := JNull; rc_public_url := None;
                rc_oidc_issuer := None; rc_oidc_client_id := None; rc_oidc_client_secret := None;
                rc_oidc_redirect_path := []; rc_oidc_scopes := []; rc_oidc_group_prefix := None |}
  end.

Lemma demo_config_loads : load_config (H := decimal_conv) demo_environ (py "random") shipped = inr demo_config.
Proof. vm_compute. reflexivity. Qed.

Example demo_config_fields :
  rc_public_url demo_config = Some (py "https://files.example") ∧
  rc_accounts_db_path demo_config = JStr (py "/tmp/accounts.db") ∧ rc_max_ttl_seconds demo_config = 86400.
Proof. vm_compute. done. Qed.

Lemma load_config_sound_witness :
  truthy (H0 := decimal_conv) (rc_allowed_origins demo_config) = true ∧
  truthy (H0 := decimal_conv) (rc_session_secret demo_config) = true.
Proof.
  assert (rc_env demo_config = PRODUCTION) as Hp by (vm_compute; reflexivity).
  destruct (load_config_sound (H := decimal_conv) demo_environ (py "random") shipped demo_config
              ltac:(discriminate) demo_config_loads) as (H1 & H2 & _).
  split; [exact (H1 Hp)|exact H2].
Defined.

Lemma shipped_secret_signs_witness :
  ∃ self, init_session dev_secret = inr self ∧ ∃ forged,
    issue (H := plain_serializer) self 0 1 (py "root") = inr forged ∧
    verify_session_cookie (H := plain_serializer) (H0 := decimal_conv) self 0 forged
      = inr {| si_user_id := 1; si_username := py "root" |}.
Proof.
  destruct (shipped_secret_signs (T := plain_serializer) (H := plain_laws) (H0 := decimal_conv)
              demo_environ (py "random") demo_config ltac:(vm_compute; reflexivity) demo_config_loads)
    as (_ & self & Hi & Hf).
  exists self. split; [exact Hi|]. apply Hf; [reflexivity|reflexivity|discriminate|reflexivity].
Defined.
