(* ===== verification/Edge.v ===== *)
(** The edge of the relay: the client address and the rate limits of
    [src/relay/app/rate_limit.py], the Secure flag of cookies
    ([src/relay/app/middleware/secure_cookies.py]), and the choice of CORS in
    [create_relay_app] of [src/relay/app/main.py].

    The limiter is a library ([Limiter] of [AgentWs]): a test and a hit per key, of
    which only the independence of the keys is used. *)

From stdpp Require Import strings.
From S2P Require Import Prelude Json Session AgentWs Config.

(** ** Rate limits *)

(** [client] is the address of the socket. *)
Definition get_client_ip (headers : list (pystr * pystr)) (client : option pystr) : option pystr :=
  match dict_get (py "x-forwarded-for") headers with
  | Some ((_ :: _) as forwarded) => Some (strip (default [] (head (split_on 44 forwarded))))
  | _ => client
  end.

Definition _TIME_UNIT_SECONDS : list (pystr * Z) :=
  [(py "second", 1); (py "minute", 60); (py "hour", 3600); (py "day", 86400)].

Fixpoint first_unit (units : list (pystr * Z)) (detail : pystr) : Z :=
  match units with
  | [] => 60
  | (unit, secs) :: units' => if contains unit (lower detail) then secs else first_unit units' detail
  end.

Definition _parse_retry_after (detail : pystr) : Z := first_unit _TIME_UNIT_SECONDS detail.

Inductive LimitPage := LimitedHtml (retry_after : Z) | LimitedJson (retry_after : Z).

(** The page, and the [Retry-After] header. *)
Definition rate_limit_exceeded_handler (headers : list (pystr * pystr)) (detail : pystr) : LimitPage * pystr :=
  let retry_after := _parse_retry_after detail in
  let accept := default [] (dict_get (py "accept") headers) in
  (if contains (py "text/html") accept then LimitedHtml retry_after else LimitedJson retry_after,
   dump_int retry_after).

(** [_auth_rates] *)
Record AuthRates := {
  ar_signup : pystr;
  ar_login : pystr;
  ar_agent_token : pystr;
  ar_proxy_request : pystr
}.

Definition _AUTH_RATE_DEFAULTS : AuthRates :=
  {| ar_signup := py "5/hour"; ar_login := py "10/minute"; ar_agent_token := py "10/minute";
     ar_proxy_request := py "300/minute" |}.

Definition is_rate (v : json) : option pystr :=
  match v with JStr s => if contains [slash] s then Some s else None | _ => None end.

Definition set_auth_rates (signup login agent_token proxy_request : json) : M AuthRates ConfigExn unit :=
  match is_rate signup, is_rate login, is_rate agent_token, is_rate proxy_request with
  | Some s, Some l, Some a, Some p =>
      put {| ar_signup := s; ar_login := l; ar_agent_token := a; ar_proxy_request := p |}
  | _, _, _, _ => raise CfgValueError
  end.

(** A request to an endpoint under [@limiter.limit], keyed by [get_client_ip]. *)
Inductive Limited := Let_through | Too_many | NoClientIp.

Definition limited {L} (lim : Limiter L) (headers : list (pystr * pystr)) (client : option pystr) (l : L)
    : L * Limited :=
  match get_client_ip headers client with
  | None => (l, NoClientIp)
  | Some ip => if lim_test lim ip l then (lim_hit lim ip l, Let_through) else (l, Too_many)
  end.

(** Several requests of one client, with the headers it chose. *)
Fixpoint attempts {L} (lim : Limiter L) (client : option pystr) (rs : list (list (pystr * pystr))) (l : L)
    : L * list Limited :=
  match rs with
  | [] => (l, [])
  | headers :: rs' =>
      let '(l, x) := limited lim headers client l in
      let '(l, xs) := attempts lim client rs' l in (l, x :: xs)
  end.

(** ** Cookies *)

(** [bytes.lower()], as code points *)
Definition ascii_lower (c : Z) : Z := if (65 <=? c) && (c <=? 90) then c + 32 else c.
Definition lower_bytes (b : bytes) : pystr := (λ x, ascii_lower (byte_Z x)) <$> b.

Definition _is_forwarded_https (headers : list (bytes * bytes)) : bool :=
  existsb (λ '(k, v), bool_decide (lower_bytes k = py "x-forwarded-proto") && bool_decide (lower_bytes v = py "https"))
    headers.

Definition stamp (kv : bytes * bytes) : bytes * bytes :=
  let '(k, v) := kv in
  if bool_decide (lower_bytes k = py "set-cookie") && negb (contains (py "secure") (lower_bytes v))
  then (k, v ++ (Z_byte <$> py "; Secure")) else (k, v).

(** The headers of the answer to an HTTP request. *)
Definition secure_cookies (request_headers response_headers : list (bytes * bytes)) : list (bytes * bytes) :=
  if _is_forwarded_https request_headers then stamp <$> response_headers else response_headers.

(** ** CORS *)

Record Cors := { cors_origins : json; cors_credentials : bool }.

Definition relay_cors (config : RelayConfig) : Cors :=
  if decide (rc_env config = PRODUCTION)
  then {| cors_origins := rc_allowed_origins config; cors_credentials := true |}
  else {| cors_origins := JArr [JStr (py "*")]; cors_credentials := false |}.

(** ** Lemmas and properties *)

Lemma dict_get_forwarded (s : pystr) rest : dict_get (py "x-forwarded-for") ((py "x-forwarded-for", s) :: rest) = Some s.
Proof. done. Qed.

(** The address a client claims: no commas, no blanks around, not empty. *)
Definition claim (s : pystr) : Prop := s ≠ [] ∧ 44 ∉ s ∧ strip s = s.

Lemma split_on_head c s : c ∉ s → split_on c s = [s].
Proof.
  induction s as [|d s IH]; intros H; [done|]. cbn. destruct (Z.eqb_spec d c) as [->|Hne].
  - by destruct H; left.
  - rewrite IH; [done|]. intros Hc. apply H. by right.
Qed.

Lemma split_on_app_head c s t : c ∉ s → head (split_on c (s ++ c :: t)) = Some s.
Proof.
  induction s as [|d s IH]; intros H; cbn; [by rewrite Z.eqb_refl|].
  destruct (Z.eqb_spec d c) as [->|Hne]; [by destruct H; left|].
  assert (c ∉ s) as Hs by (intros Hc; apply H; by right). specialize (IH Hs).
  destruct (split_on c (s ++ c :: t)) as [|w ws]; [done|]. cbn in *. by injection IH as ->.
Qed.

(** The proxy in front appends the address it sees; the first one is the client's. *)
Lemma client_ip_claimed s seen rest client :
  claim s →
  get_client_ip ((py "x-forwarded-for", s) :: rest) client = Some s ∧
  get_client_ip ((py "x-forwarded-for", s ++ 44 :: seen) :: rest) client = Some s.
Proof.
  intros (Hne & Hc & Hs). unfold get_client_ip. rewrite !dict_get_forwarded. split.
  - destruct s as [|x s]; [done|]. rewrite split_on_head by done. cbn [head default from_option id]. by rewrite Hs.
  - pose proof (split_on_app_head 44 s seen Hc) as Hh. destruct s as [|x s]; [done|]. cbn [app] in *.
    rewrite Hh. cbn [default from_option id]. by rewrite Hs.
Qed.

(** The rate limits of the relay do not hold against a client that chooses its
    X-Forwarded-For header: the key is the first address of the list, which the client
    wrote, not the one the proxy appended.  However many requests it sends from one
    address, a new name in front of each of them lets every one through, logins
    included. *)
Theorem rate_limit_evaded {L} (lim : Limiter L) (client : option pystr) (seen : pystr) (l : L) (names : list pystr) :
  (∀ k k' l, k ≠ k' → lim_test lim k (lim_hit lim k' l) = lim_test lim k l) →
  Forall claim names → NoDup names → Forall (λ k, lim_test lim k l = true) names →
  (attempts lim client ((λ k, [(py "x-forwarded-for", k ++ 44 :: seen)]) <$> names) l).2
    = replicate (length names) Let_through.
Proof.
  intros Hlim. revert l. induction names as [|k names IH]; intros l Hc Hnd Hf; [done|].
  apply Forall_cons in Hc as [Hk Hc]. apply NoDup_cons in Hnd as [Hin Hnd]. apply Forall_cons in Hf as [Ht Hf].
  cbn [fmap list_fmap attempts length replicate]. unfold limited.
  rewrite (proj2 (client_ip_claimed k seen [] client Hk)), Ht.
  specialize (IH (lim_hit lim k l)). unfold fmap in IH. destruct (attempts _ _ _ _) as [l' xs].
  cbn [snd] in *. f_equal. apply IH; [done|done|].
  rewrite Forall_forall in *. intros x Hx. rewrite Hlim; [auto|]. by intros ->.
Qed.

(** A limiter that counts: [n] hits per key. *)
Definition counting (n : nat) : Limiter (list pystr) :=
  {| lim_test k l := bool_decide (length (filter (λ x, x = k) l) < n)%nat; lim_hit k l := k :: l |}.

Lemma counting_keys n k k' l : k ≠ k' → lim_test (counting n) k (lim_hit (counting n) k' l) = lim_test (counting n) k l.
Proof. intros H. unfold counting. cbn [lim_test lim_hit]. by rewrite filter_cons_False. Qed.

(** Two attempts a client, and three let through; without the header the third is not. *)
Lemma rate_limit_evaded_witness :
  (attempts (counting 2) (Some (py "198.51.100.7"))
     ((λ k, [(py "x-forwarded-for", k ++ 44 :: py " 198.51.100.7")]) <$> [py "a"; py "b"; py "c"]) []).2
    = replicate 3 Let_through ∧
  (attempts (counting 2) (Some (py "198.51.100.7")) [[]; []; []] []).2 = [Let_through; Let_through; Too_many].
Proof.
  split; [|vm_compute; reflexivity].
  apply (rate_limit_evaded (counting 2) (Some (py "198.51.100.7")) (py " 198.51.100.7") []
           [py "a"; py "b"; py "c"]).
  - apply counting_keys.
  - repeat (apply Forall_cons_2; [split; [discriminate|split; [apply (bool_decide_unpack _); vm_compute; exact I|reflexivity]]|]).
    apply Forall_nil_2.
  - apply (bool_decide_unpack _). vm_compute. exact I.
  - apply (bool_decide_unpack _). vm_compute. exact I.
Defined.

(** ** Cookies *)

(** The cookie has the attribute Secure. *)
Definition secure_attribute (v : bytes) : Prop :=
  py "secure" ∈ strip <$> tail (split_on 59 (lower_bytes v)).

Lemma split_on_last c s t : c ∉ t → ∃ pre, pre ≠ [] ∧ split_on c (s ++ c :: t) = pre ++ [t].
Proof.
  intros Ht. induction s as [|d s (pre & Hne & IH)]; cbn.
  - rewrite Z.eqb_refl, split_on_head by done. by exists [[]].
  - rewrite IH. destruct (d =? c); [by exists ([] :: pre)|]. destruct pre as [|w pre]; [done|].
    cbn. by exists ((d :: w) :: pre).
Qed.

Lemma lower_bytes_app a b : lower_bytes (a ++ b) = lower_bytes a ++ lower_bytes b.
Proof. apply fmap_app. Qed.

Lemma stamped_secure v : secure_attribute (v ++ (Z_byte <$> py "; Secure")).
Proof.
  unfold secure_attribute. rewrite lower_bytes_app.
  assert (lower_bytes (Z_byte <$> py "; Secure") = 59 :: py " secure") as -> by reflexivity.
  destruct (split_on_last 59 (lower_bytes v) (py " secure")) as (pre & Hne & ->).
  { apply (bool_decide_unpack _). vm_compute. exact I. }
  destruct pre as [|w pre]; [done|]. cbn [app tail]. rewrite fmap_app, elem_of_app. right.
  apply list_elem_of_singleton. reflexivity.
Qed.

Lemma contains_app_l sub s t : contains sub s = true → contains sub (s ++ t) = true.
Proof.
  revert t. induction s as [|c s IH]; intros t; cbn [contains app].
  - destruct sub; [by destruct t|done].
  - intros H. apply orb_true_iff in H as [H|H]; apply orb_true_iff; [left|right; by apply IH].
    apply startswith_spec in H as [k Hk]. apply startswith_spec. exists (k ++ t).
    rewrite (assoc_L (++)), <- Hk. done.
Qed.

Lemma contains_app_r sub s t : contains sub t = true → contains sub (s ++ t) = true.
Proof. intros H. induction s as [|c s IH]; [done|]. cbn [contains app]. rewrite IH. apply orb_true_r. Qed.

Lemma stamp_idemp kv : stamp (stamp kv) = stamp kv.
Proof.
  destruct kv as [k v]. unfold stamp at 2 3. destruct (bool_decide _ && _) eqn:E; unfold stamp; [|by rewrite E].
  rewrite lower_bytes_app, (contains_app_r _ _ (lower_bytes (Z_byte <$> py "; Secure"))) by reflexivity.
  by rewrite andb_false_r.
Qed.

(** The Secure flag of cookies.  For a request that came by HTTPS every header of
    the answer is kept, with its name and in its place; a cookie in which the word
    "secure" does not occur gets the attribute, and stamping twice is stamping once.
    But the word may occur anywhere: a cookie whose name or value has it in it is sent
    as it is, without the attribute.  Without HTTPS nothing is changed. *)
Theorem secure_cookies_spec (req resp : list (bytes * bytes)) :
  (_is_forwarded_https req = false → secure_cookies req resp = resp) ∧
  (_is_forwarded_https req = true →
     (secure_cookies req resp).*1 = resp.*1 ∧ secure_cookies req (secure_cookies req resp) = secure_cookies req resp ∧
     ∀ i k v, resp !! i = Some (k, v) → ∃ v', secure_cookies req resp !! i = Some (k, v') ∧ v `prefix_of` v' ∧
       (lower_bytes k = py "set-cookie" → contains (py "secure") (lower_bytes v) = false → secure_attribute v') ∧
       (lower_bytes k ≠ py "set-cookie" ∨ contains (py "secure") (lower_bytes v) = true → v' = v)).
Proof.
  unfold secure_cookies. split; [by intros ->|]. intros ->. split_and!.
  - rewrite <- list_fmap_compose. apply list_fmap_ext. intros i [k v] _. cbn. by destruct (_ && _).
  - rewrite <- list_fmap_compose. apply list_fmap_ext. intros i kv _. apply stamp_idemp.
  - intros i k v Hi. exists (stamp (k, v)).2. rewrite list_lookup_fmap, Hi. cbn [fmap option_fmap option_map].
    unfold stamp. destruct (bool_decide_reflect (lower_bytes k = py "set-cookie")) as [Hk|Hk]; cbn [andb].
    + destruct (contains _ _) eqn:Ec; cbn [negb snd]; split_and!; try done; [by apply prefix_app_r| |].
      * intros _ _. apply stamped_secure.
      * by intros [|].
    + split_and!; done.
Qed.

(** Behind HTTPS, the theme "insecure" is a cookie that plain HTTP reads too. *)
Definition https_headers : list (bytes * bytes) := [(Z_byte <$> py "X-Forwarded-Proto", Z_byte <$> py "https")].

Definition two_cookies : list (bytes * bytes) :=
  [(Z_byte <$> py "Set-Cookie", Z_byte <$> py "sid=1"); (Z_byte <$> py "Set-Cookie", Z_byte <$> py "theme=insecure")].

Lemma secure_cookies_spec_witness :
  ∃ v', secure_cookies https_headers two_cookies !! 0%nat = Some (Z_byte <$> py "Set-Cookie", v') ∧
    secure_attribute v' ∧
    secure_cookies https_headers two_cookies !! 1%nat = Some (Z_byte <$> py "Set-Cookie", Z_byte <$> py "theme=insecure") ∧
    ¬ secure_attribute (Z_byte <$> py "theme=insecure").
Proof.
  destruct (secure_cookies_spec https_headers two_cookies) as [_ H].
  destruct (H ltac:(vm_compute; reflexivity)) as (_ & _ & Hi).
  destruct (Hi 0%nat _ _ eq_refl) as (v' & H1 & _ & H2 & _).
  destruct (Hi 1%nat _ _ eq_refl) as (w' & H3 & _ & _ & H4).
  exists v'. split; [exact H1|]. split; [apply H2; vm_compute; reflexivity|]. split.
  - rewrite H3, H4; [reflexivity|]. right. vm_compute. reflexivity.
  - unfold secure_attribute. vm_compute. intros Hin. by apply elem_of_nil in Hin.
Defined.

(** ** Rates *)

(** The rates are set together or not at all. *)
Lemma set_auth_rates_spec s l a p r :
  match set_auth_rates s l a p r with
  | (r', inr _) => s = JStr (ar_signup r') ∧ l = JStr (ar_login r') ∧ a = JStr (ar_agent_token r') ∧
                   p = JStr (ar_proxy_request r') ∧ Forall (λ x, contains [slash] x = true)
                     [ar_signup r'; ar_login r'; ar_agent_token r'; ar_proxy_request r']
  | (r', inl e) => r' = r ∧ e = CfgValueError ∧ Exists (λ v, is_rate v = None) [s; l; a; p]
  end.
Proof.
  assert (∀ v x, is_rate v = Some x → v = JStr x ∧ contains [slash] x = true) as Hr.
  { intros v x. unfold is_rate. destruct v; try done. destruct (contains [slash] s0) eqn:E; [|done]. by intros [= <-]. }
  unfold set_auth_rates.
  destruct (is_rate s) as [s'|] eqn:Es; [|by split_and!; [..|by left]].
  destruct (is_rate l) as [l'|] eqn:El; [|by split_and!; [..|by right; left]].
  destruct (is_rate a) as [a'|] eqn:Ea; [|by split_and!; [..|by right; right; left]].
  destruct (is_rate p) as [p'|] eqn:Ep; [|by split_and!; [..|by do 3 right; left]].
  apply Hr in Es as [-> ?], El as [-> ?], Ea as [-> ?], Ep as [-> ?]. cbn. split_and!; try done.
  by repeat apply Forall_cons_2.
Qed.

(** The seconds of the period named in the message of the limiter. *)
Lemma retry_after_unit unit secs :
  (unit, secs) ∈ _TIME_UNIT_SECONDS → _parse_retry_after (py "10 per 1 " ++ unit) = secs.
Proof.
  unfold _TIME_UNIT_SECONDS. rewrite !elem_of_cons, elem_of_nil. intros [|[|[|[|[]]]]]; simplify_eq; reflexivity.
Qed.
