(* ===== verification/Start.v ===== *)
(** How the servers are started: [run_lan_server] and [build_mount_app] of
    [src/server/app/bootstrap.py], [ServerConfig] of [src/server/app/config.py],
    [run_mount] of [src/agent/cli.py], [init_dropbox] of
    [src/relay/app/services/dropbox.py], and the durations of [src/shared/duration.py]
    and [src/agent/connection.py].

    The arguments are those the command line parser hands over.  Starting ends the
    process with a message, with a traceback, or runs a server with a configuration. *)

From stdpp Require Import strings.
From S2P Require Import Prelude Utf8 Json Accounts Identity Files FilesProps Agent Storage.

(** ** Durations *)

(** The decimal digits that [\d] matches and [int] reads. *)
Class Digits := {
  udigit : Z → option Z;
  udigit_ascii : ∀ c, is_digit c = true → udigit c = Some (c - 48);
  udigit_range : ∀ c d, udigit c = Some d → 0 ≤ d ≤ 9;
  udigit_letters : ∀ c, 0 ≤ c ≤ 127 → is_digit c = false → udigit c = None
}.

Definition _UNITS (c : Z) : option Z :=
  if c =? 115 then Some 1 else if c =? 109 then Some 60 else if c =? 104 then Some 3600
  else if c =? 100 then Some 86400 else None.

Section duration.
Context `{Digits}.

Definition udigits_value (ds : list Z) : Z := fold_left (λ acc d, acc * 10 + d) ds 0.

(** [^(\d+)([smhd])$], where the dollar also matches before a newline at the end. *)
Definition parse_duration (value : pystr) : option Z :=
  let v := match last value with Some 10 => removelast value | _ => value end in
  unit ← last v;
  secs ← _UNITS unit;
  ds ← mapM udigit (removelast v);
  if bool_decide (ds = []) then None
  else if (MAX_STR_DIGITS <? length ds)%nat then None
  else Some (udigits_value ds * secs).

End duration.

Definition _format_remaining (seconds : Z) : pystr :=
  let hours := seconds / 3600 in
  let rem := seconds mod 3600 in
  let minutes := rem / 60 in
  let secs := rem mod 60 in
  if 0 <? hours then dump_int hours ++ py "h " ++ dump_int minutes ++ py "m"
  else if 0 <? minutes then
    (if 0 <? secs then dump_int minutes ++ py "m " ++ dump_int secs ++ py "s" else dump_int minutes ++ py "m")
  else dump_int secs ++ py "s".

(** [_print_ttl_countdown] after its first line: [elapsed] are the readings of the clock
    after each sleep.  The lines, and whether it has returned. *)
Fixpoint countdown (ttl_seconds : Z) (elapsed : list Z) : list Z * bool :=
  match elapsed with
  | [] => ([], false)
  | e :: elapsed' =>
      let remaining := ttl_seconds - e in
      if remaining <=? 0 then ([], true)
      else let '(lines, over) := countdown ttl_seconds elapsed' in (remaining :: lines, over)
  end.

Definition _print_ttl_countdown (ttl_seconds : Z) (elapsed : list Z) : Z * list pystr * bool :=
  let interval := if ttl_seconds <=? 300 then 10 else 60 in
  let '(lines, over) := countdown ttl_seconds elapsed in
  (interval, (λ s, py "Expires in " ++ _format_remaining s) <$> (ttl_seconds :: lines), over).

(** ** Configurations *)

Record AppConfig := {
  ac_shared_folder : path;
  ac_port : Z;
  ac_relay_url : option pystr;
  ac_config : ServerConfig
}.

Inductive StartError :=
| ExitWithMessage
| Traceback.

(** [ServerConfig(...)]: [inl] is a [ValueError]; the loop of links that [resolve]
    finds raises another one. *)
Definition server_config (t : fs) (shared_folder : path) (port : Z) (relay_url : option pystr)
    (config : ServerConfig) : FsExn + AppConfig :=
  if negb (exists_ t shared_folder) then inl FsValueError
  else if negb (is_dir t shared_folder) then inl FsValueError
  else
    folder ← resolve_path t [] shared_folder;
    inr {| ac_shared_folder := folder; ac_port := port; ac_relay_url := relay_url; ac_config := config |}.

(** [Path(folder).resolve()] in the working directory [cwd] *)
Definition resolve_argument (t : fs) (cwd : path) (folder : pystr) : FsExn + path :=
  if bool_decide (0 ∈ folder) then inl FsValueError
  else resolve_path t (if startswith folder [slash] then [] else cwd) (split_on slash folder).

Definition create_default_config (t : fs) (shared_folder : path) (port : Z) : FsExn + AppConfig :=
  server_config t shared_folder port None
    {| cfg_password_hash := None; cfg_read_only := false; cfg_receive := false; cfg_mount_code := None;
       cfg_identity_secret := None |}.

(** [build_mount_app], up to [create_app] *)
Definition build_mount_app (t : fs) (folder : path) (password_hash : option bytes)
    (mount_code relay_url identity_secret : pystr) : FsExn + AppConfig :=
  server_config t folder 0 (Some relay_url)
    {| cfg_password_hash := password_hash; cfg_read_only := false; cfg_receive := false;
       cfg_mount_code := Some mount_code; cfg_identity_secret := Some identity_secret |}.

Definition init_dropbox (t : fs) (data_dir : path) (dropbox_code : pystr) (public_url : option pystr)
    : FsExn + (fs * AppConfig) :=
  t' ← mkdirs t [] (dropbox_dir data_dir);
  config ← server_config t' (dropbox_dir data_dir) 0 public_url
    {| cfg_password_hash := None; cfg_read_only := false; cfg_receive := false;
       cfg_mount_code := Some dropbox_code; cfg_identity_secret := None |};
  if bool_decide (dropbox_code = []) then inl FsValueError else inr (t', config).

(** ** The two commands *)

Section commands.
Context (hashpw : bytes → bytes → bytes).

Record LanArgs := {
  la_folder : pystr;
  la_port : option Z;
  la_host : option pystr;
  la_password : option pystr;
  la_read_only : bool;
  la_receive : bool
}.

(** The address and port to serve on, and the configuration. *)
Definition run_lan_server (salt : bytes) (t : fs) (cwd : path) (args : LanArgs)
    : StartError + (pystr * Z * AppConfig) :=
  if la_read_only args && la_receive args then inl ExitWithMessage
  else
    _ ← match la_password args with
        | None => inr tt
        | Some p => match utf8_encode p with
                    | None => inl Traceback
                    | Some bs => if 72 <? Z.of_nat (length bs) then inl ExitWithMessage else inr tt
                    end
        end;
    let port := default 8000 (la_port args) in
    let host := default (py "0.0.0.0") (la_host args) in
    folder_path ← match resolve_argument t cwd (la_folder args) with inl _ => inl Traceback | inr p => inr p end;
    password_hash ← match la_password args with
                    | None => inr None
                    | Some p => match hash_password hashpw salt p with inl _ => inl Traceback | inr h => inr (Some h) end
                    end;
    match server_config t folder_path port None
            {| cfg_password_hash := password_hash; cfg_read_only := la_read_only args;
               cfg_receive := la_receive args; cfg_mount_code := None; cfg_identity_secret := None |} with
    | inl FsValueError => inl ExitWithMessage
    | inl _ => inl Traceback
    | inr config => inr (host, port, config)
    end.

Record MountArgs := {
  ma_folder : pystr;
  ma_server : pystr;
  ma_name : option pystr;
  ma_password : option pystr;
  ma_ttl_seconds : option Z;
  ma_login : option pystr;
  ma_access_mode : option pystr;
  ma_allow : list pystr
}.

(** What [run_agent_loop] is called with. *)
Record AgentRun := {
  ag_server_url : pystr;
  ag_folder : path;
  ag_name : pystr;
  ag_password_hash : option bytes;
  ag_ttl_seconds : option Z;
  ag_owner : option AgentOwner
}.

(** [owner_password] is what the terminal gives. *)
Definition run_mount (salt : bytes) (t : fs) (cwd : path) (owner_password : pystr) (args : MountArgs)
    : StartError + AgentRun :=
  folder ← match resolve_argument t cwd (ma_folder args) with inl _ => inl Traceback | inr p => inr p end;
  if negb (exists_ t folder) then inl ExitWithMessage
  else if negb (is_dir t folder) then inl ExitWithMessage
  else
    password_hash ← match ma_password args with
                    | None => inr None
                    | Some p =>
                        match utf8_encode p with
                        | None => inl Traceback
                        | Some bs =>
                            if 72 <? Z.of_nat (length bs) then inl ExitWithMessage
                            else match hash_password hashpw salt p with
                                 | inl WeakPasswordError => inl ExitWithMessage
                                 | inl _ => inl Traceback
                                 | inr h => inr (Some h)
                                 end
                        end
                    end;
    owner ← match _build_owner (ma_login args) (ma_access_mode args) (ma_allow args) owner_password with
            | inl UnknownAccessMode => inl Traceback
            | inl _ => inl ExitWithMessage
            | inr o => inr o
            end;
    inr {| ag_server_url := ma_server args; ag_folder := folder;
           ag_name := match ma_name args with Some n => n | None => default [] (last folder) end;
           ag_password_hash := password_hash; ag_ttl_seconds := ma_ttl_seconds args; ag_owner := owner |}.

End commands.
