(* ===== verification/StartProps.v ===== *)
(** What holds of every server that is started: its folder is a real directory, its modes
    exclude each other, and whose word it takes for the identity of a user. *)

From stdpp Require Import strings.
From S2P Require Import Prelude Utf8 Json Accounts Identity IdentityProps Files FilesProps FilesApiProps Agent Storage StorageProps Config ConfigProps Start.

Implicit Types t : gmap (list (list Z)) node.

(** ** The shared folder *)

(** The folder is a directory under its real name: what the theorems on the file service
    ask for. *)
Definition folder_ok t (c : AppConfig) : Prop :=
  base_ok t (ac_shared_folder c) ∧ t !! ac_shared_folder c = Some FDir.

Lemma root_link_free t : t !! [] = Some FDir → link_free t [].
Proof. intros H q target Hq. apply prefix_nil_inv in Hq as ->. congruence. Qed.

Lemma server_config_ok t folder port url cfg c :
  t !! [] = Some FDir → server_config t folder port url cfg = inr c →
  folder_ok t c ∧ ac_config c = cfg ∧ ac_port c = port ∧ ac_relay_url c = url ∧
  resolve_path t [] folder = inr (ac_shared_folder c).
Proof.
  intros H0. unfold server_config, is_dir, stat. destruct (exists_ t folder); [|done]. cbn [negb].
  unfold resolve_path. destruct (resolve MAX_LINKS t [] folder) as [q|] eqn:E; [|done]. cbn [mbind option_bind].
  destruct (t !! q) as [[]|] eqn:Eq; try done. intros [= <-]. unfold folder_ok. cbn.
  pose proof (root_link_free t H0) as Hl.
  destruct (resolve_real _ _ _ _ _ Hl Hl ltac:(by apply Forall_nil) E). split_and!; done.
Qed.

(** A directory under its real name is accepted as it is. *)
Lemma server_config_real t folder port url cfg :
  base_ok t folder → t !! folder = Some FDir →
  server_config t folder port url cfg
    = inr {| ac_shared_folder := folder; ac_port := port; ac_relay_url := url; ac_config := cfg |}.
Proof.
  intros Hb Hd. unfold server_config, exists_, is_dir. destruct Hb as [Hl Hc].
  rewrite stat_real, Hd, bool_decide_eq_true_2 by done. cbn [negb].
  by rewrite base_resolves.
Qed.

Lemma resolve_argument_ok t cwd s p :
  t !! [] = Some FDir → base_ok t cwd → resolve_argument t cwd s = inr p → base_ok t p.
Proof.
  intros H0 [Hl Hc]. unfold resolve_argument. destruct (bool_decide _); [done|]. unfold resolve_path.
  destruct (resolve _ _ _ _) as [q|] eqn:E; [|done]. intros [= <-].
  pose proof (root_link_free t H0) as Hr.
  assert (link_free t (if startswith s [slash] then [] else cwd)) as H1 by by destruct (startswith _ _).
  assert (Forall clean (if startswith s [slash] then [] else cwd)) as H2 by by destruct (startswith _ _).
  destruct (resolve_real _ _ _ _ _ Hr H1 H2 E). by split.
Qed.

Lemma mkdirs_keeps rest : ∀ t cur t',
  mkdirs t cur rest = inr t' → t ⊆ t'.
Proof.
  induction rest as [|c rest IH]; intros t cur t'; cbn [mkdirs]; [by intros [= <-]|].
  destruct (stat t (cur ++ [c])) as [[]|]; [done|apply IH|done|].
  destruct (resolve MAX_LINKS t [] cur) as [q|]; [|done].
  destruct (t !! (q ++ [c])) eqn:E; [done|]. intros H. apply IH in H. etrans; [|exact H]. by apply insert_subseteq.
Qed.

(** ** Starting *)

Section start.
Context `{Hmac} (hashpw : bytes → bytes → bytes).

(** The password of the command line that is accepted. *)
Definition password_ok (p : option pystr) (bs : option bytes) : Prop :=
  match p, bs with
  | None, None => True
  | Some s, Some b => s ≠ [] ∧ utf8_encode s = Some b ∧ (length b ≤ 72)%nat
  | _, _ => False
  end.

Lemma hash_password_72 salt p h :
  hash_password hashpw salt p = inr h → ∃ b, password_ok (Some p) (Some b) ∧ h = hashpw b salt.
Proof.
  unfold hash_password. case_bool_decide; [done|]. destruct (utf8_encode p) as [b|] eqn:E; [|done].
  unfold _BCRYPT_MAX_BYTES. destruct (Z.ltb_spec 72 (Z.of_nat (length b))); [done|]. intros [= <-].
  exists b. split; [|done]. split_and!; [done|done|lia].
Qed.

Lemma hash_password_ok salt s b :
  password_ok (Some s) (Some b) → hash_password hashpw salt s = inr (hashpw b salt).
Proof.
  intros (Hne & He & Hl). unfold hash_password. rewrite bool_decide_eq_false_2, He by done. unfold _BCRYPT_MAX_BYTES.
  destruct (Z.ltb_spec 72 (Z.of_nat (length b))); [lia|done].
Qed.

Lemma lan_ok salt t cwd args host port c :
  t !! [] = Some FDir → run_lan_server hashpw salt t cwd args = inr (host, port, c) →
  folder_ok t c ∧ ac_port c = port ∧ (la_read_only args && la_receive args = false) ∧
  ∃ bs, password_ok (la_password args) bs ∧
    ac_config c = {| cfg_password_hash := (λ b, hashpw b salt) <$> bs; cfg_read_only := la_read_only args;
                     cfg_receive := la_receive args; cfg_mount_code := None; cfg_identity_secret := None |}.
Proof.
  intros H0. unfold run_lan_server. destruct (la_read_only args && la_receive args) eqn:Em; [done|].
  intros E. step_in E. step_in E. step_in E.
  destruct (server_config _ _ _ _ _) as [e|c'] eqn:Ec; [by destruct e|]. injection E as <- <- <-.
  apply server_config_ok in Ec as (Hf & Hcfg & Hp & _); [|done]. split_and!; try done.
  destruct (la_password args) as [p|].
  - destruct (hash_password hashpw salt p) as [e|h] eqn:Eh; [done|]. simplify_eq.
    destruct (hash_password_72 _ _ _ Eh) as (b & Hb & ->). by exists (Some b).
  - simplify_eq. by exists None.
Qed.

Lemma lan_address salt t cwd args host port c :
  run_lan_server hashpw salt t cwd args = inr (host, port, c) →
  host = default (py "0.0.0.0") (la_host args) ∧ port = default 8000 (la_port args).
Proof.
  unfold run_lan_server. destruct (la_read_only args && la_receive args); [done|]. intros E. repeat step_in E.
  destruct (server_config _ _ _ _ _) as [[]|c'] eqn:Ec; by simplify_eq.
Qed.

Lemma lan_starts salt t cwd args bs folder :
  t !! [] = Some FDir → base_ok t cwd → la_read_only args && la_receive args = false →
  password_ok (la_password args) bs → resolve_argument t cwd (la_folder args) = inr folder →
  t !! folder = Some FDir →
  ∃ host port c, run_lan_server hashpw salt t cwd args = inr (host, port, c) ∧ ac_shared_folder c = folder.
Proof.
  intros H0 Hcwd Hm Hp Hr Hd. pose proof (resolve_argument_ok _ _ _ _ H0 Hcwd Hr) as Hb.
  unfold run_lan_server. rewrite Hm.
  destruct (la_password args) as [p|], bs as [b|]; try done.
  - rewrite (hash_password_ok salt _ _ Hp). destruct Hp as (Hne & He & Hl). rewrite He.
    destruct (Z.ltb_spec 72 (Z.of_nat (length b))); [lia|]. cbn [mbind sum_bind]. rewrite Hr. cbn [mbind sum_bind].
    rewrite server_config_real by done. by do 3 eexists.
  - cbn [mbind sum_bind]. rewrite Hr. cbn [mbind sum_bind]. rewrite server_config_real by done. by do 3 eexists.
Qed.

Lemma mount_ok salt t cwd owner_password args r :
  t !! [] = Some FDir → base_ok t cwd → run_mount hashpw salt t cwd owner_password args = inr r →
  resolve_argument t cwd (ma_folder args) = inr (ag_folder r) ∧
  base_ok t (ag_folder r) ∧ t !! ag_folder r = Some FDir ∧
  ∃ bs, password_ok (ma_password args) bs ∧ ag_password_hash r = (λ b, hashpw b salt) <$> bs.
Proof.
  intros H0 Hcwd E. unfold run_mount in E. step_in E.
  destruct (resolve_argument t cwd (ma_folder args)) as [e|p] eqn:Er; [done|]. simplify_eq.
  pose proof (resolve_argument_ok _ _ _ _ H0 Hcwd Er) as Hb.
  destruct (exists_ t x); [|done]. unfold is_dir in E. rewrite stat_real in E by apply Hb. cbn [negb] in E.
  destruct (t !! x) as [[]|] eqn:Ex; try done. cbn [negb] in E. step_in E. step_in E. injection E as <-. cbn.
  split_and!; try done. destruct (ma_password args) as [s|]; [|simplify_eq; by exists None].
  destruct (utf8_encode s) as [b|]; [|done]. destruct (_ <? _); [done|].
  destruct (hash_password hashpw salt s) as [[]|h] eqn:Eh; try done. simplify_eq.
  destruct (hash_password_72 _ _ _ Eh) as (b' & Hb' & ->). by exists (Some b').
Qed.

Lemma mount_starts salt t cwd owner_password args bs folder owner :
  t !! [] = Some FDir → base_ok t cwd → password_ok (ma_password args) bs →
  resolve_argument t cwd (ma_folder args) = inr folder → t !! folder = Some FDir →
  _build_owner (ma_login args) (ma_access_mode args) (ma_allow args) owner_password = inr owner →
  ∃ r, run_mount hashpw salt t cwd owner_password args = inr r ∧ ag_folder r = folder ∧ ag_owner r = owner.
Proof.
  intros H0 Hcwd Hp Hr Hd Ho. pose proof (resolve_argument_ok _ _ _ _ H0 Hcwd Hr) as [Hl Hc].
  unfold run_mount. rewrite Hr. cbn [mbind sum_bind]. unfold exists_, is_dir.
  rewrite stat_real, Hd, bool_decide_eq_true_2 by done. cbn [negb]. rewrite Ho.
  destruct (ma_password args) as [s|], bs as [b|]; try done; [|cbn [mbind sum_bind]; eauto].
  rewrite (hash_password_ok salt _ _ Hp). destruct Hp as (_ & He & Hlen). rewrite He.
  destruct (Z.ltb_spec 72 (Z.of_nat (length b))); [lia|]. cbn [mbind sum_bind]. eauto.
Qed.

End start.

(** C6: Every server that starts serves a directory under its real name, which is what the
    theorems on the file service ask of it.  On the local network it has the modes of the
    command line, of which there is at most one, listens where the command line says, has the hash
    of the given password, if any, and believes no header.  A mount has no mode, has the hash of
    the given password, if any, and believes the headers signed with the secret of its
    connection.  The drop box has no mode and no password and believes no header.  A
    password is one to 72 bytes.  A good command line of either command starts, with the folder it names,
    and so does the drop box when its directory is there. *)
Theorem servers_start_sound `{Hmac} (hashpw : bytes → bytes → bytes) (salt : bytes) t (cwd : path) :
  t !! [] = Some FDir → base_ok t cwd →
  (∀ args host port c, run_lan_server hashpw salt t cwd args = inr (host, port, c) →
     folder_ok t c ∧ host = default (py "0.0.0.0") (la_host args) ∧ port = default 8000 (la_port args) ∧
     ¬ (la_read_only args = true ∧ la_receive args = true) ∧
     (∃ bs, password_ok (la_password args) bs ∧
        ac_config c = {| cfg_password_hash := (λ b, hashpw b salt) <$> bs; cfg_read_only := la_read_only args;
                         cfg_receive := la_receive args; cfg_mount_code := None; cfg_identity_secret := None |}) ∧
     (∀ headers, _verified_identity (ac_config c) headers = inr None)) ∧
  (∀ args bs folder, la_read_only args && la_receive args = false → password_ok (la_password args) bs →
     resolve_argument t cwd (la_folder args) = inr folder → t !! folder = Some FDir →
     ∃ host port c, run_lan_server hashpw salt t cwd args = inr (host, port, c) ∧ ac_shared_folder c = folder) ∧
  (∀ owner_password args r code secret, run_mount hashpw salt t cwd owner_password args = inr r →
     ∃ c bs, build_mount_app t (ag_folder r) (ag_password_hash r) code (ag_server_url r) secret = inr c ∧
       resolve_argument t cwd (ma_folder args) = inr (ac_shared_folder c) ∧ folder_ok t c ∧
       password_ok (ma_password args) bs ∧
       ac_config c = {| cfg_password_hash := (λ b, hashpw b salt) <$> bs; cfg_read_only := false;
                        cfg_receive := false; cfg_mount_code := Some code; cfg_identity_secret := Some secret |}) ∧
  (∀ owner_password args bs folder owner, password_ok (ma_password args) bs →
     resolve_argument t cwd (ma_folder args) = inr folder → t !! folder = Some FDir →
     _build_owner (ma_login args) (ma_access_mode args) (ma_allow args) owner_password = inr owner →
     ∃ r, run_mount hashpw salt t cwd owner_password args = inr r ∧ ag_folder r = folder ∧ ag_owner r = owner) ∧
  (∀ data_dir code url t' c, init_dropbox t data_dir code url = inr (t', c) →
     t ⊆ t' ∧ folder_ok t' c ∧ code ≠ [] ∧
     ac_config c = {| cfg_password_hash := None; cfg_read_only := false; cfg_receive := false;
                      cfg_mount_code := Some code; cfg_identity_secret := None |} ∧
     ∀ headers, _verified_identity (ac_config c) headers = inr None) ∧
  (∀ data_dir code url, share_ok (dropbox_dir data_dir) t → code ≠ [] →
     ∃ c, init_dropbox t data_dir code url = inr (t, c) ∧ ac_shared_folder c = dropbox_dir data_dir).
Proof.
  intros H0 Hcwd. split_and!.
  - intros args host port c E. pose proof E as E'. apply lan_ok in E as (Hf & Hport & Hm & bs & Hp & Hc); [|done].
    apply lan_address in E' as [-> ->]. split_and!; try done.
    + intros [H1 H2]. by rewrite H1, H2 in Hm.
    + by exists bs.
    + by rewrite Hc.
  - intros args bs folder. by apply lan_starts.
  - intros pw args r code secret E. apply mount_ok in E as (Hr & Hb & Hd & bs & Hp & Hh); [|done|done].
    unfold build_mount_app. rewrite server_config_real by done. eexists _, bs. cbn.
    split_and!; try done. by rewrite Hh.
  - intros pw args bs folder owner. by apply mount_starts.
  - intros data_dir code url t' c E. unfold init_dropbox in E. step_in E. rename x into t1.
    match goal with Hm : mkdirs _ _ _ = _ |- _ => apply mkdirs_keeps in Hm; rename Hm into Ht end.
    assert (t1 !! [] = Some FDir) as H1 by by eapply lookup_weaken.
    step_in E. case_bool_decide; [done|]. injection E as <- <-.
    match goal with Hm : server_config _ _ _ _ _ = _ |- _ =>
      apply server_config_ok in Hm as (Hf & Hc & _ & _); [|done] end.
    rewrite Hc. by split_and!.
  - intros data_dir code url Hs Hc. unfold init_dropbox. rewrite (mkdirs_there _ _ [] _ Hs) by done. cbn [mbind sum_bind].
    rewrite server_config_real by apply Hs. cbn [mbind sum_bind]. rewrite bool_decide_eq_false_2 by done. eauto.
Qed.

(** ** Witnesses *)

Definition ex_home : gmap (list (list Z)) node :=
  <[[] := FDir]> (<[[py "home"] := FDir]> (<[[py "home"; py "docs"] := FDir]>
  {[ [py "home"; py "link"] := FLink (py "docs") ]})).

Definition ex_lan : LanArgs :=
  {| la_folder := py "./link"; la_port := None; la_host := None; la_password := Some (py "secret");
     la_read_only := true; la_receive := false |}.

Definition ex_mount : MountArgs :=
  {| ma_folder := py "docs"; ma_server := py "http://relay"; ma_name := None; ma_password := None;
     ma_ttl_seconds := None; ma_login := None; ma_access_mode := None; ma_allow := [] |}.

Lemma servers_start_sound_witness :
  (∃ host port c,
    run_lan_server (λ p _, p) [] ex_home [py "home"] ex_lan = inr (host, port, c) ∧
    ac_shared_folder c = [py "home"; py "docs"] ∧ folder_ok ex_home c) ∧
  ∃ r c, run_mount (λ p _, p) [] ex_home [py "home"] [] ex_mount = inr r ∧
    build_mount_app ex_home (ag_folder r) (ag_password_hash r) (py "abc") (ag_server_url r) (py "s") = inr c ∧
    folder_ok ex_home c.
Proof.
  assert (link_free ex_home [py "home"]) as Hl.
  { intros q target Hq. apply (prefix_snoc_cases q [] (py "home")) in Hq as [->|Hq]; [discriminate|].
    apply prefix_nil_inv in Hq as ->. discriminate. }
  assert (base_ok ex_home [py "home"]) as Hb.
  { split; [exact Hl|]. apply Forall_cons_2; [split; reflexivity|apply Forall_nil_2]. }
  destruct (servers_start_sound (H := hex_mac) (λ p _, p) [] ex_home [py "home"] eq_refl Hb) as (H1 & H2 & H3 & H4 & _).
  split.
  - destruct (H2 ex_lan (Some (Z_byte <$> py "secret")) [py "home"; py "docs"]) as (host & port & c & E & Hc).
    + reflexivity.
    + split; [discriminate|]. split; [vm_compute; reflexivity|vm_compute; lia].
    + vm_compute. reflexivity.
    + vm_compute. reflexivity.
    + exists host, port, c. split; [exact E|]. split; [exact Hc|]. exact (proj1 (H1 ex_lan host port c E)).
  - destruct (H4 [] ex_mount None [py "home"; py "docs"] None I) as (r & E & _); [vm_compute; reflexivity..|].
    destruct (H3 [] ex_mount r (py "abc") (py "s") E) as (c & bs & Hc & _ & Hf & _).
    exists r, c. split; [exact E|]. split; [exact Hc|exact Hf].
Defined.

(** ** Command lines that do not start *)

(** An empty password ends the local server with a traceback, where the mount command
    prints a message; modes that exclude each other are refused before anything else. *)
Lemma empty_password_fails hashpw salt t cwd args owner_password margs folder :
  (la_password args = Some [] → run_lan_server hashpw salt t cwd args = inl (
     if la_read_only args && la_receive args then ExitWithMessage else Traceback)) ∧
  (ma_password margs = Some [] → resolve_argument t cwd (ma_folder margs) = inr folder →
     run_mount hashpw salt t cwd owner_password margs = inl ExitWithMessage).
Proof.
  split.
  - intros Hp. unfold run_lan_server. destruct (_ && _); [done|]. rewrite Hp.
    destruct (resolve_argument t cwd (la_folder args)); done.
  - intros Hp Hr. unfold run_mount. rewrite Hr, Hp. cbn [mbind sum_bind].
    destruct (exists_ t folder); [|done]. by destruct (is_dir t folder).
Qed.

(** ** Durations *)

Section durations.
Context `{Digits}.

Lemma udigits_ascii ds : forallb is_digit ds = true → mapM udigit ds = Some ((λ c, c - 48) <$> ds).
Proof.
  induction ds as [|c ds IH]; [done|]. cbn [forallb]. intros [Hc Hd]%andb_true_iff.
  cbn [mapM]. rewrite udigit_ascii, IH by done. done.
Qed.

Lemma udigits_value_ascii ds : udigits_value ((λ c, c - 48) <$> ds) = digits_value ds.
Proof.
  unfold udigits_value, digits_value. generalize 0 as acc. induction ds as [|c ds IH]; intros acc; [done|]. apply IH.
Qed.

(** A number and a unit, with or without a newline behind. *)
Lemma parse_duration_ascii ds unit secs :
  ds ≠ [] → forallb is_digit ds = true → (length ds ≤ MAX_STR_DIGITS)%nat → _UNITS unit = Some secs →
  parse_duration (ds ++ [unit]) = Some (digits_value ds * secs) ∧
  parse_duration (ds ++ [unit; 10]) = Some (digits_value ds * secs).
Proof.
  intros Hne Hd Hl Hu.
  assert (unit ≠ 10) as Hn by (intros ->; done).
  assert (∀ v, last v = Some unit → removelast v = ds →
    (unit' ← last v; secs ← _UNITS unit'; ds ← mapM udigit (removelast v);
     if bool_decide (ds = []) then None else if (MAX_STR_DIGITS <? length ds)%nat then None
     else Some (udigits_value ds * secs)) = Some (digits_value ds * secs)) as Hv.
  { intros v H1 H2. rewrite H1, H2. cbn [mbind option_bind]. rewrite Hu. cbn [mbind option_bind].
    rewrite udigits_ascii by done. cbn [mbind option_bind]. rewrite bool_decide_eq_false_2 by by destruct ds.
    rewrite length_fmap, udigits_value_ascii. destruct (Nat.ltb_spec MAX_STR_DIGITS (length ds)); [lia|done]. }
  unfold parse_duration. split.
  - rewrite last_snoc. replace (match unit with 10 => _ | _ => _ end) with (ds ++ [unit]).
    + apply Hv; [apply last_snoc|apply removelast_last].
    + destruct (decide (unit = 10)); [done|]. repeat (case_match; try done).
  - change [unit; 10] with ([unit] ++ [10]). rewrite (assoc_L (++)), last_snoc, removelast_last.
    apply Hv; [apply last_snoc|apply removelast_last].
Qed.

Lemma parse_duration_nonneg v z : parse_duration v = Some z → 0 ≤ z.
Proof.
  unfold parse_duration. set (w := match last v with Some 10 => _ | _ => _ end).
  destruct (last w) as [u|]; [|done]. cbn [mbind option_bind].
  destruct (_UNITS u) as [secs|] eqn:Eu; [|done]. cbn [mbind option_bind].
  destruct (mapM udigit (removelast w)) as [ds|] eqn:Em; [|done]. cbn [mbind option_bind].
  case_bool_decide; [done|]. destruct (_ <? _)%nat; [done|]. intros [= <-].
  assert (0 < secs). { unfold _UNITS in Eu. repeat (case_match; simplify_eq; try lia). }
  assert (Forall (λ d, 0 ≤ d) ds) as Hds.
  { apply mapM_Some in Em. apply Forall_forall. intros d Hd. apply list_elem_of_lookup in Hd as [i Hi].
    destruct (Forall2_lookup_r _ _ _ _ _ Em Hi) as (c & _ & Hc). by apply udigit_range in Hc as [? _]. }
  apply Z.mul_nonneg_nonneg; [|lia]. unfold udigits_value.
  assert (∀ acc, 0 ≤ acc → 0 ≤ fold_left (λ acc d, acc * 10 + d) ds acc) as Hf; [|by apply Hf].
  clear -Hds. induction ds as [|d ds IH]; intros acc Ha; [done|]. apply Forall_cons in Hds as [Hd Hds].
  cbn. apply IH; [done|lia].
Qed.

End durations.

(** The countdown ends as soon as the time is over, and prints what is left before. *)
Lemma countdown_spec ttl elapsed :
  let '(lines, over) := countdown ttl elapsed in
  Forall (λ r, 0 < r) lines ∧ (over = true ↔ Exists (λ e, ttl ≤ e) elapsed) ∧
  ∃ k, lines = (λ e, ttl - e) <$> take k elapsed.
Proof.
  induction elapsed as [|e elapsed IH]; cbn [countdown].
  - split_and!; [done| |by exists 0%nat]. split; [done|]. by rewrite Exists_nil.
  - destruct (Z.leb_spec (ttl - e) 0).
    + split_and!; [done| |by exists 0%nat]. split; [|done]. intros _. left. lia.
    + destruct (countdown ttl elapsed) as [lines over]. destruct IH as (H1 & H2 & k & H3). split_and!.
      * by apply Forall_cons_2.
      * rewrite H2, Exists_cons. split; [by right|]. intros [|]; [lia|done].
      * exists (S k). by rewrite H3.
Qed.
