(* ===== verification/Boot.v ===== *)
(** The start and the end of the relay: [lifespan] of [src/relay/app/main.py] on the
    state of [src/relay/app/state.py], with the registry, the accounts, the life times of
    files and the drop box of the other files.

    The databases and the file system stay when the process ends; a start that fails
    leaves what its steps have done so far. *)

From stdpp Require Import strings.
From S2P Require Import Prelude Json Session Accounts Registry RegistryProps Identity Files FilesProps FilesApi FilesApiProps.
From S2P Require Import Storage StorageProps Spa Proxy Config ConfigProps Start StartProps IdentityProps AccountsProps.

(** ** The state of the application *)

Record Disk := {
  dk_fs : gmap (list (list Z)) node;
  dk_registry : Registry;
  dk_accounts : AccountDb;
  dk_ttl : FileTtlDb
}.

(** The services that are wired; [None] before the start and after the end.  Their data
    is on the disk. *)
Record RelayState := {
  rt_registry : bool;
  rt_session : option RelaySession;
  rt_account_store : bool;
  rt_file_ttl_db : bool;
  rt_oidc : option (pystr * pystr * pystr);
  rt_local_mounts : gmap pystr AppConfig
}.

Definition init_state : RelayState :=
  {| rt_registry := false; rt_session := None; rt_account_store := false; rt_file_ttl_db := false;
     rt_oidc := None; rt_local_mounts := ∅ |}.

(** [BootNotText]: a setting is not text; what the libraries make of it is not followed. *)
Inductive BootExn :=
| BootNotText
| BootSession (e : SessionExn)
| BootFs (e : FsExn)
| BootRegistry (e : RegistryExn)
| BootOSError
| RuntimeError.

(** The accessors. *)
Definition require_registry (s : RelayState) : BootExn + unit := if rt_registry s then inr tt else inl RuntimeError.
Definition require_session (s : RelayState) : BootExn + RelaySession :=
  match rt_session s with Some x => inr x | None => inl RuntimeError end.
Definition require_account_store (s : RelayState) : BootExn + unit :=
  if rt_account_store s then inr tt else inl RuntimeError.
Definition require_oidc (s : RelayState) : BootExn + (pystr * pystr * pystr) :=
  match rt_oidc s with Some x => inr x | None => inl RuntimeError end.
Definition require_file_ttl_db (s : RelayState) : BootExn + unit :=
  if rt_file_ttl_db s then inr tt else inl RuntimeError.

(** ** [lifespan] *)

Abbreviation Boot := (M Disk BootExn).

Definition text (v : json) : BootExn + pystr := match v with JStr s => inr s | _ => inl BootNotText end.

Definition on_registry (f : Registry → Registry * (RegistryExn + unit)) : Boot unit := λ d,
  let '(r, res) := f (dk_registry d) in
  ({| dk_fs := dk_fs d; dk_registry := r; dk_accounts := dk_accounts d; dk_ttl := dk_ttl d |},
   match res with inl e => inl (BootRegistry e) | inr _ => inr tt end).

Definition with_disk_fs (t : gmap (list (list Z)) node) (d : Disk) : Disk :=
  {| dk_fs := t; dk_registry := dk_registry d; dk_accounts := dk_accounts d; dk_ttl := dk_ttl d |}.

(** [init_dropbox] on the disk. *)
Definition boot_dropbox (data_dir : path) (code : pystr) (public_url : option pystr) : Boot AppConfig := λ d,
  match init_dropbox (dk_fs d) data_dir code public_url with
  | inl e => (d, inl (BootFs e))
  | inr (t, c) => (with_disk_fs t d, inr c)
  end.

Definition take_expired (now : time) (code : pystr) : Boot (list (list Z)) := λ d,
  let '(db, paths) := delete_expired_for_mount now code (dk_ttl d) in
  ({| dk_fs := dk_fs d; dk_registry := dk_registry d; dk_accounts := dk_accounts d; dk_ttl := db |}, inr paths).

(** [if full_path.exists(): os.remove(full_path)] *)
Definition boot_remove (data_dir : path) (fp : pystr) : Boot unit := λ d,
  let full := full_path data_dir fp in
  if exists_ (dk_fs d) full then
    match os_remove (dk_fs d) full with
    | Some t => (with_disk_fs t d, inr tt)
    | None => (d, inl BootOSError)
    end
  else (d, inr tt).

(** Up to the [yield], but for the two tasks it starts. *)
Definition lifespan_start (now : time) (cwd : path) (config : RelayConfig) : Boot RelayState :=
  _ ← on_registry (λ r, (restart now r, inr tt));
  secret ← lift_res (text (rc_session_secret config));
  session ← lift_res (match init_session secret with inl e => inl (BootSession e) | inr s => inr s end);
  let oidc := if oidc_enabled config then
                issuer ← rc_oidc_issuer config; client ← rc_oidc_client_id config;
                uri ← oidc_redirect_uri config; Some (issuer, client, uri)
              else None in
  s ← lift_res (text (rc_data_dir config));
  let data_dir := path_join cwd s in
  code ← lift_res (text (rc_dropbox_code config));
  dropbox ← boot_dropbox data_dir code (rc_public_url config);
  _ ← on_registry (register code None (py "127.0.0.1") now None);
  expired_paths ← take_expired now code;
  _ ← for_each (boot_remove data_dir) expired_paths;
  mret {| rt_registry := true; rt_session := Some session; rt_account_store := true; rt_file_ttl_db := true;
          rt_oidc := oidc; rt_local_mounts := {[ code := dropbox ]} |}.

(** After the [yield]. *)
Definition lifespan_end (code : pystr) (s : RelayState) : RelayState :=
  {| rt_registry := false; rt_session := None; rt_account_store := false; rt_file_ttl_db := false;
     rt_oidc := None; rt_local_mounts := delete code (rt_local_mounts s) |}.

(** ** Lemmas *)

(** One expired path: a file goes, a missing one is no matter, a directory stops the
    start. *)
Lemma boot_remove_real data_dir names d :
  share_ok (dropbox_dir data_dir) (dk_fs d) → names ≠ [] → Forall plain_name names →
  let k := dropbox_dir data_dir ++ names in
  boot_remove data_dir (join_slash names) d =
  match dk_fs d !! k with
  | None => (d, inr tt)
  | Some FDir => (d, inl BootOSError)
  | Some _ => (with_disk_fs (delete k (dk_fs d)) d, inr tt)
  end.
Proof.
  intros Hs Hne Hn k. unfold boot_remove. rewrite full_path_plain by done. cbv zeta.
  rewrite (exists_real (dropbox_dir data_dir)), (os_remove_real (dropbox_dir data_dir)) by done. unfold k.
  destruct (dk_fs d !! _) as [[]|] eqn:E; [rewrite bool_decide_eq_true_2 by eauto; done..|].
  by rewrite bool_decide_eq_false_2 by (intros [? [=]]).
Qed.

(** The paths of the list name files, or nothing. *)
Definition removable (data_dir : path) (t : fs) (fps : list pystr) : Prop :=
  Forall (λ fp, ∃ names, names ≠ [] ∧ Forall plain_name names ∧ fp = join_slash names ∧
    t !! (dropbox_dir data_dir ++ names) ≠ Some FDir) fps.

Lemma share_delete_file base t names :
  share_ok base t → t !! (base ++ names) ≠ Some FDir → keeps base t (delete (base ++ names) t).
Proof.
  intros Hs Hn. destruct (t !! (base ++ names)) as [[c| |tg]|] eqn:E; [|done|..].
  - apply share_delete; [done|by apply prefix_app_r|congruence].
  - exfalso. by apply (share_links _ _ Hs (base ++ names) tg); [apply prefix_app_r|].
  - rewrite delete_id by done. by apply keeps_refl.
Qed.

(** The loop at the start: the named files go, nothing else changes. *)
Lemma boot_removes data_dir fps : ∀ d,
  share_ok (dropbox_dir data_dir) (dk_fs d) → removable data_dir (dk_fs d) fps →
  ∃ t, for_each (boot_remove data_dir) fps d = (with_disk_fs t d, inr tt) ∧
    keeps (dropbox_dir data_dir) (dk_fs d) t ∧
    ∀ k, t !! k = if decide (k ∈ full_path data_dir <$> fps) then None else dk_fs d !! k.
Proof.
  induction fps as [|fp fps IH]; intros d Hs Hr.
  { exists (dk_fs d). split; [by destruct d|]. split; [by apply keeps_refl|]. intros k. by rewrite decide_False by set_solver. }
  apply Forall_cons in Hr as [(names & Hne & Hn & -> & Hnd) Hr].
  cbn [for_each]. unfold mbind, M_bind. rewrite (boot_remove_real data_dir names d Hs Hne Hn).
  set (k0 := dropbox_dir data_dir ++ names).
  assert (∃ d1, match dk_fs d !! k0 with
    | None => (d, inr tt) | Some FDir => (d, inl BootOSError)
    | Some _ => (with_disk_fs (delete k0 (dk_fs d)) d, inr tt) end = (d1, inr tt : BootExn + unit) ∧
    d1 = with_disk_fs (delete k0 (dk_fs d)) d) as (d1 & -> & Hd1).
  { fold k0 in Hnd. destruct (dk_fs d !! k0) as [[]|] eqn:E; try done; [by eexists..|].
    exists d. split; [done|]. rewrite delete_id by done. by destruct d. }
  pose proof (share_delete_file (dropbox_dir data_dir) (dk_fs d) names Hs Hnd) as [H1 H2].
  destruct (IH d1) as (t & -> & [H3 H4] & H5).
  - by rewrite Hd1.
  - rewrite Hd1. cbn. eapply Forall_impl; [exact Hr|]. intros fp (ns & ? & ? & ? & Hx). exists ns. split_and!; try done.
    rewrite lookup_delete_Some. naive_solver.
  - rewrite Hd1 in *. cbn in *. exists t. split; [by destruct d|]. split.
    + split; [by etrans|done].
    + intros k. rewrite H5. cbn [fmap list_fmap]. rewrite full_path_plain by done. fold k0.
      destruct (decide (k ∈ full_path data_dir <$> fps)) as [Hin|Hout].
      * by rewrite decide_True by set_solver.
      * destruct (decide (k = k0)) as [->|Hk].
        -- rewrite lookup_delete_eq. by rewrite decide_True by set_solver.
        -- rewrite lookup_delete_ne by done. by rewrite decide_False by set_solver.
Qed.

(** The settings a start needs, and the drop box of the last run. *)
Record bootable (config : RelayConfig) (cwd : path) (secret s code : pystr) (d : Disk) : Prop := {
  bt_secret : rc_session_secret config = JStr secret ∧ secret ≠ [];
  bt_data_dir : rc_data_dir config = JStr s;
  bt_code : rc_dropbox_code config = JStr code ∧ code ≠ [];
  bt_dropbox : share_ok (dropbox_dir (path_join cwd s)) (dk_fs d)
}.

Definition wired (config : RelayConfig) (cwd : path) (secret s code : pystr) : RelayState :=
  {| rt_registry := true; rt_session := Some {| rs_secret_key := secret |}; rt_account_store := true;
     rt_file_ttl_db := true;
     rt_oidc := if oidc_enabled config then
                  issuer ← rc_oidc_issuer config; client ← rc_oidc_client_id config;
                  uri ← oidc_redirect_uri config; Some (issuer, client, uri)
                else None;
     rt_local_mounts := {[ code :=
       {| ac_shared_folder := dropbox_dir (path_join cwd s); ac_port := 0; ac_relay_url := rc_public_url config;
          ac_config := {| cfg_password_hash := None; cfg_read_only := false; cfg_receive := false;
                          cfg_mount_code := Some code; cfg_identity_secret := None |} |} ]} |}.

(** The disk when the loop over the expired files begins. *)
Definition before_loop (now : time) (code : pystr) (d : Disk) : Disk :=
  {| dk_fs := dk_fs d; dk_registry := (register code None (py "127.0.0.1") now None (restart now (dk_registry d))).1;
     dk_accounts := dk_accounts d; dk_ttl := (delete_expired_for_mount now code (dk_ttl d)).1 |}.

Lemma lifespan_loop now cwd config secret s code d :
  bootable config cwd secret s code d →
  lifespan_start now cwd config d =
  (for_each (boot_remove (path_join cwd s)) (get_expired_for_mount now code (dk_ttl d)).*1 ≫=
     λ _, mret (wired config cwd secret s code)) (before_loop now code d).
Proof.
  intros [[Hsec Hne] Hdir [Hcode Hcn] Hbox]. unfold lifespan_start. rewrite Hsec, Hdir, Hcode.
  unfold mbind, M_bind, mret, M_ret, lift_res, text. cbv beta iota.
  unfold on_registry at 1. cbn [dk_registry]. unfold init_session. rewrite bool_decide_eq_false_2 by done.
  unfold boot_dropbox, init_dropbox. cbn [dk_fs]. rewrite (mkdirs_there _ _ [] _ Hbox) by done. cbn [mbind sum_bind].
  rewrite server_config_real; [|apply Hbox|apply Hbox]. cbn [mbind sum_bind].
  rewrite bool_decide_eq_false_2 by done. cbv beta iota.
  unfold on_registry, register. cbn [dk_registry with_disk_fs]. rewrite bool_decide_eq_false_2 by done.
  unfold take_expired, delete_expired_for_mount. cbn [dk_ttl]. unfold before_loop, register.
  rewrite bool_decide_eq_false_2 by done. reflexivity.
Qed.

Lemma oidc_wired config cwd secret s code :
  is_Some (rt_oidc (wired config cwd secret s code)) ↔ oidc_enabled config = true.
Proof.
  unfold wired. cbn [rt_oidc]. destruct (oidc_enabled config) eqn:E; [|split; [by intros [? [=]]|done]].
  split; [done|]. intros _. unfold oidc_enabled in E.
  apply andb_true_iff in E as [E H4]. apply andb_true_iff in E as [E H3]. apply andb_true_iff in E as [H1 H2].
  unfold oidc_redirect_uri.
  destruct (rc_oidc_issuer config) as [[|]|], (rc_oidc_client_id config) as [[|]|],
    (rc_public_url config) as [[|]|]; done.
Qed.

Lemma dropbox_row now code r k :
  code ≠ [] →
  let r' := (register code None (py "127.0.0.1") now None (restart now r)).1 in
  _connections r' = ∅ ∧
  match mounts r' !! k with
  | Some row => if decide (k = code) then m_status row = ONLINE ∧ m_access_mode row = OPEN_MODE ∧ m_expires_at row = None
                else m_status row ≠ ONLINE
  | None => k ≠ code
  end.
Proof.
  intros Hc. unfold register. rewrite bool_decide_eq_false_2 by done. cbn [fst]. split; [done|]. cbn [mounts set_mounts].
  destruct (decide (k = code)) as [->|Hk]; [by rewrite lookup_insert_eq|]. rewrite lookup_insert_ne by done.
  destruct (mounts (restart now r) !! k) as [row|] eqn:E; [|done].
  destruct (restart_spec now r k) as (_ & _ & H). by apply H.
Qed.

(** ** Properties *)

(** The start of the relay.  With a session secret, a data directory and a code for
    the drop box, over the data of an earlier run, everything is wired: every accessor
    gives its service, single sign-on exactly when it is enabled.  Of the mounts only
    the drop box is ONLINE, open to all and without a time of expiry, and no connection
    is left; it is served from its directory and believes in no identity.  The files of
    the drop box whose time has come are gone with their records, and nothing else on
    the disk has changed.  At the end the state is the one before the start. *)
Theorem relay_boots `{Hmac} now cwd config secret s code d :
  bootable config cwd secret s code d →
  removable (path_join cwd s) (dk_fs d) (get_expired_for_mount now code (dk_ttl d)).*1 →
  ∃ d' st app, lifespan_start now cwd config d = (d', inr st) ∧
    require_registry st = inr tt ∧ require_session st = inr {| rs_secret_key := secret |} ∧
    require_account_store st = inr tt ∧ require_file_ttl_db st = inr tt ∧
    ((∃ x, require_oidc st = inr x) ↔ oidc_enabled config = true) ∧
    rt_local_mounts st = {[ code := app ]} ∧ folder_ok (dk_fs d') app ∧
    (∀ headers, _verified_identity (ac_config app) headers = inr None) ∧
    _connections (dk_registry d') = ∅ ∧
    (∀ k, match mounts (dk_registry d') !! k with
          | Some row => if decide (k = code)
                        then m_status row = ONLINE ∧ m_access_mode row = OPEN_MODE ∧ m_expires_at row = None
                        else m_status row ≠ ONLINE
          | None => k ≠ code
          end) ∧
    dk_accounts d' = dk_accounts d ∧
    ft_rows (dk_ttl d') = filter (λ kv, ¬ (kv.1.1 = code ∧ kv.2.1 ≤ now)) (ft_rows (dk_ttl d)) ∧
    (∀ k, dk_fs d' !! k =
       if decide (k ∈ full_path (path_join cwd s) <$> (get_expired_for_mount now code (dk_ttl d)).*1)
       then None else dk_fs d !! k) ∧
    lifespan_end code st = init_state.
Proof.
  intros Hb Hr. rewrite (lifespan_loop _ _ _ _ _ _ _ Hb).
  destruct (boot_removes (path_join cwd s) (get_expired_for_mount now code (dk_ttl d)).*1 (before_loop now code d))
    as (t & E & [Hk1 Hk2] & Ht); [apply Hb|done|].
  unfold mbind, M_bind, mret, M_ret. rewrite E. cbv beta iota.
  eexists _, _, _. split; [reflexivity|]. cbn [rt_local_mounts wired].
  destruct (bt_code _ _ _ _ _ _ Hb) as [_ Hcn].
  split_and!; try done.
  - rewrite <- (oidc_wired config cwd secret s code). unfold require_oidc, is_Some.
    destruct (rt_oidc _) as [x|]; naive_solver.
  - split; cbn; apply Hk2.
  - by apply (dropbox_row now code (dk_registry d) code).
  - intros k. by apply dropbox_row.
  - unfold lifespan_end. cbn. by rewrite delete_singleton_eq.
Qed.

(** The start fails when an expired record names a directory, as it does when the
    file of that name was deleted and a folder made in its place: [os.remove] raises,
    which nothing catches here.  The records are deleted before the files, so the next
    start succeeds, but the files behind the directory in the list have lost their
    records and stay for good. *)
Theorem boot_trips_over_directory now cwd config secret s code d pre names post :
  bootable config cwd secret s code d →
  (get_expired_for_mount now code (dk_ttl d)).*1 = pre ++ join_slash names :: post →
  removable (path_join cwd s) (dk_fs d) pre → names ≠ [] → Forall plain_name names →
  dk_fs d !! (dropbox_dir (path_join cwd s) ++ names) = Some FDir →
  ∃ d1, lifespan_start now cwd config d = (d1, inl BootOSError) ∧
    (∀ k, k ∉ full_path (path_join cwd s) <$> pre → dk_fs d1 !! k = dk_fs d !! k) ∧
    get_expired_for_mount now code (dk_ttl d1) = [] ∧
    ∃ d2 st, lifespan_start now cwd config d1 = (d2, inr st) ∧
      ∀ k, k ∉ full_path (path_join cwd s) <$> pre → dk_fs d2 !! k = dk_fs d !! k.
Proof.
  intros Hb Hl Hr Hne Hn Hd. rewrite (lifespan_loop _ _ _ _ _ _ _ Hb), Hl.
  destruct (boot_removes (path_join cwd s) pre (before_loop now code d)) as (t & E & [Hk1 Hk2] & Ht); [apply Hb|done|].
  unfold mbind at 1, M_bind at 1. rewrite for_each_app. unfold mbind at 1, M_bind at 1. rewrite E. cbv beta iota.
  cbn [for_each]. unfold mbind at 1, M_bind at 1.
  assert (t !! (dropbox_dir (path_join cwd s) ++ names) = Some FDir) as Hd1.
  { rewrite Ht. rewrite decide_False; [done|]. intros (fp & Hfp & Hin)%list_elem_of_fmap.
    unfold removable in Hr. rewrite Forall_forall in Hr. destruct (Hr fp Hin) as (ns & Hns & Hnp & -> & Hnd).
    rewrite full_path_plain in Hfp by done. rewrite <- Hfp in Hnd. done. }
  rewrite boot_remove_real by done. cbn [dk_fs with_disk_fs]. rewrite Hd1. cbv beta iota.
  set (d1 := with_disk_fs t (before_loop now code d)). exists d1.
  assert (∀ k, k ∉ full_path (path_join cwd s) <$> pre → dk_fs d1 !! k = dk_fs d !! k) as Hsame.
  { intros k Hk. cbn. by rewrite Ht, decide_False by done. }
  assert (get_expired_for_mount now code (dk_ttl d1) = []) as Hnone.
  { cbn. unfold get_expired_for_mount. cbn [ft_rows]. apply elem_of_nil_inv. intros x.
    rewrite list_elem_of_omap. intros ([[m p] [e made]] & Hin & Hx). apply elem_of_map_to_list in Hin.
    apply map_lookup_filter_Some in Hin as [_ Hno]. cbn in Hx, Hno.
    case_bool_decide; [|done]. cbn in Hx. destruct (Z.leb_spec e now); [|done]. by apply Hno. }
  split; [done|]. split; [done|]. split; [done|].
  assert (bootable config cwd secret s code d1) as Hb1.
  { destruct Hb as [H1 H2 H3 H4]. split; try done. }
  rewrite (lifespan_loop _ _ _ _ _ _ _ Hb1), Hnone. eexists _, _. split; [reflexivity|]. exact Hsame.
Qed.

(** ** Witnesses *)

Definition boot_environ : gmap pystr pystr :=
  <[py "RELAY_DATA_DIR" := py "/data"]> {[ py "RELAY_DROPBOX_CODE" := py "c" ]}.

Definition boot_config : RelayConfig :=
  match load_config (H := decimal_conv) boot_environ (py "random") shipped with inr c => c | inl _ => ConfigProps.demo_config end.

(** The file [a] of the drop box is due at time 10; in the second tree it is a folder. *)
Definition boot_disk : Disk :=
  {| dk_fs := relay_tree; dk_registry := empty_registry; dk_accounts := empty_db; dk_ttl := relay_ttl |}.

Definition trip_disk : Disk :=
  {| dk_fs := <[relay_data ++ [py "dropbox"; py "a"] := FDir]> relay_tree; dk_registry := empty_registry;
     dk_accounts := empty_db; dk_ttl := relay_ttl |}.

Lemma boot_settings :
  rc_session_secret boot_config = JStr dev_secret ∧ rc_data_dir boot_config = JStr (py "/data") ∧
  rc_dropbox_code boot_config = JStr (py "c") ∧ path_join [] (py "/data") = relay_data.
Proof. vm_compute. done. Qed.

Lemma boot_ready d :
  share_ok (dropbox_dir relay_data) (dk_fs d) → bootable boot_config [] dev_secret (py "/data") (py "c") d.
Proof.
  intros Hs. destruct boot_settings as (H1 & H2 & H3 & H4). split; [done|done|done|]. by rewrite H4.
Qed.

Lemma plain_a : Forall plain_name [py "a"].
Proof. apply (bool_decide_unpack _). by vm_compute. Qed.

Lemma relay_boots_witness :
  ∃ d' st, lifespan_start 10 [] boot_config boot_disk = (d', inr st) ∧
    require_session st = inr {| rs_secret_key := dev_secret |} ∧
    dk_fs d' !! [py "data"; py "dropbox"; py "a"] = None ∧
    dk_fs d' !! [py "data"; py "dropbox"; py "b"] = Some (FFile [Byte.x02]).
Proof.
  assert (removable (path_join [] (py "/data")) (dk_fs boot_disk)
            (get_expired_for_mount 10 (py "c") (dk_ttl boot_disk)).*1) as Hr.
  { change (path_join [] (py "/data")) with relay_data.
    assert ((get_expired_for_mount 10 (py "c") (dk_ttl boot_disk)).*1 = [py "a"]) as -> by (vm_compute; reflexivity).
    apply Forall_cons_2; [|apply Forall_nil_2]. exists [py "a"]. split; [discriminate|].
    split; [exact plain_a|]. split; [reflexivity|]. vm_compute. discriminate. }
  destruct (relay_boots (H := hex_mac) 10 [] boot_config dev_secret (py "/data") (py "c") boot_disk
              (boot_ready boot_disk dropbox_share) Hr)
    as (d' & st & app & E & _ & Hsess & _ & _ & _ & _ & _ & _ & _ & _ & _ & _ & Hfs & _).
  exists d', st. split; [exact E|]. split; [exact Hsess|]. rewrite !Hfs. vm_compute. split; reflexivity.
Defined.

Lemma boot_trips_over_directory_witness :
  ∃ d1, lifespan_start 10 [] boot_config trip_disk = (d1, inl BootOSError) ∧
    ∃ d2 st, lifespan_start 10 [] boot_config d1 = (d2, inr st).
Proof.
  assert (share_ok (dropbox_dir relay_data) (dk_fs trip_disk)) as Hs.
  { apply tree_check_ok; [vm_compute; reflexivity|apply clean_check; vm_compute; reflexivity|vm_compute; reflexivity]. }
  assert ((get_expired_for_mount 10 (py "c") (dk_ttl trip_disk)).*1 = [] ++ join_slash [py "a"] :: []) as Hl
    by (vm_compute; reflexivity).
  assert (dk_fs trip_disk !! (dropbox_dir (path_join [] (py "/data")) ++ [py "a"]) = Some FDir) as Hd
    by (vm_compute; reflexivity).
  destruct (boot_trips_over_directory 10 [] boot_config dev_secret (py "/data") (py "c") trip_disk [] [py "a"] []
              (boot_ready trip_disk Hs) Hl (Forall_nil_2 _) ltac:(discriminate) plain_a Hd)
    as (d1 & E & _ & _ & d2 & st & E2 & _).
  exists d1. split; [exact E|]. exists d2, st. exact E2.
Defined.
