(* ===== verification/Search.v ===== *)
(** The recursive search: [search_files] of [src/server/app/services/file_service.py] and
    its endpoint in [src/server/app/routers/files.py].  [str.lower] is the class [StrLower].

    [rglob] enumerates what lies below a directory without entering links; the order is
    that of the file system, here that of the map. *)

From stdpp Require Import strings.
From S2P Require Import Prelude Json Accounts Identity IdentityProps Files FilesProps StateStore FilesApi FilesApiProps.

Implicit Types t : gmap (list (list Z)) node.

(** [root.rglob("*")] *)
Definition rglob (t : fs) (root : path) : list (list (list Z)) :=
  filter (λ k, root `prefix_of` k ∧ k ≠ root) (map_to_list t).*1.

(** One turn of the loop. *)
Definition search_item `{StrLower} (base_resolved root_resolved : path) (query_lower : pystr) (t : fs) (item : path)
    : option FileEntry :=
  let found (ty : FileType) (size : option Z) :=
    real ← resolve MAX_LINKS t [] item;
    if negb (bool_decide (base_resolved `prefix_of` real)) then None
    else if negb (contains query_lower (str_lower (default [] (last item)))) then None
    else Some {| fe_name := join_slash (drop (length root_resolved) item); fe_type := ty; fe_size := size |} in
  match stat t item with
  | Some FDir => found DIRECTORY None
  | Some (FFile c) => found FILE (Some (Z.of_nat (length c)))
  | _ => None
  end.

Definition search_files `{StrLower} (base_dir : path) (search_root query : pystr) (t : fs) : FsExn + list FileEntry :=
  if bool_decide (query = []) then inl InvalidFileRequestError
  else
    base_resolved ← resolve_path t [] base_dir;
    root_resolved ← resolve_safe_path base_dir search_root t;
    inr (omap (search_item base_resolved root_resolved (str_lower query) t) (rglob t root_resolved)).

Definition search_files_endpoint `{Hmac} `{StrLower} (base : path) (config : ServerConfig) (headers : list (pystr * pystr))
    (q path : pystr) (st : api_state) : ApiExn + list FileEntry :=
  _ ← of_guard (require_browse_access config headers);
  scope_user ← of_identity (receive_scope_user config headers);
  match scope_user with
  | Some _ => inr []
  | None => of_fs (search_files base path q (st_fs st))
  end.

(** ** Lemmas *)

Lemma elem_of_rglob t root k : k ∈ rglob t root ↔ is_Some (t !! k) ∧ root `prefix_of` k ∧ k ≠ root.
Proof.
  unfold rglob. rewrite list_elem_of_filter, list_elem_of_fmap. split.
  - intros [H ([k' x] & -> & Hk%elem_of_map_to_list)]. split; [by eexists|done].
  - intros ([x Hx] & H). split; [done|]. exists (k, x). split; [done|]. by apply elem_of_map_to_list.
Qed.

Lemma rglob_nodup t root : NoDup (rglob t root).
Proof. apply NoDup_filter, NoDup_fst_map_to_list. Qed.

(** A result names a node whose real place is in the shared folder. *)
Lemma search_item_inside `{StrLower} base root q t item e :
  search_item base root q t item = Some e →
  ∃ real, resolve MAX_LINKS t [] item = Some real ∧ base `prefix_of` real ∧
    contains q (str_lower (default [] (last item))) = true ∧ fe_name e = join_slash (drop (length root) item) ∧
    match t !! real with
    | Some (FFile c) => fe_type e = FILE ∧ fe_size e = Some (Z.of_nat (length c))
    | Some FDir => fe_type e = DIRECTORY
    | _ => False
    end.
Proof.
  unfold search_item, stat. destruct (resolve MAX_LINKS t [] item) as [real|]; [|done]. cbn [mbind option_bind].
  destruct (t !! real) as [[c| |]|] eqn:Er; try done; (case_bool_decide; [|done]); cbn [negb];
    (destruct (contains _ _) eqn:Ec; [|done]); intros [= <-]; exists real; by rewrite Er.
Qed.

(** In a folder without links, the nodes below the root with the query in their names. *)
Lemma search_item_real `{StrLower} base root q t item n :
  share_ok base t → base `prefix_of` item → Forall clean item → t !! item = Some n →
  search_item base root q t item =
    if contains q (str_lower (default [] (last item)))
    then Some {| fe_name := join_slash (drop (length root) item);
                 fe_type := match n with FFile _ => FILE | _ => DIRECTORY end;
                 fe_size := match n with FFile c => Some (Z.of_nat (length c)) | _ => None end |}
    else None.
Proof.
  intros Hs Hp Hc Hn. assert (link_free t item) as Hl.
  { destruct Hp as [r ->]. by apply share_link_free. }
  unfold search_item. rewrite stat_real, Hn by done.
  rewrite (resolve_self MAX_LINKS t [] item) by done. cbn [mbind option_bind app].
  rewrite bool_decide_eq_true_2 by done. cbn [negb].
  destruct n as [c| |tg]; [by destruct (contains _ _)..|]. exfalso. by eapply (share_links _ _ Hs).
Qed.

Lemma drop_below {A} (root k : list A) : root `prefix_of` k → k = root ++ drop (length root) k.
Proof. intros [r ->]. by rewrite drop_app_length. Qed.

Lemma join_slash_inj l l' :
  l ≠ [] → l' ≠ [] → Forall plain_name l → Forall plain_name l' → join_slash l = join_slash l' → l = l'.
Proof.
  intros Hl Hl' Hp Hp' E.
  assert (∀ x, Forall plain_name x → Forall (λ c, slash ∉ c) x) as Hs.
  { intros x Hx. eapply Forall_impl; [exact Hx|]. by intros c (_ & ? & _). }
  rewrite <- (split_join l), <- (split_join l') by auto. by rewrite E.
Qed.

Section complete.
Context `{StrLower} (base root : list (list Z)) (q : pystr) (t : gmap (list (list Z)) node).
Context (Hs : share_ok base t) (Hplain : ∀ k, is_Some (t !! k) → Forall plain_name k) (Hroot : base `prefix_of` root).

Abbreviation found := (omap (search_item base root q t) (rglob t root)).

Lemma found_item k n :
  k ∈ rglob t root → t !! k = Some n →
  search_item base root q t k =
    if contains q (str_lower (default [] (last k)))
    then Some {| fe_name := join_slash (drop (length root) k);
                 fe_type := match n with FFile _ => FILE | _ => DIRECTORY end;
                 fe_size := match n with FFile c => Some (Z.of_nat (length c)) | _ => None end |}
    else None.
Proof.
  intros (_ & Hp & _)%elem_of_rglob Hn. apply search_item_real; [done|by etrans| |done].
  eapply Forall_impl; [by eapply Hplain|]. by intros c [? _].
Qed.

Lemma found_names names :
  names ≠ [] → Forall plain_name names →
  join_slash names ∈ fe_name <$> found ↔
    is_Some (t !! (root ++ names)) ∧ contains q (str_lower (default [] (last names))) = true.
Proof.
  intros Hne Hn. rewrite list_elem_of_fmap. split.
  - intros (e & He & (k & Hk & Hx)%list_elem_of_omap). pose proof Hk as Hk'.
    apply elem_of_rglob in Hk as ([n Ht] & Hp & Hkr). rewrite (found_item k n) in Hx by done.
    destruct (contains _ _) eqn:Ec; [|done]. injection Hx as <-. cbn in He.
    assert (k = root ++ drop (length root) k) as Hkd by by apply drop_below.
    assert (drop (length root) k ≠ []) as Hdn. { intros E. rewrite E, app_nil_r in Hkd. done. }
    assert (Forall plain_name (drop (length root) k)) as Hdp.
    { apply Forall_drop. apply Hplain. by eexists. }
    apply join_slash_inj in He; [|done..]. rewrite He, <- Hkd. split; [by eexists|].
    rewrite Hkd, last_app in Ec. destruct (last (drop (length root) k)) as [c|] eqn:El; [done|].
    by apply last_None in El.
  - intros [[n Ht] Hc].
    assert (root ++ names ∈ rglob t root) as Hin.
    { apply elem_of_rglob. split; [by eexists|]. split; [by apply prefix_app_r|].
      intros E. apply Hne. by apply (app_inv_head root); rewrite app_nil_r. }
    pose proof (found_item _ _ Hin Ht) as Hx.
    assert (last (root ++ names) = last names) as Hl.
    { rewrite last_app. destruct (last names) eqn:El; [done|]. by apply last_None in El. }
    rewrite Hl, Hc, drop_app_length in Hx. eexists. split; [|apply list_elem_of_omap; eauto]. done.
Qed.

Lemma found_nodup : NoDup (fe_name <$> found).
Proof.
  assert (∀ l, NoDup l → (∀ k, k ∈ l → k ∈ rglob t root) →
    NoDup (fe_name <$> omap (search_item base root q t) l)) as Hgen; [|by apply Hgen; [apply rglob_nodup|]].
  induction l as [|k l IH]; intros Hnd Hin; [constructor|]. apply NoDup_cons in Hnd as [Hk Hnd].
  cbn. assert (k ∈ rglob t root) as Hkr by (apply Hin; left).
  assert (∀ k', k' ∈ rglob t root → drop (length root) k' ≠ [] ∧ Forall plain_name (drop (length root) k') ∧
            k' = root ++ drop (length root) k') as Hdrop.
  { intros k' ([n Ht] & Hp & Hne)%elem_of_rglob. assert (k' = root ++ drop (length root) k') as E by by apply drop_below.
    split; [|split; [|done]].
    - intros E0. rewrite E0, app_nil_r in E. done.
    - apply Forall_drop, Hplain. by eexists. }
  destruct (search_item base root q t k) as [e|] eqn:Ee; [|by apply IH; [|intros; apply Hin; right]].
  cbn. apply NoDup_cons. split; [|by apply IH; [|intros; apply Hin; right]].
  intros (e' & He & (k' & Hk' & Hx)%list_elem_of_omap)%list_elem_of_fmap.
  apply search_item_inside in Ee as (_ & _ & _ & _ & En & _), Hx as (_ & _ & _ & _ & En' & _).
  rewrite En, En' in He.
  destruct (Hdrop k Hkr) as (H1 & H2 & H3), (Hdrop k') as (H1' & H2' & H3'); [by apply Hin; right|].
  apply join_slash_inj in He; [|done..]. rewrite <- He, <- H3 in H3'. by subst k'.
Qed.

End complete.

(** C12: The search.  Whatever links the folder holds, a result is a node below the place
    where the search starts whose real location lies in the shared folder, described as
    it is there.  In a folder without links the names of the results are exactly the
    paths below that place whose last name has the query in it, both in lower case as
    [str.lower] has them, each once.  An empty query is an error. *)
Theorem search_spec `{StrLower} base t rel q root :
  base_ok t base → resolve_safe_path base rel t = inr root → q ≠ [] →
  search_files base rel [] t = inl InvalidFileRequestError ∧
  ∃ es, search_files base rel q t = inr es ∧
    (∀ e, e ∈ es → ∃ item real, root `prefix_of` item ∧ is_Some (t !! item) ∧ fe_name e = join_slash (drop (length root) item) ∧
       resolve MAX_LINKS t [] item = Some real ∧ base `prefix_of` real ∧
       match t !! real with
       | Some (FFile c) => fe_type e = FILE ∧ fe_size e = Some (Z.of_nat (length c))
       | Some FDir => fe_type e = DIRECTORY
       | _ => False
       end) ∧
    (share_ok base t → (∀ k, is_Some (t !! k) → Forall plain_name k) →
       NoDup (fe_name <$> es) ∧
       ∀ names, names ≠ [] → Forall plain_name names →
         join_slash names ∈ fe_name <$> es ↔
           is_Some (t !! (root ++ names)) ∧ contains (str_lower q) (str_lower (default [] (last names))) = true).
Proof.
  intros Hb Hr Hq. split; [done|]. unfold search_files. rewrite bool_decide_eq_false_2 by done.
  rewrite (base_resolves t base Hb). cbn [mbind sum_bind]. rewrite Hr. cbn [mbind sum_bind].
  eexists. split; [done|]. split.
  - intros e (item & (Hi & Hp & _)%elem_of_rglob & Hx)%list_elem_of_omap.
    destruct (search_item_inside _ _ _ _ _ _ Hx) as (real & H1 & H2 & _ & H3 & H4). exists item, real. by split_and!.
  - intros Hs Hplain. destruct (safe_path_inside _ _ _ _ Hb Hr) as (Hp & _). split.
    + by apply found_nodup.
    + intros names. by apply found_names.
Qed.

Lemma receive_finds_nothing `{Hmac} `{StrLower} base config headers u q path st :
  acts_as config headers u RECEIVE → search_files_endpoint base config headers q path st = inr [].
Proof.
  intros Ha. destruct (acts_as_guards config headers u RECEIVE Ha) as (_ & _ & _ & Hbr & Hsc).
  rewrite bool_decide_eq_true_2 in Hsc by done. unfold search_files_endpoint. rewrite Hbr, Hsc. done.
Qed.

(** Names of other alphabets are found as well. *)
#[local] Existing Instance cyrillic_lower.

Example search_cyrillic :
  match search_files [] [] [1078] {[ [] := FDir; [1046 :: py ".txt"] := FFile [] ]} with
  | inr es => map fe_name es = [1046 :: py ".txt"]
  | inl _ => False
  end.
Proof. vm_compute. reflexivity. Qed.

Lemma search_spec_witness :
  ∃ es, search_files ex_base [] (py "A") ex_tree = inr es ∧ NoDup (fe_name <$> es) ∧
    py "a_1.txt" ∈ fe_name <$> es ∧ py "sub/b" ∉ fe_name <$> es.
Proof.
  assert (∀ k, is_Some (ex_tree !! k) → Forall plain_name k) as Hp.
  { assert (Forall (λ kv : list (list Z) * node, Forall plain_name kv.1) (map_to_list ex_tree)) as Hall
      by (apply (bool_decide_unpack _); vm_compute; exact I).
    intros k [n Hn]. rewrite Forall_forall in Hall. apply (Hall (k, n)). by apply elem_of_map_to_list. }
  destruct (search_spec ex_base ex_tree [] (py "A") ex_base (share_base _ _ ex_share)) as (_ & es & E & _ & H).
  - vm_compute. reflexivity.
  - discriminate.
  - destruct (H ex_share Hp) as [Hnd Hn]. exists es. split; [exact E|]. split; [exact Hnd|].
    change (py "a_1.txt") with (join_slash [py "a_1.txt"]). change (py "sub/b") with (join_slash [py "sub"; py "b"]).
    rewrite !Hn; [|discriminate|apply (bool_decide_unpack _); vm_compute; exact I
                  |discriminate|apply (bool_decide_unpack _); vm_compute; exact I].
    split; [split; [apply (bool_decide_unpack _); vm_compute; exact I|vm_compute; reflexivity]|].
    intros [_ Hc]. vm_compute in Hc. discriminate Hc.
Defined.
