(* ===== verification/Info.v ===== *)
(** Where a server says it is: [get_server_info] of
    [src/server/app/routers/server_info.py], the addresses printed by
    [src/agent/display.py], the network addresses of [src/shared/network.py], and as much
    of [urllib.parse] as they use.

    The socket and the network adapters are asked by the caller: what they answer is an
    argument.  The parameters of a path are not split off, which shows only for a path
    that ends in a semicolon: it loses it when its address is put together again. *)

From stdpp Require Import strings.
From S2P Require Import Prelude Json Accounts Identity IdentityProps Files Agent Config Start.

(** ** [urllib.parse] *)

Record Url := { u_scheme : pystr; u_netloc : pystr; u_path : pystr; u_query : pystr; u_fragment : pystr }.

Definition is_letter (c : Z) : bool := (65 <=? c) && (c <=? 90) || (97 <=? c) && (c <=? 122).
Definition scheme_char (c : Z) : bool := is_letter c || is_digit c || (c =? 43) || (c =? 45) || (c =? 46).

(** The part before the first character that [f] accepts, and the rest with it. *)
Definition before (f : Z → bool) (s : pystr) : pystr * pystr := span (λ c, negb (f c)) s.

(** What follows the separator that [before] stopped at. *)
Definition after (s : pystr) : pystr := tail s.

Definition split_scheme (s : pystr) : pystr * pystr :=
  match before (λ c, c =? colon) s with
  | ((c :: _) as scheme, _ :: rest) =>
      if is_letter c && forallb scheme_char scheme then (lower scheme, rest) else ([], s)
  | _ => ([], s)
  end.

Section urls.
(** What [urlsplit] checks of a network location with brackets or non-ASCII characters. *)
Context (netloc_ok : pystr → bool).

(** The white space in front, and the characters that are taken out everywhere. *)
Definition clean_url (s : pystr) : pystr :=
  filter (λ c, c ≠ 9 ∧ c ≠ 10 ∧ c ≠ 13) (lstrip_if (λ c, (0 <=? c) && (c <=? 32)) s).

(** [None] is a [ValueError]. *)
Definition urlsplit (s : pystr) : option Url :=
  let '(scheme, rest) := split_scheme (clean_url s) in
  let '(netloc, rest) :=
    match rest with
    | 47 :: 47 :: r => before (λ c, (c =? 47) || (c =? 63) || (c =? 35)) r
    | _ => ([], rest)
    end in
  if negb (netloc_ok netloc) then None
  else
    let '(rest, fragment) := before (λ c, c =? 35) rest in
    let '(path, query) := before (λ c, c =? 63) rest in
    Some {| u_scheme := scheme; u_netloc := netloc; u_path := path; u_query := after query; u_fragment := after fragment |}.

(** The host and the text of the port. *)
Definition hostinfo (u : Url) : pystr * pystr :=
  let info := match rpartition 64 (u_netloc u) with Some (_, h) => h | None => u_netloc u end in
  match partition 91 info with
  | Some (_, bracketed) =>
      let '(h, p) := default (bracketed, []) (partition 93 bracketed) in
      (h, match partition colon p with Some (_, p) => p | None => [] end)
  | None => default (info, []) (partition colon info)
  end.

Definition hostname (u : Url) : option pystr :=
  match (hostinfo u).1 with
  | [] => None
  | h => match partition 37 h with Some (a, zone) => Some (lower a ++ 37 :: zone) | None => Some (lower h) end
  end.

(** [None] is a [ValueError]. *)
Definition port (u : Url) : option (option Z) :=
  match (hostinfo u).2 with
  | [] => Some None
  | p => if forallb is_digit p then
           (let n := digits_value p in if n <=? 65535 then Some (Some n) else None)
         else None
  end.

Definition geturl (u : Url) : pystr :=
  let path := match u_path u with [] => [] | (c :: _) as p => if c =? slash then p else slash :: p end in
  let s := py "//" ++ u_netloc u ++ path in
  let s := match u_scheme u with [] => s | sch => sch ++ colon :: s end in
  let s := match u_query u with [] => s | q => s ++ 63 :: q end in
  match u_fragment u with [] => s | f => s ++ 35 :: f end.

Definition with_netloc (n : pystr) (u : Url) : Url :=
  {| u_scheme := u_scheme u; u_netloc := n; u_path := u_path u; u_query := u_query u; u_fragment := u_fragment u |}.

(** ** Addresses *)

Definition _LOCAL_HOSTS : list pystr := [py "localhost"; py "127.0.0.1"; py "::1"].

(** The agent knows one more. *)
Definition display_LOCAL_HOSTS : list pystr := _LOCAL_HOSTS ++ [py "0.0.0.0"].

Definition is_local (hosts : list pystr) (u : Url) : bool :=
  match hostname u with Some h => bool_decide (h ∈ hosts) | None => false end.

(** [f"{lan_ip}:{parsed.port}" if parsed.port else lan_ip] *)
Definition lan_netloc (lan_ip : pystr) (u : Url) : option pystr :=
  p ← port u;
  Some match p with Some n => if n =? 0 then lan_ip else lan_ip ++ colon :: dump_int n | None => lan_ip end.

Definition mount_url (base mount_code : pystr) : pystr := rstrip_slash base ++ py "/m/" ++ mount_code.

Definition _build_mount_url (relay_url mount_code lan_ip : pystr) : option pystr :=
  u ← urlsplit relay_url;
  relay_url ← (if is_local _LOCAL_HOSTS u then n ← lan_netloc lan_ip u; Some (geturl (with_netloc n u)) else Some relay_url);
  Some (mount_url relay_url mount_code).

(** [lan_ip] is [None] when [detect_primary_lan_ip] raises. *)
Definition _resolve_lan_url (url : pystr) (lan_ip : option pystr) : option pystr :=
  u ← urlsplit url;
  if is_local display_LOCAL_HOSTS u then
    match lan_ip with
    | None => Some url
    | Some ip => n ← lan_netloc ip u; Some (geturl (with_netloc n u))
    end
  else Some url.

(** The lines of [print_mounted] with addresses: the one with the QR code, and the local
    one if it differs. *)
Definition print_mounted (relay_url code : pystr) (lan_ip : option pystr) : option (pystr * option pystr) :=
  base ← _resolve_lan_url relay_url lan_ip;
  let shown := mount_url base code in
  let local := mount_url relay_url code in
  Some (shown, if bool_decide (shown = local) then None else Some local).

(** [adapters]: the addresses of the adapters, [None] for those of IPv6. *)
Definition detect_all_lan_ips (adapters : list (list (option pystr))) : option (list pystr) :=
  match filter (λ ip, startswith ip (py "127.") = false) (omap id (mjoin adapters)) with
  | [] => None
  | ips => Some ips
  end.

(** ** [get_server_info] *)

Record ServerInfo := {
  si_ip : pystr;
  si_port : Z;
  si_url : pystr;
  si_all_ips : list pystr;
  si_read_only : bool;
  si_receive : bool;
  si_password_required : bool;
  si_current_user : option pystr;
  si_current_role : option pystr;
  si_access_mode : option pystr
}.

Inductive InfoExn := InfoIdentity (e : IdentityExn) | InfoValueError.

Definition or_value_error {A} (x : option A) : InfoExn + A := match x with Some a => inr a | None => inl InfoValueError end.

Definition of_id {A} (r : IdentityExn + A) : InfoExn + A := match r with inl e => inl (InfoIdentity e) | inr a => inr a end.

(** The address and port to show. *)
Definition info_place (c : AppConfig) (ip : pystr) : InfoExn + (pystr * Z) :=
  match cfg_mount_code (ac_config c), ac_relay_url c with
  | Some code, Some relay_url =>
      url ← or_value_error (_build_mount_url relay_url code ip);
      u ← or_value_error (urlsplit relay_url);
      p ← or_value_error (port u);
      let given := match p with Some n => if n =? 0 then None else Some n | None => None end in
      inr (url, default (if is_local _LOCAL_HOSTS u then 80 else 443) given)
  | _, _ => inr (py "http://" ++ ip ++ colon :: dump_int (ac_port c), ac_port c)
  end.

Definition get_server_info `{Hmac} (c : AppConfig) (headers : list (pystr * pystr))
    (primary : option pystr) (adapters : list (list (option pystr))) : InfoExn + ServerInfo :=
  role ← of_id (trusted_role (ac_config c) headers);
  current_user ← of_id (trusted_user (ac_config c) headers);
  let current_role := role_value <$> role in
  let access_mode := if bool_decide (is_Some current_user) || bool_decide (is_Some current_role)
                     then dict_get (py "x-wfs-access-mode") headers else None in
  let info ip p url all :=
    {| si_ip := ip; si_port := p; si_url := url; si_all_ips := all; si_read_only := cfg_read_only (ac_config c);
       si_receive := cfg_receive (ac_config c);
       si_password_required := bool_decide (is_Some (cfg_password_hash (ac_config c)));
       si_current_user := current_user; si_current_role := current_role; si_access_mode := access_mode |} in
  match primary, detect_all_lan_ips adapters with
  | Some ip, Some all_ips => '(url, p) ← info_place c ip; inr (info ip p url all_ips)
  | _, _ => inr (info (py "unknown") (ac_port c) (py "unknown") [])
  end.

End urls.

(** ** Properties *)

Section properties.
Context (netloc_ok : pystr → bool).

(** Addresses of the usual form: a scheme, a host and a port. *)
Record plain_url (scheme host digits : pystr) : Prop := {
  pu_scheme : scheme ≠ [] ∧ Forall (λ c, 97 ≤ c ≤ 122) scheme;
  pu_host : host ≠ [] ∧ Forall (λ c, 45 ≤ c ≤ 57 ∧ c ≠ 47 ∨ 97 ≤ c ≤ 122) host;
  pu_port : digits ≠ [] ∧ forallb is_digit digits = true ∧ 0 < digits_value digits ≤ 65535
}.

Definition plain (scheme host digits : pystr) : pystr := scheme ++ py "://" ++ host ++ colon :: digits.

Lemma forallb_Forall (f : Z → bool) (P : Z → Prop) s : (∀ c, P c → f c = true) → Forall P s → forallb f s = true.
Proof. intros Hf. induction 1 as [|c s Hc _ IH]; [done|]. cbn. by rewrite Hf, IH. Qed.

Lemma netloc_chars host digits :
  Forall (λ c, 45 ≤ c ≤ 57 ∧ c ≠ 47 ∨ 97 ≤ c ≤ 122) host → forallb is_digit digits = true →
  Forall (λ c, 45 ≤ c ≤ 58 ∧ c ≠ 47 ∨ 97 ≤ c ≤ 122) (host ++ colon :: digits).
Proof.
  intros Hh Hd. apply Forall_app. split; [eapply Forall_impl; [exact Hh|]; intros c; cbn; lia|].
  apply Forall_cons_2; [unfold colon; lia|]. rewrite forallb_forall in Hd. apply Forall_forall.
  intros c Hc%list_elem_of_In%Hd. unfold is_digit in Hc. lia.
Qed.

Lemma urlsplit_plain scheme host digits :
  plain_url scheme host digits → netloc_ok (host ++ colon :: digits) = true →
  urlsplit netloc_ok (plain scheme host digits)
    = Some {| u_scheme := scheme; u_netloc := host ++ colon :: digits; u_path := []; u_query := []; u_fragment := [] |}.
Proof.
  intros [[Hsn Hs] [Hhn Hh] (Hdn & Hd & _)] Hok. pose proof (netloc_chars _ _ Hh Hd) as Hn.
  set (n := host ++ colon :: digits) in *. unfold plain. fold n.
  assert (Forall (λ c, 32 < c) (scheme ++ py "://" ++ n)) as Hall.
  { apply Forall_app. split; [eapply Forall_impl; [exact Hs|]; intros c; cbn; lia|].
    apply Forall_app. split; [by repeat constructor|]. eapply Forall_impl; [exact Hn|]. intros c; cbn; lia. }
  assert (clean_url (scheme ++ py "://" ++ n) = scheme ++ py "://" ++ n) as Hc.
  { unfold clean_url. rewrite lstrip_if_nop.
    - clear -Hall. induction Hall as [|c l Hc _ IH]; [done|]. rewrite filter_cons_True by lia. by rewrite IH.
    - intros c s E. rewrite E in Hall. apply Forall_cons in Hall as [Hc _]. lia. }
  unfold urlsplit. rewrite Hc.
  assert (split_scheme (scheme ++ py "://" ++ n) = (scheme, py "//" ++ n)) as ->.
  { unfold split_scheme, before. change (py "://" ++ n) with (colon :: py "//" ++ n).
    rewrite span_app; [|by eapply forallb_Forall; [|exact Hs]; unfold colon; cbn; intros c; lia|done].
    assert (lower scheme = scheme) as Hl.
    { unfold lower. rewrite <- (list_fmap_id scheme) at 2. apply list_fmap_ext. intros i c Hi.
      rewrite Forall_lookup in Hs. specialize (Hs i c Hi). unfold lower_char. cbn in Hs.
      destruct ((65 <=? c) && (c <=? 90) || (192 <=? c) && (c <=? 222) && negb (c =? 215)) eqn:E; [lia|done]. }
    assert (∀ c, 97 ≤ c ≤ 122 → is_letter c = true) as Hlet by (intros c ?; unfold is_letter; lia).
    assert (∀ c, 97 ≤ c ≤ 122 → scheme_char c = true) as Hch by (intros c ?; unfold scheme_char; by rewrite Hlet).
    destruct scheme as [|c scheme]; [done|]. rewrite (forallb_Forall _ _ _ Hch Hs), Hl.
    apply Forall_cons in Hs as [Hc1 _]. by rewrite Hlet. }
  cbn [app]. change (py "//" ++ n) with (47 :: 47 :: n). cbv beta iota. unfold before.
  rewrite <- (app_nil_r n) at 1.
  rewrite span_app; [|by eapply forallb_Forall; [|exact Hn]; cbn; intros c; lia|done].
  rewrite Hok. done.
Qed.

Lemma partition_none c s : c ∉ s → partition c s = None.
Proof.
  induction s as [|x s IH]; intros H; [done|]. cbn. destruct (Z.eqb_spec x c) as [->|]; [by destruct H; left|].
  rewrite IH; [done|]. intros Hc. apply H. by right.
Qed.

Lemma partition_at c a b : c ∉ a → partition c (a ++ c :: b) = Some (a, b).
Proof.
  induction a as [|x a IH]; intros H; cbn; [by rewrite Z.eqb_refl|].
  destruct (Z.eqb_spec x c) as [->|]; [by destruct H; left|]. rewrite IH; [done|]. intros Hc. apply H. by right.
Qed.

Lemma hostinfo_plain host digits u :
  Forall (λ c, 45 ≤ c ≤ 57 ∧ c ≠ 47 ∨ 97 ≤ c ≤ 122) host → forallb is_digit digits = true →
  u_netloc u = host ++ colon :: digits → hostinfo u = (host, digits).
Proof.
  intros Hh Hd Hu. pose proof (netloc_chars _ _ Hh Hd) as Hn. rewrite Forall_forall in Hn, Hh. unfold hostinfo. rewrite Hu.
  assert (∀ c, c = 64 ∨ c = 91 → c ∉ host ++ colon :: digits) as Hno.
  { intros c Hc Hin. apply Hn in Hin. lia. }
  assert (rpartition 64 (host ++ colon :: digits) = None) as ->.
  { unfold rpartition. rewrite partition_none; [done|]. rewrite elem_of_reverse. apply Hno. by left. }
  rewrite partition_none by (apply Hno; by right).
  rewrite partition_at; [done|]. intros Hin. apply Hh in Hin. unfold colon in Hin. lia.
Qed.

Lemma hostname_plain host digits u :
  host ≠ [] → Forall (λ c, 45 ≤ c ≤ 57 ∧ c ≠ 47 ∨ 97 ≤ c ≤ 122) host → forallb is_digit digits = true →
  u_netloc u = host ++ colon :: digits → hostname u = Some host.
Proof.
  intros Hne Hh Hd Hu. unfold hostname. rewrite (hostinfo_plain host digits) by done. cbn [fst].
  destruct host as [|c host]; [done|]. rewrite partition_none.
  - f_equal. unfold lower. rewrite <- (list_fmap_id (c :: host)) at 2. apply list_fmap_ext. intros i x Hi.
    rewrite Forall_lookup in Hh. specialize (Hh i x Hi). unfold lower_char. cbn in Hh.
    destruct ((65 <=? x) && (x <=? 90) || (192 <=? x) && (x <=? 222) && negb (x =? 215)) eqn:E; [lia|done].
  - intros Hin. rewrite Forall_forall in Hh. apply Hh in Hin. lia.
Qed.

Lemma port_plain host digits u :
  Forall (λ c, 45 ≤ c ≤ 57 ∧ c ≠ 47 ∨ 97 ≤ c ≤ 122) host → digits ≠ [] → forallb is_digit digits = true →
  digits_value digits ≤ 65535 → u_netloc u = host ++ colon :: digits → port u = Some (Some (digits_value digits)).
Proof.
  intros Hh Hne Hd Hv Hu. unfold port. rewrite (hostinfo_plain host digits) by done. cbn [snd].
  destruct digits as [|c digits]; [done|]. rewrite Hd. destruct (Z.leb_spec (digits_value (c :: digits)) 65535); [done|lia].
Qed.

End properties.

(** The address of a mount.  For a relay address of the usual form the server and the
    agent show the mount under the relay's own host, or under the address of the machine
    in the network when that host is the machine itself; scheme and port stay.  They
    differ for the host 0.0.0.0, which only the agent takes for the machine. *)
Lemma mount_url_spec netloc_ok scheme host digits ip code :
  plain_url scheme host digits → netloc_ok (host ++ colon :: digits) = true →
  let shown h d := scheme ++ py "://" ++ h ++ colon :: d ++ py "/m/" ++ code in
  let local d := shown ip d in
  _build_mount_url netloc_ok (plain scheme host digits) code ip
    = Some (if bool_decide (host ∈ _LOCAL_HOSTS) then local (dump_int (digits_value digits)) else shown host digits) ∧
  fst <$> print_mounted netloc_ok (plain scheme host digits) code (Some ip)
    = Some (if bool_decide (host ∈ display_LOCAL_HOSTS) then local (dump_int (digits_value digits)) else shown host digits).
Proof.
  intros Hp Hok shown local. pose proof (urlsplit_plain netloc_ok _ _ _ Hp Hok) as Hu.
  destruct Hp as [[Hsn Hs] [Hhn Hh] (Hdn & Hd & Hv)].
  assert (∀ pre d, d ≠ [] → forallb is_digit d = true → rstrip_slash (pre ++ d) = pre ++ d) as Hr.
  { intros pre d Hn Hdd. unfold rstrip_slash, rstrip_if. rewrite lstrip_if_nop; [apply reverse_involutive|].
    intros c s E. destruct (exists_last Hn) as (d' & x & ->). rewrite (assoc_L (++)), reverse_snoc in E. injection E as -> _.
    rewrite forallb_app in Hdd. apply andb_true_iff in Hdd as [_ Hx]. cbn in Hx. unfold is_digit in Hx. unfold slash. lia. }
  set (u := {| u_scheme := scheme |}) in *.
  assert (hostname u = Some host) as Hn by (by apply (hostname_plain host digits)).
  assert (port u = Some (Some (digits_value digits))) as Hpo by (apply (port_plain host digits); try done; lia).
  assert (lan_netloc ip u = Some (ip ++ colon :: dump_int (digits_value digits))) as Hln.
  { unfold lan_netloc. rewrite Hpo. cbn. destruct (Z.eqb_spec (digits_value digits) 0); [lia|done]. }
  assert (geturl (with_netloc (ip ++ colon :: dump_int (digits_value digits)) u)
          = scheme ++ py "://" ++ ip ++ colon :: dump_int (digits_value digits)) as Hg.
  { unfold geturl, with_netloc. cbn. destruct scheme; [done|]. by rewrite app_nil_r. }
  assert (dump_int (digits_value digits) ≠ [] ∧ forallb is_digit (dump_int (digits_value digits)) = true) as [Hdi1 Hdi2].
  { unfold dump_int. destruct (Z.ltb_spec (digits_value digits) 0); [lia|].
    destruct (dump_nat_spec (digits_value digits)) as (c & r & -> & H2 & _); [lia|]. done. }
  assert (mount_url (scheme ++ py "://" ++ ip ++ colon :: dump_int (digits_value digits)) code
          = local (dump_int (digits_value digits))) as Hl1.
  { unfold mount_url, local, shown.
    replace (scheme ++ py "://" ++ ip ++ colon :: dump_int (digits_value digits))
      with ((scheme ++ py "://" ++ ip ++ [colon]) ++ dump_int (digits_value digits)) by (by rewrite <- !(assoc_L (++))).
    rewrite Hr by done. by rewrite <- !(assoc_L (++)). }
  assert (mount_url (plain scheme host digits) code = shown host digits) as Hl2.
  { unfold mount_url, plain, shown.
    replace (scheme ++ py "://" ++ host ++ colon :: digits)
      with ((scheme ++ py "://" ++ host ++ [colon]) ++ digits) by (by rewrite <- !(assoc_L (++))).
    rewrite Hr by done. by rewrite <- !(assoc_L (++)). }
  unfold _build_mount_url, print_mounted, _resolve_lan_url. rewrite Hu. cbn [mbind option_bind].
  unfold is_local. rewrite Hn. split.
  - destruct (bool_decide (host ∈ _LOCAL_HOSTS)); cbn [mbind option_bind]; [|by rewrite Hl2].
    rewrite Hln. cbn [mbind option_bind]. by rewrite Hg, Hl1.
  - destruct (bool_decide (host ∈ display_LOCAL_HOSTS)); cbn [mbind option_bind]; [|cbn; by rewrite Hl2].
    rewrite Hln. cbn [mbind option_bind]. by rewrite Hg, Hl1.
Qed.

(** What the server tells a visitor of a mount about the visitor: the user and role the
    relay has authorised, nobody else's, whatever headers the request came with; whether
    a password is asked for; and never an access mode, a header no part of the program
    sets. *)
Theorem server_info_identity `{Hmac} netloc_ok (c : AppConfig) items who fwd hs primary adapters i :
  is_Some (cfg_mount_code (ac_config c)) →
  forward_headers items who (cfg_identity_secret (ac_config c)) = inr fwd → delivers fwd hs →
  get_server_info netloc_ok c hs primary adapters = inr i →
  let b := believed who (cfg_identity_secret (ac_config c)) in
  si_current_user i = fst <$> b ∧ si_current_role i = (λ x, role_value x.2) <$> b ∧ si_access_mode i = None ∧
  (si_password_required i = true ↔ is_Some (cfg_password_hash (ac_config c))).
Proof.
  intros Hc Hf Hd Hi b. unfold get_server_info in Hi.
  pose proof (verified_delivered (ac_config c) items who _ fwd hs Hc eq_refl Hf Hd) as Hv.
  assert (dict_get (py "x-wfs-access-mode") hs = None) as Hm.
  { rewrite dict_get_wfs by done. rewrite Hd. pose proof (forward_headers_wfs _ _ _ _ Hf) as Hw.
    destruct who as [[u r]|], (cfg_identity_secret (ac_config c)) as [s|];
      [destruct Hw as (sig & _ & Hw)|..]; by rewrite Hw. }
  unfold trusted_role, trusted_user in Hi. rewrite Hv in Hi. fold b in Hi.
  assert (∀ r, role_of_value (role_value r) = Some r) as Hrr by (by intros []).
  assert (si_access_mode i = None ∧ si_current_user i = fst <$> b ∧ si_current_role i = (λ x, role_value x.2) <$> b ∧
          si_password_required i = bool_decide (is_Some (cfg_password_hash (ac_config c)))) as (H1 & H2 & H3 & H4).
  { rewrite Hm in Hi. cbn [mbind sum_bind of_id] in Hi. destruct b as [[u r]|]; cbn [mbind sum_bind of_id] in Hi;
      cbn in Hi;
      (destruct primary, (detect_all_lan_ips adapters); [destruct (info_place _ _ _) as [|[]]; [done|]|..]);
      cbn in Hi; injection Hi as <-; split_and!; try done; cbn; by rewrite Hrr. }
  split_and!; try done. rewrite H4. by rewrite bool_decide_eq_true.
Qed.
