(* ===== verification/Oidc.v ===== *)
(** The client of the identity provider: [src/relay/app/services/oidc.py].

    What the provider answers is an argument: an error of the connection or a status
    that is none of success, a body that is no JSON, or JSON.  The lock around the
    discovery makes it one step. *)

From stdpp Require Import strings.
From S2P Require Import Prelude Json Utf8 Session Proxy Config Accounts Registry RelayAuth.

Inductive HttpReply := HttpError | NotJson | JsonBody (body : json).

Inductive OidcExn := OidcError | OidcKeyError | OidcTypeError | OidcUnicodeError.

Record OidcClient := {
  oc_issuer : pystr;
  oc_client_id : pystr;
  oc_client_secret : pystr;
  oc_redirect_uri : pystr;
  oc_scopes : pystr;
  _discovery : option json
}.

Definition set_discovery (d : option json) (c : OidcClient) : OidcClient :=
  {| oc_issuer := oc_issuer c; oc_client_id := oc_client_id c; oc_client_secret := oc_client_secret c;
     oc_redirect_uri := oc_redirect_uri c; oc_scopes := oc_scopes c; _discovery := d |}.

Definition body (r : HttpReply) : OidcExn + json := match r with JsonBody j => inr j | _ => inl OidcError end.

(** [null] is Python's [None]: nothing is kept. *)
Definition not_none (j : json) : option json := match j with JNull => None | _ => Some j end.

Definition discovery_url (c : OidcClient) : pystr := rstrip_slash (oc_issuer c) ++ py "/.well-known/openid-configuration".

(** [reply] is the answer of the provider, should it be asked. *)
Definition _discover (reply : HttpReply) : M OidcClient OidcExn json := λ c,
  match _discovery c with
  | Some d => (c, inr d)
  | None =>
      match body reply with
      | inl e => (c, inl e)
      | inr j => (set_discovery (not_none j) c, inr j)
      end
  end.

(** [d[key]] *)
Definition endpoint (d : json) (key : pystr) : OidcExn + json :=
  match d with
  | JObj l => match dict_get key l with Some v => inr v | None => inl OidcKeyError end
  | _ => inl OidcTypeError
  end.

(** [quote_plus] and [urlencode] *)
Definition quote_plus (s : pystr) : option pystr :=
  mbind (λ b, if byte_Z b =? 32 then [43] else quote_byte b) <$> utf8_encode s.

Fixpoint urlencode (params : list (pystr * pystr)) : option pystr :=
  match params with
  | [] => Some []
  | [(k, v)] => k' ← quote_plus k; v' ← quote_plus v; Some (k' ++ 61 :: v')
  | (k, v) :: rest => k' ← quote_plus k; v' ← quote_plus v; r ← urlencode rest; Some (k' ++ 61 :: v' ++ 38 :: r)
  end.

Definition authorize_params (c : OidcClient) (state : pystr) : list (pystr * pystr) :=
  [(py "client_id", oc_client_id c); (py "response_type", py "code"); (py "scope", oc_scopes c);
   (py "redirect_uri", oc_redirect_uri c); (py "state", state)].

Section client.
Context `{PyConv}.

Definition authorize_url (state : pystr) (reply : HttpReply) : M OidcClient OidcExn pystr :=
  disc ← _discover reply;
  c ← get;
  e ← lift_res (endpoint disc (py "authorization_endpoint"));
  q ← lift_res (match urlencode (authorize_params c state) with Some q => inr q | None => inl OidcUnicodeError end);
  mret (to_str e ++ 63 :: q).

(** The form that is posted, and the answer to it. *)
Definition token_form (c : OidcClient) (code : pystr) : list (pystr * pystr) :=
  [(py "grant_type", py "authorization_code"); (py "code", code); (py "redirect_uri", oc_redirect_uri c);
   (py "client_id", oc_client_id c); (py "client_secret", oc_client_secret c)].

Definition exchange_code (discovery reply : HttpReply) : M OidcClient OidcExn json :=
  disc ← _discover discovery;
  _ ← lift_res (endpoint disc (py "token_endpoint"));
  lift_res (body reply).

Definition fetch_userinfo (discovery reply : HttpReply) : M OidcClient OidcExn json :=
  disc ← _discover discovery;
  _ ← lift_res (endpoint disc (py "userinfo_endpoint"));
  lift_res (body reply).

(** The two calls of the callback: [token] and [info] are what the provider answers to
    them. *)
Definition fetch_claims (discovery token info : HttpReply) : M OidcClient OidcExn json :=
  tokens ← exchange_code discovery token;
  _ ← lift_res (endpoint tokens (py "access_token"));
  fetch_userinfo discovery info.

(** The claims the callback goes on with; [OidcError] and [KeyError] are caught there. *)
Definition caught (e : OidcExn) : bool := match e with OidcError | OidcKeyError => true | _ => false end.

End client.

(** ** Lemmas and properties *)

(** Once something is known of the provider, it is not asked again. *)
Lemma discover_known reply c d : _discovery c = Some d → _discover reply c = (c, inr d).
Proof. intros H. unfold _discover. by rewrite H. Qed.

Lemma discover_keeps reply c c' r :
  _discover reply c = (c', r) →
  set_discovery None c' = set_discovery None c ∧
  match r with inr d => _discovery c' = not_none d ∨ _discovery c = Some d | inl e => c' = c ∧ e = OidcError end.
Proof.
  unfold _discover. destruct (_discovery c) as [d|] eqn:E; [intros [= <- <-]; by split; [|right]|].
  destruct (body reply) as [e|j] eqn:Eb; intros [= <- <-]; [|by split; [|left]].
  split; [done|]. split; [done|]. by destruct reply; cbn in Eb; simplify_eq.
Qed.

(** Any JSON but null that the provider answers to the discovery is kept for the life of
    the relay.  One answer without the endpoints, of a provider that is just starting for
    example, and no single sign-on succeeds any more, whatever the provider answers
    later; a list or a text instead of an object is not caught in the callback. *)
Theorem bad_discovery_sticks `{PyConv} c first d :
  _discovery c = None → first = JsonBody d → not_none d = Some d →
  (∀ e key, key ∈ [py "authorization_endpoint"; py "token_endpoint"] → endpoint d key ≠ inr e) →
  let c' := (_discover first c).1 in
  _discovery c' = Some d ∧
  ∀ state reply token info,
    (∃ e, authorize_url state reply c' = (c', inl e)) ∧
    ∃ e, fetch_claims reply token info c' = (c', inl e) ∧
      (caught e = false ↔ match d with JObj _ => False | _ => True end).
Proof.
  intros Hn -> Hd Hbad c'.
  assert (_discovery c' = Some d) as Hc'. { unfold c', _discover. rewrite Hn. cbn. by rewrite Hd. }
  split; [done|]. intros state reply token info. split.
  - unfold authorize_url, mbind, M_bind. rewrite (discover_known _ _ _ Hc'). cbv beta iota. unfold get, lift_res.
    destruct (endpoint d (py "authorization_endpoint")) as [e|v] eqn:E; [by eexists|].
    exfalso. apply (Hbad v (py "authorization_endpoint")); [by left|done].
  - unfold fetch_claims, exchange_code, mbind, M_bind. rewrite (discover_known _ _ _ Hc'). cbv beta iota. unfold lift_res.
    destruct (endpoint d (py "token_endpoint")) as [e|v] eqn:E.
    + exists e. split; [done|]. unfold endpoint in E. destruct d as [| | | | | |l]; simplify_eq; try done.
      destruct (dict_get (py "token_endpoint") l); simplify_eq. done.
    + exfalso. apply (Hbad v (py "token_endpoint")); [by right; left|done].
Qed.
