(* ===== verification/Errors.v ===== *)
(** The answers to exceptions: [register_exception_handlers] of
    [src/server/app/error_handlers.py] and [src/relay/app/error_handlers.py].  An exception
    without a handler is answered with 500. *)

From stdpp Require Import strings.
From S2P Require Import Prelude Json Session Accounts Registry Access Identity Files FilesProps StateStore FilesApi FilesApiProps.
From S2P Require Import Sharing Hub.

(** ** The server *)

Definition fs_status (e : FsExn) : Z :=
  match e with
  | PathTraversalError => 403
  | FileNotFoundError => 404
  | FileConflictError _ => 409
  | InvalidFileNameError | InvalidFileRequestError => 400
  | SymlinkLoop | FsValueError | IsADirectoryError | NotADirectoryError | FileExistsError => 500
  end.

Definition guard_status (e : GuardExn) : Z :=
  match e with ReadOnlyError | GuardAccessDenied => 403 | GuardIdentity _ => 500 end.

Definition api_status (e : ApiExn) : Z :=
  match e with
  | ApiGuard e => guard_status e
  | ApiFs e => fs_status e
  | ApiIdentity _ | ApiValueError => 500
  end.

Definition share_status (e : ShareExn) : Z :=
  match e with ShareLinkNotFoundError _ => 404 | _ => 500 end.

Definition hub_status (e : HubExn) : Z :=
  match e with
  | HubGuard e => guard_status e
  | HubFs e => fs_status e
  | SnippetNotFoundError => 404
  | SnippetValidationError => 400
  | _ => 500
  end.

(** ** The relay *)

Definition registry_status (e : RegistryExn) : Z :=
  match e with
  | MountNotFoundError | AccessRequestNotFoundError => 404
  | MountOfflineError => 503
  | MountExpiredError => 410
  | RegValueError | LocalMountRuntimeError => 500
  end.

Definition session_status (e : SessionExn) : Z := match e with InvalidSessionError => 401 | _ => 500 end.

Definition access_status (e : AccessExn) : Z :=
  match e with AuthenticationRequiredError _ => 401 | AccessDeniedError _ _ => 403 | StoreError _ => 500 end.

(** ** Properties *)

(** The errors of a user path. *)
Lemma safe_path_errors base t rel e :
  base_ok t base → resolve_safe_path base rel t = inl e → e = SymlinkLoop ∨ e = FsValueError ∧ 0 ∈ rel ∨
    e = PathTraversalError ∨ e = FileNotFoundError.
Proof.
  intros Hb. unfold resolve_safe_path. rewrite (base_resolves t base Hb). cbn [mbind sum_bind].
  case_bool_decide; [done|]. destruct (startswith rel [slash]); [intros [= <-]; auto|].
  case_bool_decide; [intros [= <-]; auto|]. unfold resolve_path.
  destruct (resolve _ _ _ _); [|intros [= <-]; auto]. cbn [mbind sum_bind].
  repeat case_bool_decide; cbn [negb]; try (intros [= <-]; auto). destruct (exists_ t l); [done|]. intros [= <-]; auto.
Qed.

(** The answers to a listing, in a folder without links.  A directory is listed; a path
    out of the folder is answered with 403 and one that leads nowhere with 404.  Asking
    for the listing of a file is answered with 500, as is a path with a NUL or, outside
    of the folder, a loop of links. *)
Theorem listing_status base t rel :
  share_ok base t → (∀ k, is_Some (t !! k) → Forall clean k) →
  match resolve_safe_path base rel t, list_directory base rel t with
  | inr p, inr _ => t !! p = Some FDir
  | inr p, inl e => fs_status e = 500 ∧ ∃ c, t !! p = Some (FFile c)
  | inl e, inl e' => e' = e ∧ (fs_status e = 403 ∨ fs_status e = 404 ∨
      fs_status e = 500 ∧ (0 ∈ rel ∨ e = SymlinkLoop))
  | inl _, inr _ => False
  end.
Proof.
  intros Hs Hc. destruct (resolve_safe_path base rel t) as [e|p] eqn:Er.
  - unfold list_directory. rewrite Er. cbn [mbind sum_bind]. split; [done|].
    destruct (safe_path_errors _ _ _ _ (share_base _ _ Hs) Er) as [->|[[-> H0]|[->| ->]]]; cbn; auto.
  - pose proof (list_directory_spec base t rel p Hs Hc Er) as H.
    destruct (safe_path_inside _ _ _ _ (share_base _ _ Hs) Er) as (Hp & _ & _ & Hex).
    destruct (t !! p) as [[c| |tg]|] eqn:Ep.
    + rewrite H. split; [done|]. by exists c.
    + by destruct H as (es & -> & _).
    + exfalso. by apply (share_links _ _ Hs p tg).
    + exfalso. destruct (decide (rel = [])) as [->|Hne].
      * unfold resolve_safe_path in Er. rewrite (base_resolves t base (share_base _ _ Hs)) in Er. cbn in Er.
        injection Er as <-. rewrite (share_dir _ _ Hs) in Ep. done.
      * destruct (Hex Hne). congruence.
Qed.
