(* ===== verification/Cli.v ===== *)
(** The command lines: [src/server/app/cli.py], and [main] of [src/relay/cli.py].

    The parsers of these programs are [argparse] parsers with at most one positional
    argument, options that take one argument, and flags.  [parse_args] is the algorithm of
    the library for such parsers: every argument is classified first, then options and the
    positional are consumed from left to right.  The outcome of the parse is handed to the
    starting functions of [Start]. *)

From stdpp Require Import strings.
From S2P Require Import Prelude Utf8 Json Accounts Identity Files FilesProps Agent Storage Proxy Config Start.

Local Open Scope Z_scope.

Definition dash : Z := 45.
Definition equals : Z := 61.

(** [SystemExit(code)] with the messages of the library.  The text [--] behind an equals sign
    leaves an empty list in the attribute of an option; the parse is not followed from there
    on, and [OddValue] stands for its outcome. *)
Inductive CliExit :=
| SystemExit (code : Z)
| OddValue.

Definition usage_error : CliExit := SystemExit 2.

(** ** Values *)

Section values.
Context `{Digits}.

(** [int(s)]: digits with single underscores between them *)
Fixpoint uint_digits (s : pystr) : option (list Z) :=
  match s with
  | [] => None
  | [c] => d ← udigit c; Some [d]
  | c :: ((u :: s'') as s') =>
      d ← udigit c;
      ds ← (if u =? 95 then uint_digits s'' else uint_digits s');
      Some (d :: ds)
  end.

Definition arg_unsigned (s : pystr) : option Z :=
  ds ← uint_digits s;
  if (MAX_STR_DIGITS <? length ds)%nat then None else Some (udigits_value ds).

Definition arg_int (s : pystr) : option Z :=
  match strip_if int_space s with
  | [] => None
  | c :: s' => if c =? dash then Z.opp <$> arg_unsigned s'
               else if c =? 43 then arg_unsigned s' else arg_unsigned (c :: s')
  end.

(** [^-\d+$|^-\d*\.\d+$], where the dollar also matches before a newline at the end *)
Definition is_udigit (c : Z) : bool := bool_decide (is_Some (udigit c)).

Definition negative_number (s : pystr) : bool :=
  match (match last s with Some 10 => removelast s | _ => s end) with
  | [] => false
  | c :: s' =>
      (c =? dash) &&
      match span is_udigit s' with
      | (_ :: _, []) => true
      | (_, d :: frac) => (d =? dot) && negb (bool_decide (frac = [])) && forallb is_udigit frac
      | ([], []) => false
      end
  end.

End values.

(** [s.split('=', 1)], when there is an equals sign *)
Fixpoint split_equals (s : pystr) : option (pystr * pystr) :=
  match s with
  | [] => None
  | c :: s' => if c =? equals then Some ([], s')
               else '(o, e) ← split_equals s'; Some (c :: o, e)
  end.

(** ** The parsers of the library *)

(** [opts] is the table of option strings in the order of their declaration; [flag] tells the
    actions without argument; [act] converts the argument and stores it in the namespace;
    [folder] is the attribute of the positional, when there is one. *)
Record Parser (A NS : Type) := {
  opts : list (pystr * A);
  flag : A → bool;
  act : A → pystr → NS → CliExit + NS;
  folder : option (pystr → NS → NS)
}.
Arguments opts {A NS} _.
Arguments flag {A NS} _ _.
Arguments act {A NS} _ _ _ _.
Arguments folder {A NS} _.

(** An argument after the first pass: an option with its action (or none, when no option fits) and
    the argument it carries, a plain argument, or the [--] that ends the options. *)
Inductive token (A : Type) :=
| TokO (text : pystr) (found : option (A * pystr * option pystr))
| TokA (text : pystr)
| TokEnd.
Arguments TokO {A} _ _.
Arguments TokA {A} _.
Arguments TokEnd {A}.

Section argparse.
Context `{Digits} {A NS : Type} (p : Parser A NS).

Definition find_option (s : pystr) : option A :=
  snd <$> List.find (λ o, bool_decide (o.1 = s)) (opts p).

(** [_get_option_tuples] *)
Definition _get_option_tuples (s : pystr) : list (A * pystr * option pystr) :=
  match s with
  | _ :: c :: _ =>
      if c =? dash then
        let '(option_prefix, explicit_arg) :=
          match split_equals s with Some (o, e) => (o, Some e) | None => (s, None) end in
        omap (λ o, if startswith o.1 option_prefix then Some (o.2, o.1, explicit_arg) else None) (opts p)
      else
        omap (λ o, if bool_decide (o.1 = take 2 s) then Some (o.2, o.1, Some (drop 2 s))
                   else if startswith o.1 s then Some (o.2, o.1, None) else None) (opts p)
  | _ => []
  end.

Definition _parse_optional (s : pystr) : CliExit + token A :=
  match s with
  | [] => inr (TokA s)
  | c :: rest =>
      if negb (c =? dash) then inr (TokA s)
      else match find_option s with
      | Some a => inr (TokO s (Some (a, s, None)))
      | None =>
          if bool_decide (rest = []) then inr (TokA s)
          else match ('(o, e) ← split_equals s; a ← find_option o; Some (a, o, Some e)) with
          | Some t => inr (TokO s (Some t))
          | None =>
              match _get_option_tuples s with
              | _ :: _ :: _ => inl usage_error
              | [t] => inr (TokO s (Some t))
              | [] => if negative_number s then inr (TokA s)
                      else if bool_decide (32 ∈ s) then inr (TokA s)
                      else inr (TokO s None)
              end
          end
      end
  end.

(** The first pass *)
Fixpoint classify (args : list pystr) : CliExit + list (token A) :=
  match args with
  | [] => inr []
  | s :: args' =>
      if bool_decide (s = [dash; dash]) then inr (TokEnd :: (TokA <$> args'))
      else t ← _parse_optional s; ts ← classify args'; inr (t :: ts)
  end.

(** [take_action]: the text [--] is removed from the arguments of the action. *)
Definition take_action (a : A) (value : option pystr) (ns : NS) : CliExit + NS :=
  match value with
  | None => act p a [] ns
  | Some v => if bool_decide (v = [dash; dash]) then inl OddValue else act p a v ns
  end.

Fixpoint take_actions (l : list (A * option pystr)) (ns : NS) : CliExit + NS :=
  match l with
  | [] => inr ns
  | (a, v) :: l' => ns' ← take_action a v ns; take_actions l' ns'
  end.

(** The loop of [consume_optional] while the option carries text: [-hp8000] is [-h] and
    [-p 8000].  The actions, and the last one when it has to look for its argument further on. *)
Fixpoint consume_explicit (a : A) (option_string e : pystr) {struct e}
    : CliExit + (list (A * option pystr) * option A) :=
  if negb (flag p a) then inr ([(a, Some e)], None)
  else match e with
  | [] => inl usage_error
  | c :: e' =>
      if bool_decide (option_string !! 1%nat = Some dash) then inl usage_error
      else match find_option [dash; c] with
      | None => inl usage_error
      | Some a' =>
          match e' with
          | [] => inr ([(a, None)], Some a')
          | _ => '(l, last) ← consume_explicit a' [dash; c] e'; inr ((a, None) :: l, last)
          end
      end
  end.

(** An option without text takes the plain argument behind it. *)
Definition consume_next (a : A) (ts : list (token A)) : CliExit + (option pystr * list (token A)) :=
  if flag p a then inr (None, ts)
  else match ts with
       | TokA s :: ts' => inr (Some s, ts')
       | _ => inl usage_error
       end.

Definition consume_optional (found : A * pystr * option pystr) (ts : list (token A)) (ns : NS)
    : CliExit + (NS * list (token A)) :=
  let '(a, option_string, explicit_arg) := found in
  '(l, last) ← match explicit_arg with
               | Some e => consume_explicit a option_string e
               | None => inr ([], Some a)
               end;
  '(l, ts') ← match last with
              | None => inr (l, ts)
              | Some a' => '(v, ts') ← consume_next a' ts; inr (l ++ [(a', v)], ts')
              end;
  ns' ← take_actions l ns;
  inr (ns', ts').

(** The arguments from left to right.  [pending] is the positional while it is not filled, [extras]
    whether something was left over.  Each turn drops a token, so their number is fuel enough.
    Behind [--] the text of the positional may be [--] itself; a [--] next to it is skipped. *)
Fixpoint consume (fuel : nat) (pending : option (pystr → NS → NS)) (extras : bool)
    (ts : list (token A)) (ns : NS) : CliExit + (NS * bool * bool) :=
  match fuel, ts with
  | _, [] => inr (ns, bool_decide (is_Some pending), extras)
  | O, _ => inl usage_error
  | S fuel', TokO _ None :: ts' => consume fuel' pending true ts' ns
  | S fuel', TokO _ (Some found) :: ts' =>
      '(ns', ts'') ← consume_optional found ts' ns; consume fuel' pending extras ts'' ns'
  | S fuel', TokA s :: ts' =>
      match pending with
      | Some set_folder =>
          consume fuel' None extras (match ts' with TokEnd :: ts'' => ts'' | _ => ts' end) (set_folder s ns)
      | None => consume fuel' None true ts' ns
      end
  | S fuel', TokEnd :: ts' =>
      match pending, ts' with
      | Some set_folder, TokA s :: ts'' => consume fuel' None extras ts'' (set_folder s ns)
      | _, _ => consume fuel' pending true ts' ns
      end
  end.

(** [parse_args]; [missing] tells whether a required option has not been given. *)
Definition parse_args (missing : NS → bool) (ns : NS) (args : list pystr) : CliExit + NS :=
  ts ← classify args;
  '(ns', pending, extras) ← consume (length ts) (folder p) false ts ns;
  if pending || missing ns' then inl usage_error
  else if (extras : bool) then inl usage_error
  else inr ns'.

End argparse.

(** ** The parsers of the programs *)

Definition set_port (z : option Z) (a : LanArgs) : LanArgs :=
  {| la_folder := la_folder a; la_port := z; la_host := la_host a; la_password := la_password a;
     la_read_only := la_read_only a; la_receive := la_receive a |}.
Definition set_host (h : option pystr) (a : LanArgs) : LanArgs :=
  {| la_folder := la_folder a; la_port := la_port a; la_host := h; la_password := la_password a;
     la_read_only := la_read_only a; la_receive := la_receive a |}.
Definition set_password (w : option pystr) (a : LanArgs) : LanArgs :=
  {| la_folder := la_folder a; la_port := la_port a; la_host := la_host a; la_password := w;
     la_read_only := la_read_only a; la_receive := la_receive a |}.
Definition set_modes (read_only receive : bool) (a : LanArgs) : LanArgs :=
  {| la_folder := la_folder a; la_port := la_port a; la_host := la_host a; la_password := la_password a;
     la_read_only := read_only; la_receive := receive |}.
Definition set_folder (f : pystr) (a : LanArgs) : LanArgs :=
  {| la_folder := f; la_port := la_port a; la_host := la_host a; la_password := la_password a;
     la_read_only := la_read_only a; la_receive := la_receive a |}.

(** The namespace before the first argument.  The folder has no default: a parse that does not
    set it fails. *)
Definition no_lan_args : LanArgs :=
  {| la_folder := []; la_port := None; la_host := None; la_password := None;
     la_read_only := false; la_receive := false |}.

Inductive LanAction := LHelp | LPort | LHost | LPassword | LReadOnly | LReceive.

#[export] Instance LanAction_eq_dec : EqDecision LanAction.
Proof. solve_decision. Defined.

Section programs.
Context `{Digits}.

Definition lan_act (a : LanAction) (v : pystr) (ns : LanArgs) : CliExit + LanArgs :=
  match a with
  | LHelp => inl (SystemExit 0)
  | LPort => match arg_int v with Some z => inr (set_port (Some z) ns) | None => inl usage_error end
  | LHost => inr (set_host (Some v) ns)
  | LPassword => inr (set_password (Some v) ns)
  | LReadOnly => inr (set_modes true (la_receive ns) ns)
  | LReceive => inr (set_modes (la_read_only ns) true ns)
  end.

Definition _build_parser : Parser LanAction LanArgs :=
  {| opts := [(py "-h", LHelp); (py "--help", LHelp); (py "--port", LPort); (py "-p", LPort);
              (py "--host", LHost); (py "--password", LPassword); (py "--read-only", LReadOnly);
              (py "--receive", LReceive)];
     flag a := match a with LHelp | LReadOnly | LReceive => true | _ => false end;
     act := lan_act;
     folder := Some set_folder |}.

(** The namespace of the mount parser: its [server] is [None] until it is given. *)
Record MountNs := {
  mn_folder : pystr;
  mn_server : option pystr;
  mn_name : option pystr;
  mn_password : option pystr;
  mn_ttl_seconds : option Z;
  mn_login : option pystr;
  mn_password_stdin : bool;
  mn_access_mode : option pystr;
  mn_allow : list pystr
}.

Definition no_mount_args : MountNs :=
  {| mn_folder := []; mn_server := None; mn_name := None; mn_password := None; mn_ttl_seconds := None;
     mn_login := None; mn_password_stdin := false; mn_access_mode := None; mn_allow := [] |}.

Inductive MountAction :=
| MHelp | MServer | MName | MPassword | MTtl | MLogin | MPasswordStdin | MAccessMode | MAllow.

Definition mount_act (a : MountAction) (v : pystr) (ns : MountNs) : CliExit + MountNs :=
  let 'Build_MountNs fo se na pw tl lo st am al := ns in
  match a with
  | MHelp => inl (SystemExit 0)
  | MServer => inr (Build_MountNs fo (Some v) na pw tl lo st am al)
  | MName => inr (Build_MountNs fo se (Some v) pw tl lo st am al)
  | MPassword => inr (Build_MountNs fo se na (Some v) tl lo st am al)
  | MTtl => match parse_duration v with
            | Some z => inr (Build_MountNs fo se na pw (Some z) lo st am al)
            | None => inl usage_error
            end
  | MLogin => inr (Build_MountNs fo se na pw tl (Some v) st am al)
  | MPasswordStdin => inr (Build_MountNs fo se na pw tl lo true am al)
  | MAccessMode =>
      if bool_decide (v ∈ [py "open"; py "restricted"]) then inr (Build_MountNs fo se na pw tl lo st (Some v) al)
      else inl usage_error
  | MAllow => inr (Build_MountNs fo se na pw tl lo st am (al ++ [v]))
  end.

Definition mount_set_folder (f : pystr) (ns : MountNs) : MountNs :=
  let 'Build_MountNs _ se na pw tl lo st am al := ns in Build_MountNs f se na pw tl lo st am al.

Definition _build_mount_parser : Parser MountAction MountNs :=
  {| opts := [(py "-h", MHelp); (py "--help", MHelp); (py "--server", MServer); (py "--name", MName);
              (py "--password", MPassword); (py "--ttl", MTtl); (py "--login", MLogin);
              (py "--password-stdin", MPasswordStdin); (py "--access-mode", MAccessMode);
              (py "--allow", MAllow)];
     flag a := match a with MHelp | MPasswordStdin => true | _ => false end;
     act := mount_act;
     folder := Some mount_set_folder |}.

Definition _SUBCOMMANDS : list pystr := [py "mount"].

Inductive Command :=
| CommandLan (args : LanArgs)
| CommandMount (args : MountArgs) (password_stdin : bool).

Definition _parse_args (args_list : list pystr) : CliExit + Command :=
  match args_list with
  | c :: rest =>
      if bool_decide (c ∈ _SUBCOMMANDS) then
        ns ← parse_args _build_mount_parser (λ ns, bool_decide (mn_server ns = None)) no_mount_args rest;
        inr (CommandMount
          {| ma_folder := mn_folder ns; ma_server := default [] (mn_server ns); ma_name := mn_name ns;
             ma_password := mn_password ns; ma_ttl_seconds := mn_ttl_seconds ns; ma_login := mn_login ns;
             ma_access_mode := mn_access_mode ns; ma_allow := mn_allow ns |} (mn_password_stdin ns))
      else args ← parse_args _build_parser (λ _, false) no_lan_args args_list; inr (CommandLan args)
  | [] => args ← parse_args _build_parser (λ _, false) no_lan_args []; inr (CommandLan args)
  end.

(** ** The programs *)

Context (hashpw : bytes → bytes → bytes).

(** What a program comes to: it ends, or it runs. *)
Inductive Outcome :=
| ParserExit (e : CliExit)
| StartFailed (e : StartError)
| ServesLan (host : pystr) (port : Z) (config : AppConfig)
| RunsAgent (run : AgentRun).

(** [main] of the server.  [stdin_password] and [typed_password] are what [sys.stdin] and
    [getpass] give. *)
Definition main (salt : bytes) (t : fs) (cwd : path) (stdin_password typed_password : pystr)
    (args : list pystr) : Outcome :=
  match _parse_args args with
  | inl e => ParserExit e
  | inr (CommandMount a password_stdin) =>
      match run_mount hashpw salt t cwd (if (password_stdin : bool) then stdin_password else typed_password) a with
      | inl e => StartFailed e
      | inr r => RunsAgent r
      end
  | inr (CommandLan a) =>
      match run_lan_server hashpw salt t cwd a with
      | inl e => StartFailed e
      | inr (host, port, config) => ServesLan host port config
      end
  end.

Definition run_with_defaults (salt : bytes) (t : fs) (cwd : path) (stdin_password typed_password : pystr)
    (folder : pystr) : Outcome :=
  main salt t cwd stdin_password typed_password [folder].

(** *** The relay *)

Inductive RelayAction := RHelp | RHost | RPort.

Record RelayNs := { rn_host : option pystr; rn_port : option Z }.

Definition relay_parser : Parser RelayAction RelayNs :=
  {| opts := [(py "-h", RHelp); (py "--help", RHelp); (py "--host", RHost); (py "--port", RPort)];
     flag a := match a with RHelp => true | _ => false end;
     act a v ns := match a with
                   | RHelp => inl (SystemExit 0)
                   | RHost => inr {| rn_host := Some v; rn_port := rn_port ns |}
                   | RPort => match arg_int v with
                              | Some z => inr {| rn_host := rn_host ns; rn_port := Some z |}
                              | None => inl usage_error
                              end
                   end;
     folder := None |}.

Inductive RelayOutcome :=
| RelayParserExit (e : CliExit)
| RelayValueError
| RelayServes (env : RelayEnv) (host : pystr) (port : Z).

(** [main] of the relay, up to [uvicorn.run] *)
Definition relay_main (environ : gmap pystr pystr) (args : list pystr) : RelayOutcome :=
  match parse_args relay_parser (λ _, false) {| rn_host := None; rn_port := None |} args with
  | inl e => RelayParserExit e
  | inr ns =>
      let host := default (py "0.0.0.0") (rn_host ns) in
      match arg_int (default (py "8001") (environ !! py "PORT")) with
      | None => RelayValueError
      | Some port_default =>
          let port := default port_default (rn_port ns) in
          match relay_env (JStr (default (py "development") (environ !! py "RELAY_ENV"))) with
          | inl _ => RelayValueError
          | inr env => RelayServes env host port
          end
      end
  end.

End programs.
