(* ===== verification/CliProps.v ===== *)
(** What the command lines mean: the options in any order and spelling, the folder at any
    place among them, and the start of the programs with what was read. *)

From stdpp Require Import strings.
From S2P Require Import Prelude Utf8 Json Accounts Identity Files FilesProps Agent Storage Proxy Config Start StartProps Cli.

Local Open Scope Z_scope.

(** ** Lists of arguments *)

Lemma split_equals_app o e : equals ∉ o → split_equals (o ++ equals :: e) = Some (o, e).
Proof.
  induction o as [|c o IH]; intros Ho; cbn [app split_equals]; [done|].
  apply not_elem_of_cons in Ho as [Hc Ho]. rewrite (proj2 (Z.eqb_neq c equals)) by congruence. by rewrite IH.
Qed.

(** The text of a folder or of a value that is not taken for an option. *)
Definition plain (s : pystr) : Prop := head s ≠ Some dash.

#[export] Instance plain_dec s : Decision (plain s).
Proof. unfold plain. solve_decision. Defined.

(** An option as it may be written: a flag, a value behind an equals sign, a value of its own. *)
Inductive word (A : Type) :=
| WFlag (o : pystr) (a : A)
| WEq (o : pystr) (a : A) (v : pystr)
| WSep (o : pystr) (a : A) (v : pystr).
Arguments WFlag {A} _ _.
Arguments WEq {A} _ _ _.
Arguments WSep {A} _ _ _.

Definition word_args {A} (w : word A) : list pystr :=
  match w with
  | WFlag o _ => [o]
  | WEq o _ v => [o ++ equals :: v]
  | WSep o _ v => [o; v]
  end.

Definition word_action {A} (w : word A) : A :=
  match w with WFlag _ a | WEq _ a _ | WSep _ a _ => a end.

Definition word_tokens {A} (w : word A) : list (token A) :=
  match w with
  | WFlag o a => [TokO o (Some (a, o, None))]
  | WEq o a v => [TokO (o ++ equals :: v) (Some (a, o, Some v))]
  | WSep o a v => [TokO o (Some (a, o, None)); TokA v]
  end.

Section words.
Context `{Digits} {A NS : Type} (p : Parser A NS).
Implicit Types ts : list (token A).
Implicit Types ws : list (word A).

(** The table of options has dashes in front, no equals signs, and not the mark [--]. *)
Definition table_ok : Prop :=
  Forall (λ o, head o.1 = Some dash ∧ equals ∉ o.1 ∧ o.1 ≠ [dash; dash]) (opts p).

(** The word names an option of the table and gives it an argument when it takes one. *)
Definition word_ok (w : word A) : Prop :=
  match w with
  | WFlag o a => find_option p o = Some a ∧ flag p a = true
  | WEq o a v => find_option p o = Some a ∧ flag p a = false ∧ v ≠ [dash; dash]
  | WSep o a v => find_option p o = Some a ∧ flag p a = false ∧ plain v
  end.

Definition do_word (w : word A) (ns : NS) : CliExit + NS :=
  match w with
  | WFlag _ a => act p a [] ns
  | WEq _ a v | WSep _ a v => act p a v ns
  end.

(** The options one after the other: a later one overrides. *)
Fixpoint do_words ws (ns : NS) : CliExit + NS :=
  match ws with
  | [] => inr ns
  | w :: ws' => ns' ← do_word w ns; do_words ws' ns'
  end.

Lemma find_option_in o a : find_option p o = Some a → (o, a) ∈ opts p.
Proof.
  unfold find_option. destruct (List.find _ (opts p)) as [[o' a']|] eqn:E; [|done]. intros [= <-].
  apply find_some in E as [Hin He]. cbn in He. apply bool_decide_eq_true in He as ->. by apply list_elem_of_In.
Qed.

Context (Hok : table_ok).

Lemma find_option_ok o a :
  find_option p o = Some a → head o = Some dash ∧ equals ∉ o ∧ o ≠ [dash; dash].
Proof.
  intros Hf%find_option_in. unfold table_ok in Hok. rewrite Forall_forall in Hok.
  apply (Hok _ Hf).
Qed.

Lemma parse_optional_plain s : plain s → _parse_optional p s = inr (TokA s).
Proof.
  destruct s as [|c s]; [done|]. unfold plain. cbn. intros Hc. by rewrite (proj2 (Z.eqb_neq c dash)) by congruence.
Qed.

Lemma parse_optional_exact o a :
  find_option p o = Some a → _parse_optional p o = inr (TokO o (Some (a, o, None))).
Proof.
  intros Hf. pose proof (find_option_ok _ _ Hf) as (Hd & _ & _). destruct o as [|c o]; [done|].
  injection Hd as ->. unfold _parse_optional. by rewrite Hf.
Qed.

Lemma parse_optional_eq o a v :
  find_option p o = Some a →
  _parse_optional p (o ++ equals :: v) = inr (TokO (o ++ equals :: v) (Some (a, o, Some v))).
Proof.
  intros Hf. pose proof (find_option_ok _ _ Hf) as (Hd & He & _). destruct o as [|c o]; [done|]. injection Hd as ->.
  unfold _parse_optional. cbn [app]. rewrite Z.eqb_refl. cbn [negb].
  destruct (find_option p (dash :: o ++ equals :: v)) as [a'|] eqn:E.
  - apply find_option_ok in E as (_ & E & _). exfalso. apply E. set_solver.
  - rewrite bool_decide_eq_false_2 by by destruct o.
    change (dash :: o ++ equals :: v) with ((dash :: o) ++ equals :: v). rewrite split_equals_app by done.
    cbn [mbind option_bind]. by rewrite Hf.
Qed.

(** ** The first pass *)

Lemma classify_cons s t args :
  s ≠ [dash; dash] → _parse_optional p s = inr t →
  classify p (s :: args) = (ts ← classify p args; inr (t :: ts)).
Proof. intros Hs Ht. cbn [classify]. by rewrite bool_decide_eq_false_2, Ht. Qed.

Lemma classify_plain s args :
  plain s → classify p (s :: args) = (ts ← classify p args; inr (TokA s :: ts)).
Proof. intros Hs. apply classify_cons; [by intros ->|by apply parse_optional_plain]. Qed.

Lemma classify_word w args :
  word_ok w → classify p (word_args w ++ args) = (ts ← classify p args; inr (word_tokens w ++ ts)).
Proof.
  destruct w as [o a|o a v|o a v]; cbn [word_args word_tokens app].
  - intros [Hf _]. apply classify_cons; [by apply (find_option_ok _ _ Hf)|by apply parse_optional_exact].
  - intros [Hf _]. apply classify_cons; [|by apply parse_optional_eq].
    intros E. assert (equals ∈ [dash; dash]) as Hin by (rewrite <-E; set_solver).
    apply list_elem_of_In in Hin. cbn in Hin. unfold equals, dash in Hin. lia.
  - intros (Hf & _ & Hv).
    rewrite (classify_cons _ (TokO o (Some (a, o, None))));
      [|by apply (find_option_ok _ _ Hf)|by apply parse_optional_exact].
    rewrite classify_plain by done. by destruct (classify p args).
Qed.

Lemma classify_words ws args :
  Forall word_ok ws →
  classify p (mbind word_args ws ++ args) = (ts ← classify p args; inr (mbind word_tokens ws ++ ts)).
Proof.
  induction 1 as [|w ws Hw Hws IH]; [cbn [mbind list_bind app]; by destruct (classify p args)|].
  rewrite !bind_cons, <-(assoc_L (++)), classify_word, IH by done.
  destruct (classify p args); [done|]. cbn [mbind sum_bind]. by rewrite <-(assoc_L (++)).
Qed.

(** ** The second pass *)

Lemma consume_next_length a ts v ts' :
  consume_next p a ts = inr (v, ts') → (length ts' ≤ length ts)%nat.
Proof.
  unfold consume_next. destruct (flag p a); [by intros [= _ <-]|].
  destruct ts as [|[] ts]; try done. intros [= _ <-]. cbn. lia.
Qed.

Lemma consume_optional_length found ts ns ns' ts' :
  consume_optional p found ts ns = inr (ns', ts') → (length ts' ≤ length ts)%nat.
Proof.
  destruct found as [[a o] e]. unfold consume_optional.
  destruct (match e with Some _ => _ | None => _ end) as [|[l [a'|]]]; cbn [mbind sum_bind]; [done| |].
  - destruct (consume_next p a' ts) as [|[v ts1]] eqn:E; cbn [mbind sum_bind]; [done|].
    destruct (take_actions _ _ _); cbn [mbind sum_bind]; [done|]. intros [= _ <-]. by eapply consume_next_length.
  - destruct (take_actions _ _ _); cbn [mbind sum_bind]; [done|]. by intros [= _ <-].
Qed.

(** The number of tokens is fuel enough. *)
Lemma consume_fuel n : ∀ m pending extras ts ns,
  (length ts ≤ n)%nat → (length ts ≤ m)%nat → consume p n pending extras ts ns = consume p m pending extras ts ns.
Proof.
  induction n as [|n IH]; intros m pending extras ts ns Hn Hm.
  - destruct ts; [by destruct m|]. cbn in Hn. lia.
  - destruct ts as [|tk ts]; [by destruct m|]. destruct m as [|m]; [cbn in Hm; lia|]. cbn in Hn, Hm.
    destruct tk as [s [found|]|s|]; cbn [consume].
    + destruct (consume_optional p found ts ns) as [|[ns' ts']] eqn:E; cbn [mbind sum_bind]; [done|].
      apply consume_optional_length in E. apply IH; lia.
    + apply IH; lia.
    + destruct pending; [|apply IH; lia]. apply IH; destruct ts as [|[] ?]; cbn in *; lia.
    + destruct pending; [|apply IH; lia]. destruct ts as [|[] ?]; apply IH; cbn in *; lia.
Qed.

Lemma consume_word n pending extras w ts ns :
  word_ok w → (length (word_tokens w ++ ts) ≤ n)%nat →
  consume p n pending extras (word_tokens w ++ ts) ns
    = (ns' ← do_word w ns; consume p (length ts) pending extras ts ns').
Proof.
  intros Hw Hn. destruct n as [|n]; [destruct w; cbn in Hn; lia|].
  destruct w as [o a|o a v|o a v]; cbn in Hn; cbn [word_tokens app consume do_word]; unfold consume_optional.
  - destruct Hw as [_ Hf]. cbn [mbind sum_bind]. unfold consume_next. rewrite Hf. cbn [mbind sum_bind app take_actions].
    unfold take_action. destruct (act p a [] ns); cbn [mbind sum_bind]; [done|]. apply consume_fuel; lia.
  - destruct Hw as (_ & Hf & Hv).
    assert (consume_explicit p a o v = inr ([(a, Some v)], None)) as -> by (destruct v; cbn [consume_explicit]; by rewrite Hf).
    cbn [mbind sum_bind app take_actions]. unfold take_action. rewrite bool_decide_eq_false_2 by done.
    destruct (act p a v ns); cbn [mbind sum_bind]; [done|]. apply consume_fuel; lia.
  - destruct Hw as (_ & Hf & Hv). cbn [mbind sum_bind]. unfold consume_next. rewrite Hf.
    cbn [mbind sum_bind app take_actions]. unfold take_action. rewrite bool_decide_eq_false_2 by (intros ->; done).
    destruct (act p a v ns); cbn [mbind sum_bind]; [done|]. apply consume_fuel; lia.
Qed.

Lemma consume_words ws : ∀ n pending extras ts ns,
  Forall word_ok ws → (length (mbind word_tokens ws ++ ts) ≤ n)%nat →
  consume p n pending extras (mbind word_tokens ws ++ ts) ns
    = (ns' ← do_words ws ns; consume p (length ts) pending extras ts ns').
Proof.
  induction ws as [|w ws IH]; intros n pending extras ts ns Hws Hn.
  - cbn in *. by apply consume_fuel.
  - apply Forall_cons in Hws as [Hw Hws]. rewrite !bind_cons, <-(assoc_L (++)) in *.
    rewrite consume_word by done. cbn [do_words]. destruct (do_word w ns); cbn [mbind sum_bind]; [done|].
    by apply IH.
Qed.

Lemma do_words_app ws1 ws2 ns : do_words (ws1 ++ ws2) ns = (ns' ← do_words ws1 ns; do_words ws2 ns').
Proof.
  revert ns. induction ws1 as [|w ws1 IH]; intros ns; [done|]. cbn [app do_words].
  destruct (do_word w ns); cbn [mbind sum_bind]; [done|apply IH].
Qed.

Lemma do_words_two w1 w2 ws ns :
  do_words (w1 :: w2 :: ws) ns = (ns'' ← (ns' ← do_word w1 ns; do_word w2 ns'); do_words ws ns'').
Proof. cbn [do_words]. by destruct (do_word w1 ns). Qed.

(** Actions on different attributes may be swapped. *)
Lemma do_words_perm (free : A → Prop) ws1 ws2 ns :
  (∀ a b v w ns, free a → free b → a ≠ b →
     (ns' ← act p a v ns; act p b w ns') = (ns' ← act p b w ns; act p a v ns')) →
  ws1 ≡ₚ ws2 → NoDup (word_action <$> ws1) → Forall (λ w, free (word_action w)) ws1 →
  do_words ws1 ns = do_words ws2 ns.
Proof.
  intros Hc Hp. revert ns. induction Hp as [|w ws1 ws2 Hp IH|w1 w2 ws|ws1 ws2 ws3 Hp1 IH1 Hp2 IH2]; intros ns Hn Hf.
  - done.
  - cbn [fmap list_fmap] in Hn. apply NoDup_cons in Hn as [_ Hn]. apply Forall_cons in Hf as [_ Hf].
    cbn [do_words]. destruct (do_word w ns); cbn [mbind sum_bind]; [done|by apply IH].
  - cbn [fmap list_fmap] in Hn. apply NoDup_cons in Hn as [Hn _]. apply not_elem_of_cons in Hn as [Hn _].
    apply Forall_cons in Hf as [H1 [H2 _]%Forall_cons].
    assert ((ns' ← do_word w2 ns; do_word w1 ns') = (ns' ← do_word w1 ns; do_word w2 ns')) as E
      by (destruct w1, w2; by apply Hc).
    by rewrite !do_words_two, E.
  - rewrite IH1 by done. apply IH2; [by rewrite <-Hp1|by rewrite <-Hp1].
Qed.

(** ** Whole command lines *)

Lemma parse_words_bare missing ns ws :
  folder p = None → Forall word_ok ws →
  parse_args p missing ns (mbind word_args ws)
    = (ns' ← do_words ws ns; if missing ns' then inl usage_error else inr ns').
Proof.
  intros Hf Hws. unfold parse_args. rewrite <-(app_nil_r (mbind word_args ws)), classify_words by done.
  cbn [classify mbind sum_bind]. rewrite consume_words, Hf by done.
  destruct (do_words ws ns) as [|ns']; cbn [mbind sum_bind consume length]; [done|]. by destruct (missing ns').
Qed.

Context (set : pystr → NS → NS) (Hfolder : folder p = Some set).
Context (Hset : ∀ a v f ns, act p a v (set f ns) = (ns' ← act p a v ns; inr (set f ns'))).

Lemma do_words_set f ws ns : do_words ws (set f ns) = (ns' ← do_words ws ns; inr (set f ns')).
Proof.
  revert ns. induction ws as [|w ws IH]; intros ns; [done|]. cbn [do_words].
  assert (do_word w (set f ns) = (ns' ← do_word w ns; inr (set f ns'))) as -> by (destruct w; apply Hset).
  destruct (do_word w ns); cbn [mbind sum_bind]; [done|apply IH].
Qed.

(** Options in any order, the folder anywhere among them. *)
Lemma parse_words missing ns ws1 f ws2 :
  plain f → Forall word_ok (ws1 ++ ws2) →
  parse_args p missing ns (mbind word_args ws1 ++ f :: mbind word_args ws2)
    = (ns' ← do_words (ws1 ++ ws2) ns; if missing (set f ns') then inl usage_error else inr (set f ns')).
Proof.
  intros Hf [Hw1 Hw2]%Forall_app. unfold parse_args. rewrite classify_words, classify_plain by done.
  rewrite <-(app_nil_r (mbind word_args ws2)), classify_words by done. cbn [classify mbind sum_bind].
  rewrite consume_words, Hfolder, do_words_app by done.
  destruct (do_words ws1 ns) as [|ns1]; cbn [mbind sum_bind]; [done|].
  assert (∀ ts, match mbind word_tokens ws2 ++ ts with TokEnd :: ts'' => ts'' | _ => mbind word_tokens ws2 ++ ts end
    = match ws2 with [] => match ts with TokEnd :: ts'' => ts'' | _ => ts end | _ => mbind word_tokens ws2 ++ ts end) as Hm.
  { intros ts. by destruct ws2 as [|[] ?]. }
  cbn [length consume]. rewrite Hm.
  replace (match ws2 with [] => [] | _ => mbind word_tokens ws2 ++ [] end) with (mbind word_tokens ws2 ++ [] : list (token A))
    by by destruct ws2.
  rewrite consume_words, do_words_set by done.
  destruct (do_words ws2 ns1) as [|ns2]; cbn [mbind sum_bind length consume]; [done|].
  by destruct (missing (set f ns2)).
Qed.

End words.

(** ** Numbers *)

Lemma strip_if_none f s : forallb (λ c, negb (f c)) s = true → strip_if f s = s.
Proof.
  intros Hs. assert (∀ s, forallb (λ c, negb (f c)) s = true → lstrip_if f s = s) as Hl.
  { intros t Ht. apply lstrip_if_nop. intros c u ->. cbn in Ht. by apply andb_true_iff in Ht as [?%negb_true_iff _]. }
  unfold strip_if, rstrip_if. rewrite (Hl s), (Hl (reverse s)) by
    (done || (rewrite forallb_forall in *; intros c Hc; apply Hs, list_elem_of_In; apply list_elem_of_In in Hc; set_solver)).
  apply reverse_involutive.
Qed.

Lemma digit_not_space c : is_digit c = true → negb (int_space c) = true.
Proof.
  unfold is_digit, int_space, is_space. intros Hc. bool_prop. apply negb_true_iff. apply andb_false_iff. left.
  repeat (apply orb_false_iff; split); try apply andb_false_iff; rewrite ?Z.leb_gt, ?Z.eqb_neq; lia.
Qed.

Section programs.
Context `{Digits}.

Lemma uint_digits_ascii ds :
  ds ≠ [] → forallb is_digit ds = true → uint_digits ds = Some ((λ c, c - 48) <$> ds).
Proof.
  induction ds as [|c ds IH]; [done|]. intros _. cbn [forallb]. intros [Hc Hd]%andb_true_iff.
  destruct ds as [|u ds]; [by cbn; rewrite udigit_ascii|].
  change (uint_digits (c :: u :: ds)) with
    (d ← udigit c; ds' ← (if u =? 95 then uint_digits ds else uint_digits (u :: ds)); Some (d :: ds')).
  rewrite (udigit_ascii c), (proj2 (Z.eqb_neq u 95)), IH; try done.
  - cbn [forallb] in Hd. apply andb_true_iff in Hd as [Hu _]. unfold is_digit in Hu. bool_prop. lia.
Qed.

Lemma arg_unsigned_ascii ds :
  ds ≠ [] → forallb is_digit ds = true → (length ds ≤ MAX_STR_DIGITS)%nat →
  arg_unsigned ds = Some (digits_value ds).
Proof.
  intros Hne Hd Hl. unfold arg_unsigned. rewrite uint_digits_ascii by done. cbn [mbind option_bind].
  rewrite length_fmap, udigits_value_ascii. destruct (Nat.ltb_spec MAX_STR_DIGITS (length ds)); [lia|done].
Qed.

Lemma arg_int_dump z : Z.abs z < 10 ^ Z.of_nat MAX_STR_DIGITS → arg_int (dump_int z) = Some z.
Proof.
  intros Hz. destruct (dump_nat_spec (Z.abs z)) as (c & r & E & Hd & Hv & _ & Hl); [lia|]. specialize (Hl Hz).
  assert (forallb (λ c, negb (int_space c)) (c :: r) = true) as Hs.
  { rewrite forallb_forall in *. intros d Hin. by apply digit_not_space, Hd. }
  assert (arg_unsigned (c :: r) = Some (Z.abs z)) as Hu by by rewrite arg_unsigned_ascii, Hv.
  unfold dump_int. destruct (Z.ltb_spec z 0).
  - replace (- z) with (Z.abs z) by lia. rewrite E. unfold arg_int.
    rewrite (strip_if_none int_space (45 :: c :: r)) by exact Hs. rewrite Z.eqb_refl, Hu. cbn. f_equal. lia.
  - rewrite <-(Z.abs_eq z), E by done. unfold arg_int. rewrite strip_if_none by done.
    assert (48 ≤ c ≤ 57) by (cbn in Hd; apply andb_true_iff in Hd as [Hd _]; unfold is_digit in Hd; bool_prop; lia).
    rewrite (proj2 (Z.eqb_neq c dash)), (proj2 (Z.eqb_neq c 43)) by (unfold dash; lia). exact Hu.
Qed.

(** ** The command line of the server *)

Lemma lan_table : table_ok _build_parser.
Proof. apply (bool_decide_unpack _). vm_compute. exact I. Qed.

Lemma mount_table : table_ok _build_mount_parser.
Proof. apply (bool_decide_unpack _). vm_compute. exact I. Qed.

Lemma relay_table : table_ok relay_parser.
Proof. apply (bool_decide_unpack _). vm_compute. exact I. Qed.

Lemma lan_set a v f ns :
  lan_act a v (set_folder f ns) = (ns' ← lan_act a v ns; inr (set_folder f ns')).
Proof. destruct a; try done. cbn [lan_act]. by destruct (arg_int v). Qed.

Lemma mount_set a v f ns :
  mount_act a v (mount_set_folder f ns) = (ns' ← mount_act a v ns; inr (mount_set_folder f ns')).
Proof.
  destruct ns, a; try done; cbn [mount_act mount_set_folder];
    [by destruct (parse_duration v)|by destruct (bool_decide _)].
Qed.

(** The options of a namespace, each with an equals sign. *)
Definition opt_word {A B} (o : pystr) (a : A) (show : B → pystr) (x : option B) : list (word A) :=
  match x with Some v => [WEq o a (show v)] | None => [] end.
Definition flag_word {A} (o : pystr) (a : A) (b : bool) : list (word A) := if b then [WFlag o a] else [].

Definition lan_words (a : LanArgs) : list (word LanAction) :=
  opt_word (py "--port") LPort dump_int (la_port a) ++ opt_word (py "--host") LHost id (la_host a)
  ++ opt_word (py "--password") LPassword id (la_password a)
  ++ flag_word (py "--read-only") LReadOnly (la_read_only a) ++ flag_word (py "--receive") LReceive (la_receive a).

(** A number that [int] reads, and texts that are not [--]. *)
Definition number_ok (z : Z) : Prop := Z.abs z < 10 ^ Z.of_nat MAX_STR_DIGITS.
Definition text_ok (s : pystr) : Prop := s ≠ [dash; dash].

Definition lan_values_ok (a : LanArgs) : Prop :=
  from_option number_ok True (la_port a) ∧ from_option text_ok True (la_host a) ∧
  from_option text_ok True (la_password a).

Lemma dump_int_text z : text_ok (dump_int z).
Proof.
  unfold text_ok, dump_int. destruct (dump_nat_spec (Z.abs z)) as (c & r & E & Hd & _); [lia|].
  assert (48 ≤ c ≤ 57) by (cbn in Hd; apply andb_true_iff in Hd as [Hd _]; unfold is_digit in Hd; bool_prop; lia).
  destruct (Z.ltb_spec z 0).
  - replace (- z) with (Z.abs z) by lia. rewrite E. unfold dash. intros [= ? _]. lia.
  - rewrite <-(Z.abs_eq z), E by done. unfold dash. intros [= ? _]. lia.
Qed.

Lemma lan_words_ok a : lan_values_ok a → Forall (word_ok _build_parser) (lan_words a).
Proof.
  intros (H1 & H2 & H3). unfold lan_words, opt_word, flag_word. repeat (apply Forall_app; split).
  - destruct (la_port a); [|done]. apply Forall_singleton. split_and!; [done..|]. apply dump_int_text.
  - destruct (la_host a); [|done]. by apply Forall_singleton.
  - destruct (la_password a); [|done]. by apply Forall_singleton.
  - destruct (la_read_only a); [|done]. by apply Forall_singleton.
  - destruct (la_receive a); [|done]. by apply Forall_singleton.
Qed.

Lemma lan_words_do a :
  lan_values_ok a → do_words _build_parser (lan_words a) no_lan_args = inr (set_folder [] a).
Proof.
  intros (Hp & _ & _). destruct a as [f [z|] [h|] [w|] [] []]; cbn in Hp;
    unfold lan_words, opt_word, flag_word; cbn -[arg_int dump_int py]; rewrite ?arg_int_dump by done; done.
Qed.

Lemma lan_commutes a b v w ns :
  a ≠ LHelp → b ≠ LHelp → a ≠ b →
  (ns' ← lan_act a v ns; lan_act b w ns') = (ns' ← lan_act b w ns; lan_act a v ns').
Proof. intros ? ? ?. destruct a, b; try done; cbn [lan_act]; repeat case_match; done. Qed.

Lemma lan_words_nodup a : NoDup (word_action <$> lan_words a) ∧ Forall (λ w, word_action w ≠ LHelp) (lan_words a).
Proof.
  destruct a as [f [] [] [] [] []]; unfold lan_words, opt_word, flag_word;
    cbn -[py dump_int]; (split; [apply (bool_decide_unpack _); vm_compute; exact I|]);
    repeat (apply Forall_cons; split; [done|]); by apply Forall_nil.
Qed.

(** A command line whose first argument is not the subcommand. *)
Lemma parse_args_lan args :
  head args ≠ Some (py "mount") →
  _parse_args args = (ns ← parse_args _build_parser (λ _, false) no_lan_args args; inr (CommandLan ns)).
Proof.
  destruct args as [|c args]; [done|]. intros Hc. unfold _parse_args. rewrite bool_decide_eq_false_2; [done|].
  unfold _SUBCOMMANDS. intros ->%list_elem_of_singleton. done.
Qed.

Lemma word_head p w : table_ok (A:=LanAction) (NS:=LanArgs) p → word_ok p w →
  ∃ o l, word_args w = (dash :: o) :: l.
Proof.
  intros Ht Hw. assert (∃ o a, find_option p o = Some a ∧ (word_args w = [o] ∨ ∃ v, word_args w = [o ++ equals :: v] ∨ word_args w = [o; v]))
    as (o & a & Hf & Ho) by (destruct w; destruct Hw as [Hf _]; eauto 10).
  destruct (find_option_ok p Ht _ _ Hf) as (Hd & _). destruct o as [|c o]; [done|]. injection Hd as ->.
  destruct Ho as [->|(v & [->| ->])]; eauto.
Qed.

(** The order of the options does not matter, nor the place of the folder among them. *)
Lemma lan_roundtrip a ws1 ws2 :
  plain (la_folder a) → la_folder a ≠ py "mount" → lan_values_ok a → ws1 ++ ws2 ≡ₚ lan_words a →
  _parse_args (mbind word_args ws1 ++ la_folder a :: mbind word_args ws2) = inr (CommandLan a).
Proof.
  intros Hf Hm Hv Hp. pose proof (lan_words_ok a Hv) as Hok. rewrite <-Hp in Hok.
  destruct (lan_words_nodup a) as [Hn Hfree].
  rewrite parse_args_lan.
  - rewrite (parse_words _build_parser lan_table set_folder eq_refl lan_set) by done.
    rewrite <-(do_words_perm _build_parser (λ a, a ≠ LHelp) (lan_words a)), lan_words_do;
      [by destruct a|done|apply lan_commutes|by symmetry|done|done].
  - destruct ws1 as [|w ws1]; [cbn [mbind list_bind app head]; congruence|].
    apply Forall_app in Hok as [[Hw _]%Forall_cons _].
    destruct (word_head _ _ lan_table Hw) as (o & l & E). rewrite bind_cons, E. done.
Qed.

(** *** The mount command *)

Definition mount_words (m : MountArgs) (password_stdin : bool) : list (word MountAction) :=
  opt_word (py "--server") MServer id (Some (ma_server m)) ++ opt_word (py "--name") MName id (ma_name m)
  ++ opt_word (py "--password") MPassword id (ma_password m)
  ++ opt_word (py "--ttl") MTtl (λ z, dump_int z ++ py "s") (ma_ttl_seconds m)
  ++ opt_word (py "--login") MLogin id (ma_login m)
  ++ flag_word (py "--password-stdin") MPasswordStdin password_stdin
  ++ opt_word (py "--access-mode") MAccessMode id (ma_access_mode m)
  ++ (WEq (py "--allow") MAllow <$> ma_allow m).

Definition mount_values_ok (m : MountArgs) : Prop :=
  Forall text_ok (ma_server m :: option_list (ma_name m) ++ option_list (ma_password m) ++ option_list (ma_login m)
                  ++ ma_allow m) ∧
  from_option (λ z, 0 ≤ z ∧ number_ok z) True (ma_ttl_seconds m) ∧
  from_option (λ s, s ∈ [py "open"; py "restricted"]) True (ma_access_mode m).

Lemma mount_words_ok m b : mount_values_ok m → Forall (word_ok _build_mount_parser) (mount_words m b).
Proof.
  intros (H1 & H2 & H3). rewrite Forall_cons, !Forall_app in H1. destruct H1 as (Hs & Hna & Hpw & Hlo & Hal).
  assert (∀ o a x, find_option _build_mount_parser o = Some a → flag _build_mount_parser a = false →
    Forall text_ok (option_list x) → Forall (word_ok _build_mount_parser) (opt_word o a id x)) as Ht.
  { intros o a [x|] Ho Hfl; [|by constructor]. cbn [option_list].
    intros [Hx _]%Forall_cons. apply Forall_singleton. by split_and!. }
  unfold mount_words. repeat (apply Forall_app; split).
  - by apply (Ht _ _ (Some _)); [..|apply Forall_singleton].
  - by apply Ht.
  - by apply Ht.
  - destruct (ma_ttl_seconds m) as [z|]; [|by constructor]. apply Forall_singleton. split_and!; [done..|].
    change (dump_int z ++ [115] ≠ [dash; dash]). intros E. apply (f_equal last) in E. by rewrite last_snoc in E.
  - by apply Ht.
  - destruct b; [|by constructor]. by apply Forall_singleton.
  - apply Ht; [done..|]. destruct (ma_access_mode m); [|by constructor]. apply Forall_singleton. intros ->.
    cbn [from_option] in H3. by apply (bool_decide_pack _) in H3.
  - apply Forall_fmap. eapply Forall_impl; [exact Hal|]. done.
Qed.

Lemma parse_seconds z :
  0 ≤ z → number_ok z → parse_duration (dump_int z ++ py "s") = Some z.
Proof.
  intros Hz Hn. unfold dump_int. destruct (Z.ltb_spec z 0); [lia|].
  destruct (dump_nat_spec z) as (c & r & -> & Hd & Hv & _ & Hl); [done|].
  unfold number_ok in Hn. rewrite Z.abs_eq in Hn by done.
  destruct (parse_duration_ascii (c :: r) 115 1) as [E _]; [done|done|by apply Hl|done|].
  change (py "s") with [115]. rewrite E, Hv. f_equal. lia.
Qed.

Lemma allow_words_do al : ∀ fo se na pw tl lo st am al',
  do_words _build_mount_parser (WEq (py "--allow") MAllow <$> al) (Build_MountNs fo se na pw tl lo st am al')
    = inr (Build_MountNs fo se na pw tl lo st am (al' ++ al)).
Proof.
  induction al as [|v al IH]; intros; [by rewrite app_nil_r|].
  rewrite fmap_cons. cbn [do_words do_word act _build_mount_parser mount_act mbind sum_bind].
  rewrite IH. by rewrite <-(assoc_L (++)).
Qed.

(** The namespace that the words of a mount leave. *)
Definition mount_ns (m : MountArgs) (password_stdin : bool) : MountNs :=
  {| mn_folder := []; mn_server := Some (ma_server m); mn_name := ma_name m; mn_password := ma_password m;
     mn_ttl_seconds := ma_ttl_seconds m; mn_login := ma_login m; mn_password_stdin := password_stdin;
     mn_access_mode := ma_access_mode m; mn_allow := ma_allow m |}.

Lemma mount_words_do m b :
  mount_values_ok m → do_words _build_mount_parser (mount_words m b) no_mount_args = inr (mount_ns m b).
Proof.
  intros (_ & Ht & Ha). unfold mount_words. destruct m as [fo se na pw tl lo am al].
  cbn [ma_server ma_name ma_password ma_ttl_seconds ma_login ma_access_mode ma_allow] in *.
  rewrite !(assoc_L (++)), do_words_app, <-!(assoc_L (++)).
  assert (do_words _build_mount_parser
    (opt_word (py "--server") MServer id (Some se) ++ opt_word (py "--name") MName id na
     ++ opt_word (py "--password") MPassword id pw ++ opt_word (py "--ttl") MTtl (λ z, dump_int z ++ py "s") tl
     ++ opt_word (py "--login") MLogin id lo ++ flag_word (py "--password-stdin") MPasswordStdin b
     ++ opt_word (py "--access-mode") MAccessMode id am) no_mount_args
    = inr (Build_MountNs [] (Some se) na pw tl lo b am [])) as ->.
  { destruct na, pw, tl as [z|], lo, b, am as [mode|];
      cbn [from_option] in Ht, Ha; unfold opt_word, flag_word, id, no_mount_args;
      cbn [app do_words do_word act _build_mount_parser mount_act mbind sum_bind];
      rewrite ?parse_seconds by tauto;
      cbn [app do_words do_word act _build_mount_parser mount_act mbind sum_bind];
      rewrite ?bool_decide_eq_true_2 by done; done. }
  cbn [mbind sum_bind]. by rewrite allow_words_do.
Qed.

Lemma mount_roundtrip m b ws1 ws2 :
  plain (ma_folder m) → mount_values_ok m → ws1 ++ ws2 = mount_words m b →
  _parse_args (py "mount" :: mbind word_args ws1 ++ ma_folder m :: mbind word_args ws2) = inr (CommandMount m b).
Proof.
  intros Hf Hv Hw. unfold _parse_args. rewrite bool_decide_eq_true_2 by (unfold _SUBCOMMANDS; by apply list_elem_of_singleton).
  rewrite (parse_words _build_mount_parser mount_table mount_set_folder eq_refl mount_set) by (rewrite ?Hw; auto using mount_words_ok).
  rewrite Hw, mount_words_do by done. by destruct m.
Qed.

(** What the two forms of the command line say is what is read.  For the server, the options
    may come in any order and the folder at any place among them; for a mount, the folder at
    any place among the options, and the entries of the allowlist keep their order. *)
Theorem command_line_roundtrip a m password_stdin ws1 ws2 ms1 ms2 :
  plain (la_folder a) → la_folder a ≠ py "mount" → lan_values_ok a → ws1 ++ ws2 ≡ₚ lan_words a →
  plain (ma_folder m) → mount_values_ok m → ms1 ++ ms2 = mount_words m password_stdin →
  _parse_args (mbind word_args ws1 ++ la_folder a :: mbind word_args ws2) = inr (CommandLan a) ∧
  _parse_args (py "mount" :: mbind word_args ms1 ++ ma_folder m :: mbind word_args ms2)
    = inr (CommandMount m password_stdin).
Proof. intros. split; [by apply lan_roundtrip|by apply mount_roundtrip]. Qed.

(** ** Starting *)

Context (hashpw : bytes → bytes → bytes).

(** [run_with_defaults] serves the folder it is given, on port 8000 of all interfaces, except for
    one called [mount], which is read as the subcommand whatever is on the disk. *)
Theorem run_with_defaults_spec salt t cwd sp tp f :
  plain f →
  run_with_defaults hashpw salt t cwd sp tp f
    = if bool_decide (f = py "mount") then ParserExit (SystemExit 2)
      else match run_lan_server hashpw salt t cwd (set_folder f no_lan_args) with
           | inl e => StartFailed e
           | inr (host, port, config) => ServesLan host port config
           end.
Proof.
  intros Hf. unfold run_with_defaults, main. case_bool_decide as E; [by subst|].
  pose proof (lan_roundtrip (set_folder f no_lan_args) [] [] Hf E) as Hr.
  cbn [mbind list_bind app la_folder set_folder] in Hr. rewrite Hr; [done|by split_and!|done].
Qed.

(** ** The relay *)

Definition relay_words (ns : RelayNs) : list (word RelayAction) :=
  opt_word (py "--host") RHost id (rn_host ns) ++ opt_word (py "--port") RPort dump_int (rn_port ns).

Lemma relay_read ns :
  from_option text_ok True (rn_host ns) → from_option number_ok True (rn_port ns) →
  parse_args relay_parser (λ _, false) {| rn_host := None; rn_port := None |} (mbind word_args (relay_words ns)) = inr ns.
Proof.
  destruct ns as [h z]. cbn [rn_host rn_port]. intros Hh Hp. rewrite (parse_words_bare relay_parser relay_table); [|done|].
  2: { apply Forall_app. split.
       - destruct h; [|by constructor]. by apply Forall_singleton.
       - destruct z; [|by constructor]. apply Forall_singleton. split_and!; [done..|]. apply dump_int_text. }
  destruct h as [h|], z as [z|]; cbn -[arg_int dump_int py]; rewrite ?arg_int_dump by done; done.
Qed.

(** The flag wins over the variable [PORT], but only when the variable holds a number: the
    default is read before it is known to be needed. *)
Theorem relay_port_spec environ ns env :
  from_option text_ok True (rn_host ns) → from_option number_ok True (rn_port ns) →
  relay_env (JStr (default (py "development") (environ !! py "RELAY_ENV"))) = inr env →
  relay_main environ (mbind word_args (relay_words ns))
    = match environ !! py "PORT" with
      | None => RelayServes env (default (py "0.0.0.0") (rn_host ns)) (default 8001 (rn_port ns))
      | Some s => match arg_int s with
                  | Some z => RelayServes env (default (py "0.0.0.0") (rn_host ns)) (default z (rn_port ns))
                  | None => RelayValueError
                  end
      end.
Proof.
  intros Hh Hp He. unfold relay_main. rewrite relay_read by done. rewrite He.
  destruct (environ !! py "PORT") as [s|]; cbn [default from_option id]; [by destruct (arg_int s)|].
  change (py "8001") with (dump_int 8001). by rewrite arg_int_dump.
Qed.

End programs.

(** ** An example *)

(** The decimal digits of ASCII *)
Definition ascii_digits : Digits.
Proof.
  refine {| udigit c := if is_digit c then Some (c - 48) else None |}.
  - by intros c ->.
  - intros c d. unfold is_digit. destruct (_ && _) eqn:E; [|done]. bool_prop. intros [= <-]. lia.
  - by intros c _ ->.
Defined.

Definition demo_lan : LanArgs :=
  {| la_folder := py "photos"; la_port := Some 8080; la_host := None; la_password := Some (py "-p x=1");
     la_read_only := true; la_receive := false |}.

Definition demo_mount : MountArgs :=
  {| ma_folder := py "mount"; ma_server := py "https://relay"; ma_name := None; ma_password := None;
     ma_ttl_seconds := Some 7200; ma_login := Some (py "ann"); ma_access_mode := Some (py "restricted");
     ma_allow := [py "user:bob:read"; py "group:eng:write"] |}.

Example demo_lan_args :
  mbind word_args (lan_words demo_lan) = [py "--port=8080"; py "--password=-p x=1"; py "--read-only"].
Proof. vm_compute. reflexivity. Qed.

Lemma command_line_roundtrip_witness :
  _parse_args (H := ascii_digits) [py "--read-only"; py "--password=-p x=1"; py "photos"; py "--port=8080"]
    = inr (CommandLan demo_lan) ∧
  _parse_args (H := ascii_digits) [py "mount"; py "--server=https://relay"; py "--ttl=7200s"; py "--login=ann"; py "mount";
    py "--access-mode=restricted"; py "--allow=user:bob:read"; py "--allow=group:eng:write"]
    = inr (CommandMount demo_mount false).
Proof.
  assert (lan_values_ok demo_lan) as H1 by (split_and!; (exact I || by vm_compute || done)).
  assert (mount_values_ok demo_mount) as H2.
  { split_and!; [apply (bool_decide_unpack _); vm_compute; exact I|split; by vm_compute|
      cbn [from_option demo_mount ma_access_mode]; apply (bool_decide_unpack _); vm_compute; exact I]. }
  assert ([WFlag (py "--read-only") LReadOnly; WEq (py "--password") LPassword (py "-p x=1");
           WEq (py "--port") LPort (py "8080")] ≡ₚ lan_words demo_lan) as H3.
  { etrans; [apply Permutation_rev|]. by vm_compute. }
  exact (command_line_roundtrip (H := ascii_digits) demo_lan demo_mount false
    [WFlag (py "--read-only") LReadOnly; WEq (py "--password") LPassword (py "-p x=1")]
    [WEq (py "--port") LPort (py "8080")]
    (take 3 (mount_words demo_mount false)) (drop 3 (mount_words demo_mount false))
    ltac:(done) ltac:(done) H1 H3 ltac:(done) H2 (take_drop _ _)).
Defined.
