(* ===== verification/Uploads.v ===== *)
(** Uploads that run at the same time: [upload_file] and [_write_upload_chunks] of
    [src/server/app/services/file_service.py] cut at their awaits.

    Up to the opening of the file an upload runs without interruption.  Opening,
    every chunk, closing and the final [os.replace] are separate steps, between which
    other uploads run.  A file is an inode: an open file keeps its inode and its
    offset, whatever happens to the name. *)

From stdpp Require Import strings.
From S2P Require Import Prelude Json Files.

(** ** The disk *)

Inductive entry :=
| EFile (ino : nat)
| EDir
| ELink (target : pystr).

#[export] Instance entry_eq_dec : EqDecision entry.
Proof. solve_decision. Defined.

Record disk := {
  entries : gmap (list (list Z)) entry;
  inodes : gmap nat bytes;
  next_ino : nat
}.

Definition inode_bytes (d : disk) (i : nat) : bytes := default [] (inodes d !! i).

Definition node_of (d : disk) (e : entry) : node :=
  match e with
  | EFile i => FFile (inode_bytes d i)
  | EDir => FDir
  | ELink target => FLink target
  end.

(** What a reader sees: the file system of [Files]. *)
Definition view (d : disk) : fs := node_of d <$> entries d.

Definition set_inode (i : nat) (c : bytes) (d : disk) : disk :=
  {| entries := entries d; inodes := <[i := c]> (inodes d); next_ino := next_ino d |}.

Definition create_file (q : path) (d : disk) : disk :=
  {| entries := <[q := EFile (next_ino d)]> (entries d); inodes := <[next_ino d := []]> (inodes d);
     next_ino := S (next_ino d) |}.

(** [open(p, "wb")]: a file is cut to nothing, or a new one is made. *)
Definition open_wb (d : disk) (p : path) : FsExn + (disk * nat) :=
  match resolve MAX_LINKS (view d) [] p with
  | None => inl SymlinkLoop
  | Some q =>
      match entries d !! q with
      | Some EDir => inl IsADirectoryError
      | e => match entries d !! parent q with
             | Some EDir =>
                 match e with
                 | Some (EFile i) => inr (set_inode i [] d, i)
                 | _ => inr (create_file q d, next_ino d)
                 end
             | Some _ => inl NotADirectoryError
             | None => inl FileNotFoundError
             end
      end
  end.

(** [write(fd, b)] at an offset; a hole is filled with zeros. *)
Definition write_at (off : nat) (b c : bytes) : bytes :=
  take off (c ++ replicate (off - length c) Byte.x00) ++ b ++ drop (off + length b) c.

(** [os.replace(p, q)] *)
Definition os_replace (p q : path) (d : disk) : FsExn + disk :=
  match entries d !! p with
  | None => inl FileNotFoundError
  | Some e => match entries d !! q with
              | Some EDir => inl IsADirectoryError
              | _ => inr {| entries := <[q := e]> (delete p (entries d)); inodes := inodes d;
                            next_ino := next_ino d |}
              end
  end.

(** ** One upload *)

Definition UPLOAD_CHUNK_SIZE : Z := 1024 * 1024.

(** Where the bytes go: the directory, the name in the answer, and whether they are written to
    [name.tmp] first. *)
Record Target := { tg_dir : path; tg_name : pystr; tg_temp : bool }.

Definition dest_path (g : Target) : path := tg_dir g ++ [tg_name g].
Definition write_path (g : Target) : path :=
  if tg_temp g then tg_dir g ++ [tg_name g ++ py ".tmp"] else dest_path g.

(** The part before the first await. *)
Definition plan_upload (base_dir : path) (relative_dir upload_name : pystr)
    (conflict_resolution : option ConflictResolution) (t : fs) : (FsExn + UploadResult) + Target :=
  match resolve_safe_path base_dir relative_dir t with
  | inl e => inl (inl e)
  | inr dir =>
      match validate_upload_filename upload_name with
      | inl e => inl (inl e)
      | inr name =>
          match stat t (dir ++ [name]) with
          | None => inr {| tg_dir := dir; tg_name := name; tg_temp := false |}
          | Some existing =>
              match conflict_resolution with
              | None => inl (inl (FileConflictError name))
              | Some SKIP =>
                  inl (inr {| ur_name := name;
                              ur_size := match existing with FFile c => Some (Z.of_nat (length c)) | _ => None end;
                              ur_skipped := true |})
              | Some RENAME =>
                  let '(stem, suffix) := split_suffix name in
                  match free_name (S (size t)) t dir stem suffix 1 with
                  | Some new_name => inr {| tg_dir := dir; tg_name := new_name; tg_temp := false |}
                  | None => inl (inl SymlinkLoop)
                  end
              | Some OVERWRITE => inr {| tg_dir := dir; tg_name := name; tg_temp := true |}
              end
          end
      end
  end.

(** An open file: its inode, the offset, and the bytes that are not yet on the disk. *)
Record Handle := { h_ino : nat; h_off : nat; h_buf : bytes }.

(** How an upload fails: as [Files] says, or with an [OSError] of the disk. *)
Inductive UploadExn :=
| FileError (e : FsExn)
| DiskError.

Definition as_upload {A} (r : FsExn + A) : UploadExn + A :=
  match r with inl e => inl (FileError e) | inr a => inr a end.

Inductive UploadState :=
| Arrived
| Opening (g : Target)
| Writing (g : Target) (h : Handle) (rest : bytes) (written : Z)
| Replacing (g : Target) (written : Z)
| Over (r : UploadExn + UploadResult).

Record Upload := {
  up_base : path;
  up_dir : pystr;
  up_name : pystr;
  up_content : bytes;
  up_conflict : option ConflictResolution;
  up_state : UploadState
}.

Definition with_state (s : UploadState) (u : Upload) : Upload :=
  {| up_base := up_base u; up_dir := up_dir u; up_name := up_name u; up_content := up_content u;
     up_conflict := up_conflict u; up_state := s |}.

Definition result_of (g : Target) (written : Z) : UploadResult :=
  {| ur_name := tg_name g; ur_size := Some written; ur_skipped := false |}.

(** [n] bytes of the buffer reach the disk. *)
Definition flush (n : nat) (h : Handle) (d : disk) : disk * Handle :=
  let b := take n (h_buf h) in
  (set_inode (h_ino h) (write_at (h_off h) b (inode_bytes d (h_ino h))) d,
   {| h_ino := h_ino h; h_off := h_off h + length b; h_buf := drop n (h_buf h) |}).

(** ** Steps *)

(** The system may flush at any time and any part, as the buffered file and the system call
    see fit; closing flushes the rest.  [UFail] is an [OSError] of the disk. *)
Inductive UploadEvent :=
| UStart
| UOpen
| UChunk
| UFlush (n : nat)
| UClose
| UReplace
| UFail.

Definition upload_step (e : UploadEvent) (d : disk) (u : Upload) : option (disk * UploadState) :=
  match e, up_state u with
  | UStart, Arrived =>
      Some (d, match plan_upload (up_base u) (up_dir u) (up_name u) (up_conflict u) (view d) with
               | inl r => Over (as_upload r)
               | inr g => Opening g
               end)
  | UOpen, Opening g =>
      Some match open_wb d (write_path g) with
           | inl e => (d, Over (inl (FileError e)))
           | inr (d', i) => (d', Writing g {| h_ino := i; h_off := 0; h_buf := [] |} (up_content u) 0)
           end
  | UChunk, Writing g h rest written =>
      match take (Z.to_nat UPLOAD_CHUNK_SIZE) rest with
      | [] => None
      | chunk => Some (d, Writing g {| h_ino := h_ino h; h_off := h_off h; h_buf := h_buf h ++ chunk |}
                            (drop (Z.to_nat UPLOAD_CHUNK_SIZE) rest) (written + Z.of_nat (length chunk)))
      end
  | UFlush n, Writing g h rest written =>
      let '(d', h') := flush n h d in Some (d', Writing g h' rest written)
  | UClose, Writing g h [] written =>
      let '(d', _) := flush (length (h_buf h)) h d in
      Some (d', if tg_temp g then Replacing g written else Over (inr (result_of g written)))
  | UReplace, Replacing g written =>
      Some match os_replace (write_path g) (dest_path g) d with
           | inl e => (d, Over (inl (FileError e)))
           | inr d' => (d', Over (inr (result_of g written)))
           end
  | UFail, (Opening _ | Writing _ _ _ _) => Some (d, Over (inl DiskError))
  | _, _ => None
  end.

(** A server with its running uploads; an event says whose step is next. *)
Definition step_at (ie : nat * UploadEvent) (s : disk * list Upload) : option (disk * list Upload) :=
  u ← s.2 !! ie.1;
  '(d', st) ← upload_step ie.2 s.1 u;
  Some (d', <[ie.1 := with_state st u]> s.2).

Fixpoint run_uploads (es : list (nat * UploadEvent)) (s : disk * list Upload) : option (disk * list Upload) :=
  match es with
  | [] => Some s
  | ie :: es' => s' ← step_at ie s; run_uploads es' s'
  end.
