(* ===== verification/UploadsProps.v ===== *)
(** Uploads that run at the same time: an upload alone does what [Files] says, uploads with
    different targets do not disturb each other in any schedule, and uploads with the
    same target do. *)

From stdpp Require Import strings.
From S2P Require Import Prelude Json Files FilesProps Uploads.

Implicit Types d : disk.
Implicit Types p q : list (list Z).

(** ** The disk *)

(** No hard links, and the next inode is new. *)
Record disk_ok d : Prop := {
  disk_inj : ∀ p q i, entries d !! p = Some (EFile i) → entries d !! q = Some (EFile i) → p = q;
  disk_new : ∀ p i, entries d !! p = Some (EFile i) → (i < next_ino d)%nat
}.

Lemma view_lookup d p : view d !! p = node_of d <$> entries d !! p.
Proof. apply lookup_fmap. Qed.

Lemma view_dir d p : view d !! p = Some FDir ↔ entries d !! p = Some EDir.
Proof. rewrite view_lookup. by destruct (entries d !! p) as [[]|]. Qed.

Lemma view_file d p i : entries d !! p = Some (EFile i) → view d !! p = Some (FFile (inode_bytes d i)).
Proof. intros E. by rewrite view_lookup, E. Qed.

Lemma inode_bytes_set d i c : inode_bytes (set_inode i c d) i = c.
Proof. unfold inode_bytes, set_inode. cbn. by rewrite lookup_insert_eq. Qed.

Lemma inode_bytes_ne d i j c : i ≠ j → inode_bytes (set_inode i c d) j = inode_bytes d j.
Proof. intros. unfold inode_bytes, set_inode. cbn. by rewrite lookup_insert_ne. Qed.

Lemma disk_ok_set d i c : disk_ok d → disk_ok (set_inode i c d).
Proof. by intros []. Qed.

(** Other names do not see a change of an inode. *)
Lemma view_set_inode d q i c :
  disk_ok d → entries d !! q = Some (EFile i) → view (set_inode i c d) = <[q := FFile c]> (view d).
Proof.
  intros Hd Hq. apply map_eq. intros p. rewrite view_lookup. cbn.
  destruct (decide (p = q)) as [->|Hne].
  - rewrite Hq, lookup_insert_eq. cbn. by rewrite inode_bytes_set.
  - rewrite lookup_insert_ne, view_lookup by done. destruct (entries d !! p) as [[j| |]|] eqn:E; try done.
    cbn. rewrite inode_bytes_ne; [done|]. intros <-. by destruct Hne; eapply disk_inj.
Qed.

Lemma disk_ok_create d q : disk_ok d → disk_ok (create_file q d).
Proof.
  intros [Hi Hn]. split; cbn.
  - intros p p' i H1 H2. destruct (decide (p = q)) as [->|], (decide (p' = q)) as [->|]; [done|..];
      rewrite ?lookup_insert_eq, ?lookup_insert_ne in * by done; simplify_eq;
      [by apply Hn in H2; lia|by apply Hn in H1; lia|by eapply Hi].
  - intros p i H1. destruct (decide (p = q)) as [->|]; rewrite ?lookup_insert_eq, ?lookup_insert_ne in H1 by done;
      [injection H1 as <-; lia|]. apply Hn in H1. lia.
Qed.

Lemma inode_bytes_create d q : inode_bytes (create_file q d) (next_ino d) = [].
Proof. unfold inode_bytes, create_file. cbn. by rewrite lookup_insert_eq. Qed.

Lemma inode_bytes_create_ne d q j : j ≠ next_ino d → inode_bytes (create_file q d) j = inode_bytes d j.
Proof. intros. unfold inode_bytes, create_file. cbn. by rewrite lookup_insert_ne. Qed.

Lemma view_create d q : disk_ok d → view (create_file q d) = <[q := FFile []]> (view d).
Proof.
  intros Hd. apply map_eq. intros p. rewrite view_lookup. cbn. destruct (decide (p = q)) as [->|Hne].
  - rewrite !lookup_insert_eq. cbn. by rewrite inode_bytes_create.
  - rewrite !lookup_insert_ne, view_lookup by done. destruct (entries d !! p) as [[j| |]|] eqn:E; try done.
    cbn. rewrite inode_bytes_create_ne; [done|]. apply (disk_new _ Hd) in E. lia.
Qed.

(** What an opened file is: the entry [q] of inode [i], empty, and nothing else has changed. *)
Record opened d q d' i : Prop := {
  op_ok : disk_ok d';
  op_entry : entries d' !! q = Some (EFile i);
  op_bytes : inode_bytes d' i = [];
  op_view : view d' = <[q := FFile []]> (view d);
  op_others : ∀ k, k ≠ q → entries d' !! k = entries d !! k;
  op_not_dir : entries d !! q ≠ Some EDir
}.

(** [open_wb] is [write_file] without the bytes. *)
Lemma open_wb_spec d p :
  disk_ok d →
  match open_wb d p with
  | inl e => ∀ c, write_file (view d) p c = inl e
  | inr (d', i) => ∃ q, resolve MAX_LINKS (view d) [] p = Some q ∧ opened d q d' i ∧
      ∀ c, write_file (view d) p c = inr (<[q := FFile c]> (view d))
  end.
Proof.
  intros Hd. unfold open_wb, write_file. destruct (resolve MAX_LINKS (view d) [] p) as [q|]; [|done].
  rewrite !view_lookup.
  assert (entries d !! q ≠ Some EDir → opened d q (create_file q d) (next_ino d)) as Hc.
  { intros E. split; [by apply disk_ok_create|apply lookup_insert_eq|apply inode_bytes_create|by apply view_create| |done].
    intros. by apply lookup_insert_ne. }
  destruct (entries d !! q) as [[i| |]|] eqn:Eq; [|done|..];
    destruct (entries d !! parent q) as [[j| |]|]; try done; exists q; split; try done; split; try done; eauto.
  split; try done; [by apply disk_ok_set|apply inode_bytes_set|by apply view_set_inode|congruence].
Qed.

(** ** Bytes *)

Lemma write_at_end b c : write_at (length c) b c = c ++ b.
Proof.
  unfold write_at. rewrite Nat.sub_diag, app_nil_r, firstn_all. rewrite drop_ge by lia. by rewrite app_nil_r.
Qed.

(** The bytes of an upload on their way: on the disk, in the buffer, still to be read. *)
Record flowing (content : bytes) d (h : Handle) (rest : bytes) (written : Z) : Prop := {
  fl_split : content = inode_bytes d (h_ino h) ++ h_buf h ++ rest;
  fl_off : h_off h = length (inode_bytes d (h_ino h));
  fl_count : written = Z.of_nat (length (inode_bytes d (h_ino h) ++ h_buf h))
}.

Lemma flush_flowing content n d h rest w d' h' :
  flowing content d h rest w → flush n h d = (d', h') →
  flowing content d' h' rest w ∧ h_ino h' = h_ino h ∧
  d' = set_inode (h_ino h) (inode_bytes d (h_ino h) ++ take n (h_buf h)) d ∧ h_buf h' = drop n (h_buf h).
Proof.
  intros [H1 H2 H3] [= <- <-]. cbn. rewrite H2, write_at_end. split_and!; [|done..]. split; cbn.
  - rewrite inode_bytes_set, H1, <-!(assoc_L (++)). by rewrite (assoc_L (++) (take n _)), take_drop.
  - by rewrite inode_bytes_set, length_app.
  - rewrite inode_bytes_set, <-(assoc_L (++)), take_drop. done.
Qed.

Lemma chunk_flowing content d h rest w n :
  flowing content d h rest w →
  flowing content d {| h_ino := h_ino h; h_off := h_off h; h_buf := h_buf h ++ take n rest |} (drop n rest)
    (w + Z.of_nat (length (take n rest))).
Proof.
  intros [H1 H2 H3]. split; cbn; [|done|].
  - by rewrite <-(assoc_L (++)), take_drop.
  - rewrite H3, (assoc_L (++)), (length_app (_ ++ _)). lia.
Qed.

(** ** An upload on its own *)

(** [upload_file] is the plan and what becomes of it. *)
Lemma upload_file_plan base rel name content cr t :
  upload_file base rel name content cr t =
  match plan_upload base rel name cr t with
  | inl r => (t, r)
  | inr g => if tg_temp g then overwrite_upload t (tg_dir g) (tg_name g) content
             else write_upload t (tg_dir g) (tg_name g) content
  end.
Proof.
  unfold upload_file, plan_upload. destruct (resolve_safe_path base rel t) as [|dir]; [done|].
  destruct (validate_upload_filename name) as [|n]; [done|]. destruct (stat t (dir ++ [n])) as [x|]; [|done].
  destruct cr as [[]|]; try done. destruct (split_suffix n) as [stem suffix].
  by destruct (free_name _ _ _ _ _ _).
Qed.

(** The temporary name is an entry once it is written. *)
Lemma temp_entry base rel name cr t g q x :
  base_ok t base → plan_upload base rel name cr t = inr g → tg_temp g = true →
  resolve MAX_LINKS t [] (write_path g) = Some q → is_Some (<[q := x]> t !! write_path g).
Proof.
  intros Hb. unfold plan_upload. destruct (resolve_safe_path base rel t) as [|dir] eqn:Er; [done|].
  destruct (validate_upload_filename name) as [|n] eqn:En; [done|].
  destruct (stat t (dir ++ [n])); [|by intros [= <-]]. destruct cr as [[]|]; try done.
  2: { destruct (split_suffix n). destruct (free_name _ _ _ _ _ _); [by intros [= <-]|done]. }
  intros [= <-] _. change (write_path _) with (dir ++ [n ++ py ".tmp"]). intros Hq.
  destruct (safe_path_inside _ _ _ _ Hb Er) as (_ & Hl & Hc & _). apply valid_filename in En as [-> [Hcl _]].
  apply tmp_clean in Hcl. set (p := dir ++ [name ++ py ".tmp"]) in *.
  destruct (decide (q = p)) as [->|Hne]; [by rewrite lookup_insert_eq|]. rewrite lookup_insert_ne by done.
  destruct (t !! p) as [[]|] eqn:Ep; try done;
    (rewrite (resolve_self MAX_LINKS t [] p) in Hq;
       [by simplify_eq/=|apply link_free_snoc; [done|intros ?; fold p; congruence]|
        apply Forall_app; by rewrite Forall_singleton]).
Qed.

Lemma view_replace p q d e :
  entries d !! p = Some e →
  view {| entries := <[q := e]> (delete p (entries d)); inodes := inodes d; next_ino := next_ino d |}
    = replace_file (view d) p q.
Proof.
  intros He. unfold replace_file. rewrite view_lookup, He. cbn [fmap option_fmap option_map]. unfold view. cbn.
  rewrite fmap_insert, fmap_delete. done.
Qed.

Section alone.
Context (d0 : disk) (u : Upload) (Hb : base_ok (view d0) (up_base u)) (H0 : disk_ok d0).

Definition planned (g : Target) : Prop :=
  plan_upload (up_base u) (up_dir u) (up_name u) (up_conflict u) (view d0) = inr g.

(** The path [q] that is written is the one [write_file] finds. *)
Definition writes_to (g : Target) q : Prop :=
  resolve MAX_LINKS (view d0) [] (write_path g) = Some q ∧
  ∀ c, write_file (view d0) (write_path g) c = inr (<[q := FFile c]> (view d0)).

Definition alone_ok d (s : UploadState) : Prop :=
  match s with
  | Arrived => d = d0
  | Opening g => d = d0 ∧ planned g
  | Writing g h rest w => planned g ∧ disk_ok d ∧ flowing (up_content u) d h rest w ∧
      ∃ q, writes_to g q ∧ entries d !! q = Some (EFile (h_ino h)) ∧
           view d = <[q := FFile (inode_bytes d (h_ino h))]> (view d0)
  | Replacing g w => planned g ∧ tg_temp g = true ∧ w = Z.of_nat (length (up_content u)) ∧
      ∃ q, writes_to g q ∧ view d = <[q := FFile (up_content u)]> (view d0)
  | Over r =>
      let '(t, r') := upload_file (up_base u) (up_dir u) (up_name u) (up_content u) (up_conflict u) (view d0) in
      view d = t ∧ r = as_upload r'
  end.

(** Bytes that reach the disk keep the picture. *)
Lemma alone_flush g h rest w n d d' h' :
  alone_ok d (Writing g h rest w) → flush n h d = (d', h') → alone_ok d' (Writing g h' rest w).
Proof.
  intros (Hp & Hd & Hf & q & Hq & He & Hv) Hfl.
  destruct (flush_flowing _ _ _ _ _ _ _ _ Hf Hfl) as (Hf' & Hi & -> & _).
  split_and!; [done|by apply disk_ok_set|done|]. exists q. rewrite Hi. split_and!; [done|done|].
  rewrite (view_set_inode _ q), inode_bytes_set, Hv, insert_insert_eq by done. done.
Qed.

Lemma alone_close g h w d d' h' :
  alone_ok d (Writing g h [] w) → flush (length (h_buf h)) h d = (d', h') →
  alone_ok d' (if tg_temp g then Replacing g w else Over (inr (result_of g w))).
Proof.
  intros Ha Hfl. pose proof (alone_flush _ _ _ _ _ _ _ _ Ha Hfl) as (Hp & _ & [H1 _ H3] & q & Hq & _ & Hv).
  destruct Ha as (_ & _ & Hf & _). destruct (flush_flowing _ _ _ _ _ _ _ _ Hf Hfl) as (_ & _ & _ & Hbuf).
  rewrite Hbuf, drop_all in *. cbn [app] in H1. rewrite app_nil_r in H1. rewrite <-H1 in Hv.
  rewrite app_nil_r, <-H1 in H3. destruct (tg_temp g) eqn:Et; [by split_and!; [..|exists q]|].
  cbn. rewrite upload_file_plan, Hp, Et. unfold write_upload. destruct Hq as [_ Hq]. unfold write_path in Hq.
  rewrite Et in Hq. unfold dest_path in Hq. rewrite Hq. split; [done|]. by rewrite H3.
Qed.

Lemma alone_replace g w d :
  alone_ok d (Replacing g w) →
  let '(d', s') := match os_replace (write_path g) (dest_path g) d with
                   | inl e => (d, Over (inl (FileError e)))
                   | inr d' => (d', Over (inr (result_of g w)))
                   end in alone_ok d' s'.
Proof.
  intros (Hp & Ht & -> & q & [Hq Hw] & Hv). unfold os_replace.
  destruct (temp_entry _ _ _ _ _ _ _ (FFile (up_content u)) Hb Hp Ht Hq) as [x Hx].
  rewrite <-Hv, view_lookup in Hx. destruct (entries d !! write_path g) as [e|] eqn:Ee; [|done].
  assert (Hwp : write_path g = tg_dir g ++ [tg_name g ++ py ".tmp"]) by (unfold write_path; by rewrite Ht).
  assert (∀ T (a b : T), match entries d !! dest_path g with Some EDir => a | _ => b end
    = match view d !! dest_path g with Some FDir => a | _ => b end) as Hm.
  { intros. rewrite view_lookup. by destruct (entries d !! dest_path g) as [[]|]. }
  rewrite Hm. unfold dest_path in *.
  destruct (decide (view d !! (tg_dir g ++ [tg_name g]) = Some FDir)) as [E|E].
  - rewrite E. cbn. rewrite upload_file_plan, Hp, Ht. unfold overwrite_upload. rewrite <-Hwp, Hw, <-Hv, E. done.
  - assert (∀ T (a b : T), match view d !! (tg_dir g ++ [tg_name g]) with Some FDir => a | _ => b end = b) as Hn.
    { intros. by destruct (view d !! _) as [[]|]. }
    rewrite Hn. cbn. rewrite upload_file_plan, Hp, Ht. unfold overwrite_upload. rewrite <-Hwp, Hw, <-Hv, Hn.
    split; [by apply view_replace|done].
Qed.

Lemma alone_step e d s d' s' :
  e ≠ UFail → alone_ok d s → upload_step e d (with_state s u) = Some (d', s') → alone_ok d' s'.
Proof.
  intros Hne Ha. destruct e, s as [|g|g h rest w|g w|r]; cbn [upload_step up_state with_state]; try done.
  - cbn in Ha. subst d. intros [= <- <-]. cbn.
    destruct (plan_upload _ _ _ _ _) as [r|g] eqn:Ep; [|done]. cbn. by rewrite upload_file_plan, Ep.
  - destruct Ha as [-> Hp]. intros [= E]. pose proof (open_wb_spec d0 (write_path g) H0) as Ho.
    destruct (open_wb d0 (write_path g)) as [e|[d1 i]].
    + injection E as <- <-. cbn. rewrite upload_file_plan, Hp. unfold overwrite_upload, write_upload.
      unfold write_path in Ho. destruct (tg_temp g); unfold dest_path in Ho; by rewrite Ho.
    + injection E as <- <-. destruct Ho as (q & Hq & [O1 O2 O3 O4 _ _] & Hw). split_and!; [done|done| |].
      * split; cbn; rewrite O3; done.
      * exists q. cbn [h_ino]. rewrite O3. done.
  - destruct (take _ rest) as [|b chunk] eqn:Et; [done|]. intros [= <- <-].
    destruct Ha as (Hp & Hd & Hf & Hq).
    pose proof (chunk_flowing _ _ _ _ _ (Z.to_nat UPLOAD_CHUNK_SIZE) Hf) as Hc. rewrite Et in Hc. done.
  - destruct (flush n h d) as [d1 h1] eqn:Ef. intros [= <- <-]. by eapply alone_flush.
  - destruct rest; [|done]. destruct (flush (length (h_buf h)) h d) as [d1 h1] eqn:Ef. intros [= <- <-].
    by eapply alone_close.
  - intros [= E]. pose proof (alone_replace g w d Ha) as Hr. rewrite E in Hr. done.
Qed.

End alone.

(** ** Uploads side by side *)

Implicit Types g : Target.
Implicit Types gs : list Target.

(** The two paths an upload touches. *)
Definition foot g : list (list (list Z)) := [write_path g; dest_path g].

Lemma foot_write g : write_path g ∈ foot g.
Proof. by apply list_elem_of_here. Qed.

Lemma foot_dest g : dest_path g ∈ foot g.
Proof. apply list_elem_of_further. by apply list_elem_of_here. Qed.

#[local] Hint Resolve foot_write foot_dest : core.

(** What holds of one upload, whatever the others do. *)
Definition thread_ok d0 d (u : Upload) g : Prop :=
  (tg_temp g = true → view d !! dest_path g = view d0 !! dest_path g ∨ view d !! dest_path g = Some (FFile (up_content u))) ∧
  match up_state u with
  | Arrived => False
  | Opening g' => g' = g
  | Writing g' h rest w => g' = g ∧ flowing (up_content u) d h rest w ∧ entries d !! write_path g = Some (EFile (h_ino h))
  | Replacing g' w => g' = g ∧ tg_temp g = true ∧ w = Z.of_nat (length (up_content u)) ∧
      view d !! write_path g = Some (FFile (up_content u))
  | Over (inr r) => r = result_of g (Z.of_nat (length (up_content u))) ∧ view d !! dest_path g = Some (FFile (up_content u))
  | Over (inl _) => True
  end.

(** Both disks agree at a path: the entry, and the bytes behind it. *)
Definition same_at d d' p : Prop := entries d' !! p = entries d !! p ∧ view d' !! p = view d !! p.

Lemma same_bytes d d' p i :
  same_at d d' p → entries d !! p = Some (EFile i) → inode_bytes d' i = inode_bytes d i.
Proof. intros [He Hv] Hi. rewrite !view_lookup, He, Hi in Hv. by injection Hv. Qed.

(** Steps of others are not noticed. *)
Lemma thread_frame d0 d d' u g :
  thread_ok d0 d u g → (∀ p, p ∈ foot g → same_at d d' p) → thread_ok d0 d' u g.
Proof.
  intros [Hd Hs] Hf. destruct (Hf _ (foot_write g)) as [We Wv], (Hf _ (foot_dest g)) as [_ Dv].
  split; [by rewrite Dv|]. destruct (up_state u) as [|g'|g' h rest w|g' w|[|r]]; try done.
  - destruct Hs as (-> & [H1 H2 H3] & He). split_and!; [done| |by rewrite We].
    pose proof (same_bytes _ _ _ _ (Hf _ (foot_write g)) He) as Hi. split; rewrite Hi; done.
  - by rewrite Wv.
  - by rewrite Dv.
Qed.

(** A step changes nothing outside of its two paths and makes no links. *)
Record step_local g d d' : Prop := {
  sl_ok : disk_ok d';
  sl_same : ∀ p, p ∉ foot g → same_at d d' p;
  sl_links : ∀ p target, view d' !! p = Some (FLink target) → view d !! p = Some (FLink target)
}.

Lemma step_local_refl g d : disk_ok d → step_local g d d.
Proof. by split. Qed.

Lemma step_local_inode g d i c :
  disk_ok d → entries d !! write_path g = Some (EFile i) → step_local g d (set_inode i c d).
Proof.
  intros Hd Hi. split; [by apply disk_ok_set| |]; intros p; unfold same_at; rewrite (view_set_inode _ (write_path g)) by done.
  - intros Hp. rewrite lookup_insert_ne; [done|]. intros <-. by destruct Hp.
  - intros target. destruct (decide (p = write_path g)) as [->|]; [by rewrite lookup_insert_eq|by rewrite lookup_insert_ne].
Qed.

Lemma step_local_open g d d' i : opened d (write_path g) d' i → step_local g d d'.
Proof.
  intros [O1 O2 O3 O4 O5 O6]. split; [done| |].
  - intros p Hp. assert (p ≠ write_path g) by (intros ->; by destruct Hp). split; [by apply O5|].
    by rewrite O4, lookup_insert_ne.
  - intros p target. rewrite O4. destruct (decide (p = write_path g)) as [->|]; [by rewrite lookup_insert_eq|by rewrite lookup_insert_ne].
Qed.

(** The entry of the temporary file takes the place of the destination. *)
Definition moved p q e d : disk :=
  {| entries := <[q := e]> (delete p (entries d)); inodes := inodes d; next_ino := next_ino d |}.

Lemma moved_lookup p q e d k :
  view (moved p q e d) !! k = if decide (k = q) then Some (node_of d e) else if decide (k = p) then None else view d !! k.
Proof.
  rewrite view_lookup. cbn. repeat case_decide; subst; rewrite ?lookup_insert_eq, ?lookup_insert_ne by done; [done|..].
  - by rewrite lookup_delete_eq.
  - by rewrite lookup_delete_ne, view_lookup.
Qed.

Lemma disk_ok_moved p q i d :
  disk_ok d → entries d !! p = Some (EFile i) → disk_ok (moved p q (EFile i) d).
Proof.
  intros [Hi Hn] Hp.
  assert (∀ k j, entries (moved p q (EFile i) d) !! k = Some (EFile j) →
    (k = q ∧ j = i) ∨ (k ≠ p ∧ entries d !! k = Some (EFile j))) as Hc.
  { intros k j. cbn. destruct (decide (k = q)) as [->|]; [rewrite lookup_insert_eq; intros [= <-]; by left|].
    rewrite lookup_insert_ne by done. destruct (decide (k = p)) as [->|]; [by rewrite lookup_delete_eq|].
    rewrite lookup_delete_ne by done. by right. }
  split.
  - intros k k' j [[-> ->]|[H1 H2]]%Hc [[-> E]|[H3 H4]]%Hc; [done| | |by eapply Hi].
    + destruct H3. by eapply Hi.
    + subst. destruct H1. by eapply Hi.
  - intros k j [[_ ->]|[_ H]]%Hc; [by apply (Hn p)|by apply (Hn k)].
Qed.

Lemma step_local_moved g d i :
  disk_ok d → entries d !! write_path g = Some (EFile i) → step_local g d (moved (write_path g) (dest_path g) (EFile i) d).
Proof.
  intros Hd Hi. split; [by apply disk_ok_moved| |].
  - intros p Hp. assert (p ≠ write_path g ∧ p ≠ dest_path g) as [H1 H2] by (split; intros ->; by destruct Hp).
    split; [|rewrite moved_lookup; by rewrite !decide_False]. cbn. by rewrite lookup_insert_ne, lookup_delete_ne.
  - intros p target. rewrite moved_lookup. repeat case_decide; by intros.
Qed.

Lemma temp_ne g : tg_temp g = true → write_path g ≠ dest_path g.
Proof. intros Ht. unfold write_path. rewrite Ht. apply tmp_path_ne. Qed.

Lemma direct_eq g : tg_temp g = false → write_path g = dest_path g.
Proof. intros Ht. unfold write_path. by rewrite Ht. Qed.

(** Writing to the temporary file leaves the destination alone. *)
Lemma dest_kept d0 d d' g x c :
  view d' = <[write_path g := x]> (view d) →
  (tg_temp g = true → view d !! dest_path g = view d0 !! dest_path g ∨ view d !! dest_path g = Some (FFile c)) →
  tg_temp g = true → view d' !! dest_path g = view d0 !! dest_path g ∨ view d' !! dest_path g = Some (FFile c).
Proof. intros Hv Hd Ht. rewrite Hv, lookup_insert_ne by by apply temp_ne. by apply Hd. Qed.

Lemma thread_flush d0 d u g h rest w n d' h' :
  disk_ok d → up_state u = Writing g h rest w → thread_ok d0 d u g → flush n h d = (d', h') →
  step_local g d d' ∧ thread_ok d0 d' (with_state (Writing g h' rest w) u) g ∧
  h_buf h' = drop n (h_buf h).
Proof.
  intros Hd Hs [Ht Hk] Hfl. rewrite Hs in Hk. destruct Hk as (_ & Hf & He).
  destruct (flush_flowing _ _ _ _ _ _ _ _ Hf Hfl) as (Hf' & Hi & -> & Hb). split_and!; [by apply step_local_inode| |done].
  split.
  - eapply dest_kept; [by apply view_set_inode|done].
  - cbn. by rewrite Hi.
Qed.

Lemma thread_close d0 d u g h w d' h' :
  disk_ok d → up_state u = Writing g h [] w → thread_ok d0 d u g → flush (length (h_buf h)) h d = (d', h') →
  step_local g d d' ∧
  thread_ok d0 d' (with_state (if tg_temp g then Replacing g w else Over (inr (result_of g w))) u) g.
Proof.
  intros Hd Hs Ht Hfl. destruct (thread_flush _ _ _ _ _ _ _ _ _ _ Hd Hs Ht Hfl) as (Hl & [Ht' (_ & [H1 H2 H3] & He)] & Hb).
  split; [done|]. split; [done|]. rewrite Hb, drop_all in *. cbn [app] in H1. rewrite app_nil_r in H1, H3.
  rewrite <-H1 in H3. assert (view d' !! write_path g = Some (FFile (up_content u))) as Hv.
  { change (up_content (with_state _ u)) with (up_content u) in H1. by rewrite H1, (view_file _ _ _ He). }
  destruct (tg_temp g) eqn:Et; cbn; [done|]. split; [by rewrite H3|]. by rewrite <-direct_eq.
Qed.

Lemma thread_replace d0 d u g w d' s :
  disk_ok d → up_state u = Replacing g w → thread_ok d0 d u g →
  match os_replace (write_path g) (dest_path g) d with
  | inl e => (d, Over (inl (FileError e)))
  | inr d' => (d', Over (inr (result_of g w)))
  end = (d', s) → step_local g d d' ∧ thread_ok d0 d' (with_state s u) g.
Proof.
  intros Hd Hs [Ht Hk]. rewrite Hs in Hk. destruct Hk as (_ & Hg & -> & Hv). unfold os_replace.
  assert (∃ i, entries d !! write_path g = Some (EFile i) ∧ node_of d (EFile i) = FFile (up_content u)) as (i & Hi & Hn).
  { rewrite view_lookup in Hv. destruct (entries d !! write_path g) as [[i| |]|]; try done. injection Hv as <-. by exists i. }
  rewrite Hi. destruct (decide (entries d !! dest_path g = Some EDir)) as [E|E].
  - rewrite E. intros [= <- <-]. split; [by apply step_local_refl|]. by split.
  - assert (∀ T (a b : T), match entries d !! dest_path g with Some EDir => a | _ => b end = b) as ->
      by (intros; by destruct (entries d !! dest_path g) as [[]|]).
    intros [= <- <-]. split; [by apply step_local_moved|].
    pose proof (moved_lookup (write_path g) (dest_path g) (EFile i) d (dest_path g)) as Hm.
    rewrite decide_True, Hn in Hm by done. split; [by right|done].
Qed.

Lemma thread_step d0 d u g e d' s :
  disk_ok d → link_free (view d) (write_path g) → Forall clean (write_path g) → thread_ok d0 d u g →
  upload_step e d u = Some (d', s) → step_local g d d' ∧ thread_ok d0 d' (with_state s u) g.
Proof.
  intros Hd Hl Hc Ht. pose proof Ht as [Hdest Hk].
  destruct e, (up_state u) as [|g'|g' h rest w|g' w|r] eqn:Es; unfold upload_step; rewrite Es; try done.
  - subst g'. intros [= E]. pose proof (open_wb_spec d (write_path g) Hd) as Ho.
    destruct (open_wb d (write_path g)) as [x|[d1 i]]; injection E as <- <-.
    + split; [by apply step_local_refl|]. by split.
    + destruct Ho as (q & Hq & Hop & _). rewrite (resolve_self MAX_LINKS (view d) [] (write_path g)) in Hq by done.
      injection Hq as <-. split; [by eapply step_local_open|]. destruct Hop as [O1 O2 O3 O4 _ _]. split.
      * by eapply dest_kept.
      * cbn. split_and!; [done| |done]. split; cbn; by rewrite O3.
  - destruct Hk as (-> & Hf & He). destruct (take _ rest) as [|b chunk] eqn:Et; [done|]. intros [= <- <-].
    split; [by apply step_local_refl|]. split; [done|]. cbn. split_and!; [done| |done].
    pose proof (chunk_flowing _ _ _ _ _ (Z.to_nat UPLOAD_CHUNK_SIZE) Hf) as Hch. by rewrite Et in Hch.
  - destruct (flush n h d) as [d1 h1] eqn:Ef. intros [= <- <-]. destruct Hk as [-> _].
    by destruct (thread_flush _ _ _ _ _ _ _ _ _ _ Hd Es Ht Ef) as (? & ? & _).
  - destruct rest; [|done]. destruct (flush (length (h_buf h)) h d) as [d1 h1] eqn:Ef. intros [= <- <-].
    destruct Hk as [-> _]. by eapply thread_close.
  - intros [= E]. destruct Hk as [-> _]. by eapply thread_replace.
  - intros [= <- <-]. split; [by apply step_local_refl|]. by split.
  - intros [= <- <-]. split; [by apply step_local_refl|]. by split.
Qed.

(** *** All of them *)

Definition apart gs : Prop :=
  ∀ i j g g', i ≠ j → gs !! i = Some g → gs !! j = Some g' → ∀ p, p ∈ foot g → p ∉ foot g'.

(** The target can be opened under its own name. *)
Definition real_target d g : Prop := link_free (view d) (write_path g) ∧ Forall clean (write_path g).

Record pool_ok d0 gs (s : disk * list Upload) : Prop := {
  pl_disk : disk_ok s.1;
  pl_real : Forall (real_target s.1) gs;
  pl_threads : Forall2 (thread_ok d0 s.1) s.2 gs;
  pl_rest : ∀ k, (∀ g, g ∈ gs → k ∉ foot g) → view s.1 !! k = view d0 !! k
}.

Lemma pool_step d0 gs ie s s' :
  apart gs → pool_ok d0 gs s → step_at ie s = Some s' → pool_ok d0 gs s'.
Proof.
  intros Ha [Hd Hr Ht Hk]. destruct s as [d us], ie as [i e]. unfold step_at. cbn [fst snd] in *.
  destruct (us !! i) as [u|] eqn:Eu; [|done]. cbn [mbind option_bind].
  destruct (upload_step e d u) as [[d' st]|] eqn:Es; [|done]. intros [= <-].
  destruct (Forall2_lookup_l _ _ _ _ _ Ht Eu) as (g & Eg & Hg).
  assert (real_target d g) as [Hl Hc] by by eapply Forall_lookup_1.
  destruct (thread_step _ _ _ _ _ _ _ Hd Hl Hc Hg Es) as [[L1 L2 L3] Hg'].
  split; cbn [fst snd]; [done| | |].
  - eapply Forall_impl; [exact Hr|]. intros g' [Hl' Hc']. split; [|done].
    intros q target Hq E. by apply (Hl' q target Hq), L3.
  - apply Forall2_same_length_lookup. split; [rewrite length_insert; by eapply Forall2_length|].
    intros j v g' Ev Eg'. destruct (decide (j = i)) as [->|Hne].
    + rewrite list_lookup_insert_eq in Ev by by eapply lookup_lt_Some. by simplify_eq.
    + rewrite list_lookup_insert_ne in Ev by done. apply (thread_frame _ d); [by eapply Forall2_lookup_lr|].
      intros p Hp. apply L2. by eapply Ha.
  - intros k Hfree. rewrite <-Hk by done. apply L2, Hfree. by eapply list_elem_of_lookup_2.
Qed.

Lemma pool_run d0 gs es : ∀ s s', apart gs → pool_ok d0 gs s → run_uploads es s = Some s' → pool_ok d0 gs s'.
Proof.
  induction es as [|ie es IH]; intros s s' Ha Hs; cbn [run_uploads]; [by intros [= <-]|].
  destruct (step_at ie s) as [s1|] eqn:E; [|done]. apply IH; [done|by eapply pool_step].
Qed.

Lemma run_content es : ∀ d us d' us',
  run_uploads es (d, us) = Some (d', us') → up_content <$> us' = up_content <$> us.
Proof.
  induction es as [|[i e] es IH]; intros d us d' us'; cbn [run_uploads]; [by intros [= <- <-]|].
  unfold step_at. cbn [fst snd]. destruct (us !! i) as [u|] eqn:Eu; [|done]. cbn [mbind option_bind].
  destruct (upload_step e d u) as [[d1 st]|]; [|done]. cbn [mbind option_bind]. intros ->%IH.
  rewrite list_fmap_insert. apply list_insert_id. by rewrite list_lookup_fmap, Eu.
Qed.

(** C9: Uploads with different targets that run at the same time, in every schedule of their
    steps and with failures of the disk at any moment.  An upload that has reported success
    has put exactly its bytes under the name it reports.  A file that is being overwritten shows
    its old bytes or all the new ones, at every moment, even when the upload fails.  No other
    path changes. *)
Theorem uploads_isolated d0 us0 gs es d us :
  disk_ok d0 → Forall2 (λ u g, up_state u = Opening g) us0 gs → apart gs → Forall (real_target d0) gs →
  run_uploads es (d0, us0) = Some (d, us) →
  up_content <$> us = up_content <$> us0 ∧
  (∀ i u g, us !! i = Some u → gs !! i = Some g →
     (∀ r, up_state u = Over (inr r) →
        r = result_of g (Z.of_nat (length (up_content u))) ∧ view d !! dest_path g = Some (FFile (up_content u))) ∧
     (tg_temp g = true →
        view d !! dest_path g = view d0 !! dest_path g ∨ view d !! dest_path g = Some (FFile (up_content u)))) ∧
  (∀ k, (∀ g, g ∈ gs → k ∉ foot g) → view d !! k = view d0 !! k).
Proof.
  intros Hd Ho Ha Hr Hrun. split; [by eapply run_content|].
  assert (pool_ok d0 gs (d0, us0)) as Hp.
  { split; [done|done| |done]. eapply Forall2_impl; [exact Ho|]. intros u g Hs. split; [by left|]. by rewrite Hs. }
  destruct (pool_run _ _ _ _ _ Ha Hp Hrun) as [_ _ Ht Hk]. split; [|done].
  intros i u g Hu Hg. destruct (Forall2_lookup_lr _ _ _ _ _ _ Ht Hu Hg) as [H1 H2].
  split; [|done]. intros r E. by rewrite E in H2.
Qed.

(** ** One upload, from its arrival *)

Lemma alone_run es : ∀ d u s d' us',
  base_ok (view d) (up_base u) → disk_ok d →
  ∀ d1, alone_ok d u d1 s → UFail ∉ es → run_uploads ((λ e, (0%nat, e)) <$> es) (d1, [with_state s u]) = Some (d', us') →
  ∃ s', us' = [with_state s' u] ∧ alone_ok d u d' s'.
Proof.
  induction es as [|e es IH]; intros d u s d' us' Hb Hd d1 Ha Hf; cbn [fmap list_fmap run_uploads].
  { intros [= <- <-]. by exists s. }
  apply not_elem_of_cons in Hf as [Hne Hf]. unfold step_at. cbn [fst snd lookup list_lookup mbind option_bind].
  destruct (upload_step e d1 (with_state s u)) as [[d2 s2]|] eqn:E; [|done]. cbn [mbind option_bind insert list_insert].
  intros Hrun. apply (IH d u s2 d' us' Hb Hd d2); [|done|exact Hrun]. by eapply alone_step.
Qed.


(** The upload can go on to its end from this state. *)
Definition finishes u d s : Prop :=
  ∃ es d' r, UFail ∉ es ∧
    run_uploads ((λ e, (0%nat, e)) <$> es) (d, [with_state s u]) = Some (d', [with_state (Over r) u]).

Lemma finishes_step u d s e d' s' :
  e ≠ UFail → upload_step e d (with_state s u) = Some (d', s') → finishes u d' s' → finishes u d s.
Proof.
  intros Hne Hs (es & d1 & r & Hf & Hrun). exists (e :: es), d1, r. split; [by apply not_elem_of_cons|].
  cbn [fmap list_fmap run_uploads]. unfold step_at. cbn [fst snd lookup list_lookup mbind option_bind].
  rewrite Hs. exact Hrun.
Qed.

Lemma finishes_over u d r : finishes u d (Over r).
Proof. exists [], d, r. split; [apply not_elem_of_nil|done]. Qed.

Lemma finishes_replacing u d g w : finishes u d (Replacing g w).
Proof.
  destruct (os_replace (write_path g) (dest_path g) d) eqn:E;
    (eapply (finishes_step _ _ _ UReplace); [done|cbn; rewrite E; done|apply finishes_over]).
Qed.

Lemma finishes_writing u n : ∀ d g h rest w, (length rest ≤ n)%nat → finishes u d (Writing g h rest w).
Proof.
  induction n as [|n IH]; intros d g h rest w Hn.
  all: destruct rest as [|b rest];
    [eapply (finishes_step _ _ _ UClose); [done|done|];
     destruct (tg_temp g); [apply finishes_replacing|apply finishes_over]|].
  - cbn in Hn. lia.
  - assert (∃ c chunk, take (Z.to_nat UPLOAD_CHUNK_SIZE) (b :: rest) = c :: chunk) as (c & chunk & Ec).
    { assert (∃ m, Z.to_nat UPLOAD_CHUNK_SIZE = S m) as [m ->]; [|by exists b, (take m rest)].
      exists (Z.to_nat (UPLOAD_CHUNK_SIZE - 1)). unfold UPLOAD_CHUNK_SIZE. lia. }
    eapply (finishes_step _ _ _ UChunk); [done|unfold upload_step; cbn [up_state with_state]; by rewrite Ec|].
    apply IH. rewrite length_drop. cbn [length] in *.
    assert (0 < Z.to_nat UPLOAD_CHUNK_SIZE)%nat by (unfold UPLOAD_CHUNK_SIZE; lia). lia.
Qed.

Lemma upload_finishes u d : finishes u d Arrived.
Proof.
  eapply (finishes_step _ _ _ UStart); [done|done|].
  destruct (plan_upload _ _ _ _ _) as [r|g]; [apply finishes_over|].
  destruct (open_wb d (write_path g)) as [e|[d' i]] eqn:E.
  - eapply (finishes_step _ _ _ UOpen); [done|cbn; rewrite E; done|apply finishes_over].
  - eapply (finishes_step _ _ _ UOpen); [done|cbn; rewrite E; done|by eapply finishes_writing].
Qed.

(** C10: An upload that nobody disturbs comes to its end, and when it does, however its bytes were
    flushed, the file system and the answer are those of [upload_file]: the theorems on that
    function are about the code with its awaits. *)
Theorem upload_refines d u :
  disk_ok d → base_ok (view d) (up_base u) → up_state u = Arrived →
  (∃ es d' r, UFail ∉ es ∧ run_uploads ((λ e, (0%nat, e)) <$> es) (d, [u]) = Some (d', [with_state (Over r) u])) ∧
  (∀ es d' us' u' r, UFail ∉ es → run_uploads ((λ e, (0%nat, e)) <$> es) (d, [u]) = Some (d', us') →
     us' !! 0%nat = Some u' → up_state u' = Over r →
     (view d', r) = (let '(t, r) := upload_file (up_base u) (up_dir u) (up_name u) (up_content u) (up_conflict u) (view d)
                     in (t, as_upload r))).
Proof.
  intros Hd Hb Hs. assert (u = with_state Arrived u) as Hu by (destruct u; cbn in Hs; by subst). split.
  - destruct (upload_finishes u d) as (es & d' & r & Hf & Hrun). rewrite <-Hu in Hrun. eauto.
  - intros es d' us' u' r Hf Hrun H0 Hr. rewrite Hu in Hrun.
    destruct (alone_run es d u Arrived d' us' Hb Hd d eq_refl Hf Hrun) as (s' & -> & Ha).
    injection H0 as <-. cbn in Hr. subst s'. cbn in Ha.
    destruct (upload_file _ _ _ _ _ _) as [t r']. by destruct Ha as [-> ->].
Qed.

(** ** The same target *)

Definition ex_upload (content : bytes) (cr : option ConflictResolution) : Upload :=
  {| up_base := []; up_dir := []; up_name := py "a"; up_content := content; up_conflict := cr; up_state := Arrived |}.

Definition ex_disk : disk := {| entries := {[ [] := EDir ]}; inodes := ∅; next_ino := 0 |}.

Definition ex_long : bytes := [Byte.x61; Byte.x61; Byte.x61].
Definition ex_short : bytes := [Byte.x62].

(** Two uploads of a new name, and no word about conflicts. *)
Definition ex_race : list (nat * UploadEvent) :=
  [(0%nat, UStart); (1%nat, UStart); (0%nat, UOpen); (1%nat, UOpen); (0%nat, UChunk); (1%nat, UChunk);
   (0%nat, UClose); (1%nat, UClose)].

(** Two uploads of the same new file at the same time are both accepted, though one of them should
    have met a conflict, and the file holds the bytes of neither. *)
Theorem upload_race :
  ∃ d us, run_uploads ex_race (ex_disk, [ex_upload ex_long None; ex_upload ex_short None]) = Some (d, us) ∧
    (up_state <$> us) = [Over (inr (uploaded (py "a") ex_long)); Over (inr (uploaded (py "a") ex_short))] ∧
    view d !! [py "a"] = Some (FFile [Byte.x62; Byte.x61; Byte.x61]).
Proof. eexists _, _. split; [vm_compute; reflexivity|]. by split; vm_compute. Qed.

(** Two uploads that overwrite the same file share the temporary file: the first puts a mixture in
    place, the second fails. *)
Definition ex_old : disk := create_file [py "a"] ex_disk.

Definition ex_overwrite : list (nat * UploadEvent) := ex_race ++ [(0%nat, UReplace); (1%nat, UReplace)].

Theorem overwrite_race :
  ∃ d us, run_uploads ex_overwrite (ex_old, [ex_upload ex_long (Some OVERWRITE); ex_upload ex_short (Some OVERWRITE)])
            = Some (d, us) ∧
    (up_state <$> us) = [Over (inr (uploaded (py "a") ex_long)); Over (inl (FileError FileNotFoundError))] ∧
    view d !! [py "a"] = Some (FFile [Byte.x62; Byte.x61; Byte.x61]).
Proof. eexists _, _. split; [vm_compute; reflexivity|]. by split; vm_compute. Qed.

(** ** Examples *)

Lemma ex_old_ok : disk_ok ex_old.
Proof.
  apply disk_ok_create. split; cbn.
  - intros p q i [<- [=]]%lookup_singleton_Some.
  - intros p i [_ [=]]%lookup_singleton_Some.
Qed.

Definition ex_over : Target := {| tg_dir := []; tg_name := py "a"; tg_temp := true |}.
Definition ex_new : Target := {| tg_dir := []; tg_name := py "b"; tg_temp := false |}.

Lemma uploads_isolated_witness :
  ∃ d us, run_uploads (drop 2 ex_race ++ [(0%nat, UReplace)])
      (ex_old, [with_state (Opening ex_over) (ex_upload ex_long None); with_state (Opening ex_new) (ex_upload ex_short None)])
    = Some (d, us) ∧
    view d !! [py "a"] = Some (FFile ex_long) ∧ view d !! [py "b"] = Some (FFile ex_short) ∧ view d !! [py "a.tmp"] = None.
Proof.
  set (us0 := [with_state (Opening ex_over) (ex_upload ex_long None); with_state (Opening ex_new) (ex_upload ex_short None)]).
  set (es := drop 2 ex_race ++ [(0%nat, UReplace)]).
  assert (∃ d us, run_uploads es (ex_old, us0) = Some (d, us) ∧ view d !! [py "a.tmp"] = None ∧
    (up_state <$> us) = [Over (inr (uploaded (py "a") ex_long)); Over (inr (uploaded (py "b") ex_short))])
    as (d & us & Hrun & Htmp & Hs).
  { eexists _, _. split; [vm_compute; reflexivity|]. by split; vm_compute. }
  assert (Forall2 (λ u g, up_state u = Opening g) us0 [ex_over; ex_new]) as Ho by (repeat constructor).
  assert (apart [ex_over; ex_new]) as Ha.
  { assert (Forall (λ p, p ∉ foot ex_new) (foot ex_over)) as Hf by (apply (bool_decide_unpack _); vm_compute; exact I).
    rewrite Forall_forall in Hf.
    intros i j g g' Hne H1 H2 p Hp.
    destruct i as [|[|i]]; [| |discriminate H1]; injection H1 as <-;
      (destruct j as [|[|j]]; [| |discriminate H2]); injection H2 as <-; [by destruct Hne| | |by destruct Hne].
    - by apply Hf.
    - intros Hq. by apply (Hf p). }
  assert (Forall (real_target ex_old) [ex_over; ex_new]) as Hr.
  { assert (tree_check (view ex_old) = true) as Hc by by vm_compute.
    repeat constructor; try (by apply tree_check_links); by vm_compute. }
  destruct (uploads_isolated ex_old us0 [ex_over; ex_new] es d us ex_old_ok Ho Ha Hr Hrun) as (Hcon & Hi & _).
  exists d, us. split; [exact Hrun|]. clear Hrun.
  destruct us as [|u0 [|u1 [|]]]; try done. injection Hs as Hs0 Hs1. injection Hcon as Hc0 Hc1.
  destruct (Hi 0%nat u0 ex_over eq_refl eq_refl) as [H0 _]. destruct (Hi 1%nat u1 ex_new eq_refl eq_refl) as [H1 _].
  destruct (H0 _ Hs0) as [_ E0]. destruct (H1 _ Hs1) as [_ E1]. rewrite Hc0 in E0. rewrite Hc1 in E1. done.
Defined.

Lemma upload_refines_witness :
  ∃ es d' r, UFail ∉ es ∧ run_uploads ((λ e, (0%nat, e)) <$> es) (ex_old, [ex_upload ex_long (Some RENAME)])
    = Some (d', [with_state (Over r) (ex_upload ex_long (Some RENAME))]) ∧ view d' !! [py "a_1"] = Some (FFile ex_long).
Proof.
  set (u := ex_upload ex_long (Some RENAME)).
  assert (base_ok (view ex_old) (up_base u)) as Hb.
  { split; [apply tree_check_links; by vm_compute|by constructor]. }
  destruct (upload_refines ex_old u ex_old_ok Hb eq_refl) as [(es & d' & r & Hf & Hrun) Href].
  exists es, d', r. split; [exact Hf|]. split; [exact Hrun|].
  specialize (Href es d' _ _ r Hf Hrun eq_refl eq_refl). clear Hrun.
  assert ((upload_file (up_base u) (up_dir u) (up_name u) (up_content u) (up_conflict u) (view ex_old)).1 !! [py "a_1"]
    = Some (FFile ex_long)) as E by by vm_compute.
  destruct (upload_file _ _ _ _ _ _) as [t r']. injection Href as Hv _. rewrite Hv. exact E.
Defined.
