(* ===== verification/Schema.v ===== *)
(** The SQLite databases: how they are opened and what their tables are.

    [src/shared/sqlite_kernel.py], [_init_schema] of
    [src/server/app/services/sqlite_store.py], [create] of
    [src/accounts/sqlite_store.py], [src/relay/app/services/file_ttl_db.py] and
    [src/relay/app/services/sqlite_registry.py] with the migration of old databases,
    and the statements of the registry on the table [mounts].

    A table is a list of columns and a list of rows with a value for each; a statement that
    SQLite refuses gives [None]. *)

From stdpp Require Import strings.
From S2P Require Import Prelude Utf8 Json Accounts Registry Agent AgentWs.

Local Open Scope Z_scope.

(** ** Tables *)

(** REAL values are time stamps. *)
Inductive sql_value :=
| VNull
| VInt (z : Z)
| VReal (t : time)
| VText (s : pystr)
| VBlob (b : bytes).

#[export] Instance sql_value_eq_dec : EqDecision sql_value.
Proof. solve_decision. Defined.

Inductive sql_type := INTEGER | TEXT | REAL | BLOB.

#[export] Instance sql_type_eq_dec : EqDecision sql_type.
Proof. solve_decision. Defined.

Record column := { c_name : pystr; c_type : sql_type; c_notnull : bool; c_default : sql_value }.

#[export] Instance column_eq_dec : EqDecision column.
Proof. solve_decision. Defined.

(** [t_keys] are the columns of the primary key and of the UNIQUE constraints. *)
Record table := {
  t_cols : list column;
  t_keys : list (list pystr);
  t_rows : list (list sql_value)
}.

#[export] Instance table_eq_dec : EqDecision table.
Proof. solve_decision. Defined.

Record database := { tables : gmap pystr table; indexes : gset pystr }.

Definition empty_db : database := {| tables := ∅; indexes := ∅ |}.

Definition col_names (cols : list column) : list pystr := c_name <$> cols.

(** The value of a row in the column called [n]. *)
Fixpoint value_of (cols : list column) (row : list sql_value) (n : pystr) : option sql_value :=
  match cols, row with
  | c :: cols', v :: row' => if bool_decide (c_name c = n) then Some v else value_of cols' row' n
  | _, _ => None
  end.

(** Columns of the declarations. *)
Definition col (n : string) (ty : sql_type) : column :=
  {| c_name := py n; c_type := ty; c_notnull := false; c_default := VNull |}.
Definition notnull (n : string) (ty : sql_type) : column :=
  {| c_name := py n; c_type := ty; c_notnull := true; c_default := VNull |}.
Definition notnull_default (n : string) (ty : sql_type) (v : sql_value) : column :=
  {| c_name := py n; c_type := ty; c_notnull := true; c_default := v |}.

(** ** Statements of a schema *)

Inductive ddl :=
| CreateTable (name : pystr) (cols : list column) (keys : list (list pystr))
| CreateIndex (name tbl : pystr) (cols : list pystr)
| AddColumn (tbl : pystr) (c : column).

(** [CREATE TABLE IF NOT EXISTS], [CREATE INDEX IF NOT EXISTS], [ALTER TABLE ADD COLUMN] *)
Definition exec_ddl (s : ddl) (db : database) : option database :=
  match s with
  | CreateTable name cols keys =>
      match tables db !! name with
      | Some _ => Some db
      | None =>
          if bool_decide (name ∈ indexes db) then None
          else Some {| tables := <[name := {| t_cols := cols; t_keys := keys; t_rows := [] |}]> (tables db);
                       indexes := indexes db |}
      end
  | CreateIndex name tbl cols =>
      if bool_decide (name ∈ indexes db) then Some db
      else match tables db !! name, tables db !! tbl with
           | None, Some t =>
               if forallb (λ n, bool_decide (n ∈ col_names (t_cols t))) cols
               then Some {| tables := tables db; indexes := {[ name ]} ∪ indexes db |}
               else None
           | _, _ => None
           end
  | AddColumn tbl c =>
      t ← tables db !! tbl;
      if bool_decide (c_name c ∈ col_names (t_cols t)) then None
      else if c_notnull c && bool_decide (c_default c = VNull) then None
      else Some {| tables := <[tbl := {| t_cols := t_cols t ++ [c]; t_keys := t_keys t;
                                         t_rows := (λ r, r ++ [c_default c]) <$> t_rows t |}]> (tables db);
                   indexes := indexes db |}
  end.

Fixpoint exec_all (ss : list ddl) (db : database) : option database :=
  match ss with
  | [] => Some db
  | s :: ss' => db' ← exec_ddl s db; exec_all ss' db'
  end.

(** ** [sqlite_kernel.py] *)

(** [OperationalError] is SQLite's, [KernelValueError] the [ValueError] of the kernel. *)
Inductive DbExn := KernelValueError | OperationalError.

Definition MEMORY : pystr := py ":memory:".

Definition is_new_db (files : gmap pystr database) (db_path : pystr) : DbExn + bool :=
  if bool_decide (db_path = []) then inl KernelValueError
  else inr (bool_decide (db_path = MEMORY) || negb (bool_decide (is_Some (files !! db_path)))).

(** A file that does not exist yet, and every database in memory, is empty. *)
Definition open_wal_db (files : gmap pystr database) (db_path : pystr) : DbExn + database :=
  if bool_decide (db_path = []) then inl KernelValueError
  else if bool_decide (db_path = MEMORY) then inr empty_db
  else inr (default empty_db (files !! db_path)).

Definition run_schema (db : database) (statements : list ddl) : DbExn + database :=
  if bool_decide (length statements = 0%nat) then inl KernelValueError
  else match exec_all statements db with Some db' => inr db' | None => inl OperationalError end.

(** ** The server's database *)

Definition _init_schema : list ddl :=
  [CreateTable (py "clipboard_snippets")
     [col "id" TEXT; notnull "title" TEXT; notnull "content" TEXT; notnull "created_at" TEXT; notnull "updated_at" TEXT]
     [[py "id"]];
   CreateTable (py "file_requests")
     [col "id" TEXT; notnull "description" TEXT; notnull "requester_device_id" TEXT;
      notnull "requester_device_name" TEXT; notnull "status" TEXT; notnull "created_at" TEXT;
      col "fulfilled_by_device_name" TEXT; col "fulfilled_file_name" TEXT; col "fulfilled_file_path" TEXT;
      col "fulfilled_at" TEXT]
     [[py "id"]];
   CreateTable (py "share_links")
     [col "token" TEXT; notnull "file_path" TEXT; notnull "created_at" TEXT; notnull "ttl_seconds" INTEGER]
     [[py "token"]];
   CreateTable (py "upload_owners") [col "rel_path" TEXT; notnull "uploader" TEXT] [[py "rel_path"]];
   CreateTable (py "meta") [col "key" TEXT; notnull "value" TEXT] [[py "key"]]].

Definition _DB_FILENAME : pystr := py "server_state.db".

Definition state_db_path (data_dir : list pystr) : list pystr := data_dir ++ [_DB_FILENAME].

(** [ServerStateStore(db_path)] on the database that is in the file *)
Definition open_state_store (db : database) : DbExn + database :=
  match exec_all _init_schema db with Some db' => inr db' | None => inl OperationalError end.

(** ** The accounts *)

Definition _CREATE_USERS_SQL : ddl :=
  CreateTable (py "users")
    [col "id" INTEGER; notnull "username" TEXT; col "email" TEXT; notnull "password_hash" BLOB;
     notnull "created_at" REAL; notnull_default "is_active" INTEGER (VInt 1)]
    [[py "id"]; [py "username"]].
Definition _CREATE_GROUPS_SQL : ddl :=
  CreateTable (py "groups") [col "id" INTEGER; notnull "name" TEXT; notnull "created_at" REAL] [[py "id"]; [py "name"]].
Definition _CREATE_MEMBERSHIPS_SQL : ddl :=
  CreateTable (py "memberships") [notnull "group_id" INTEGER; notnull "member_type" TEXT; notnull "member_id" INTEGER]
    [[py "group_id"; py "member_type"; py "member_id"]].
Definition _CREATE_USER_QUOTA_SQL : ddl :=
  CreateTable (py "user_quota") [col "user_id" INTEGER; notnull "quota_bytes" INTEGER] [[py "user_id"]].
Definition _CREATE_EXTERNAL_IDENTITIES_SQL : ddl :=
  CreateTable (py "external_identities")
    [notnull "provider" TEXT; notnull "subject" TEXT; notnull "user_id" INTEGER; notnull "created_at" REAL]
    [[py "provider"; py "subject"]].
Definition _CREATE_MEMBER_INDEX_SQL : ddl :=
  CreateIndex (py "idx_memberships_member") (py "memberships") [py "member_type"; py "member_id"].
Definition _CREATE_GROUP_INDEX_SQL : ddl :=
  CreateIndex (py "idx_memberships_group") (py "memberships") [py "group_id"].
Definition _CREATE_EXTERNAL_USER_INDEX_SQL : ddl :=
  CreateIndex (py "idx_external_identities_user") (py "external_identities") [py "user_id"].

Definition account_schema : list ddl :=
  [_CREATE_USERS_SQL; _CREATE_GROUPS_SQL; _CREATE_MEMBERSHIPS_SQL; _CREATE_USER_QUOTA_SQL;
   _CREATE_EXTERNAL_IDENTITIES_SQL; _CREATE_MEMBER_INDEX_SQL; _CREATE_GROUP_INDEX_SQL; _CREATE_EXTERNAL_USER_INDEX_SQL].

(** [SqliteAccountStore.create] *)
Definition create_accounts (files : gmap pystr database) (db_path : pystr) : DbExn + database :=
  db ← open_wal_db files db_path;
  match exec_all account_schema db with Some db' => inr db' | None => inl OperationalError end.

(** ** The TTLs of files *)

Definition _CREATE_FILE_TTL_TABLE : ddl :=
  CreateTable (py "file_ttl")
    [col "id" INTEGER; notnull "mount_code" TEXT; notnull "file_path" TEXT; notnull "expires_at" REAL; notnull "created_at" REAL]
    [[py "id"]; [py "mount_code"; py "file_path"]].
Definition _CREATE_FILE_TTL_INDEX : ddl := CreateIndex (py "idx_file_ttl_expires") (py "file_ttl") [py "expires_at"].

Definition init_table (db : database) : DbExn + database :=
  match exec_all [_CREATE_FILE_TTL_TABLE; _CREATE_FILE_TTL_INDEX] db with
  | Some db' => inr db'
  | None => inl OperationalError
  end.

Definition create_file_ttl (files : gmap pystr database) (db_path : pystr) : DbExn + database :=
  db ← open_wal_db files db_path; init_table db.

(** ** The registry *)

(** The columns of the first schema, and those that were added. *)
Definition old_columns : list column :=
  [col "code" TEXT; notnull_default "status" TEXT (VText (py "online")); notnull "agent_ip" TEXT;
   notnull "created_at" REAL; col "expires_at" REAL; notnull_default "ttl_warned" INTEGER (VInt 0)].

Definition _CREATE_TABLE_SQL : ddl :=
  CreateTable (py "mounts")
    (old_columns ++ [col "owner_user_id" INTEGER; notnull_default "access_mode" TEXT (VText (py "open"));
                     notnull_default "has_password" INTEGER (VInt 0)])
    [[py "code"]].
Definition _CREATE_POLICY_TABLE_SQL : ddl :=
  CreateTable (py "mount_policy")
    [notnull "code" TEXT; notnull "subject_type" TEXT; notnull "subject_id" INTEGER; notnull "role" TEXT]
    [[py "code"; py "subject_type"; py "subject_id"]].
Definition _CREATE_ACCESS_REQUESTS_SQL : ddl :=
  CreateTable (py "access_requests")
    [col "id" INTEGER; notnull "code" TEXT; notnull "user_id" INTEGER;
     notnull_default "status" TEXT (VText (py "pending")); notnull "created_at" REAL]
    [[py "id"]; [py "code"; py "user_id"]].
Definition _CREATE_IP_INDEX_SQL : ddl := CreateIndex (py "idx_mounts_agent_ip") (py "mounts") [py "agent_ip"].
Definition _CREATE_STATUS_INDEX_SQL : ddl := CreateIndex (py "idx_mounts_status") (py "mounts") [py "status"].

Definition _MIGRATION_COLUMNS : list column :=
  [col "owner_user_id" INTEGER; notnull_default "access_mode" TEXT (VText (py "legacy"));
   notnull_default "has_password" INTEGER (VInt 0)].

Definition registry_schema : list ddl :=
  [_CREATE_TABLE_SQL; _CREATE_IP_INDEX_SQL; _CREATE_STATUS_INDEX_SQL; _CREATE_POLICY_TABLE_SQL; _CREATE_ACCESS_REQUESTS_SQL].

(** The loop over [_MIGRATION_COLUMNS]; the columns that exist were read before it. *)
Definition migrate (existing_cols : list pystr) (db : database) : option database :=
  exec_all (AddColumn (py "mounts") <$> filter (λ c, c_name c ∉ existing_cols) _MIGRATION_COLUMNS) db.

(** *** The cleanup at the start *)

(** The row with [v] in the column called [n]. *)
Fixpoint set_value (cols : list column) (row : list sql_value) (n : pystr) (v : sql_value) : list sql_value :=
  match cols, row with
  | c :: cols', x :: row' => if bool_decide (c_name c = n) then v :: row' else x :: set_value cols' row' n v
  | _, _ => row
  end.

(** [DELETE FROM t WHERE p] and [UPDATE t SET n = v WHERE p] *)
Definition delete_where (p : list sql_value → bool) (t : table) : table :=
  {| t_cols := t_cols t; t_keys := t_keys t; t_rows := filter (λ r, p r = false) (t_rows t) |}.

Definition update_where (n : pystr) (v : sql_value) (p : list sql_value → bool) (t : table) : table :=
  {| t_cols := t_cols t; t_keys := t_keys t;
     t_rows := (λ r, if p r then set_value (t_cols t) r n v else r) <$> t_rows t |}.

(** [status = ?], and [expires_at IS NOT NULL AND expires_at < ?] *)
Definition status_is (s : pystr) (cols : list column) (row : list sql_value) : bool :=
  bool_decide (value_of cols row (py "status") = Some (VText s)).

Definition expires_lt (t : time) (cols : list column) (row : list sql_value) : bool :=
  match value_of cols row (py "expires_at") with Some (VReal x) => x <? t | _ => false end.

(** [_startup_cleanup] on the table; a column that is not there is an error of SQLite. *)
Definition cleanup_mounts (now : time) (t : table) : option table :=
  if forallb (λ n, bool_decide (n ∈ col_names (t_cols t))) [py "status"; py "expires_at"] then
    let cols := t_cols t in
    let retention_cutoff := now - seconds _RETENTION_SECONDS in
    let t := delete_where (λ r, status_is (py "expired") cols r && expires_lt retention_cutoff cols r) t in
    let t := update_where (py "status") (VText (py "expired")) (expires_lt now cols) t in
    Some (update_where (py "status") (VText (py "offline")) (status_is (py "online") cols) t)
  else None.

(** [SqliteMountRegistry.create] at the time [now] *)
Definition create_registry (now : time) (files : gmap pystr database) (db_path : pystr) : DbExn + database :=
  _ ← is_new_db files db_path;
  db ← open_wal_db files db_path;
  db ← run_schema db registry_schema;
  let existing_cols := match tables db !! py "mounts" with Some t => col_names (t_cols t) | None => [] end in
  match migrate existing_cols db with
  | None => inl OperationalError
  | Some db =>
      match tables db !! py "mounts" ≫= cleanup_mounts now with
      | None => inl OperationalError
      | Some t => inr {| tables := <[py "mounts" := t]> (tables db); indexes := indexes db |}
      end
  end.

(** ** Statements on [mounts] *)

(** [INSERT OR REPLACE INTO t (names) VALUES (...)]: the other columns take their defaults; rows with
    the same key are removed.  For tables whose key is among the given columns. *)
Definition full_row (cols : list column) (given : list (pystr * sql_value)) : list sql_value :=
  (λ c, match List.find (λ nv, bool_decide (nv.1 = c_name c)) given with
        | Some nv => nv.2
        | None => c_default c
        end) <$> cols.

Definition same_key (cols : list column) (key : list pystr) (r r' : list sql_value) : bool :=
  forallb (λ n, match value_of cols r n, value_of cols r' n with
                | Some v, Some v' => bool_decide (v = v') && negb (bool_decide (v = VNull))
                | _, _ => false
                end) key.

Definition insert_or_replace (given : list (pystr * sql_value)) (t : table) : option table :=
  let row := full_row (t_cols t) given in
  if forallb (λ cv : column * sql_value, negb (c_notnull cv.1 && bool_decide (cv.2 = VNull))) (zip (t_cols t) row)
  then Some {| t_cols := t_cols t; t_keys := t_keys t;
               t_rows := filter (λ r, existsb (λ k, same_key (t_cols t) k r row) (t_keys t) = false) (t_rows t) ++ [row] |}
  else None.

Definition real_or_null (t : option time) : sql_value := match t with Some x => VReal x | None => VNull end.

(** The statement of [register] *)
Definition register_values (code agent_ip : pystr) (created_at : time) (expires_at : option time)
    : list (pystr * sql_value) :=
  [(py "code", VText code); (py "status", VText (py "online")); (py "agent_ip", VText agent_ip);
   (py "created_at", VReal created_at); (py "expires_at", real_or_null expires_at); (py "ttl_warned", VInt 0)].

(** ** Reading *)

Definition mount_status_of (s : pystr) : option MountStatus :=
  if bool_decide (s = py "online") then Some ONLINE
  else if bool_decide (s = py "offline") then Some OFFLINE
  else if bool_decide (s = py "expired") then Some EXPIRED else None.

Definition text_of (v : sql_value) : option pystr := match v with VText s => Some s | _ => None end.
Definition int_of (v : sql_value) : option Z := match v with VInt z => Some z | _ => None end.
Definition real_of (v : sql_value) : option time := match v with VReal t => Some t | _ => None end.
Definition nullable {A} (f : sql_value → option A) (v : sql_value) : option (option A) :=
  match v with VNull => Some None | _ => Some <$> f v end.

Definition field {A} (cols : list column) (row : list sql_value) (n : pystr) (f : sql_value → option A) : option A :=
  v ← value_of cols row n; f v.

(** A row as the queries of the registry read it. *)
Definition read_mount (cols : list column) (row : list sql_value) : option (pystr * mount_row) :=
  code ← field cols row (py "code") text_of;
  status ← field cols row (py "status") text_of;
  status ← mount_status_of status;
  agent_ip ← field cols row (py "agent_ip") text_of;
  created_at ← field cols row (py "created_at") real_of;
  expires_at ← field cols row (py "expires_at") (nullable real_of);
  ttl_warned ← field cols row (py "ttl_warned") int_of;
  owner ← field cols row (py "owner_user_id") (nullable int_of);
  mode ← field cols row (py "access_mode") text_of;
  mode ← access_mode_of (JStr mode);
  has_password ← field cols row (py "has_password") int_of;
  Some (code, {| m_status := status; m_agent_ip := agent_ip; m_created_at := created_at; m_expires_at := expires_at;
                 m_ttl_warned := negb (ttl_warned =? 0); m_owner_user_id := owner; m_access_mode := mode;
                 m_has_password := negb (has_password =? 0) |}).

Definition read_mounts (t : table) : option (gmap pystr mount_row) :=
  list_to_map <$> mapM (read_mount (t_cols t)) (t_rows t).
