(* ===== verification/SchemaProps.v ===== *)
(** Opening a database keeps what is in it and may be repeated; old databases of the registry are
    migrated without a loss; the statements on [mounts] do what the registry's map does. *)

From stdpp Require Import strings.
From S2P Require Import Prelude Utf8 Json Accounts Registry Agent AgentWs Schema.

Local Open Scope Z_scope.
Implicit Types db : database.

(** ** Schemas of CREATE statements *)

Definition creates (s : ddl) : bool := match s with AddColumn _ _ => false | _ => true end.

(** Tables and indexes stay as they are; what is new is empty. *)
Record grows db db' : Prop := {
  gr_tables : tables db ⊆ tables db';
  gr_indexes : indexes db ⊆ indexes db';
  gr_new : ∀ n t, tables db !! n = None → tables db' !! n = Some t → t_rows t = []
}.

#[export] Instance grows_preorder : PreOrder grows.
Proof.
  split.
  - intros db. split; [done|done|congruence].
  - intros db1 db2 db3 [H1 H2 H3] [H4 H5 H6]. split; [by etrans|by etrans|].
    intros n t Hn Ht. destruct (tables db2 !! n) as [t2|] eqn:E; [|by eapply H6].
    rewrite (lookup_weaken _ _ _ _ E H4) in Ht. injection Ht as <-. by eapply H3.
Qed.

Lemma exec_creates s db db' : creates s = true → exec_ddl s db = Some db' → grows db db' ∧ exec_ddl s db' = Some db'.
Proof.
  destruct s as [name cols keys|name tbl cols|]; [| |done]; intros _; cbn [exec_ddl].
  - destruct (tables db !! name) as [t|] eqn:E; [intros [= <-]; split; [reflexivity|by rewrite E]|].
    case_bool_decide as Hi; [done|]. intros [= <-]. cbn. rewrite lookup_insert_eq. split; [|done]. split; cbn.
    + by apply insert_subseteq.
    + done.
    + intros n t Hn. destruct (decide (n = name)) as [->|]; [rewrite lookup_insert_eq; by intros [= <-]|].
      rewrite lookup_insert_ne by done. congruence.
  - case_bool_decide as Hi; [intros [= <-]; split; [reflexivity|by rewrite bool_decide_eq_true_2]|].
    destruct (tables db !! name); [done|]. destruct (tables db !! tbl) as [t|]; [|done].
    destruct (forallb _ cols); [|done]. intros [= <-]. cbn. split; [|by rewrite bool_decide_eq_true_2 by set_solver].
    split; cbn; [done|set_solver|congruence].
Qed.

(** The tables, by their names, and the indexes are still there. *)
Definition keeps_names db db' : Prop :=
  (∀ n, is_Some (tables db !! n) → is_Some (tables db' !! n)) ∧ indexes db ⊆ indexes db'.

Lemma grows_keeps db db' db'' : grows db db' → keeps_names db' db'' → keeps_names db db''.
Proof.
  intros [H1 H2 _] [H3 H4]. split; [|by etrans]. intros n [t Ht]. apply H3. exists t. by eapply lookup_weaken.
Qed.

(** What was created stays created. *)
Lemma exec_settled s db db' : creates s = true → exec_ddl s db = Some db → keeps_names db db' → exec_ddl s db' = Some db'.
Proof.
  destruct s as [name cols keys|name tbl cols|]; [| |done]; intros _ Hs [Ht Hi]; cbn [exec_ddl] in *.
  - destruct (tables db !! name) as [t|] eqn:E; [destruct (Ht name) as [t' ->]; [by exists t|done]|].
    case_bool_decide; [done|]. injection Hs as Hs. exfalso.
    assert (tables db !! name = Some {| t_cols := cols; t_keys := keys; t_rows := [] |}) as E'
      by (rewrite <-Hs; cbn; apply lookup_insert_eq). congruence.
  - case_bool_decide as H1; [rewrite bool_decide_eq_true_2 by set_solver; done|].
    destruct (tables db !! name); [done|]. destruct (tables db !! tbl) as [t|]; [|done].
    destruct (forallb _ cols); [|done]. injection Hs as Hs. exfalso. apply H1. rewrite <-Hs. cbn. set_solver.
Qed.

Lemma exec_all_grows ss : ∀ db db', forallb creates ss = true → exec_all ss db = Some db' →
  grows db db' ∧ (∀ db'', keeps_names db' db'' → exec_all ss db'' = Some db'').
Proof.
  induction ss as [|s ss IH]; intros db db'; cbn [exec_all forallb].
  - intros _ [= <-]. by split.
  - intros [Hc Hcs]%andb_true_iff. destruct (exec_ddl s db) as [db1|] eqn:E; [|done]. cbn [mbind option_bind].
    destruct (exec_creates _ _ _ Hc E) as [Hg Hs]. intros Hr. destruct (IH _ _ Hcs Hr) as [Hg' Hr'].
    split; [by etrans|]. intros db'' Hg''. rewrite (exec_settled s db1) by (done || by eapply grows_keeps). cbn [mbind option_bind]. by apply Hr'.
Qed.

(** The schemas of the four databases. *)
Definition store_schemas : list (list ddl) :=
  [_init_schema; account_schema; [_CREATE_FILE_TTL_TABLE; _CREATE_FILE_TTL_INDEX]; registry_schema].

(** Opening a store keeps every table with all its rows, adds empty tables only, and opening it again
    changes nothing; a new file is always opened. *)
Lemma schemas_reopen ss :
  ss ∈ store_schemas →
  (∃ db, exec_all ss empty_db = Some db) ∧
  ∀ db db', exec_all ss db = Some db' → grows db db' ∧ exec_all ss db' = Some db'.
Proof.
  intros Hss. assert (Forall (λ ss, forallb creates ss = true ∧ bool_decide (is_Some (exec_all ss empty_db)) = true) store_schemas) as Hf.
  { repeat constructor; by vm_compute. }
  rewrite Forall_forall in Hf. destruct (Hf _ Hss) as [Hc He]. apply bool_decide_eq_true in He as [db0 He].
  split; [by exists db0|]. intros db db' Hr. destruct (exec_all_grows _ _ _ Hc Hr) as [Hg Hs].
  split; [done|]. apply Hs. by split.
Qed.

(** ** The migration *)

Lemma value_of_app cols c row v n :
  length row = length cols →
  value_of (cols ++ [c]) (row ++ [v]) n
    = if bool_decide (n ∈ col_names cols) then value_of cols row n
      else if bool_decide (n = c_name c) then Some v else None.
Proof.
  revert row. induction cols as [|c' cols IH]; intros [|v' row] Hl; try done; cbn [app value_of].
  - rewrite (bool_decide_eq_false_2 (n ∈ _)) by apply not_elem_of_nil. destruct (decide (n = c_name c)) as [->|].
    + by rewrite !bool_decide_eq_true_2.
    + by rewrite !bool_decide_eq_false_2.
  - cbn in Hl. rewrite IH by lia. unfold col_names. rewrite fmap_cons.
    destruct (decide (c_name c' = n)) as [E1|E1].
    { rewrite (bool_decide_eq_true_2 (c_name c' = n)) by done.
      by rewrite bool_decide_eq_true_2 by (rewrite elem_of_cons; by left). }
    rewrite (bool_decide_eq_false_2 (c_name c' = n)) by done.
    rewrite (bool_decide_ext (n ∈ c_name c' :: _) (n ∈ c_name <$> cols)); [done|].
    rewrite elem_of_cons. split; [|by right]. intros [->|]; done.
Qed.

(** The columns and rows after some columns were added. *)
Definition extend_row (cs : list column) (row : list sql_value) : list sql_value := row ++ (c_default <$> cs).

Definition extend (cs : list column) (t : table) : table :=
  {| t_cols := t_cols t ++ cs; t_keys := t_keys t; t_rows := extend_row cs <$> t_rows t |}.

Lemma extend_nil t : extend [] t = t.
Proof.
  unfold extend, extend_row. destruct t as [cols keys rows]. cbn. rewrite app_nil_r. f_equal.
  induction rows as [|r rows IH]; [done|]. cbn. by rewrite app_nil_r, IH.
Qed.

Lemma extend_cons c cs t : extend cs (extend [c] t) = extend (c :: cs) t.
Proof.
  unfold extend, extend_row. cbn. rewrite <-(assoc_L (++)), <-list_fmap_compose. f_equal.
  apply list_fmap_ext. intros i r _. cbn. by rewrite <-(assoc_L (++)).
Qed.

Definition with_table (n : pystr) (t : table) db : database :=
  {| tables := <[n := t]> (tables db); indexes := indexes db |}.

Lemma exec_add_columns cs : ∀ db n t,
  tables db !! n = Some t → NoDup (c_name <$> cs) →
  Forall (λ c, c_name c ∉ col_names (t_cols t) ∧ (c_notnull c = true → c_default c ≠ VNull)) cs →
  exec_all (AddColumn n <$> cs) db = Some (with_table n (extend cs t) db).
Proof.
  induction cs as [|c cs IH]; intros db n t Ht Hn Hf; cbn [fmap list_fmap exec_all].
  { rewrite extend_nil. unfold with_table. rewrite insert_id by done. by destruct db. }
  rewrite fmap_cons in Hn. apply NoDup_cons in Hn as [Hc Hn]. apply Forall_cons in Hf as [[H1 H2] Hf].
  cbn [exec_ddl]. rewrite Ht. cbn [mbind option_bind]. rewrite bool_decide_eq_false_2 by done.
  replace (c_notnull c && bool_decide (c_default c = VNull)) with false.
  2: { destruct (c_notnull c); [|done]. by rewrite bool_decide_eq_false_2 by by apply H2. }
  cbn [mbind option_bind].
  change (exec_all (AddColumn n <$> cs) (with_table n (extend [c] t) db) = Some (with_table n (extend (c :: cs) t) db)).
  rewrite (IH _ n (extend [c] t)); [|apply lookup_insert_eq|done|].
  - unfold with_table. cbn. rewrite insert_insert_eq. by rewrite extend_cons.
  - apply Forall_forall. intros c' Hin. rewrite Forall_forall in Hf. destruct (Hf _ Hin) as [H3 H4]. split; [|done].
    cbn. unfold col_names. rewrite fmap_app, not_elem_of_app. split; [done|]. intros E%list_elem_of_singleton.
    apply Hc. rewrite <-E. apply list_elem_of_fmap. by exists c'.
Qed.

Lemma extend_value cs : ∀ cols row n,
  length row = length cols → n ∈ col_names cols → value_of (cols ++ cs) (extend_row cs row) n = value_of cols row n.
Proof.
  induction cs as [|c cs IH] using rev_ind; intros cols row n Hl Hn; unfold extend_row; [by rewrite !app_nil_r|].
  rewrite fmap_app, !(assoc_L (++)). cbn [fmap list_fmap]. rewrite value_of_app.
  - rewrite bool_decide_eq_true_2 by (unfold col_names in *; rewrite fmap_app, elem_of_app; by left). by apply IH.
  - by rewrite !length_app, length_fmap, Hl.
Qed.

Lemma extend_new_value cs : ∀ cols row c,
  length row = length cols → c ∈ cs → NoDup (c_name <$> cs) → c_name c ∉ col_names cols →
  value_of (cols ++ cs) (extend_row cs row) (c_name c) = Some (c_default c).
Proof.
  induction cs as [|c' cs IH] using rev_ind; intros cols row c Hl Hc Hn Hnot; [by apply not_elem_of_nil in Hc|].
  unfold extend_row. rewrite fmap_app, !(assoc_L (++)). cbn [fmap list_fmap].
  rewrite value_of_app by by rewrite !length_app, length_fmap, Hl.
  rewrite fmap_app in Hn. apply NoDup_app in Hn as (Hn & Hd & _). unfold col_names. rewrite fmap_app.
  apply elem_of_app in Hc as [Hc|Hc]; [|apply list_elem_of_singleton in Hc as ->].
  - rewrite bool_decide_eq_true_2; [by apply IH|]. apply elem_of_app. right. apply list_elem_of_fmap. by exists c.
  - rewrite bool_decide_eq_false_2, bool_decide_eq_true_2; [done|done|].
    rewrite not_elem_of_app. split; [done|]. intros Hin. apply (Hd _ Hin). by apply list_elem_of_singleton.
Qed.

Lemma create_index_ok name tbl cols db t :
  tables db !! name = None → tables db !! tbl = Some t → Forall (λ n, n ∈ col_names (t_cols t)) cols →
  exec_ddl (CreateIndex name tbl cols) db = Some {| tables := tables db; indexes := {[ name ]} ∪ indexes db |}.
Proof.
  intros Hn Ht Hc. cbn [exec_ddl]. case_bool_decide as Hi.
  - replace ({[ name ]} ∪ indexes db) with (indexes db) by set_solver. by destruct db.
  - rewrite Hn, Ht. replace (forallb _ cols) with true; [done|]. symmetry. apply forallb_forall. intros n Hin.
    rewrite Forall_forall in Hc. apply bool_decide_eq_true_2, Hc. by apply list_elem_of_In.
Qed.

Lemma create_table_ok name cols keys db :
  tables db !! name = None → name ∉ indexes db →
  exec_ddl (CreateTable name cols keys) db = Some (with_table name {| t_cols := cols; t_keys := keys; t_rows := [] |} db).
Proof. intros Hn Hi. cbn [exec_ddl]. by rewrite Hn, bool_decide_eq_false_2. Qed.

(** A database of the first version: one table, and no index but its own. *)
Record first_version db (t : table) : Prop := {
  fv_tables : tables db = {[ py "mounts" := t ]};
  fv_indexes : indexes db ⊆ {[ py "idx_mounts_agent_ip"; py "idx_mounts_status" ]};
  fv_cols : Forall (λ n, n ∈ col_names (t_cols t)) [py "agent_ip"; py "status"; py "expires_at"];
  fv_rows : Forall (λ r, length r = length (t_cols t)) (t_rows t)
}.

Lemma other_name (a b : string) : bool_decide (py a = py b) = false → py a ≠ py b.
Proof. apply bool_decide_eq_false. Qed.

(** The names of the schema differ. *)
Ltac names := apply other_name; vm_compute; reflexivity.

Lemma first_version_schema db t :
  first_version db t →
  ∃ db1, exec_all registry_schema db = Some db1 ∧ tables db1 !! py "mounts" = Some t ∧
    ∀ n u, n ≠ py "mounts" → tables db1 !! n = Some u → t_rows u = [].
Proof.
  intros [Ht Hi Hc _].
  assert (∀ db1, exec_all registry_schema db = Some db1 → ∀ n u, n ≠ py "mounts" → tables db1 !! n = Some u → t_rows u = []) as Hnew.
  { intros db1 He n u Hn. destruct (exec_all_grows registry_schema db db1) as [Hg _]; [by vm_compute|done|].
    apply (gr_new _ _ Hg). rewrite Ht. by apply lookup_singleton_ne. }
  cut (∃ db1, exec_all registry_schema db = Some db1 ∧ tables db1 !! py "mounts" = Some t).
  { intros (db1 & He & Hm). exists db1. split; [done|]. split; [done|]. by apply Hnew. }
  clear Hnew. apply Forall_cons in Hc as [Hip Hc]. apply Forall_cons in Hc as [Hst _].
  assert (∀ a, bool_decide (py a = py "mounts") = false → tables db !! py a = None) as Hnone.
  { intros a Ha%other_name. rewrite Ht. by apply lookup_singleton_ne. }
  assert (tables db !! py "mounts" = Some t) as Hm by (rewrite Ht; apply lookup_singleton_eq).
  unfold registry_schema. cbn [exec_all].
  assert (exec_ddl _CREATE_TABLE_SQL db = Some db) as -> by (cbn [exec_ddl _CREATE_TABLE_SQL]; by rewrite Hm).
  cbn [mbind option_bind]. unfold _CREATE_IP_INDEX_SQL, _CREATE_STATUS_INDEX_SQL, _CREATE_POLICY_TABLE_SQL, _CREATE_ACCESS_REQUESTS_SQL.
  rewrite (create_index_ok _ _ _ _ t) by (done || (apply Hnone; by vm_compute) || by apply Forall_singleton).
  cbn [mbind option_bind].
  rewrite (create_index_ok _ _ _ _ t) by (done || (apply Hnone; by vm_compute) || by apply Forall_singleton).
  cbn [mbind option_bind tables indexes].
  assert (∀ a, bool_decide (py a = py "idx_mounts_agent_ip") = false → bool_decide (py a = py "idx_mounts_status") = false →
    py a ∉ {[ py "idx_mounts_status" ]} ∪ ({[ py "idx_mounts_agent_ip" ]} ∪ indexes db)) as Hix.
  { intros a H1%other_name H2%other_name. rewrite !elem_of_union, !elem_of_singleton.
    intros [?|[?|Hin%Hi]]; try done. rewrite elem_of_union, !elem_of_singleton in Hin. tauto. }
  rewrite create_table_ok; [|apply Hnone; by vm_compute|apply Hix; by vm_compute]. cbn [mbind option_bind with_table tables indexes].
  rewrite create_table_ok; [|cbn [tables]|cbn [indexes]; apply Hix; by vm_compute].
  - cbn [mbind option_bind]. eexists. split; [reflexivity|]. unfold with_table. cbn [tables].
    rewrite !lookup_insert_ne by names. done.
  - unfold with_table. cbn [tables]. rewrite lookup_insert_ne by names. apply Hnone. by vm_compute.
Qed.

(** The columns the migration finds missing. *)
Definition missing_columns (cols : list column) : list column :=
  filter (λ c, c_name c ∉ col_names cols) _MIGRATION_COLUMNS.

Lemma migration_names : NoDup (c_name <$> _MIGRATION_COLUMNS).
Proof. apply (bool_decide_unpack _). vm_compute. exact I. Qed.

Lemma missing_names cols : NoDup (c_name <$> missing_columns cols).
Proof. apply NoDup_fmap_filter, migration_names. Qed.

Lemma migrate_ok db t :
  tables db !! py "mounts" = Some t →
  migrate (col_names (t_cols t)) db = Some (with_table (py "mounts") (extend (missing_columns (t_cols t)) t) db).
Proof.
  intros Ht. unfold migrate. apply exec_add_columns; [done|apply missing_names|].
  apply Forall_forall. intros c [Hc Hin]%list_elem_of_filter. split; [done|].
  assert (Forall (λ c, c_notnull c = true → c_default c ≠ VNull) _MIGRATION_COLUMNS) as Hf.
  { unfold _MIGRATION_COLUMNS. repeat (apply Forall_cons; split; [done|]). by apply Forall_nil. }
  rewrite Forall_forall in Hf. by apply Hf.
Qed.

(** After it, none is missing. *)
Lemma none_missing cols : missing_columns (cols ++ missing_columns cols) = [].
Proof.
  destruct (missing_columns (cols ++ missing_columns cols)) as [|c l] eqn:E; [done|]. exfalso.
  assert (c ∈ missing_columns (cols ++ missing_columns cols)) as [Hn Hin]%list_elem_of_filter
    by (rewrite E; by apply list_elem_of_here). apply Hn. unfold col_names. rewrite fmap_app, elem_of_app.
  destruct (decide (c_name c ∈ col_names cols)) as [|Hc]; [by left|]. right. apply list_elem_of_fmap. exists c.
  split; [done|]. by apply list_elem_of_filter.
Qed.

Lemma open_file files db_path db :
  db_path ≠ [] → db_path ≠ MEMORY → files !! db_path = Some db → open_wal_db files db_path = inr db.
Proof. intros H1 H2 Hf. unfold open_wal_db. by rewrite !bool_decide_eq_false_2, Hf. Qed.

(** *** The cleanup *)

Lemma set_value_length cols : ∀ row n v, length (set_value cols row n v) = length row.
Proof. induction cols as [|c cols IH]; intros [|x row] n v; cbn; try done. case_bool_decide; cbn; [done|by rewrite IH]. Qed.

Lemma set_value_of cols : ∀ row n v n',
  length row = length cols → n ∈ col_names cols →
  value_of cols (set_value cols row n v) n' = if bool_decide (n' = n) then Some v else value_of cols row n'.
Proof.
  induction cols as [|c cols IH]; intros [|x row] n v n' Hl Hn; try done; [by apply not_elem_of_nil in Hn|].
  cbn [set_value]. unfold col_names in Hn. rewrite fmap_cons in Hn. apply elem_of_cons in Hn.
  destruct (decide (c_name c = n)) as [E|E].
  - rewrite (bool_decide_true (c_name c = n)) by done. cbn [value_of]. case_bool_decide as E'; case_bool_decide; congruence.
  - rewrite (bool_decide_false (c_name c = n)) by done. cbn [value_of]. destruct Hn as [->|Hn]; [done|].
    rewrite IH by (done || cbn in Hl; lia). case_bool_decide as E'; case_bool_decide; try done. congruence.
Qed.

(** The rows that are deleted: those that were EXPIRED and out of the retention window. *)
Definition stale (now : time) (cols : list column) (r : list sql_value) : Prop :=
  status_is (py "expired") cols r = true ∧ expires_lt (now - seconds _RETENTION_SECONDS) cols r = true.

#[export] Instance stale_dec now cols r : Decision (stale now cols r).
Proof. unfold stale. apply _. Defined.

(** The status of a row after the start. *)
Definition started_status (now : time) (cols : list column) (r : list sql_value) : option sql_value :=
  if expires_lt now cols r then Some (VText (py "expired"))
  else if status_is (py "online") cols r then Some (VText (py "offline"))
  else value_of cols r (py "status").

(** A row before and after: only its status may differ. *)
Definition started (now : time) (cols : list column) (r r' : list sql_value) : Prop :=
  length r' = length r ∧ value_of cols r' (py "status") = started_status now cols r ∧
  ∀ n, n ≠ py "status" → value_of cols r' n = value_of cols r n.

Lemma status_row now cols r :
  length r = length cols → py "status" ∈ col_names cols →
  let r1 := if expires_lt now cols r then set_value cols r (py "status") (VText (py "expired")) else r in
  started now cols r (if status_is (py "online") cols r1 then set_value cols r1 (py "status") (VText (py "offline")) else r1).
Proof.
  intros Hl Hs. cbv zeta. unfold started, started_status.
  assert (∀ v r1 n, length r1 = length cols → value_of cols (set_value cols r1 (py "status") v) n =
    if bool_decide (n = py "status") then Some v else value_of cols r1 n) as Hset by (intros; by apply set_value_of).
  destruct (expires_lt now cols r).
  - assert (status_is (py "online") cols (set_value cols r (py "status") (VText (py "expired"))) = false) as ->.
    { unfold status_is. rewrite Hset, (bool_decide_true (py "status" = _)) by done. by vm_compute. }
    rewrite set_value_length. split; [done|]. split; [by rewrite Hset, bool_decide_true|].
    intros n Hn. by rewrite Hset, bool_decide_false.
  - destruct (status_is (py "online") cols r); [|done]. rewrite set_value_length. split; [done|].
    split; [by rewrite Hset, bool_decide_true|]. intros n Hn. by rewrite Hset, bool_decide_false.
Qed.

Lemma cleanup_spec now t :
  Forall (λ n, n ∈ col_names (t_cols t)) [py "status"; py "expires_at"] →
  Forall (λ r, length r = length (t_cols t)) (t_rows t) →
  ∃ t', cleanup_mounts now t = Some t' ∧ t_cols t' = t_cols t ∧ t_keys t' = t_keys t ∧
    Forall2 (started now (t_cols t)) (filter (λ r, ¬ stale now (t_cols t) r) (t_rows t)) (t_rows t').
Proof.
  intros Hc Hr. unfold cleanup_mounts.
  assert (forallb (λ n, bool_decide (n ∈ col_names (t_cols t))) [py "status"; py "expires_at"] = true) as ->.
  { apply forallb_forall. intros n Hn. rewrite Forall_forall in Hc. apply bool_decide_eq_true_2, Hc. by apply list_elem_of_In. }
  apply Forall_cons in Hc as [Hs _]. eexists. split; [reflexivity|]. split; [done|]. split; [done|].
  cbn [update_where delete_where t_rows t_cols]. rewrite <- list_fmap_compose. apply Forall2_fmap_r.
  induction Hr as [|r rows Hl _ IH]; [constructor|]. rewrite !filter_cons.
  destruct (decide (stale now (t_cols t) r)) as [Hst|Hst].
  - rewrite decide_False, decide_False by (unfold stale in *; destruct Hst as [-> ->]; done || tauto). done.
  - rewrite decide_True by done. rewrite decide_True.
    2: { apply not_true_iff_false. intros [H1 H2]%andb_true_iff. by apply Hst. }
    constructor; [by apply status_row|done].
Qed.

(** Opening a registry whose schema is complete up to the columns of [mounts]. *)
Lemma create_registry_ok now files db_path db db1 t t' :
  db_path ≠ [] → db_path ≠ MEMORY → files !! db_path = Some db →
  exec_all registry_schema db = Some db1 → tables db1 !! py "mounts" = Some t →
  cleanup_mounts now (extend (missing_columns (t_cols t)) t) = Some t' →
  create_registry now files db_path = inr (with_table (py "mounts") t' db1).
Proof.
  intros H1 H2 Hf He Ht Hc. unfold create_registry, is_new_db. rewrite bool_decide_eq_false_2 by done.
  cbn [mbind sum_bind]. rewrite (open_file _ _ db) by done. cbn [mbind sum_bind]. unfold run_schema.
  rewrite bool_decide_eq_false_2, He by done. cbn [mbind sum_bind]. rewrite Ht, migrate_ok by done.
  cbn [with_table tables]. rewrite lookup_insert_eq. cbn [mbind option_bind]. rewrite Hc. unfold with_table. cbn.
  by rewrite insert_insert_eq.
Qed.

(** What the migration and the cleanup make of a row. *)
Definition migrated (now : time) (cols cols' : list column) (r r' : list sql_value) : Prop :=
  (∀ n, n ∈ col_names cols → n ≠ py "status" → value_of cols' r' n = value_of cols r n) ∧
  value_of cols' r' (py "status") = started_status now cols r ∧
  (∀ c, c ∈ missing_columns cols → value_of cols' r' (c_name c) = Some (c_default c)).

Lemma migrated_rows now cols rows rows' :
  Forall (λ n, n ∈ col_names cols) [py "status"; py "expires_at"] →
  Forall (λ r, length r = length cols) rows →
  let ms := missing_columns cols in
  Forall2 (started now (cols ++ ms)) (filter (λ r, ¬ stale now (cols ++ ms) r) (extend_row ms <$> rows)) rows' →
  Forall2 (migrated now cols (cols ++ ms)) (filter (λ r, ¬ stale now cols r) rows) rows'.
Proof.
  intros Hc Hr ms. apply Forall_cons in Hc as [Hs Hc]. apply Forall_cons in Hc as [Hx _]. revert rows'.
  assert (∀ r, length r = length cols → ∀ s, status_is s (cols ++ ms) (extend_row ms r) = status_is s cols r) as Hst
    by (intros; unfold status_is; by rewrite extend_value).
  assert (∀ r, length r = length cols → ∀ t, expires_lt t (cols ++ ms) (extend_row ms r) = expires_lt t cols r) as Hex
    by (intros; unfold expires_lt; by rewrite extend_value).
  induction Hr as [|r rows Hl _ IH]; intros rows'; [by intros ->%Forall2_nil_inv_l; constructor|].
  rewrite fmap_cons, !filter_cons.
  assert (stale now (cols ++ ms) (extend_row ms r) ↔ stale now cols r) as Heq by (unfold stale; by rewrite Hst, Hex).
  destruct (decide (stale now cols r)) as [Hd|Hd]; [by rewrite !decide_False by tauto; apply IH|].
  rewrite !decide_True by tauto.
  intros Hf. apply Forall2_cons_inv_l in Hf as (r' & rows'' & (_ & H1 & H2) & Hf & ->). constructor; [|by apply IH].
  split_and!.
  - intros n Hn Hne. rewrite H2 by done. by apply extend_value.
  - rewrite H1. unfold started_status. rewrite Hex, Hst by done. by rewrite extend_value.
  - intros c Hin. pose proof Hin as [Hn _]%list_elem_of_filter. rewrite H2 by (intros E; by rewrite E in Hn).
    apply extend_new_value; [done|done|apply missing_names|done].
Qed.

(** C39: A database of the first version is opened.  The table of the mounts has the columns it
    had and then exactly the missing ones.  Its rows are those that were there, in their order,
    but for the EXPIRED ones whose retention is over; each has the values it had, and in the new
    columns no owner, the mode [legacy] and no password; only its status may be another one:
    EXPIRED once its time is over, else OFFLINE where it was ONLINE.  The tables that are new are
    empty.  Opening the result again, at any time, adds no column and does that cleanup only. *)
Theorem migration_spec now files db_path db t :
  db_path ≠ [] → db_path ≠ MEMORY → files !! db_path = Some db → first_version db t →
  ∃ db' t', create_registry now files db_path = inr db' ∧ tables db' !! py "mounts" = Some t' ∧
    t_cols t' = t_cols t ++ missing_columns (t_cols t) ∧ t_keys t' = t_keys t ∧
    Forall2 (migrated now (t_cols t) (t_cols t')) (filter (λ r, ¬ stale now (t_cols t) r) (t_rows t)) (t_rows t') ∧
    (∀ n u, n ≠ py "mounts" → tables db' !! n = Some u → t_rows u = []) ∧
    ∀ now', ∃ t'', create_registry now' (<[db_path := db']> files) db_path = inr (with_table (py "mounts") t'' db') ∧
      t_cols t'' = t_cols t' ∧ t_keys t'' = t_keys t' ∧
      Forall2 (started now' (t_cols t')) (filter (λ r, ¬ stale now' (t_cols t') r) (t_rows t')) (t_rows t'').
Proof.
  intros H1 H2 Hf Hv. destruct (first_version_schema _ _ Hv) as (db1 & He & Ht & Hnew).
  set (cols := t_cols t ++ missing_columns (t_cols t)).
  assert (Forall (λ n, n ∈ col_names (t_cols t)) [py "status"; py "expires_at"]) as Hc0.
  { pose proof (fv_cols _ _ Hv) as Hc. by apply Forall_cons in Hc as [_ Hc]. }
  assert (Forall (λ n, n ∈ col_names cols) [py "status"; py "expires_at"]) as Hc1.
  { eapply Forall_impl; [exact Hc0|]. intros n Hn. unfold cols, col_names in *. rewrite fmap_app, elem_of_app. by left. }
  destruct (cleanup_spec now (extend (missing_columns (t_cols t)) t)) as (t' & Hcl & Hcols & Hkeys & Hrows); [done| |].
  { cbn [extend t_rows t_cols]. apply Forall_fmap. eapply Forall_impl; [apply (fv_rows _ _ Hv)|]. intros r Hr. cbn.
    unfold extend_row. by rewrite !length_app, length_fmap, Hr. }
  cbn [extend t_cols t_keys t_rows] in Hcols, Hkeys, Hrows. fold cols in Hcols, Hrows.
  exists (with_table (py "mounts") t' db1), t'. split; [by eapply create_registry_ok|].
  split; [apply lookup_insert_eq|]. split; [done|]. split; [done|]. rewrite Hcols. split; [|split].
  - apply migrated_rows; [done|apply (fv_rows _ _ Hv)|done].
  - intros n u Hn. cbn. rewrite lookup_insert_ne by done. by apply Hnew.
  - intros now'. assert (exec_all registry_schema (with_table (py "mounts") t' db1) = Some (with_table (py "mounts") t' db1)) as He'.
    { destruct (exec_all_grows registry_schema db db1) as [_ Hs]; [by vm_compute|done|]. apply Hs. split; [|done].
      intros n. cbn. destruct (decide (n = py "mounts")) as [->|]; [rewrite lookup_insert_eq; eauto|by rewrite lookup_insert_ne]. }
    assert (Forall (λ r, length r = length cols) (t_rows t')) as Hlen.
    { eapply Forall2_Forall_r; [exact Hrows|]. apply Forall_forall. intros r [_ Hin]%list_elem_of_filter r' (-> & _).
      apply list_elem_of_fmap in Hin as (r0 & -> & Hin). unfold cols, extend_row.
      pose proof (fv_rows _ _ Hv) as Hl. rewrite Forall_forall in Hl. by rewrite !length_app, length_fmap, (Hl r0). }
    destruct (cleanup_spec now' t') as (t'' & Hcl' & Hcols' & Hkeys' & Hrows'); [by rewrite Hcols|by rewrite Hcols|].
    exists t''. rewrite Hcols in Hrows', Hcols'. split; [|done].
    rewrite (create_registry_ok now' _ _ (with_table (py "mounts") t' db1) (with_table (py "mounts") t' db1) t' t'');
      (done || apply lookup_insert_eq || idtac). rewrite Hcols. unfold cols at 1. rewrite none_missing. by rewrite extend_nil.
Qed.

(** ** The statement of [register] *)

(** The columns of a new database, and of a migrated one, differ in one default. *)
Definition mount_columns (mode : AccessMode) : list column :=
  old_columns ++ [col "owner_user_id" INTEGER; notnull_default "access_mode" TEXT (VText (access_mode_value mode));
                  notnull_default "has_password" INTEGER (VInt 0)].

Lemma created_columns : _CREATE_TABLE_SQL = CreateTable (py "mounts") (mount_columns OPEN_MODE) [[py "code"]].
Proof. done. Qed.

Lemma migrated_columns : old_columns ++ _MIGRATION_COLUMNS = mount_columns LEGACY.
Proof. done. Qed.

(** The row a registration writes, read back. *)
Definition registered_row (mode : AccessMode) (agent_ip : pystr) (created_at : time) (expires_at : option time) : mount_row :=
  {| m_status := ONLINE; m_agent_ip := agent_ip; m_created_at := created_at; m_expires_at := expires_at;
     m_ttl_warned := false; m_owner_user_id := None; m_access_mode := mode; m_has_password := false |}.

Lemma read_registered mode code agent_ip created_at expires_at :
  read_mount (mount_columns mode) (full_row (mount_columns mode) (register_values code agent_ip created_at expires_at))
    = Some (code, registered_row mode agent_ip created_at expires_at).
Proof. destruct mode, expires_at; vm_compute; reflexivity. Qed.

Lemma registered_not_null mode code agent_ip created_at expires_at :
  forallb (λ cv : column * sql_value, negb (c_notnull cv.1 && bool_decide (cv.2 = VNull)))
    (zip (mount_columns mode) (full_row (mount_columns mode) (register_values code agent_ip created_at expires_at))) = true.
Proof. destruct mode, expires_at; vm_compute; reflexivity. Qed.

Lemma registered_code mode code agent_ip created_at expires_at :
  value_of (mount_columns mode) (full_row (mount_columns mode) (register_values code agent_ip created_at expires_at)) (py "code")
    = Some (VText code).
Proof. destruct mode, expires_at; vm_compute; reflexivity. Qed.

Lemma read_mount_code cols row c x : read_mount cols row = Some (c, x) → value_of cols row (py "code") = Some (VText c).
Proof.
  unfold read_mount, field. destruct (value_of cols row (py "code")) as [v|]; [|done]. cbn [mbind option_bind].
  destruct v; try done. cbn [text_of mbind option_bind]. intros H.
  repeat match type of H with
  | (?o ≫= _) = Some _ => destruct o; [cbn [mbind option_bind] in H|discriminate H]
  end. congruence.
Qed.

Lemma mapM_filter {A B} (f : A → option B) (P : A → Prop) (Q : B → Prop)
    `{∀ x, Decision (P x)} `{∀ y, Decision (Q y)} l l' :
  (∀ x y, f x = Some y → (P x ↔ Q y)) → mapM f l = Some l' → mapM f (filter P l) = Some (filter Q l').
Proof.
  intros Hpq. revert l'. induction l as [|x l IH]; intros l'; cbn [mapM]; [by intros [= <-]|].
  destruct (f x) as [y|] eqn:E; [|done]. cbn [mbind option_bind]. destruct (mapM f l) as [k|]; [|done].
  cbn [mbind option_bind]. intros [= <-]. rewrite !filter_cons. specialize (IH k eq_refl).
  destruct (decide (P x)), (decide (Q y)); [|by destruct (Hpq x y E); tauto..|done].
  cbn [mapM]. by rewrite E, IH.
Qed.

Lemma mapM_snoc {A B} (f : A → option B) l x l' y :
  mapM f l = Some l' → f x = Some y → mapM f (l ++ [x]) = Some (l' ++ [y]).
Proof. rewrite !mapM_Some. intros. by apply Forall2_app; [|repeat constructor]. Qed.

Lemma insert_list_to_map {K A} `{Countable K} (l : list (K * A)) k x :
  list_to_map (M := gmap K A) (filter (λ kx, kx.1 ≠ k) l ++ [(k, x)]) = <[k := x]> (list_to_map l).
Proof.
  rewrite list_to_map_snoc.
  - apply map_eq. intros i. destruct (decide (i = k)) as [->|Hne]; [by rewrite !lookup_insert_eq|].
    rewrite !lookup_insert_ne by done. induction l as [|[j y] l IH]; [done|]. rewrite filter_cons.
    case_decide as Hj; cbn [list_to_map foldr]; cbn in Hj |- *.
    + destruct (decide (i = j)) as [->|]; [by rewrite !lookup_insert_eq|by rewrite !lookup_insert_ne].
    + rewrite lookup_insert_ne; [done|]. congruence.
  - intros ([j y] & -> & [Hne _]%list_elem_of_filter)%list_elem_of_fmap. by apply Hne.
Qed.

(** Registering on the table is registering in the map of [Registry], except that on a migrated
    database the new mount is marked [legacy], like the old rows. *)
Theorem register_sql mode t m code agent_ip created_at expires_at :
  t_cols t = mount_columns mode → t_keys t = [[py "code"]] → read_mounts t = Some m →
  ∃ t', insert_or_replace (register_values code agent_ip created_at expires_at) t = Some t' ∧
    read_mounts t' = Some (<[code := registered_row mode agent_ip created_at expires_at]> m).
Proof.
  intros Hc Hk Hr. unfold insert_or_replace. rewrite Hc, registered_not_null, Hk. eexists. split; [done|].
  unfold read_mounts in *. rewrite Hc in Hr. cbn [t_rows t_cols].
  destruct (mapM (read_mount (mount_columns mode)) (t_rows t)) as [l|] eqn:El; [|done]. injection Hr as <-.
  set (row := full_row _ _). erewrite mapM_snoc.
  - cbn. f_equal. apply insert_list_to_map.
  - apply (mapM_filter _ _ (λ kx, kx.1 ≠ code) _ l); [|done]. intros r [c x] Hx%read_mount_code. unfold existsb, same_key, forallb.
    unfold row. rewrite registered_code, Hx. cbn [fst]. rewrite orb_false_r, andb_true_r.
    rewrite (bool_decide_eq_false_2 (VText c = VNull)), andb_true_r by done. rewrite bool_decide_eq_false. split; congruence.
  - apply read_registered.
Qed.

Lemma register_fresh (r : Registry) code conn agent_ip created_at expires_at :
  code ≠ [] →
  mounts (Registry.register code conn agent_ip created_at expires_at r).1
    = <[code := registered_row OPEN_MODE agent_ip created_at expires_at]> (mounts r).
Proof. intros Hc. unfold Registry.register. rewrite bool_decide_eq_false_2 by done. by destruct conn. Qed.

(** ** An old database *)

(** One mount is online, one runs out before the start, one has been over for long. *)
Definition old_table : table :=
  {| t_cols := old_columns; t_keys := [[py "code"]];
     t_rows := [[VText (py "abc"); VText (py "online"); VText (py "10.0.0.1"); VReal 5; VNull; VInt 1];
                [VText (py "def"); VText (py "online"); VText (py "10.0.0.2"); VReal 6; VReal (seconds 99999); VInt 0];
                [VText (py "ghi"); VText (py "expired"); VText (py "10.0.0.3"); VReal 7; VReal (seconds 9); VInt 0]] |}.

Definition old_db : database := {| tables := {[ py "mounts" := old_table ]}; indexes := {[ py "idx_mounts_agent_ip" ]} |}.

Definition old_files : gmap pystr database := {[ py "relay.db" := old_db ]}.

Definition old_row (s : MountStatus) (ip : pystr) (created : time) (expires : option time) (warned : bool) : mount_row :=
  {| m_status := s; m_agent_ip := ip; m_created_at := created; m_expires_at := expires; m_ttl_warned := warned;
     m_owner_user_id := None; m_access_mode := LEGACY; m_has_password := false |}.

Definition opened_old : DbExn + database := create_registry (seconds 100000) old_files (py "relay.db").

Lemma migration_spec_witness :
  ∃ db' t', opened_old = inr db' ∧ tables db' !! py "mounts" = Some t' ∧
    t_cols t' = old_columns ++ _MIGRATION_COLUMNS ∧ length (t_rows t') = 2%nat ∧
    read_mounts t' = Some (<[ py "abc" := old_row OFFLINE (py "10.0.0.1") 5 None true ]>
                          {[ py "def" := old_row EXPIRED (py "10.0.0.2") 6 (Some (seconds 99999)) false ]}) ∧
    ∃ t'', create_registry (seconds 100001) (<[py "relay.db" := db']> old_files) (py "relay.db")
             = inr (with_table (py "mounts") t'' db') ∧ t_cols t'' = t_cols t'.
Proof.
  assert (first_version old_db old_table) as Hv.
  { split; [done|set_solver| |]; [apply (bool_decide_unpack _); vm_compute; exact I|by repeat constructor]. }
  assert (py "relay.db" ≠ [] ∧ py "relay.db" ≠ MEMORY) as [H1 H2] by by split; vm_compute.
  assert (old_files !! py "relay.db" = Some old_db) as Hf by apply lookup_singleton_eq.
  destruct (migration_spec (seconds 100000) old_files (py "relay.db") old_db old_table H1 H2 Hf Hv)
    as (db' & t' & Hc & Ht & Hcols & _ & Hrows & _ & Hagain).
  exists db', t'. split; [exact Hc|]. split; [exact Ht|]. split; [rewrite Hcols; vm_compute; reflexivity|].
  split; [rewrite <- (Forall2_length _ _ _ Hrows); vm_compute; reflexivity|]. split.
  - assert (match opened_old with inr d => tables d !! py "mounts" | inl _ => None end = Some t') as E
      by (unfold opened_old; rewrite Hc; exact Ht).
    assert (∀ u, match opened_old with inr d => tables d !! py "mounts" | inl _ => None end = Some u →
      read_mounts u = Some (<[ py "abc" := old_row OFFLINE (py "10.0.0.1") 5 None true ]>
        {[ py "def" := old_row EXPIRED (py "10.0.0.2") 6 (Some (seconds 99999)) false ]})) as Hu.
    { intros u Hu. vm_compute in Hu. injection Hu as <-. vm_compute. reflexivity. }
    by apply Hu.
  - destruct (Hagain (seconds 100001)) as (t'' & E1 & E2 & _). exists t''. by split.
Defined.
