(* ===== verification/Logging.v ===== *)
(** The log of the relay, [src/relay/app/logging.py]: the two formats and the configuration of
    the loggers.  A record is given with its message text and its formatted traceback. *)

From stdpp Require Import strings.
From S2P Require Import Prelude Utf8 Json FilesProps Config.

Local Open Scope Z_scope.

(** [lr_exc] is the text of [traceback.format_exception] when there is an exception. *)
Record LogRecord := {
  lr_levelname : pystr;
  lr_name : pystr;
  lr_message : pystr;
  lr_exc : option pystr
}.

Definition _SEVERITY_MAP : list (pystr * pystr) :=
  [(py "DEBUG", py "DEBUG"); (py "INFO", py "INFO"); (py "WARNING", py "WARNING"); (py "ERROR", py "ERROR");
   (py "CRITICAL", py "CRITICAL")].

Definition severity (levelname : pystr) : pystr := default levelname (dict_get levelname _SEVERITY_MAP).

Definition log_entry (r : LogRecord) : json :=
  JObj ([(py "severity", JStr (severity (lr_levelname r))); (py "message", JStr (lr_message r));
         (py "logger", JStr (lr_name r))]
        ++ match lr_exc r with Some trace => [(py "stack_trace", JStr trace)] | None => [] end).

(** [CloudJsonFormatter.format] *)
Definition cloud_format (r : LogRecord) : pystr := dumps (log_entry r).

(** [%(levelname)-8s %(name)s: %(message)s]; a traceback follows on a line of its own, without the
    line break at its end. *)
Definition ljust (n : nat) (s : pystr) : pystr := s ++ replicate (n - length s) 32.

Definition ends_line (s : pystr) : bool := bool_decide (last s = Some 10).

Definition dev_format (r : LogRecord) : pystr :=
  let s := ljust 8 (lr_levelname r) ++ 32 :: lr_name r ++ 58 :: 32 :: lr_message r in
  match lr_exc r with
  | Some trace => (if ends_line s then s else s ++ [10]) ++ (if ends_line trace then removelast trace else trace)
  | None => s
  end.

(** What a [StreamHandler] writes *)
Definition log_stream (format : LogRecord → pystr) (rs : list LogRecord) : pystr := mbind (λ r, format r ++ [10]) rs.

(** ** The configuration *)

Inductive Formatter := CloudJsonFormatter | DevFormatter.

#[export] Instance Formatter_eq_dec : EqDecision Formatter.
Proof. solve_decision. Defined.

(** The handlers of the root logger and of [uvicorn.access], as their formatters; [None] is a handler
    that somebody else installed. *)
Record Loggers := {
  root_level : Z;
  root_handlers : list (option Formatter);
  access_handlers : list (option Formatter);
  access_propagate : bool
}.

Definition INFO : Z := 20.

Definition configure_logging (env : RelayEnv) (l : Loggers) : Loggers :=
  let handler := match env with PRODUCTION => CloudJsonFormatter | DEVELOPMENT => DevFormatter end in
  {| root_level := INFO; root_handlers := [] ++ [Some handler]; access_handlers := []; access_propagate := false |}.

(** The texts that a record of the root logger, or of the access log, is written as. *)
Definition formatter_text (f : Formatter) : LogRecord → pystr :=
  match f with CloudJsonFormatter => cloud_format | DevFormatter => dev_format end.

Definition root_log (levelno : Z) (l : Loggers) (r : LogRecord) : list pystr :=
  if levelno <? root_level l then [] else omap (λ h, (λ f, formatter_text f r) <$> h) (root_handlers l).

Definition access_log (levelno : Z) (l : Loggers) (r : LogRecord) : list pystr :=
  omap (λ h, (λ f, formatter_text f r) <$> h) (access_handlers l)
  ++ if access_propagate l then root_log levelno l r else [].

(** ** One record, one line *)

Definition printable (c : Z) : bool := (32 <=? c) && (c <=? 126).

Lemma hex_digit_printable n : 0 ≤ n < 16 → printable (hex_digit n) = true.
Proof. intros H. unfold printable, hex_digit. case_match; bool_prop; apply andb_true_iff; rewrite !Z.leb_le; lia. Qed.

Lemma u_escape_printable c : forallb printable (u_escape c) = true.
Proof. simpl. rewrite !hex_digit_printable by (apply Z.mod_pos_bound; lia). done. Qed.

Lemma dump_char_printable c : forallb printable (dump_char c) = true.
Proof.
  unfold dump_char. repeat (case_match; [done|]).
  destruct ((32 <=? c) && (c <=? 126)) eqn:E; [cbn; unfold printable; by rewrite E|].
  case_match; [apply u_escape_printable|]. rewrite forallb_app. by rewrite !u_escape_printable.
Qed.

Lemma dump_str_printable s : forallb printable (dump_str s) = true.
Proof.
  unfold dump_str. cbn [forallb]. rewrite forallb_app, andb_true_r. cbn.
  induction s as [|c s IH]; [done|]. rewrite bind_cons, forallb_app, dump_char_printable. exact IH.
Qed.

Lemma join_items_printable l : forallb (forallb printable) l = true → forallb printable (join_items l) = true.
Proof.
  induction l as [|x l IH]; [done|]. cbn [forallb]. intros [Hx Hl]%andb_true_iff. destruct l as [|y l]; [done|].
  change (join_items (x :: y :: l)) with (x ++ 44 :: 32 :: join_items (y :: l)).
  rewrite forallb_app, Hx. cbn [forallb andb]. by apply IH.
Qed.

Lemma cloud_format_printable r : forallb printable (cloud_format r) = true.
Proof.
  unfold cloud_format, log_entry. cbn [dumps forallb]. rewrite forallb_app. cbn [forallb].
  rewrite andb_true_r. cbn [andb]. rewrite join_items_printable; [done|].
  assert (∀ k v, forallb printable (dump_str k ++ 58 :: 32 :: dumps (JStr v)) = true) as Hkv.
  { intros k v. rewrite forallb_app, dump_str_printable. cbn [forallb dumps andb]. apply dump_str_printable. }
  destruct (lr_exc r); cbn [app fmap list_fmap forallb]; by rewrite !Hkv.
Qed.

Lemma cloud_format_line r : 10 ∉ cloud_format r.
Proof.
  intros H%list_elem_of_In. pose proof (cloud_format_printable r) as Hp. rewrite forallb_forall in Hp.
  by apply Hp in H.
Qed.

(** The log in production: its lines are the records, each one readable again, whatever the messages
    contain. *)
Theorem cloud_log_lines rs :
  Forall (λ r, wf_json (log_entry r) = true) rs →
  split_on 10 (log_stream cloud_format rs) = (cloud_format <$> rs) ++ [[]] ∧
  mapM (λ l, match loads l with inr j => Some j | inl _ => None end) (cloud_format <$> rs) = Some (log_entry <$> rs).
Proof.
  induction 1 as [|r rs Hr Hrs [IH1 IH2]]; [done|]. split.
  - unfold log_stream. rewrite bind_cons, <-(assoc_L (++)). cbn [app].
    rewrite split_on_app by apply cloud_format_line. change (mbind _ rs) with (log_stream cloud_format rs). by rewrite IH1.
  - rewrite fmap_cons. cbn [mapM].
    assert (loads (cloud_format r) = inr (log_entry r)) as -> by by apply loads_dumps. by rewrite IH2.
Qed.

(** In development a message with a line break is taken for two records. *)
Theorem dev_log_forged r text r' :
  log_stream dev_format [{| lr_levelname := lr_levelname r; lr_name := lr_name r; lr_message := text ++ 10 :: dev_format r';
                            lr_exc := None |}]
  = log_stream dev_format [{| lr_levelname := lr_levelname r; lr_name := lr_name r; lr_message := text; lr_exc := None |}; r'].
Proof.
  unfold log_stream. cbn [mbind list_bind]. generalize (dev_format r') as s'. intros s'.
  unfold dev_format. cbn [lr_levelname lr_name lr_message lr_exc]. rewrite !app_nil_r. repeat (rewrite <-?(assoc_L (++)), ?app_nil_l; cbn [app]). done.
Qed.

(** Configuring twice is configuring once, and what was installed before is gone: a record of the relay
    is written once, in the format of the environment, from INFO on, and access logs not at all. *)
Theorem configure_logging_spec env l levelno r :
  configure_logging env (configure_logging env l) = configure_logging env l ∧
  root_log levelno (configure_logging env l) r
    = (if levelno <? INFO then [] else [match env with PRODUCTION => cloud_format r | DEVELOPMENT => dev_format r end]) ∧
  access_log levelno (configure_logging env l) r = [].
Proof. split_and!; [done| |done]. unfold root_log. cbn. by destruct env. Qed.

Example cloud_demo :
  split_on 10 (log_stream cloud_format
    [{| lr_levelname := py "INFO"; lr_name := py "relay.proxy"; lr_message := 10 :: py "forged"; lr_exc := None |}])
  = [cloud_format {| lr_levelname := py "INFO"; lr_name := py "relay.proxy"; lr_message := 10 :: py "forged"; lr_exc := None |}; []].
Proof. vm_compute. reflexivity. Qed.
