(* ===== verification/App.v ===== *)
(** How the two applications are put together: [create_app] of [src/server/app/main.py] with the
    accessors of [src/server/app/dependencies.py], and [create_relay_app] of
    [src/relay/app/main.py].

    Starlette puts the middleware that is added last outermost.  Its [CORSMiddleware] is a
    parameter, the class [CorsMiddleware], with what its documentation says: it answers preflight
    requests itself, and marks every answer to a request that names its origin. *)

From stdpp Require Import strings.
From S2P Require Import Prelude Utf8 Json Session Accounts Identity Files StateStore Sharing ServerAuth Config Edge.

Local Open Scope Z_scope.

(** ** Requests through the middleware *)

Record HttpRequest := { hr_method : pystr; hr_path : pystr; hr_headers : list (pystr * pystr) }.
Record HttpResponse := { hp_status : Z; hp_headers : list (pystr * pystr); hp_body : pystr }.

(** What an application does with a request; [inl] is an exception. *)
Abbreviation handler := (HttpRequest → IdentityExn + HttpResponse).

Definition ALLOW_ORIGIN : pystr := py "access-control-allow-origin".

(** An OPTIONS request of a browser that asks before it sends another one. *)
Definition is_preflight (r : HttpRequest) : bool :=
  bool_decide (hr_method r = py "OPTIONS") && bool_decide (is_Some (dict_get (py "origin") (hr_headers r)))
  && bool_decide (is_Some (dict_get (py "access-control-request-method") (hr_headers r))).

Class CorsMiddleware := {
  cors_layer : Cors → handler → handler;
  cors_preflight : ∀ c app app' r, is_preflight r = true → cors_layer c app r = cors_layer c app' r;
  cors_marks : ∀ c app r resp, is_Some (dict_get (py "origin") (hr_headers r)) → cors_layer c app r = inr resp →
    cors_origins c = JArr [JStr (py "*")] → is_Some (dict_get ALLOW_ORIGIN (hp_headers resp))
}.

(** The layers the programs add. *)
Inductive Layer :=
| LayerCors (c : Cors)
| LayerAuth (token_key : pystr)
| LayerSecureCookies.

(** [add_middleware]: the new layer is around the others. *)
Definition add_middleware (l : Layer) (stack : list Layer) : list Layer := l :: stack.

(** [_send_401] *)
Definition _send_401 : HttpResponse :=
  let body := dumps (JObj [(py "detail", JStr (py "Not authenticated"))]) in
  {| hp_status := 401;
     hp_headers := [(py "content-type", py "application/json"); (py "content-length", dump_int (Z.of_nat (length body)))];
     hp_body := body |}.

(** ** The server *)

(** The routers in their order; [SpaCatchAll] is the route [/{path:path}]. *)
Inductive ServerRouter :=
| SrvAuth | SrvClipboard | SrvFileRequests | SrvFiles | SrvServerInfo | SrvShare | SrvShareTarget | SrvWebsocket
| SrvAssets | SpaCatchAll.

#[export] Instance ServerRouter_eq_dec : EqDecision ServerRouter.
Proof. solve_decision. Defined.

(** Everything on [app.state], and the routes. *)
Record ServerApp := {
  sa_config : ServerConfig;
  sa_state : share_state;
  sa_token_service : option pystr;
  sa_has_ttl_provider : bool;
  sa_middleware : list Layer;
  sa_routers : list ServerRouter
}.

(** [build_app] is [create_app] for a valid configuration.  [db] is the state store in the data directory,
    [fresh_secret] and [fresh_key] are the random texts, [assets] whether the built client is there. *)
Definition build_app (config : ServerConfig) (t : fs) (db : ServerStateStore) (fresh_secret fresh_key : pystr)
    (assets : bool) : ServerApp :=
  let state := create_app fresh_secret t db in
  let token_service := match cfg_password_hash config with Some _ => Some fresh_key | None => None end in
  let stack := add_middleware (LayerCors {| cors_origins := JArr [JStr (py "*")]; cors_credentials := false |}) [] in
  let stack := match cfg_password_hash config, token_service with
               | Some _, Some key => add_middleware (LayerAuth key) stack
               | _, _ => stack
               end in
  {| sa_config := config; sa_state := state; sa_token_service := token_service; sa_has_ttl_provider := false;
     sa_middleware := stack;
     sa_routers := [SrvAuth; SrvClipboard; SrvFileRequests; SrvFiles; SrvServerInfo; SrvShare; SrvShareTarget; SrvWebsocket]
                   ++ (if assets then [SrvAssets] else []) ++ [SpaCatchAll] |}.

Inductive DepExn := DepRuntimeError.

(** [dependencies.py] *)
Definition get_config (app : ServerApp) : ServerConfig := sa_config app.
Definition get_share_service (app : ServerApp) : ShareLinkService := sh_service (sa_state app).
Definition get_store (app : ServerApp) : ServerStateStore := sh_db (sa_state app).
Definition get_token_service (app : ServerApp) : DepExn + pystr :=
  match sa_token_service app with Some key => inr key | None => inl DepRuntimeError end.

Section pipeline.
Context {T : TimedSerializer} `{U : !UntimedSerializer T} `{Hmac} `{C : CorsMiddleware}.
Context (session_cookie : pystr → option pystr).

Definition layer (config : ServerConfig) (l : Layer) (app : handler) : handler := λ r,
  match l with
  | LayerCors c => cors_layer c app r
  | LayerAuth key =>
      g ← auth_middleware session_cookie (validate_token key) config (hr_path r) (hr_headers r);
      match g with PassThrough => app r | Unauthorized401 => inr _send_401 end
  | LayerSecureCookies => app r
  end.

(** The application behind its layers; [routes] are the routers. *)
Definition serve (app : ServerApp) (routes : handler) : handler :=
  foldr (layer (sa_config app)) routes (sa_middleware app).

(** ** What the server does with a request *)

(** Without a password a preflight is answered, and every answer is marked for other origins.  With one,
    the gate is in front of CORS: a request to a guarded path without a session, a preflight like any
    other, is refused, and the refusal is not marked, so a page of another origin cannot use the API
    at all; with a session the answers are marked. *)
Theorem server_pipeline config t db fresh_secret fresh_key assets routes r g :
  let app := build_app config t db fresh_secret fresh_key assets in
  is_Some (dict_get (py "origin") (hr_headers r)) →
  auth_middleware session_cookie (validate_token fresh_key) config (hr_path r) (hr_headers r) = inr g →
  (∀ resp, serve app routes r = inr resp →
     (resp = _send_401 ∧ cfg_password_hash config ≠ None ∧ g = Unauthorized401) ∨
     is_Some (dict_get ALLOW_ORIGIN (hp_headers resp))) ∧
  (is_preflight r = true → (cfg_password_hash config = None ∨ g = PassThrough) →
     ∀ routes', serve app routes r = serve app routes' r) ∧
  (cfg_password_hash config ≠ None → g = Unauthorized401 →
     serve app routes r = inr _send_401 ∧ dict_get ALLOW_ORIGIN (hp_headers _send_401) = None).
Proof.
  cbv zeta. intros Ho Hg. unfold serve, build_app. cbn [sa_config sa_middleware].
  destruct (cfg_password_hash config) as [h|]; unfold add_middleware; cbn [foldr layer].
  - rewrite Hg. cbn [mbind sum_bind]. destruct g; (split_and!; [|intros Hp [?|?]; try done|try done]).
    + intros resp Hr. right. by eapply cors_marks.
    + intros routes'. by apply cors_preflight.
    + intros resp [= <-]. by left.
  - split_and!; [| |done].
    + intros resp Hr. right. by eapply cors_marks.
    + intros Hp _ routes'. by apply cors_preflight.
Qed.

(** The token service is there exactly when the gate is, with the same key; the catch-all comes after
    every other route; another start of the server
    keeps the secret of the share links and takes a new key for the sessions. *)
Theorem build_app_spec config t db secret key assets :
  let app := build_app config t db secret key assets in
  (get_token_service app = inl DepRuntimeError ↔ cfg_password_hash config = None) ∧
  (∀ k, LayerAuth k ∈ sa_middleware app ↔ get_token_service app = inr k) ∧
  last (sa_routers app) = Some SpaCatchAll ∧ NoDup (sa_routers app) ∧
  (∀ t' secret' key' assets',
     let app' := build_app config t' (get_store app) secret' key' assets' in
     ss_secret_key (get_share_service app') = ss_secret_key (get_share_service app) ∧ get_store app' = get_store app).
Proof.
  cbv zeta. unfold build_app, get_token_service, get_share_service, get_store. cbn [sa_token_service sa_middleware sa_state sa_routers].
  split_and!.
  - by destruct (cfg_password_hash config).
  - intros k. destruct (cfg_password_hash config); unfold add_middleware; rewrite !elem_of_cons, elem_of_nil.
    + split; [by intros [[= ->]|[[=]|[]]]|intros [= <-]; by left].
    + split; [by intros [[=]|[]]|done].
  - by destruct assets.
  - destruct assets; apply (bool_decide_unpack _); vm_compute; exact I.
  - intros t' secret' _ _. unfold create_app.
    destruct (get_or_create_share_secret secret db) as [db1 s1] eqn:E1. cbn [sh_db].
    assert (get_or_create_share_secret secret' db1 = (db1, s1)) as ->; [|done].
    revert E1. unfold get_or_create_share_secret.
    destruct (get_meta _META_SHARE_SECRET_KEY db) eqn:E; intros [= <- <-]; [by rewrite E|].
    unfold get_meta, set_meta. cbn. by rewrite lookup_insert_eq.
Qed.

End pipeline.

(** ** The relay *)

Inductive RelayRouter :=
| HealthRouter | LandingRouter | PagesRouter | AuthRouter | OidcRouter | AdminRouter | AccessRequestsRouter
| UserStorageRouter | AgentWsRouter | MountProxyRouter.

#[export] Instance RelayRouter_eq_dec : EqDecision RelayRouter.
Proof. solve_decision. Defined.

Record RelayApp := {
  ra_config : RelayConfig;
  ra_middleware : list Layer;
  ra_static : list pystr;
  ra_routers : list RelayRouter
}.

(** [create_relay_app] once the configuration is loaded.  The rates are global to the process.
    [static_dir] and [client_assets] tell whether the directories exist. *)
Definition create_relay_app (config : RelayConfig) (static_dir client_assets : bool) : M AuthRates ConfigExn RelayApp :=
  _ ← set_auth_rates (rc_auth_signup_rate config) (rc_auth_login_rate config) (rc_auth_agent_token_rate config)
        (rc_proxy_request_rate config);
  mret {| ra_config := config;
          ra_middleware := add_middleware (LayerCors (relay_cors config)) (add_middleware LayerSecureCookies []);
          ra_static := (if static_dir then [py "/static"] else []) ++ (if client_assets then [py "/assets"] else []);
          ra_routers := [HealthRouter; LandingRouter; PagesRouter; AuthRouter]
                        ++ (if oidc_enabled config then [OidcRouter] else [])
                        ++ [AdminRouter; AccessRequestsRouter; UserStorageRouter; AgentWsRouter; MountProxyRouter] |}.

(** The limits of the whole process are those of the relay that was created last, and a relay is created
    only with four rates; single sign-on has routes exactly when it is configured, and the routes of the
    mounts come last. *)
Theorem create_relay_app_spec config static_dir client_assets rates :
  let '(rates', r) := create_relay_app config static_dir client_assets rates in
  match r with
  | inl _ => rates' = rates ∧
      (is_rate (rc_auth_signup_rate config) = None ∨ is_rate (rc_auth_login_rate config) = None ∨
       is_rate (rc_auth_agent_token_rate config) = None ∨ is_rate (rc_proxy_request_rate config) = None)
  | inr app =>
      is_rate (rc_auth_signup_rate config) = Some (ar_signup rates') ∧
      is_rate (rc_auth_login_rate config) = Some (ar_login rates') ∧
      is_rate (rc_auth_agent_token_rate config) = Some (ar_agent_token rates') ∧
      is_rate (rc_proxy_request_rate config) = Some (ar_proxy_request rates') ∧
      (OidcRouter ∈ ra_routers app ↔ oidc_enabled config = true) ∧
      last (ra_routers app) = Some MountProxyRouter ∧ NoDup (ra_routers app) ∧
      head (ra_middleware app) = Some (LayerCors (relay_cors config))
  end.
Proof.
  unfold create_relay_app, set_auth_rates. unfold mbind, M_bind, mret, M_ret.
  destruct (is_rate (rc_auth_signup_rate config)) as [s|] eqn:E1; [|cbn; auto].
  destruct (is_rate (rc_auth_login_rate config)) as [l|] eqn:E2; [|cbn; auto].
  destruct (is_rate (rc_auth_agent_token_rate config)) as [a|] eqn:E3; [|cbn; auto].
  destruct (is_rate (rc_proxy_request_rate config)) as [q|] eqn:E4; [|cbn; auto 6].
  cbn -[py relay_cors]. split_and!; try done.
  - destruct (oidc_enabled config); cbn; rewrite !elem_of_cons, elem_of_nil; naive_solver.
  - by destruct (oidc_enabled config).
  - destruct (oidc_enabled config); apply (bool_decide_unpack _); vm_compute; exact I.
Qed.
