(* ===== verification/Handshake.v ===== *)
(** Messages between the parts: what the relay tells an agent after its registration
    ([src/relay/app/routers/agent_ws.py]) and how the agent takes it
    ([src/agent/connection.py]); and the access requests as the relay answers them
    ([src/relay/app/routers/access_requests.py]). *)

From stdpp Require Import strings.
From S2P Require Import Prelude Utf8 Json Tunnel Accounts AccountsProps Registry Session Access AgentWs RelayAuth Agent.

Local Open Scope Z_scope.

Definition json_opt {A} (f : A → json) (x : option A) : json := match x with Some a => f a | None => JNull end.

(** ** [mount_registered] *)

Definition registration_message (reg : Registered) : list (pystr * json) :=
  [(py "type", JStr (py "mount_registered")); (py "code", JStr (rg_code reg)); (py "ttl", JInt (rg_ttl reg));
   (py "expires_in", JInt (rg_expires_in reg)); (py "reclaimed", JBool (rg_reclaimed reg));
   (py "remaining_ttl", json_opt JInt (rg_remaining_ttl reg)); (py "owner", json_opt JStr (rg_owner reg))].

(** Numbers and texts that survive the way. *)
Definition reg_sendable (reg : Registered) : Prop :=
  scalars (rg_code reg) = true ∧ from_option (λ s, scalars s = true) True (rg_owner reg) ∧
  Z.abs (rg_ttl reg) < 10 ^ Z.of_nat MAX_STR_DIGITS ∧ Z.abs (rg_expires_in reg) < 10 ^ Z.of_nat MAX_STR_DIGITS ∧
  from_option (λ z, Z.abs z < 10 ^ Z.of_nat MAX_STR_DIGITS) True (rg_remaining_ttl reg).

Lemma registration_wf reg : reg_sendable reg → wf_json (JObj (registration_message reg)) = true.
Proof.
  intros (H1 & H2 & H3 & H4 & H5). apply andb_true_iff. split.
  - assert (∀ z, Z.abs z < 10 ^ Z.of_nat MAX_STR_DIGITS → wf_json (JInt z) = true) as Hz.
    { intros z Hz. cbn -[MAX_STR_DIGITS Z.pow]. by apply Z.ltb_lt. }
    assert (wf_json (json_opt JInt (rg_remaining_ttl reg)) = true) as E1.
    { destruct (rg_remaining_ttl reg); [by apply Hz|done]. }
    assert (wf_json (json_opt JStr (rg_owner reg)) = true) as E2.
    { by destruct (rg_owner reg). }
    change (forallb (λ '(k, v), scalars k && wf_json v) (registration_message reg) = true).
    unfold registration_message. cbn [forallb]. rewrite !Hz, E1, E2 by done.
    assert (wf_json (JStr (rg_code reg)) = true) as -> by done. by vm_compute.
  - apply bool_decide_eq_true_2. apply (bool_decide_unpack _). vm_compute. exact I.
Qed.

(** The agent takes the code the relay assigned from the message, whatever else the registration says. *)
Theorem registration_read reg :
  reg_sendable reg →
  receive_control (dumps (JObj (registration_message reg))) = inr (JObj (registration_message reg)) ∧
  assigned_code (JObj (registration_message reg)) = inr (JStr (rg_code reg)).
Proof.
  intros Hs. split; [|done]. unfold receive_control. by rewrite loads_dumps by by apply registration_wf.
Qed.

(** ** Access requests *)

Definition request_status_value (s : AccessRequestStatus) : pystr :=
  match s with PENDING => py "pending" | APPROVED => py "approved" | DENIED => py "denied" end.

(** [num] writes a time stamp. *)
Section requests.
Context (num : time → json).

Definition _serialize_with_username (req : AccessRequest) (username : option pystr) : json :=
  JObj [(py "id", JInt (ar_id req)); (py "code", JStr (ar_code req)); (py "user_id", JInt (ar_user_id req));
        (py "username", json_opt JStr username); (py "status", JStr (request_status_value (ar_status req)));
        (py "created_at", num (ar_created_at req))].

(** One query for one request. *)
Definition _serialize (req : AccessRequest) (db : AccountDb) : json :=
  _serialize_with_username req
    match (get_user_by_id (ar_user_id req) db).2 with inr u => Some (u_username u) | inl _ => None end.

(** One query for all of them. *)
Definition serialize_all (reqs : list AccessRequest) (db : AccountDb) : AccountExn + list json :=
  match (get_users_by_ids (ar_user_id <$> reqs) db).2 with
  | inl e => inl e
  | inr users =>
      inr ((λ r, _serialize_with_username r (u_username <$> users !! ar_user_id r)) <$> reqs)
  end.

(** The batch of names is what the single queries give. *)
Theorem serialize_all_spec reqs db : serialize_all reqs db = inr ((λ r, _serialize r db) <$> reqs).
Proof.
  unfold serialize_all, get_users_by_ids. cbn [snd]. f_equal. apply list_fmap_ext. intros i r Hr.
  unfold _serialize, get_user_by_id. f_equal. rewrite map_lookup_filter.
  destruct (users db !! ar_user_id r) as [u|]; [|done]. cbn [mbind option_bind]. rewrite option_guard_True; [done|].
  cbn. apply list_elem_of_fmap. exists r. split; [done|]. by eapply list_elem_of_lookup_2.
Qed.

End requests.
