(* ===== verification/EndToEnd.v ===== *)
(** From the owner's command line to the visitor's request: the agent's handshake, the registration
    at the relay, the relay's decision about a visitor, and what the server behind the tunnel believes,
    put together.

    The parts are those of [Agent] ([src/agent/connection.py]), [AgentWs]
    ([src/relay/app/routers/agent_ws.py]), [Access] ([src/relay/app/services/access_policy.py]),
    [Proxy] ([src/relay/app/routers/mount_proxy.py]), [Start] and [Identity] (the embedded server). *)

From stdpp Require Import strings.
From S2P Require Import Prelude Utf8 Json Tunnel Accounts AccountsProps Registry RegistryProps Session Access.
From S2P Require Import Identity IdentityProps Proxy AgentWs AgentWsProps Files Agent AgentProps Start Handshake.

Local Open Scope Z_scope.

(** ** A registration does not fail *)

Lemma assign_code now code fresh c owner ip r :
  fresh ≠ [] → code ≠ Some [] → (assign now code fresh c owner ip r).2.1 ≠ [].
Proof.
  intros Hf Hc. unfold assign. destruct code as [k|]; [|done].
  assert (k ≠ []) by congruence. destruct (reclaim _ _ _ _ _ _) as [r' [n|]]; [done|]. cbn. by case_match.
Qed.

Lemma register_agent_total config now code ttl fresh c ip auth r :
  fresh ≠ [] → code ≠ Some [] → aa_identity_secret auth ≠ Some [] →
  ∃ r' reg, register_agent config now code ttl fresh c ip auth r = (r', inr reg).
Proof.
  intros Hf Hc Hs. unfold register_agent.
  pose proof (assign_code now code fresh c (aa_owner_user_id auth) ip r Hf Hc) as Hk.
  destruct (assign _ _ _ _ _ _ _) as [r1 [k remaining]]. cbn in Hk.
  assert (∃ r2, match remaining with
                | Some _ => (r1, inr tt)
                | None => Registry.register k (Some c) ip now (Some (now + seconds (effective_ttl config ttl))) r1
                end = (r2, inr tt)) as [r2 ->].
  { destruct remaining; [by eexists|]. unfold Registry.register. rewrite bool_decide_eq_false_2 by done. by eexists. }
  destruct (aa_identity_secret auth) as [s|]; [|by eexists _, _].
  unfold set_identity_secret. rewrite !bool_decide_eq_false_2 by congruence. by eexists _, _.
Qed.

(** ** What the owner's entries grant *)

Section end_to_end.
Context `{TimedSerializer} `{PyConv} `{Hmac} {S : Type} `{AccountStore S} `{!AccountStoreSpec S}.

(** The resolved entries [pes] of the owner give the user [u] the role [r]; of two entries for one
    subject the last one counts. *)
Definition granted (st : S) (pes : list PolicyEntry) (u : Z) (r : Role) : Prop :=
  store_user st u = true ∧ ∃ t id, last_role t id pes = Some r ∧
    match t with USER => id = u | GROUP => store_in_group st u id end.

Definition nobody (st : S) (pes : list PolicyEntry) (who : option SessionIdentity) : Prop :=
  ∀ i r, who = Some i → ¬ granted st pes (si_user_id i) r.

Lemma granted_policy st p pes u r :
  (∀ t id role, {| pe_subject_type := t; pe_subject_id := id; pe_role := role |} ∈ mp_entries p
                ↔ last_role t id pes = Some role) →
  grants (Some st) p u r ↔ granted st pes u r.
Proof.
  intros He. split.
  - intros (s & [t id role] & [= <-] & Hu & Hin & <- & Hm). split; [done|]. exists t, id. by rewrite <-He.
  - intros (Hu & t & id & Hl & Hm). eexists st, _. split_and!; [done|done|by apply He|done|done].
Qed.

(** The decision of the relay, for a mount with the policy of its handshake. *)
Lemma decision_granted registry st code who p pes :
  store_ok st → policy_of code registry = Some p →
  (∀ t id role, {| pe_subject_type := t; pe_subject_id := id; pe_role := role |} ∈ mp_entries p
                ↔ last_role t id pes = Some role) →
  match authorize registry (Some st) code who with
  | inl _ => nobody st pes who ∧ mp_access_mode p = RESTRICTED ∧ mp_has_password p = false
  | inr d =>
      (∃ i role, who = Some i ∧ granted st pes (si_user_id i) role ∧
         (∀ role', granted st pes (si_user_id i) role' → _ROLE_RANK role' ≤ _ROLE_RANK role) ∧
         injected d = Some (si_username i, role)) ∨
      (nobody st pes who ∧ (mp_access_mode p ≠ RESTRICTED ∨ mp_has_password p = true) ∧ injected d = None)
  end.
Proof.
  intros Hok Hp He.
  assert (∀ u r, grants (Some st) p u r ↔ granted st pes u r) as Hg by (intros; by apply granted_policy).
  assert (grants_nothing (Some st) p who → nobody st pes who) as Hn by (intros Hn i r Hi Hx%Hg; by eapply Hn).
  pose proof (authorize_sound registry (Some st) code who) as Ha. rewrite Hp in Ha.
  specialize (Ha ltac:(intros s [= <-]; done)).
  inversion Ha as [|p' i r Hw Hr Hmax Hp' Ho|p' Hno Hm|p' Hno Hm Hpw|p' Hw Hm Hpw|p' i Hw Hno Hm Hpw]; subst.
  - left. exists i, r. split_and!; [done|by apply Hg| |done]. intros r' Hr'%Hg. by apply Hmax.
  - right. auto.
  - right. auto.
  - split_and!; [|done|done]. by intros i r.
  - auto.
Qed.

(** The mount as the relay keeps it after the registration. *)
Lemma registered_policy config now code ttl fresh c ip auth r r' reg :
  register_agent config now code ttl fresh c ip auth r = (r', inr reg) →
  get_connection (λ _, false) (rg_code reg) r' = (r', inr c) ∧
  get_identity_secret (rg_code reg) r' = match aa_identity_secret auth with
                                         | Some s => Some s
                                         | None => get_identity_secret (rg_code reg) r
                                         end ∧
  ∃ p, policy_of (rg_code reg) r' = Some p ∧ mp_access_mode p = aa_access_mode auth ∧
    mp_has_password p = aa_has_password auth ∧
    ∀ t id role, {| pe_subject_type := t; pe_subject_id := id; pe_role := role |} ∈ mp_entries p
                 ↔ last_role t id (aa_entries auth) = Some role.
Proof.
  intros E. pose proof (register_agent_cases config now code ttl fresh c ip auth r) as Hc.
  rewrite E in Hc. destruct Hc as (row & Hf & Hm & Hc & Hent & _ & _ & _ & Hs).
  split_and!; [|done|].
  - unfold get_connection. rewrite Hm, Hc, !lookup_insert_eq. cbn.
    destruct (rg_remaining_ttl reg); cbn in Hf; [|by destruct Hf as (_ & -> & _)].
    by destruct Hf as (_ & old & _ & _ & _ & _ & ->).
  - unfold policy_of, get_policy. rewrite Hm, lookup_insert_eq. eexists. split_and!; [done..|exact Hent].
Qed.

(** What the embedded server believes of a forwarded request. *)
Lemma trusted_forwarded app items who secret fwd hs :
  is_Some (cfg_mount_code app) → cfg_identity_secret app = Some secret →
  forward_headers items who (Some secret) = inr fwd → delivers fwd hs →
  trusted_user app hs = inr (fst <$> who) ∧ trusted_role app hs = inr (snd <$> who).
Proof.
  intros Hc Hs Hf Hd. pose proof (verified_delivered app items who (Some secret) fwd hs Hc Hs Hf Hd) as Hv.
  unfold trusted_user, trusted_role. rewrite Hv. cbn [believed]. destruct who as [[u r]|]; cbn; [|done].
  by rewrite role_of_role_value.
Qed.

Lemma mount_app_config t folder password_hash mount_code relay_url secret app :
  build_mount_app t folder password_hash mount_code relay_url secret = inr app →
  cfg_mount_code (ac_config app) = Some mount_code ∧ cfg_identity_secret (ac_config app) = Some secret ∧
  cfg_password_hash (ac_config app) = password_hash.
Proof.
  unfold build_mount_app, server_config. repeat (case_match; [done|]).
  destruct (resolve_path t [] folder); [done|]. cbn. by intros [= <-].
Qed.

(** ** The whole way *)

(** C1: The owner's allowlist is what the server enforces for the visitors.  An agent whose owner has a
    valid token and declares entries that exist is let in and registered, and reads its code from
    the answer.  A visitor whom the entries grant a role, directly or through nested groups, is
    the one the embedded server sees, with the highest role granted, whatever headers the
    request carried; anybody else is turned away exactly when the mount is restricted and has no password,
    and is otherwise nobody to the server, which asks for the password when there is one. *)
Theorem mount_end_to_end config now code ttl fresh c ip r secret password_hash owner tok ses st uid u pes t folder relay_url :
  fresh ≠ [] → code ≠ Some [] → scalars secret = true → secret ≠ [] → scalars tok = true → tok ≠ [] →
  Forall (λ e, scalars (ae_subject_ref e) = true) (ow_allowlist owner) → store_ok st →
  verify_agent_owner_token ses now tok = inr uid → (store_get_user_by_id uid st).2 = inr u →
  Forall2 (resolves st) (ow_allowlist owner) pes →
  let has_password := bool_decide (is_Some password_hash) in
  ∃ auth r' reg,
    _read_agent_auth (Some ses) (Some st) now
      (Some (dumps (JObj (agent_auth_message secret (JStr tok) has_password (Some owner))))) = inr (AuthOk auth) ∧
    register_agent config now code ttl fresh c ip auth r = (r', inr reg) ∧
    get_connection (λ _, false) (rg_code reg) r' = (r', inr c) ∧
    (reg_sendable reg → ∃ control, receive_control (dumps (JObj (registration_message reg))) = inr control ∧
       assigned_code control = inr (JStr (rg_code reg))) ∧
    ∀ app who items fwd hs,
      build_mount_app t folder password_hash (rg_code reg) relay_url secret = inr app →
      match authorize r' (Some st) (rg_code reg) who with
      | inl _ => nobody st pes who ∧ ow_access_mode owner = RESTRICTED ∧ password_hash = None
      | inr d =>
          forward_headers items (injected d) (get_identity_secret (rg_code reg) r') = inr fwd → delivers fwd hs →
          (∃ i role, who = Some i ∧ granted st pes (si_user_id i) role ∧
             (∀ role', granted st pes (si_user_id i) role' → _ROLE_RANK role' ≤ _ROLE_RANK role) ∧
             trusted_user (ac_config app) hs = inr (Some (si_username i)) ∧
             trusted_role (ac_config app) hs = inr (Some role)) ∨
          (nobody st pes who ∧ (ow_access_mode owner ≠ RESTRICTED ∨ is_Some (cfg_password_hash (ac_config app))) ∧
             trusted_user (ac_config app) hs = inr None ∧ trusted_role (ac_config app) hs = inr None)
      end.
Proof.
  intros Hf Hcode Hs Hsne Ht Htne Ha Hok Hv Hu Hr has_password.
  destruct (agent_auth_roundtrip (W := LogWs) None None now secret has_password ses st owner tok uid u _ pes
              Hs Hsne Ha Ht Htne Hv Hu eq_refl Hr) as (_ & _ & Hread).
  set (auth := {| aa_owner_user_id := _ |}) in Hread.
  destruct (register_agent_total config now code ttl fresh c ip auth r) as (r' & reg & E); [done|done|cbn; congruence|].
  destruct (registered_policy _ _ _ _ _ _ _ _ _ _ _ E) as (Hconn & Hsec & p & Hp & Hmode & Hpw & Hent). cbn in Hsec, Hmode, Hpw, Hent.
  exists auth, r', reg. split_and!; [done|done|done| |].
  { intros Hsend. eexists. by apply registration_read. }
  intros app who items fwd hs (Hmc & Hid & Hph)%mount_app_config.
  pose proof (decision_granted r' st (rg_code reg) who p pes Hok Hp Hent) as Hd.
  rewrite Hmode, Hpw in Hd. destruct (authorize _ _ _ _) as [e|d].
  { destruct Hd as (? & ? & Hno%bool_decide_eq_false). split_and!; [done|done|by apply eq_None_not_Some]. }
  rewrite Hsec. intros Hfwd Hdel.
  destruct (trusted_forwarded (ac_config app) items (injected d) secret fwd hs) as [Htu Htr]; [by rewrite Hmc|done..|].
  destruct Hd as [(i & role & -> & Hg & Hmax & Hi)|(Hn & Hm & Hi)]; rewrite Hi in Htu, Htr.
  - left. by exists i, role.
  - right. split_and!; [done| |done|done]. rewrite Hph. destruct Hm as [?|Hm%bool_decide_eq_true]; auto.
Qed.

End end_to_end.

(** *** Witness *)

(** Ann's restricted mount with her own name on its list: her own visit, in spite of spoofed headers, and
    one without an account. *)
Lemma mount_end_to_end_witness :
  let ses := {| rs_secret_key := py "k" |} in
  let tok := issue_agent_owner_token (H := plain_serializer) ses 0 1 in
  ∃ auth r' reg,
    _read_agent_auth (H := plain_serializer) (H0 := no_conv) (Some ses) (Some demo_db) 0
      (Some (dumps (JObj (agent_auth_message (py "s3") (JStr tok) false (Some ex_owner))))) = inr (AuthOk auth) ∧
    register_agent {| dropbox_code := py "drop"; max_mounts_per_ip := 5; max_ttl_seconds := 60 |} 0 None None
      (py "abc") 4 (py "10.0.0.1") auth empty_registry = (r', inr reg) ∧
    get_connection (λ _, false) (rg_code reg) r' = (r', inr 4%nat) ∧
    ∃ app d fwd,
      build_mount_app {[ [] := FDir ]} [] None (rg_code reg) (py "http://relay") (py "s3") = inr app ∧
      authorize r' (Some demo_db) (rg_code reg) (Some {| si_user_id := 1; si_username := py "ann" |}) = inr d ∧
      forward_headers (H := hex_mac) spoofed (injected d) (get_identity_secret (rg_code reg) r') = inr fwd ∧
      trusted_user (H := hex_mac) (ac_config app) (lower_dict fwd) = inr (Some (py "ann")) ∧
      nobody demo_db [{| pe_subject_type := USER; pe_subject_id := 1; pe_role := WRITE |}] None.
Proof.
  cbv zeta. pose (ses := {| rs_secret_key := py "k" |}).
  destruct (store_get_user_by_id 1 demo_db).2 as [e|u] eqn:Eu; [vm_compute in Eu; discriminate Eu|].
  assert (Forall2 (resolves demo_db) (ow_allowlist ex_owner) [{| pe_subject_type := USER; pe_subject_id := 1; pe_role := WRITE |}]) as Hr.
  { apply Forall2_cons_2; [|apply Forall2_nil_2]. split; [vm_compute; reflexivity|]. split; reflexivity. }
  assert (Forall (λ e, scalars (ae_subject_ref e) = true) (ow_allowlist ex_owner)) as Ha.
  { apply Forall_cons_2; [vm_compute; reflexivity|apply Forall_nil_2]. }
  assert (scalars (issue_agent_owner_token (H := plain_serializer) ses 0 1) = true) as Ht by (vm_compute; reflexivity).
  assert (issue_agent_owner_token (H := plain_serializer) ses 0 1 ≠ []) as Htne by (vm_compute; discriminate).
  assert (verify_agent_owner_token (H := plain_serializer) (H0 := no_conv) ses 0
            (issue_agent_owner_token (H := plain_serializer) ses 0 1) = inr 1) as Hv by (vm_compute; reflexivity).
  assert (py "abc" ≠ []) as Hc by discriminate. assert (py "s3" ≠ []) as Hs by discriminate.
  assert (@None pystr ≠ Some []) as Hn by discriminate.
  assert (store_ok demo_db) as Hok by exact demo_db_ok.
  destruct (mount_end_to_end (H := plain_serializer) (H0 := no_conv) (H1 := hex_mac)
    {| dropbox_code := py "drop"; max_mounts_per_ip := 5; max_ttl_seconds := 60 |} 0 None None (py "abc") 4 (py "10.0.0.1")
    empty_registry (py "s3") None ex_owner (issue_agent_owner_token (H := plain_serializer) ses 0 1) ses demo_db 1 u
    [{| pe_subject_type := USER; pe_subject_id := 1; pe_role := WRITE |}] {[ [] := FDir ]} [] (py "http://relay")
    Hc Hn eq_refl Hs Ht Htne Ha Hok Hv Eu Hr) as (auth & r' & reg & H1 & H2 & H3 & _ & Hvisit).
  exists auth, r', reg. split; [exact H1|]. split; [exact H2|]. split; [exact H3|].
  vm_compute in H1. injection H1 as <-. vm_compute in H2. injection H2 as <- <-.
  destruct (build_mount_app {[ [] := FDir ]} [] None (py "abc") (py "http://relay") (py "s3")) as [e|app] eqn:Eapp;
    [vm_compute in Eapp; discriminate Eapp|].
  pose proof (λ fwd, Hvisit app (Some {| si_user_id := 1; si_username := py "ann" |}) spoofed fwd (lower_dict fwd) Eapp) as Hann.
  pose proof (Hvisit app None spoofed [] [] Eapp) as Hnobody. clear Hvisit.
  destruct (authorize _ _ _ None) as [e|d0] eqn:E0 in Hnobody; [|vm_compute in E0; discriminate E0].
  destruct (authorize _ _ _ (Some _)) as [e'|d] eqn:Ed in Hann; [vm_compute in Ed; discriminate Ed|].
  destruct (forward_headers (H := hex_mac) spoofed (injected d) (Some (py "s3"))) as [e'|fwd] eqn:Ef;
    [vm_compute in Ed; injection Ed as <-; vm_compute in Ef; discriminate Ef|].
  exists app, d, fwd. split; [exact Eapp|]. split; [exact Ed|]. split; [exact Ef|]. split; [|exact (proj1 Hnobody)].
  vm_compute in Ed. injection Ed as <-. vm_compute in Ef. injection Ef as <-.
  destruct (Hann _ eq_refl) as [(i & role & Hi & _ & _ & Htu & _)|(_ & _ & Htu & _)].
  - vm_compute. reflexivity.
  - injection Hi as <-. exact Htu.
  - vm_compute in Eapp. injection Eapp as <-. vm_compute in Htu. discriminate Htu.
Defined.
