(* ===== verification/Sizes.v ===== *)
(** The display of sizes, [format_file_size] of [src/server/app/services/file_service.py], on the
    floating-point numbers of the machine.

    A size is a natural number; its float is the nearest number of 53 bits.  Dividing it by 1024 is
    exact, so that the float in the loop is a fraction whose denominator is a power of 1024.
    [f"{x:.1f}"] rounds the exact value, ties to even. *)

From stdpp Require Import strings.
From S2P Require Import Prelude Json.

Local Open Scope Z_scope.

(** The integer nearest to [a / b]; a tie goes to the even one. *)
Definition round_half_even (a b : Z) : Z :=
  let q := a / b in
  let r := a mod b in
  if 2 * r <? b then q else if b <? 2 * r then q + 1 else if Z.even q then q else q + 1.

(** [float(n)] for a natural number below 2 ** 1023 *)
Definition float_of (n : Z) : Z :=
  let e := Z.log2 n - 52 in
  if e <=? 0 then n else round_half_even n (2 ^ e) * 2 ^ e.

(** A number of tenths, with one decimal. *)
Definition fixed1 (tenths : Z) : pystr := dump_int (tenths / 10) ++ 46 :: dump_int (tenths mod 10).

(** The loop over the units; the float is [num / den]. *)
Fixpoint format_loop (units : list pystr) (num den : Z) : pystr :=
  match units with
  | [] => fixed1 (round_half_even (10 * num) den) ++ py " TB"
  | unit :: units' =>
      if num <? 1024 * den then fixed1 (round_half_even (10 * num) den) ++ 32 :: unit
      else format_loop units' num (den * 1024)
  end.

Definition format_file_size (size_bytes : Z) : pystr :=
  format_loop [py "B"; py "KB"; py "MB"; py "GB"] (float_of size_bytes) 1.

(** ** Rounding *)

Lemma round_half_even_error a b : 0 < b → 2 * Z.abs (round_half_even a b * b - a) ≤ b.
Proof.
  intros Hb. unfold round_half_even. pose proof (Z.div_mod a b) as Hd. pose proof (Z.mod_pos_bound a b Hb) as Hr.
  set (q := a / b) in *. set (r := a mod b) in *.
  assert (a = q * b + r) as Ha by lia.
  assert (q * b - a = - r) as E1 by lia. assert ((q + 1) * b - a = b - r) as E2 by lia.
  destruct (Z.ltb_spec (2 * r) b); [rewrite E1; lia|].
  destruct (Z.ltb_spec b (2 * r)); [rewrite E2; lia|]. destruct (Z.even q); [rewrite E1|rewrite E2]; lia.
Qed.

Lemma round_exact a b : 0 < b → round_half_even (a * b) b = a.
Proof.
  intros Hb. unfold round_half_even. rewrite Z.div_mul, Z.mod_mul by lia.
  change (2 * 0) with 0. by rewrite (proj2 (Z.ltb_lt 0 b)).
Qed.

Lemma round_mono a a' b : 0 < b → a ≤ a' → round_half_even a b ≤ round_half_even a' b.
Proof.
  intros Hb Ha. destruct (Z.eq_dec a a') as [->|Hne]; [lia|].
  pose proof (Z.div_mod a b) as Hd. pose proof (Z.mod_pos_bound a b Hb). pose proof (Z.div_mod a' b) as Hd'.
  pose proof (Z.mod_pos_bound a' b Hb). unfold round_half_even.
  pose proof (Z.div_le_mono a a' b Hb Ha) as Hq.
  set (q := a / b) in *. set (r := a mod b) in *. set (q' := a' / b) in *. set (r' := a' mod b) in *.
  destruct (Z.eq_dec q q') as [E|E].
  - rewrite <-E in *. repeat case_match; bool_prop; lia.
  - assert (q + 1 ≤ q') by lia. repeat case_match; lia.
Qed.

Lemma float_of_error n : 0 ≤ n → 2 ^ 53 * Z.abs (float_of n - n) ≤ n.
Proof.
  intros Hn. unfold float_of. destruct (Z.leb_spec (Z.log2 n - 52) 0) as [|He]; [rewrite Z.sub_diag; cbn; lia|].
  assert (0 < n) as Hp by (destruct (Z.eq_dec n 0) as [->|]; [cbn in He; lia|lia]).
  pose proof (Z.log2_spec n Hp) as [Hlo _].
  pose proof (round_half_even_error n (2 ^ (Z.log2 n - 52)) ltac:(apply Z.pow_pos_nonneg; lia)) as Hr.
  replace (Z.log2 n) with (52 + (Z.log2 n - 52)) in Hlo by lia. rewrite Z.pow_add_r in Hlo by lia.
  change (2 ^ 53) with (2 ^ 52 * 2). nia.
Qed.

Lemma float_of_exact n : 0 ≤ n < 2 ^ 53 → float_of n = n.
Proof.
  intros [Hn Hlt]. unfold float_of. destruct (Z.leb_spec (Z.log2 n - 52) 0) as [|He]; [done|].
  assert (Z.log2 n < 53); [|lia]. destruct (Z.eq_dec n 0) as [->|]; [done|]. apply Z.log2_lt_pow2; lia.
Qed.

(** ** What is displayed *)

Definition units : list pystr := [py "B"; py "KB"; py "MB"; py "GB"; py "TB"].

(** The loop stops at the unit whose range holds the number, or at the last one. *)
Lemma format_loop_spec us : ∀ num den, 0 < den →
  ∃ k tenths unit, (k ≤ length us)%nat ∧ (us ++ [py "TB"]) !! k = Some unit ∧
    format_loop us num den = fixed1 tenths ++ 32 :: unit ∧
    tenths = round_half_even (10 * num) (den * 1024 ^ Z.of_nat k) ∧
    ((k < length us)%nat → num < den * 1024 ^ (Z.of_nat k + 1)) ∧
    ((0 < k)%nat → den * 1024 ^ Z.of_nat k ≤ num).
Proof.
  induction us as [|u us IH]; intros num den Hden; cbn [format_loop].
  { eexists 0%nat, _, _. split_and!; [done|done|done|by rewrite Z.mul_1_r|cbn; lia|lia]. }
  destruct (Z.ltb_spec num (1024 * den)) as [Hlt|Hge].
  { eexists 0%nat, _, _. split_and!; [lia|done|done|by rewrite Z.mul_1_r|cbn -[Z.mul]; lia|lia]. }
  destruct (IH num (den * 1024)) as (k & tenths & unit & Hk & Hu & Hf & Ht & Hlt & Hle); [lia|].
  exists (S k), tenths, unit. rewrite Nat2Z.inj_succ, <-Z.add_1_r.
  assert (∀ z, 0 ≤ z → den * 1024 * 1024 ^ z = den * 1024 ^ (z + 1)) as Hp.
  { intros z Hz. rewrite Z.pow_add_r by lia. change (1024 ^ 1) with 1024. lia. }
  rewrite Hp in Ht, Hlt by lia. split_and!; [cbn; lia|done|done|done| |].
  - intros Hl. apply Hlt. cbn in Hl. lia.
  - intros _. destruct k as [|k]; [|rewrite Hp in Hle by lia; apply Hle; lia].
    change (Z.of_nat 0 + 1) with 1. change (1024 ^ 1) with 1024. lia.
Qed.

(** The displayed size is the float of the size in the largest unit that leaves at least one, up to
    terabytes, rounded to a tenth; the float differs from the size by less than one part in
    2 ** 53, and is the size itself below 8 PB. *)
Theorem format_file_size_spec n :
  0 ≤ n →
  ∃ k tenths unit, units !! k = Some unit ∧ format_file_size n = fixed1 tenths ++ 32 :: unit ∧
    2 * Z.abs (tenths * 1024 ^ Z.of_nat k - 10 * float_of n) ≤ 1024 ^ Z.of_nat k ∧
    2 ^ 53 * Z.abs (float_of n - n) ≤ n ∧ (n < 2 ^ 53 → float_of n = n) ∧
    ((k < 4)%nat → float_of n < 1024 ^ (Z.of_nat k + 1)) ∧ ((0 < k)%nat → 1024 ^ Z.of_nat k ≤ float_of n).
Proof.
  intros Hn. destruct (format_loop_spec [py "B"; py "KB"; py "MB"; py "GB"] (float_of n) 1)
    as (k & tenths & unit & Hk & Hu & Hf & -> & Hlt & Hle); [lia|]. rewrite Z.mul_1_l in *.
  eexists k, _, unit. split_and!; [exact Hu|exact Hf| | | |exact Hlt|exact Hle].
  - apply round_half_even_error. apply Z.pow_pos_nonneg; lia.
  - by apply float_of_error.
  - intros Hb. apply float_of_exact. lia.
Qed.

(** Below a kilobyte the number is exact. *)
Lemma format_bytes n : 0 ≤ n < 1024 → format_file_size n = dump_int n ++ py ".0 B".
Proof.
  intros Hn. unfold format_file_size. rewrite float_of_exact by lia. cbn [format_loop].
  rewrite (proj2 (Z.ltb_lt n (1024 * 1))) by lia. rewrite <-(Z.mul_1_r (10 * n)), round_exact by lia.
  unfold fixed1. rewrite (Z.mul_comm 10 n), Z.div_mul, Z.mod_mul by lia. by rewrite <-app_assoc.
Qed.

(** The unit is chosen before rounding: the last sizes below a megabyte are shown as 1024 kilobytes. *)
Lemma format_before_rounding :
  format_file_size (1024 ^ 2 - 1) = py "1024.0 KB" ∧ format_file_size (1024 ^ 2) = py "1.0 MB" ∧
  format_file_size (2 ^ 53 + 1) = format_file_size (2 ^ 53).
Proof. vm_compute. auto. Qed.
