(* ===== verification/Sweep.v ===== *)
(** The sweep of expired files while requests are served: [file_ttl_sweep_once] of
    [src/relay/app/services/file_ttl_sweep.py] as a coroutine, cut at its awaits.

    The records that are due are read in one step; then, for each of them, the file is removed in
    one step and the record in another.  In between the requests of the drop box run, which change
    the file system and the table. *)

From stdpp Require Import strings.
From S2P Require Import Prelude Json Files Async.
From S2P Require Import FilesProps Storage StorageProps.

Local Open Scope Z_scope.

(** ** Rely: what a coroutine ends with, when others do no more than [R] *)

Section rely.
Context {S E : Type} (R : S → S → Prop).

Fixpoint ends {A} (Q : E + A → S → Prop) (c : co S E A) (s : S) : Prop :=
  match c with
  | Done r => ∀ s', rtc R s s' → Q r s'
  | Await f => ∀ s', rtc R s s' → let '(s'', c') := f s' in ends Q c' s''
  end.

Lemma ends_env {A} (Q : E + A → S → Prop) c s s' : ends Q c s → R s s' → ends Q c s'.
Proof. destruct c; intros Hc Hr s'' Hs''; apply Hc; by eapply rtc_l. Qed.

Lemma ends_bind {A B} (Q : E + B → S → Prop) (c : co S E A) (k : A → co S E B) s :
  ends (λ r s', match r with inl e => Q (inl e) s' | inr a => ends Q (k a) s' end) c s → ends Q (c ≫= k) s.
Proof.
  revert s. induction c as [[e|a]|f IH] using co_rect'; intros s Hc.
  - intros s' Hs'. by apply Hc.
  - apply (Hc s). done.
  - intros s' Hs'. specialize (Hc s' Hs'). specialize (IH s').
    change (Await f ≫= k) with (Await (λ s0, let '(s1, c') := f s0 in (s1, co_bind k c'))).
    cbn. destruct (f s') as [s1 c']. by apply IH.
Qed.

Lemma ends_atomic {A} (Q : E + A → S → Prop) (m : M S E A) s :
  (∀ s', rtc R s s' → ∀ s'', rtc R (m s').1 s'' → Q (m s').2 s'') → ends Q (atomic m) s.
Proof. intros H s' Hs'. specialize (H s' Hs'). by destruct (m s'). Qed.

(** It is what a run of the task among the others ends with. *)
Lemma ends_pool (Q : E + unit → S → Prop) c s s' r :
  ends Q c s → rtc (pool_step R) (s, [c]) (s', [Done r]) → Q r s'.
Proof.
  intros Hc Hrun. remember (s, [c]) as p eqn:Hp. remember (s', [Done r]) as p' eqn:Hp'.
  revert s c Hc Hp. induction Hrun as [p|p q p' Hstep _ IH]; intros s c Hc ->; [simplify_eq; by apply Hc|].
  inversion Hstep as [s0 cs0 i c0 s1 c1 Hi Hres|s0 s1 cs0 He]; simplify_eq.
  - destruct i as [|i]; [|done]. injection Hi as <-. eapply IH; [done| |done].
    destruct c as [r0|f]; cbn in Hres; [by simplify_eq|]. specialize (Hc s ltac:(done)). by rewrite Hres in Hc.
  - eapply IH; [done|by eapply ends_env|done].
Qed.

End rely.

(** ** The sweep *)

Abbreviation sweep_task := (co ttl_state Empty_set).

(** Up to the await of [delete_record]. *)
Definition remove_expired (data_dir : path) (dropbox_code mount_code file_path : pystr) (deleted : list pystr)
    : M ttl_state Empty_set (list pystr) := λ st,
  let full := full_path data_dir file_path in
  if bool_decide (mount_code = dropbox_code) && exists_ (ts_fs st) full then
    match os_remove (ts_fs st) full with
    | Some t => ({| ts_fs := t; ts_ttl := ts_ttl st |}, inr (deleted ++ [file_path]))
    | None => (st, inr deleted)
    end
  else (st, inr deleted).

Definition drop_record (mount_code file_path : pystr) : M ttl_state Empty_set unit := λ st,
  ({| ts_fs := ts_fs st; ts_ttl := delete_record mount_code file_path (ts_ttl st) |}, inr tt).

Fixpoint sweep_items (data_dir : path) (dropbox_code : pystr) (expired : list (pystr * pystr * time))
    (deleted : list pystr) : sweep_task (list pystr) :=
  match expired with
  | [] => mret deleted
  | (mount_code, file_path, _) :: expired' =>
      deleted' ← atomic (remove_expired data_dir dropbox_code mount_code file_path deleted);
      _ ← atomic (drop_record mount_code file_path);
      sweep_items data_dir dropbox_code expired' deleted'
  end.

Definition sweep (now : time) (data_dir : path) (dropbox_code : pystr) : sweep_task (list pystr) :=
  expired ← atomic (gets (λ st, get_expired now (ts_ttl st)));
  sweep_items data_dir dropbox_code expired [].

(** Alone it is the sweep of [Storage]. *)
Theorem sweep_alone now data_dir code st :
  exec (sweep now data_dir code) st
  = (let '(st', deleted) := file_ttl_sweep_once now data_dir code st in (st', inr deleted)).
Proof.
  unfold sweep, file_ttl_sweep_once. rewrite exec_bind, exec_atomic. unfold gets.
  generalize (get_expired now (ts_ttl st)) as recs. intros recs. generalize (@nil pystr) as deleted.
  revert st. induction recs as [|[[m p] e] recs IH]; intros st deleted; [done|].
  cbn [sweep_items sweep_each]. rewrite exec_bind, exec_atomic. unfold remove_expired.
  destruct (bool_decide (m = code) && exists_ (ts_fs st) (full_path data_dir p));
    [destruct (os_remove (ts_fs st) (full_path data_dir p))|];
    cbn beta iota; rewrite exec_bind, exec_atomic; unfold drop_record; cbn beta iota; apply IH.
Qed.

(** ** Among requests *)

Section traffic.
Context (data_dir : path) (code : pystr).
Implicit Types (recs : list (pystr * pystr * time)) (st : ttl_state).

Definition box_ok st : Prop := share_ok (dropbox_dir data_dir) (ts_fs st).

Definition no_file st (rec : pystr * pystr * time) : Prop :=
  rec.1.1 = code → ∀ c, ts_fs st !! full_path data_dir rec.1.2 ≠ Some (FFile c).

Definition no_record st (rec : pystr * pystr * time) : Prop := ft_rows (ts_ttl st) !! rec.1 = None.

(** What a step of the sweep may change, for the records [recs] it has read. *)
Definition removes_only recs st st' : Prop :=
  box_ok st' ∧
  (∀ k, ts_fs st' !! k = ts_fs st !! k ∨ (due data_dir code recs k ∧ ts_fs st' !! k = None)) ∧
  (∀ mp, ft_rows (ts_ttl st') !! mp = ft_rows (ts_ttl st) !! mp ∨
         (mp ∈ recs.*1 ∧ ft_rows (ts_ttl st') !! mp = None)).

Lemma remove_expired_spec m p e deleted st :
  box_ok st → records_plain code [(m, p, e)] →
  let st' := (remove_expired data_dir code m p deleted st).1 in
  removes_only [(m, p, e)] st st' ∧ no_file st' (m, p, e) ∧ ts_ttl st' = ts_ttl st ∧
  ∃ d, (remove_expired data_dir code m p deleted st).2 = inr d.
Proof.
  intros Hok Hr. cbv zeta. destruct (sweep_file data_dir code (ts_fs st) m p e Hok Hr) as ([_ Hk] & Hsw & _).
  set (t' := if bool_decide (m = code) && exists_ (ts_fs st) (full_path data_dir p)
             then default (ts_fs st) (os_remove (ts_fs st) (full_path data_dir p)) else ts_fs st) in *.
  assert (ts_fs (remove_expired data_dir code m p deleted st).1 = t' ∧
          ts_ttl (remove_expired data_dir code m p deleted st).1 = ts_ttl st ∧
          ∃ d, (remove_expired data_dir code m p deleted st).2 = inr d) as (Hf & Ht & Hd).
  { unfold remove_expired, t'. destruct (bool_decide (m = code) && _); [|by eauto].
    destruct (os_remove (ts_fs st) _); by eauto. }
  split; [split; [|split]|split; [|done]].
  - unfold box_ok. by rewrite Hf.
  - intros k. rewrite Hf, Hsw. unfold swept. destruct (ts_fs st !! k) as [[c| |]|]; try by left.
    case_decide; [by right|by left].
  - intros mp. left. by rewrite Ht.
  - intros Hm c. rewrite Hf, Hsw. unfold swept. cbn in Hm |- *.
    destruct (ts_fs st !! full_path data_dir p) as [[c'| |]|]; try done. case_decide as Hno; [done|].
    exfalso. apply Hno. unfold due. rewrite Exists_cons. by left.
Qed.

Lemma drop_record_spec m p e st :
  box_ok st → let st' := (drop_record m p st).1 in
  removes_only [(m, p, e)] st st' ∧ no_record st' (m, p, e) ∧ ts_fs st' = ts_fs st.
Proof.
  intros Hok. cbv zeta. unfold drop_record. cbn [fst].
  split; [split; [done|split; [by left|]]|split; [by apply lookup_delete_eq|done]].
  intros mp. cbn. destruct (decide (mp = (m, p))) as [->|Hne].
  - right. split; [by left|apply lookup_delete_eq].
  - left. by rewrite lookup_delete_ne.
Qed.

Lemma removes_more recs recs' st st' : (∀ r, r ∈ recs → r ∈ recs') → removes_only recs st st' → removes_only recs' st st'.
Proof.
  intros Hsub (Hok & Hf & Hr). split_and!; [done| |].
  - intros k. destruct (Hf k) as [|[Hd ?]]; [by left|right]. split; [|done]. unfold due in *.
    rewrite Exists_exists in *. naive_solver.
  - intros mp. destruct (Hr mp) as [|[(r & -> & Hin)%list_elem_of_fmap ?]]; [by left|right].
    split; [|done]. apply list_elem_of_fmap. eauto.
Qed.

(** Every step of the sweep, in whatever state of the drop box it is taken. *)
Lemma sweep_guarantee recs all deleted :
  records_plain code recs → (∀ r, r ∈ recs → r ∈ all) →
  guarantee box_ok (removes_only all) (sweep_items data_dir code recs deleted).
Proof.
  revert deleted. induction recs as [|[[m p] e] recs IH]; intros deleted Hr Hall; [done|].
  apply Forall_cons in Hr as [Hr Hrs]. cbn [sweep_items].
  assert (∀ r, r ∈ [(m, p, e)] → r ∈ all) as Hone.
  { intros r ->%list_elem_of_singleton. apply Hall. by left. }
  apply guarantee_bind; [apply guarantee_atomic; intros st Hst|intros deleted'; apply guarantee_bind;
    [apply guarantee_atomic; intros st Hst|intros []; apply IH; [done|]]].
  - eapply removes_more; [exact Hone|]. apply (remove_expired_spec m p e); [done|].
    by apply Forall_cons_2; [|apply Forall_nil_2].
  - eapply removes_more; [exact Hone|]. by apply drop_record_spec.
  - intros r Hin. apply Hall. by right.
Qed.

(** *** What the sweep does not touch *)

Lemma guarantee_keeps {A} recs (c : sweep_task A) k mp v row :
  ¬ due data_dir code recs k → mp ∉ recs.*1 →
  guarantee box_ok (removes_only recs) c →
  let spared := λ st, box_ok st ∧ ts_fs st !! k = v ∧ ft_rows (ts_ttl st) !! mp = row in
  guarantee spared (Async.keeps spared) c.
Proof.
  intros Hk Hmp. cbv zeta. induction c as [r|f IH] using co_rect'; [done|]. intros Hc st Hst.
  specialize (IH st). specialize (Hc st (proj1 Hst)). destruct (f st) as [st' c'].
  destruct Hc as [(Hok & Hf & Hr) Hc']. split; [|by apply IH]. intros (_ & Hv & Hrow). split; [done|].
  destruct (Hf k) as [->|[Hd _]]; [|by destruct Hk]. destruct (Hr mp) as [->|[Hd _]]; [done|by destruct Hmp].
Qed.

(** *** What it achieves *)

(** Requests that do not bring back what is being removed. *)
Record lets_go recs (env : ttl_state → ttl_state → Prop) : Prop := {
  lg_box : ∀ st st', env st st' → box_ok st → box_ok st';
  lg_file : ∀ st st' rec, env st st' → rec ∈ recs → no_file st rec → no_file st' rec;
  lg_record : ∀ st st' rec, env st st' → rec ∈ recs → no_record st rec → no_record st' rec
}.

Lemma stable_rtc (env : ttl_state → ttl_state → Prop) (P : ttl_state → Prop) st st' :
  (∀ s s', env s s' → P s → P s') → rtc env st st' → P st → P st'.
Proof. intros Hp. induction 1; [done|]. intros. eauto. Qed.

Definition swept_out recs st : Prop := box_ok st ∧ Forall (λ rec, no_file st rec ∧ no_record st rec) recs.

Lemma swept_out_rtc all recs env st st' :
  lets_go all env → (∀ r, r ∈ recs → r ∈ all) → rtc env st st' → swept_out recs st → swept_out recs st'.
Proof.
  intros Hl Hall Hrtc. apply stable_rtc with (env := env); [|done]. intros s s' He [Hok Hf].
  split; [by eapply lg_box|]. apply Forall_forall. intros r Hr. rewrite Forall_forall in Hf. destruct (Hf r Hr).
  split; [eapply lg_file|eapply lg_record]; eauto.
Qed.

Lemma removes_keeps_out all recs st st' : removes_only all st st' → swept_out recs st → swept_out recs st'.
Proof.
  intros (Hok & Hf & Hr) [_ Ho]. split; [done|]. eapply Forall_impl; [exact Ho|]. intros rec [H1 H2]. split.
  - intros Hm c. destruct (Hf (full_path data_dir rec.1.2)) as [->|[_ ->]]; [by apply H1|done].
  - unfold no_record. destruct (Hr rec.1) as [->|[_ ->]]; done.
Qed.

Lemma sweep_ends all env recs ds deleted st :
  lets_go all env → records_plain code recs → (∀ r, r ∈ ds ++ recs → r ∈ all) → swept_out ds st →
  ends env (λ _ st', swept_out (ds ++ recs) st') (sweep_items data_dir code recs deleted) st.
Proof.
  intros Hl. revert ds deleted st. induction recs as [|[[m p] e] recs IH]; intros ds deleted st Hr Hall Hds.
  { intros st' Hst'. rewrite app_nil_r in *. by eapply swept_out_rtc. }
  apply Forall_cons in Hr as [Hr Hrs]. cbn [sweep_items].
  assert (∀ r, r ∈ ds → r ∈ all) as Hd by (intros; apply Hall, elem_of_app; by left).
  assert ((m, p, e) ∈ all) as Hin by (apply Hall, elem_of_app; right; by left).
  apply ends_bind, ends_atomic. intros st1 H1 st2 H2.
  pose proof (swept_out_rtc _ _ _ _ _ Hl Hd H1 Hds) as Hds1.
  destruct (remove_expired_spec m p e deleted st1 (proj1 Hds1)) as (Hrem & Hno & _ & d & ->).
  { by apply Forall_cons_2; [|apply Forall_nil_2]. }
  apply (removes_keeps_out _ ds) in Hrem; [|done].
  apply (swept_out_rtc all ds env) in H2 as Hds2; [|done..].
  assert (no_file st2 (m, p, e)) as Hno2.
  { eapply (stable_rtc env (λ s, no_file s (m, p, e))); [|done..]. intros. by eapply lg_file. }
  apply ends_bind, ends_atomic. intros st3 H3 st4 H4.
  pose proof (swept_out_rtc _ _ _ _ _ Hl Hd H3 Hds2) as Hds3.
  assert (no_file st3 (m, p, e)) as Hno3.
  { eapply (stable_rtc env (λ s, no_file s (m, p, e))); [|done..]. intros. by eapply lg_file. }
  destruct (drop_record_spec m p e st3 (proj1 Hds3)) as (Hrem3 & Hrec & Hfs).
  cbn [drop_record snd]. 
  replace (ds ++ (m, p, e) :: recs) with ((ds ++ [(m, p, e)]) ++ recs) by by rewrite <-(assoc_L (++)).
  apply IH; [done| |].
  - intros r Hrin. apply Hall. by rewrite <-(assoc_L (++)) in Hrin.
  - apply (swept_out_rtc all (ds ++ [(m, p, e)]) env _ st4 Hl) in H4; [done| |].
    + intros r Hrin. apply elem_of_app in Hrin as [?|Hrin]; [by apply Hd|]. by apply list_elem_of_singleton in Hrin as ->.
    + destruct (removes_keeps_out _ ds _ _ Hrem3 Hds3) as [Hok Hf]. split; [done|].
      apply Forall_app. split; [done|]. apply Forall_singleton. split; [|done]. intros Hm c. rewrite Hfs. by apply Hno3.
Qed.

(** ** The sweep among the requests of the drop box *)

Lemma task_ends {A} env (Q : ttl_state → Prop) (c : sweep_task A) st :
  (∀ s s', env s s' → Q s → Q s') → ends env (λ _ s', Q s') c st → ends env (λ _ s', Q s') (task c) st.
Proof.
  intros Hq Hc. apply ends_bind. revert st Hc. induction c as [[[]|a]|f IH] using co_rect'; intros st Hc.
  - intros st' Hst' st'' Hst''. apply (stable_rtc env Q st' st'' Hq Hst''). by apply Hc.
  - intros st' Hst'. specialize (Hc st' Hst'). specialize (IH st'). destruct (f st') as [st1 c1]. by apply IH.
Qed.

(** C21: A sweep that has read the records that are due, while requests change the drop box as they
    like.  It never touches a path, nor a record of a path, that was not among them, whatever else
    changes; and when it ends, every path that was due is without file and record, provided that
    the requests do not put something there again.  The records name files by plain
    paths.  (What a request puts at such a path meanwhile is lost, see [sweep_race].) *)
Theorem sweep_among_requests now st :
  let recs := get_expired now (ts_ttl st) in
  box_ok st → records_plain code recs →
  let '(st1, c) := resume (sweep now data_dir code) st in
  st1 = st ∧
  (∀ env k mp v row st' cs',
     let spared := λ s, box_ok s ∧ ts_fs s !! k = v ∧ ft_rows (ts_ttl s) !! mp = row in
     ¬ due data_dir code recs k → mp ∉ recs.*1 → (∀ s s', env s s' → spared s → spared s') → spared st →
     rtc (pool_step env) (st, [task c]) (st', cs') → spared st') ∧
  (∀ env st' r, lets_go recs env → rtc (pool_step env) (st, [task c]) (st', [Done r]) → swept_out recs st').
Proof.
  cbv zeta. intros Hok Hr. set (recs := get_expired now (ts_ttl st)) in *.
  change (resume (sweep now data_dir code) st) with (st, sweep_items data_dir code recs []). split; [done|]. split.
  - intros env k mp v row st' cs' Hk Hmp Henv Hst Hrun.
    refine (proj1 (pool_invariant env (λ s, box_ok s ∧ ts_fs s !! k = v ∧ ft_rows (ts_ttl s) !! mp = row) st st' _ cs'
              Henv Hst _ Hrun)).
    apply Forall_singleton, guarantee_task, (guarantee_keeps recs); [done|done|]. by apply sweep_guarantee.
  - intros env st' r Hl Hrun. eapply (ends_pool env (λ _ s', swept_out recs s')); [|exact Hrun]. apply task_ends.
    + intros s s' He Hs. eapply (swept_out_rtc recs recs env); [done|auto|by apply rtc_once|done].
    + by apply (sweep_ends recs env recs []).
Qed.

End traffic.

(** ** The race *)

(** An upload that replaces a file and records its new life time, as a task. *)
Definition overwrite_task (now : time) (data_dir : path) (code name : pystr) (content : bytes) (ttl : Z)
    : sweep_task unit :=
  _ ← atomic (λ st, ({| ts_fs := (upload_file (dropbox_dir data_dir) [] name content (Some OVERWRITE) (ts_fs st)).1;
                        ts_ttl := ts_ttl st |}, inr tt));
  atomic (λ st, ({| ts_fs := ts_fs st; ts_ttl := record_file_ttl now code name ttl (ts_ttl st) |}, inr tt)).

(** A file is replaced, for an hour, after the sweep has read that the old one is due: the sweep removes
    the new file and its record. *)
Theorem sweep_race :
  let st := {| ts_fs := relay_tree; ts_ttl := relay_ttl |} in
  let '(st', cs) := run_schedule [0; 1; 1; 0; 0]%nat st
    [task (sweep 10 relay_data (py "c")); overwrite_task 10 relay_data (py "c") (py "a") [Byte.x07] 3600] in
  cs !! 1%nat = Some (Done (inr tt)) ∧
  ts_fs st' !! (relay_data ++ [py "dropbox"; py "a"]) = None ∧ ft_rows (ts_ttl st') !! (py "c", py "a") = None.
Proof. vm_compute. auto. Qed.

(** *** Witness *)

(** Requests that store new files. *)
Definition stored (st : ttl_state) (name : pystr) (content : bytes) : ttl_state :=
  {| ts_fs := <[dropbox_dir relay_data ++ [name] := FFile content]> (ts_fs st);
     ts_ttl := record_file_ttl 10 (py "c") name 3600 (ts_ttl st) |}.

Inductive stores : ttl_state → ttl_state → Prop :=
| stores_new st name content :
    plain_name name → name ≠ py "a" → ts_fs st !! (dropbox_dir relay_data ++ [name]) = None →
    stores st (stored st name content).

Definition old_a : list (pystr * pystr * time) := [(py "c", py "a", 5)].

Lemma old_a_due : get_expired 10 relay_ttl = old_a.
Proof. vm_compute. reflexivity. Qed.

Lemma stores_box st st' : stores st st' → box_ok relay_data st → box_ok relay_data st'.
Proof.
  intros [st0 name content Hn _ Hno] Hok. unfold box_ok, stored. cbn.
  destruct (share_insert (dropbox_dir relay_data) (ts_fs st0) (dropbox_dir relay_data) name (FFile content) Hok)
    as [_ ?]; [done|apply (share_dir _ _ Hok)|by rewrite Hno|done|done].
Qed.

Lemma stores_lets_go : lets_go relay_data (py "c") old_a stores.
Proof.
  split; [apply stores_box|..]; intros st st' rec [st0 name content Hn Hne Hno] ->%list_elem_of_singleton Hrec.
  - intros _ c. cbn. rewrite lookup_insert_ne; [by apply Hrec|]. intros E.
    by apply (app_inj_tail (dropbox_dir relay_data) (dropbox_dir relay_data) name (py "a")) in E as [_ ?].
  - unfold no_record, stored, record_file_ttl in *. cbn in *. rewrite lookup_insert_ne; [done|congruence].
Qed.

(** The sweep removes [a]; a request stores [n]; the sweep goes on.  [b] is as it was. *)
Lemma sweep_among_requests_witness :
  let '(st1, c1) := resume (task (sweep_items relay_data (py "c") old_a [])) {| ts_fs := relay_tree; ts_ttl := relay_ttl |} in
  let st' := (exec c1 (stored st1 (py "n") [Byte.x09])).1 in
  swept_out relay_data (py "c") old_a st' ∧
  ts_fs st' !! (dropbox_dir relay_data ++ [py "b"]) = Some (FFile [Byte.x02]) ∧
  ft_rows (ts_ttl st') !! (py "c", py "b") = Some (50, 0).
Proof.
  assert (records_plain (py "c") (get_expired 10 relay_ttl)) as Hr.
  { apply Forall_forall. intros [[m p] e] (made & Hl & _)%elem_of_expired. cbn. intros ->. by eapply relay_ttl_plain. }
  destruct (sweep_among_requests relay_data (py "c") 10 {| ts_fs := relay_tree; ts_ttl := relay_ttl |} dropbox_share Hr)
    as (_ & Hspare & Hout).
  change (get_expired 10 (ts_ttl {| ts_fs := relay_tree; ts_ttl := relay_ttl |})) with (get_expired 10 relay_ttl) in *.
  rewrite old_a_due in *.
  destruct (resume (task (sweep_items relay_data (py "c") old_a [])) {| ts_fs := relay_tree; ts_ttl := relay_ttl |})
    as [st1 c1] eqn:E1. cbv zeta.
  assert (stores st1 (stored st1 (py "n") [Byte.x09])) as Hst.
  { apply (stores_new st1); [apply (bool_decide_unpack _); vm_compute; exact I|vm_compute; discriminate|].
    change st1 with ((st1, c1).1). rewrite <-E1. vm_compute. reflexivity. }
  assert (rtc (pool_step stores) ({| ts_fs := relay_tree; ts_ttl := relay_ttl |}, [task (sweep_items relay_data (py "c") old_a [])])
    ((exec c1 (stored st1 (py "n") [Byte.x09])).1, [Done (exec c1 (stored st1 (py "n") [Byte.x09])).2])) as Hrun.
  { eapply rtc_l; [exact (step_task stores _ [_] 0 _ st1 c1 eq_refl E1)|]. eapply rtc_l; [apply step_env, Hst|].
    apply exec_steps. }
  split; [exact (Hout stores _ _ stores_lets_go Hrun)|].
  refine (proj2 (Hspare stores (dropbox_dir relay_data ++ [py "b"]) (py "c", py "b") (Some (FFile [Byte.x02])) (Some (50, 0))
    _ _ _ _ _ _ Hrun)).
  - intros Hd. apply Exists_cons in Hd as [[_ Hd]|Hd]; [vm_compute in Hd; discriminate Hd|by apply Exists_nil in Hd].
  - intros Hin. apply list_elem_of_singleton in Hin. vm_compute in Hin. discriminate Hin.
  - intros s s' Hs (Hok & Hf & Hrow). split; [by eapply stores_box|]. destruct Hs as [s name content _ _ Hno].
    assert (name ≠ py "b") as Hne. { intros ->. rewrite Hf in Hno. discriminate Hno. }
    unfold stored, record_file_ttl. cbn [ts_fs ts_ttl ft_rows]. rewrite lookup_insert_ne.
    + split; [exact Hf|]. rewrite lookup_insert_ne; [exact Hrow|]. intros [= E]. by apply Hne.
    + intros E. by apply (app_inj_tail (dropbox_dir relay_data) (dropbox_dir relay_data) name (py "b")) in E as [_ ?].
  - split; [exact dropbox_share|]. split; vm_compute; reflexivity.
Defined.
